(** * Temporal state aggregator: a shallow embedding of [state.Aggregator]

    The development follows the aggregator source (package [state]):
    [NewAggregator], [getStateIndicesSalt], [buildFiles], [Prune],
    [PruneSmallBatches], [PruneSmallBatchesDb], [SqueezeCommitmentFiles],
    [mergeFiles], [IndexRange], [DomainGetAsOf] and [AggregatorRoTx.Close];
    then the functions around them: the other reads of a view, the steps
    and their txNum ranges, [MergeLoop], [BuildFilesInBackground],
    [AggregatorPruneStat], [BackgroundResult], [MakeSteps] and the reads
    of an [AggregatorStep], and the byte-level helpers [u64tob],
    [keybytesToHex] and [getBlockTotal].

    Conventions
    - a [uint64] is a [Z] together with its wrap-around modulo [2^64];
    - a Go byte slice that may be [nil] is an [option bytes], [None] being [nil];
    - a Go [(T, error)] result is a pair whose second component is an
      [option error], [None] being the [nil] error;
    - a call that may panic returns an [outcome];
    - components that live in other packages (domains, inverted indices,
      the file system, the compressor) are records of functions or
      Section variables;
    - goroutines are interleaved by a step relation, or run in an
      arbitrary order where they do not synchronise with each other. *)

From Stdlib Require Import ZArith Lia.
From Stdlib.Strings Require Import Ascii Byte.
From stdpp Require Import gmap strings list pretty functions sorting.

Local Open Scope Z_scope.

(** ** Machine integers and Go values *)

Module U64.
Definition modulus : Z := 2 ^ 64.
Definition MaxUint64 : Z := 2 ^ 64 - 1.
Definition wrap (x : Z) : Z := x mod modulus.
Definition add (x y : Z) : Z := wrap (x + y).
Definition sub (x y : Z) : Z := wrap (x - y).
Definition mul (x y : Z) : Z := wrap (x * y).
Definition div (x y : Z) : Z := x / y.
Definition in_range (x : Z) : Prop := 0 <= x < modulus.
End U64.

Definition bytes : Type := list byte.
#[global] Instance byte_eq_decision : EqDecision byte := Byte.byte_eq_dec.
Definition error : Type := string.

(** The result of a call that either returns or panics. *)
Inductive outcome (A : Type) : Type :=
| Returns (a : A)
| Panics (msg : string).
Arguments Returns {A} a.
Arguments Panics {A} msg.

(** State passing: a computation over a state [S] returning an [A]. *)
Definition State (S A : Type) : Type := S -> A * S.
Definition ret {S A} (a : A) : State S A := fun s => (a, s).
Definition bind {S A B} (m : State S A) (k : A -> State S B) : State S B :=
  fun s => let '(a, s') := m s in k a s'.

Notation "'do' x <- m ; k" := (bind m (fun x => k))
  (at level 10, x name, m at level 100, k at level 200).

(** ** The [kv] enumerations used by the aggregator *)

Module Kv.
(** [kv.Domain]; the aggregator owns exactly these four
    ([NewAggregator] fills [a.d] with them). *)
Inductive Domain : Type :=
| AccountsDomain
| StorageDomain
| CodeDomain
| CommitmentDomain.

#[global] Instance Domain_eq_dec : EqDecision Domain.
Proof. solve_decision. Defined.

(** Modelled from the spec: the numeric order of the [kv.Domain]
    constants is declared outside this source file; the spec lists the
    domains as Accounts, Storage, Code, Commitment, and [range a.d]
    visits them in that order. *)
Definition Domains : list Domain :=
  [AccountsDomain; StorageDomain; CodeDomain; CommitmentDomain].

(** [kv.InvertedIdxPos]: the standalone inverted indices. *)
Inductive InvertedIdxPos : Type :=
| LogAddrIdxPos
| LogTopicIdxPos
| TracesFromIdxPos
| TracesToIdxPos.

#[global] Instance InvertedIdxPos_eq_dec : EqDecision InvertedIdxPos.
Proof. solve_decision. Defined.

Definition StandaloneIdx : list InvertedIdxPos :=
  [LogAddrIdxPos; LogTopicIdxPos; TracesFromIdxPos; TracesToIdxPos].

(** [kv.InvertedIdx] is a string type; the named constants are the
    first eight constructors, any other string is [OtherIdx]. *)
Inductive InvertedIdx : Type :=
| AccountsHistoryIdx
| StorageHistoryIdx
| CodeHistoryIdx
| CommitmentHistoryIdx
| LogTopicIdx
| LogAddrIdx
| TracesFromIdx
| TracesToIdx
| OtherIdx (name : string).

(** [kv.History], likewise. *)
Inductive History : Type :=
| AccountsHistory
| StorageHistory
| CodeHistory
| CommitmentHistory
| OtherHistory (name : string).
End Kv.

(** ** Reads through an [AggregatorRoTx]: [IndexRange], [HistorySeek],
       [DomainGetAsOf] *)

Module Read.
Import Kv.

Inductive By : Type := Asc | Desc.

Section Components.
(** [kv.Tx], the hot-store transaction handed through to the components. *)
Variable Tx : Type.

(** An [iter.U64] is a finite sequence of txNums; [None] is the nil
    interface value. *)
Definition U64iter : Type := option (list Z).

Record HistoryRoTx : Type := {
  IdxRange : bytes -> Z -> Z -> By -> Z -> Tx -> U64iter * option error;
  HistorySeek : bytes -> Z -> Tx -> option bytes * bool * option error
}.

Record DomainRoTx : Type := {
  ht : HistoryRoTx;
  GetAsOf : bytes -> Z -> Tx -> option bytes * option error
}.

Record InvertedIndexRoTx : Type := {
  ii_IdxRange : bytes -> Z -> Z -> By -> Z -> Tx -> U64iter * option error
}.

(** The arrays [ac.d] and [ac.iis] are indexed by the enumerations. *)
Record AggregatorRoTx : Type := {
  d : Domain -> DomainRoTx;
  iis : InvertedIdxPos -> InvertedIndexRoTx
}.

Definition IndexRange (ac : AggregatorRoTx) (name : InvertedIdx) (k : bytes)
    (fromTs toTs : Z) (asc : By) (limit : Z) (tx : Tx)
  : outcome (U64iter * option error) :=
  match name with
  | AccountsHistoryIdx =>
      Returns (IdxRange (ht (d ac AccountsDomain)) k fromTs toTs asc limit tx)
  | StorageHistoryIdx =>
      Returns (IdxRange (ht (d ac StorageDomain)) k fromTs toTs asc limit tx)
  | CodeHistoryIdx =>
      Returns (IdxRange (ht (d ac CodeDomain)) k fromTs toTs asc limit tx)
  | CommitmentHistoryIdx =>
      Returns (IdxRange (ht (d ac StorageDomain)) k fromTs toTs asc limit tx)
  | LogTopicIdx =>
      Returns (ii_IdxRange (iis ac LogTopicIdxPos) k fromTs toTs asc limit tx)
  | LogAddrIdx =>
      Returns (ii_IdxRange (iis ac LogAddrIdxPos) k fromTs toTs asc limit tx)
  | TracesFromIdx =>
      Returns (ii_IdxRange (iis ac TracesFromIdxPos) k fromTs toTs asc limit tx)
  | TracesToIdx =>
      Returns (ii_IdxRange (iis ac TracesToIdxPos) k fromTs toTs asc limit tx)
  | OtherIdx s =>
      Returns (None, Some ("unexpected history name: " +:+ s))
  end.

(** The sibling lookup, whose default branch panics. *)
Definition HistorySeek_agg (ac : AggregatorRoTx) (name : History) (key : bytes)
    (ts : Z) (tx : Tx) : outcome (option bytes * bool * option error) :=
  match name with
  | AccountsHistory =>
      let '(v, ok, err) := HistorySeek (ht (d ac AccountsDomain)) key ts tx in
      match err with
      | Some e => Returns (None, false, Some e)
      | None =>
          if negb ok || bool_decide (length (default [] v) = 0%nat)
          then Returns (v, ok, None)
          else Returns (v, true, None)
      end
  | StorageHistory => Returns (HistorySeek (ht (d ac StorageDomain)) key ts tx)
  | CodeHistory => Returns (HistorySeek (ht (d ac CodeDomain)) key ts tx)
  | CommitmentHistory => Returns (HistorySeek (ht (d ac CommitmentDomain)) key ts tx)
  | OtherHistory s => Panics ("unexpected: " +:+ s)
  end.

(** [v, err = ac.d[name].GetAsOf(key, ts, tx); return v, v != nil, err] *)
Definition DomainGetAsOf (ac : AggregatorRoTx) (tx : Tx) (name : Domain)
    (key : bytes) (ts : Z) : option bytes * bool * option error :=
  let '(v, err) := GetAsOf (d ac name) key ts tx in
  (v, bool_decide (v <> None), err).

(** The component that answers [IndexRange] for a recognised name. *)
Inductive component : Type :=
| DomainHistory (dom : Domain)
| Standalone (pos : InvertedIdxPos).

Definition own_component (name : InvertedIdx) : option component :=
  match name with
  | AccountsHistoryIdx => Some (DomainHistory AccountsDomain)
  | StorageHistoryIdx => Some (DomainHistory StorageDomain)
  | CodeHistoryIdx => Some (DomainHistory CodeDomain)
  | CommitmentHistoryIdx => Some (DomainHistory CommitmentDomain)
  | LogTopicIdx => Some (Standalone LogTopicIdxPos)
  | LogAddrIdx => Some (Standalone LogAddrIdxPos)
  | TracesFromIdx => Some (Standalone TracesFromIdxPos)
  | TracesToIdx => Some (Standalone TracesToIdxPos)
  | OtherIdx _ => None
  end.

Definition component_IdxRange (ac : AggregatorRoTx) (c : component) :=
  match c with
  | DomainHistory dom => IdxRange (ht (d ac dom))
  | Standalone pos => ii_IdxRange (iis ac pos)
  end.
End Components.

Arguments IdxRange {Tx} _ _ _ _ _ _ _.
Arguments HistorySeek {Tx} _ _ _ _.
Arguments ht {Tx} _.
Arguments GetAsOf {Tx} _ _ _ _.
Arguments ii_IdxRange {Tx} _ _ _ _ _ _ _.
Arguments d {Tx} _ _.
Arguments iis {Tx} _ _.
Arguments IndexRange {Tx} _ _ _ _ _ _ _ _.
Arguments HistorySeek_agg {Tx} _ _ _ _ _.
Arguments DomainGetAsOf {Tx} _ _ _ _ _.
Arguments component_IdxRange {Tx} _ _.
End Read.

(** ** Paths and formatting *)

Module Filepath.
(** [filepath.Join dir name] for a clean, non-empty [dir] and a plain
    file name: the two joined by the separator. *)
Definition Join (dir name : string) : string := dir +:+ "/" +:+ name.

(** The verb [%d] applied to a [uint64]. *)
Definition fmt_d (x : Z) : string := pretty (Z.to_N x).

(** The verb [%q] applied to a name that needs no escaping: the name
    between double quotes. *)
Definition fmt_q (s : string) : string :=
  String (ascii_of_nat 34) (s +:+ String (ascii_of_nat 34) EmptyString).
End Filepath.

(** ** The integrity check installed by [NewAggregator] *)

Module Integrity.
Import Kv Filepath.

(** What the closure captures: [dirs.SnapDomain], the [String] method of
    [kv.Domain] (used by the verb [%s]) and [dir.FileExist]. *)
Record Env : Type := {
  SnapDomain : string;
  Domain_String : Domain -> string;
  FileExist : string -> bool * option error
}.

Definition commitmentFilePath (E : Env) (fromStep toStep : Z) : string :=
  Join (SnapDomain E)
    ("v1-" +:+ Domain_String E CommitmentDomain +:+ "." +:+ fmt_d fromStep
       +:+ "-" +:+ fmt_d toStep +:+ ".kv").

Definition commitmentFileMustExist (E : Env) (fromStep toStep : Z) : outcome bool :=
  let fPath := commitmentFilePath E fromStep toStep in
  match FileExist E fPath with
  | (_, Some err) => Panics err
  | (exists_, None) => Returns exists_
  end.

Definition integrityCheck (E : Env) (name : Domain) (fromStep toStep : Z)
  : outcome bool :=
  match name with
  | AccountsDomain | StorageDomain | CodeDomain =>
      if 1 <? U64.sub toStep fromStep then Returns true
      else commitmentFileMustExist E fromStep toStep
  | _ => Returns true
  end.
End Integrity.

(** ** The file system seen by [getStateIndicesSalt] *)

Module Fs.
(** Every call is recorded with the error it returned. *)
Inductive call : Type :=
| CFileExist (path : string) (err : option error)
| CRename (oldpath newpath : string) (err : option error)
| CWriteFileWithFsync (path : string) (data : bytes) (err : option error)
| CReadFile (path : string) (err : option error).

(** [faults] scripts the environment: the n-th call fails with the n-th
    entry when that entry is an error; an exhausted script means no
    further fault. *)
Record world : Type := {
  files : gmap string bytes;
  faults : list (option error);
  calls : list call
}.

Definition M (A : Type) : Type := State world A.

Definition next_fault (w : world) : option error * list (option error) :=
  match faults w with
  | [] => (None, [])
  | f :: rest => (f, rest)
  end.

Definition ErrNotExist : error := "no such file or directory".

Definition FileExist (path : string) : M (bool * option error) := fun w =>
  let '(f, rest) := next_fault w in
  match f with
  | Some e =>
      ((false, Some e),
       {| files := files w; faults := rest;
          calls := calls w ++ [CFileExist path (Some e)] |})
  | None =>
      ((bool_decide (is_Some (files w !! path)), None),
       {| files := files w; faults := rest;
          calls := calls w ++ [CFileExist path None] |})
  end.

Definition Rename (oldpath newpath : string) : M (option error) := fun w =>
  let '(f, rest) := next_fault w in
  match f, files w !! oldpath with
  | Some e, _ =>
      (Some e,
       {| files := files w; faults := rest;
          calls := calls w ++ [CRename oldpath newpath (Some e)] |})
  | None, None =>
      (Some ErrNotExist,
       {| files := files w; faults := rest;
          calls := calls w ++ [CRename oldpath newpath (Some ErrNotExist)] |})
  | None, Some c =>
      (None,
       {| files := <[newpath := c]> (delete oldpath (files w)); faults := rest;
          calls := calls w ++ [CRename oldpath newpath None] |})
  end.

Definition WriteFileWithFsync (path : string) (data : bytes) : M (option error) :=
  fun w =>
  let '(f, rest) := next_fault w in
  match f with
  | Some e =>
      (Some e,
       {| files := files w; faults := rest;
          calls := calls w ++ [CWriteFileWithFsync path data (Some e)] |})
  | None =>
      (None,
       {| files := <[path := data]> (files w); faults := rest;
          calls := calls w ++ [CWriteFileWithFsync path data None] |})
  end.

Definition ReadFile (path : string) : M (bytes * option error) := fun w =>
  let '(f, rest) := next_fault w in
  match f, files w !! path with
  | Some e, _ =>
      (([], Some e),
       {| files := files w; faults := rest;
          calls := calls w ++ [CReadFile path (Some e)] |})
  | None, None =>
      (([], Some ErrNotExist),
       {| files := files w; faults := rest;
          calls := calls w ++ [CReadFile path (Some ErrNotExist)] |})
  | None, Some c =>
      ((c, None),
       {| files := files w; faults := rest;
          calls := calls w ++ [CReadFile path None] |})
  end.

Definition call_err (c : call) : option error :=
  match c with
  | CFileExist _ e | CRename _ _ e | CWriteFileWithFsync _ _ e | CReadFile _ e => e
  end.

Definition is_rename (c : call) : bool :=
  match c with CRename _ _ _ => true | _ => false end.
End Fs.

(** ** [encoding/binary.BigEndian] on 4 bytes *)

Module BigEndian.
Definition Z_of_byte (b : byte) : Z := Z.of_N (Byte.to_N b).
(** The conversion [byte(v)] of an unsigned integer keeps its low 8 bits. *)
Definition byte_of_Z (z : Z) : byte :=
  default x00 (Byte.of_N (Z.to_N (Z.land z 255))).

Definition Uint32 (b : bytes) : outcome Z :=
  match b with
  | b0 :: b1 :: b2 :: b3 :: _ =>
      Returns
        (Z.lor (Z.lor (Z.lor (Z_of_byte b3) (Z.shiftl (Z_of_byte b2) 8))
                  (Z.shiftl (Z_of_byte b1) 16))
           (Z.shiftl (Z_of_byte b0) 24))
  | _ => Panics "index out of range"
  end.

Definition PutUint32 (v : Z) : bytes :=
  [byte_of_Z (Z.shiftr v 24); byte_of_Z (Z.shiftr v 16);
   byte_of_Z (Z.shiftr v 8); byte_of_Z v].
End BigEndian.

(** ** [getStateIndicesSalt] and the head of [NewAggregator] *)

Module Salt.
Import Fs Filepath.

(** [rnd] is the value drawn by [rand2.Uint32()]. The result is the pair
    [(salt, err)] with [salt] a nil-able pointer. *)
Definition getStateIndicesSalt (rnd : Z) (baseDir : string)
  : M (outcome (option Z * option error)) :=
  do r1 <- FileExist (Join baseDir "salt.txt") ;
  let '(saltExists, err) := r1 in
  match err with
  | Some e => ret (Returns (None, Some e))
  | None =>
  do r2 <- FileExist (Join baseDir "salt-state.txt") ;
  let '(saltStateExists, err) := r2 in
  match err with
  | Some e => ret (Returns (None, Some e))
  | None =>
  do _ <- (if saltExists && negb saltStateExists
        then Rename (Join baseDir "salt.txt") (Join baseDir "salt-state.txt")
        else ret None) ;
  let fpath := Join baseDir "salt-state.txt" in
  do r3 <- FileExist fpath ;
  let '(fexists, err) := r3 in
  match err with
  | Some e => ret (Returns (None, Some e))
  | None =>
  do werr <- (if negb fexists
           then WriteFileWithFsync fpath (BigEndian.PutUint32 rnd)
           else ret None) ;
  match werr with
  | Some e => ret (Returns (None, Some e))
  | None =>
  do r4 <- ReadFile fpath ;
  let '(saltBytes, err) := r4 in
  match err with
  | Some e => ret (Returns (None, Some e))
  | None =>
      match BigEndian.Uint32 saltBytes with
      | Panics msg => ret (Panics msg)
      | Returns saltV => ret (Returns (Some saltV, None))
      end
  end end end end end.

(** [NewAggregator]: the salt is read first; everything after it
    (contexts, domains, indices) is the continuation [construct]. *)
Definition NewAggregator {Aggregator : Type}
    (construct : option Z -> M (outcome (option Aggregator * option error)))
    (rnd : Z) (dirs_Snap : string)
  : M (outcome (option Aggregator * option error)) :=
  do r <- getStateIndicesSalt rnd dirs_Snap ;
  match r with
  | Panics msg => ret (Panics msg)
  | Returns (salt, Some err) => ret (Returns (None, Some err))
  | Returns (salt, None) => construct salt
  end.
End Salt.

(** ** Decimal digits, for reasoning about formatted step numbers *)

Module Digits.
Definition is_digit (c : ascii) : bool :=
  bool_decide (c ∈ ["0"; "1"; "2"; "3"; "4"; "5"; "6"; "7"; "8"; "9"]%char).

Fixpoint all_digits (s : string) : bool :=
  match s with
  | EmptyString => true
  | String c s' => is_digit c && all_digits s'
  end.
End Digits.

(** Vocabulary for statements about runs of the file-system model. *)

Module FsRun.
Import Fs.

(** The environment injects no fault from [w] on. *)
Definition no_faults (w : world) : Prop :=
  Forall (fun f : option error => f = None) (faults w).

Definition legacy_path (baseDir : string) : string :=
  Filepath.Join baseDir "salt.txt".
Definition salt_path (baseDir : string) : string :=
  Filepath.Join baseDir "salt-state.txt".
End FsRun.

(** ** [AggregatorRoTx.Close] *)

Module Handles.
(** Component read handles ([*DomainRoTx], [*InvertedIndexRoTx],
    [*AppendableRoTx]) are named by numbers; [None] is a nil pointer. *)
Definition handle : Type := nat.

Record AggregatorRoTx : Type := {
  a : option nat;                      (* *Aggregator, nil once closed *)
  d : list (option handle);            (* [kv.DomainLen]*DomainRoTx *)
  iis : list (option handle);          (* [kv.StandaloneIdxLen]*InvertedIndexRoTx *)
  appendable : list (option handle);   (* [kv.AppendableLen]*AppendableRoTx *)
  id : Z;
  _leakID : Z
}.

(** The objects behind [*AggregatorRoTx] pointers. *)
Abbreviation loc := nat.
Abbreviation heap := (nat -> AggregatorRoTx).

(** The calls [Close] makes on other objects. *)
Inductive event : Type :=
| LeakDetectorDel (leakID : Z)
| DomainClose (h : handle)
| IndexClose (h : option handle)
| AppendableClose (h : option handle).

Definition set_a_nil (o : AggregatorRoTx) : AggregatorRoTx :=
  {| a := None; d := d o; iis := iis o; appendable := appendable o;
     id := id o; _leakID := _leakID o |}.

(** [ac] is the receiver, a nil-able pointer. *)
Definition Close (ac : option loc) : State heap (list event) := fun h =>
  match ac with
  | None => ([], h)
  | Some l =>
      match a (h l) with
      | None => ([], h)
      | Some _ =>
          (LeakDetectorDel (_leakID (h l))
             :: (DomainClose <$> omap (fun x => x) (d (h l)))
             ++ (IndexClose <$> iis (h l))
             ++ (AppendableClose <$> appendable (h l)),
           <[l := set_a_nil (h l)]> h)
      end
  end.

(** [n] calls in a row through the same pointer; the events of each call. *)
Fixpoint Close_n (n : nat) (ac : option loc) : State heap (list (list event)) :=
  match n with
  | O => ret []
  | S n' => do t <- Close ac ; do ts <- Close_n n' ac ; ret (t :: ts)
  end.

Definition domain_closes (t : list event) : list handle :=
  omap (fun e => match e with DomainClose h => Some h | _ => None end) t.
Definition index_closes (t : list event) : list (option handle) :=
  omap (fun e => match e with IndexClose h => Some h | _ => None end) t.
Definition appendable_closes (t : list event) : list (option handle) :=
  omap (fun e => match e with AppendableClose h => Some h | _ => None end) t.
End Handles.

(** ** [PruneSmallBatches] and [PruneSmallBatchesDb] *)

Module Batches.
(** [time.Duration] counts nanoseconds. *)
Definition Second : Z := 1000000000.
Definition Minute : Z := 60 * Second.
Definition Hour : Z := 60 * Minute.
Definition logPeriod : Z := 30 * Second.

(** What [ac.Prune] returned: an error, a nil stat, or a stat together
    with its [PrunedNothing()]. *)
Inductive pruned : Type :=
| PruneErr (e : error)
| PruneNil
| PruneStat (prunedNothing : bool).

(** The case a [select] statement took. *)
Inductive selected : Type :=
| SelTimeout            (* <-localTimeout.C *)
| SelLog                (* <-logEvery.C *)
| SelDone (e : error)   (* <-ctx.Done(), with ctx.Err() *)
| SelDefault.

(** What one iteration of the loop observes. *)
Record iteration : Type := {
  prune : pruned;
  took : Z;                    (* time.Since(iterationStarted) *)
  sel : selected;              (* the select on the timeout and the context *)
  update_err : option error    (* an error of db.Update's own (Db variant) *)
}.

Definition furiousPrune (timeout : Z) : bool := 5 * Hour <? timeout.
Definition aggressivePrune (timeout : Z) : bool :=
  negb (furiousPrune timeout) && (1 * Minute <=? timeout).


(** [if aggressivePrune { if took < 2s { pruneLimit *= 10 };
                          if took > logPeriod { pruneLimit /= 10 } }] *)
Definition adjust (aggressive : bool) (pruneLimit took : Z) : Z :=
  if aggressive then
    let l1 := if took <? 2 * Second then U64.mul pruneLimit 10 else pruneLimit in
    if logPeriod <? took then U64.div l1 10 else l1
  else pruneLimit.

(** A run of the loop over the observations of its iterations: the
    limits handed to [ac.Prune], in order, and [(haveMore, err)] when the
    loop has returned ([None] while it is still running). *)
Definition run : Type := list Z * option (bool * option error).

Fixpoint loopSmallBatches (aggressive : bool) (pruneLimit : Z)
    (obs : list iteration) : run :=
  match obs with
  | [] => ([], None)
  | it :: rest =>
      match prune it with
      | PruneErr e => ([pruneLimit], Some (false, Some e))
      | PruneNil | PruneStat true => ([pruneLimit], Some (false, None))
      | PruneStat false =>
          let pruneLimit' := adjust aggressive pruneLimit (took it) in
          match sel it with
          | SelTimeout => ([pruneLimit], Some (true, None))
          | SelDone e => ([pruneLimit], Some (false, Some e))
          | SelLog | SelDefault =>
              let '(ls, r) := loopSmallBatches aggressive pruneLimit' rest in
              (pruneLimit :: ls, r)
          end
      end
  end.

Fixpoint loopSmallBatchesDb (aggressive : bool) (pruneLimit : Z)
    (obs : list iteration) : run :=
  match obs with
  | [] => ([], None)
  | it :: rest =>
      (* the body of db.Update: its error, goExit and the new limit *)
      let '(err, goExit, pruneLimit') :=
        match prune it with
        | PruneErr e => (Some e, false, pruneLimit)
        | PruneNil => (update_err it, true, pruneLimit)
        | PruneStat _ =>
            (update_err it, false, adjust aggressive pruneLimit (took it))
        end in
      match err with
      | Some e => ([pruneLimit], Some (false, Some e))
      | None =>
          match sel it with
          | SelTimeout => ([pruneLimit], Some (true, None))
          | SelDone e => ([pruneLimit], Some (false, Some e))
          | SelLog | SelDefault =>
              if goExit then ([pruneLimit], Some (false, None))
              else
                let '(ls, r) := loopSmallBatchesDb aggressive pruneLimit' rest in
                (pruneLimit :: ls, r)
          end
      end
  end.

(** [time.NewTicker(timeout)] panics on a non-positive duration. *)
Definition PruneSmallBatches (timeout : Z) (obs : list iteration) : outcome run :=
  let furious := furiousPrune timeout in
  let aggressive := aggressivePrune timeout in
  let pruneLimit := if furious then 1000000 else 1000 in
  if timeout <=? 0 then Panics "non-positive interval for NewTicker"
  else Returns (loopSmallBatches aggressive pruneLimit obs).

Definition PruneSmallBatchesDb (timeout : Z) (obs : list iteration) : outcome run :=
  let furious := furiousPrune timeout in
  let aggressive := aggressivePrune timeout in
  let pruneLimit := if furious then 1000000 else 1000 in
  if timeout <=? 0 then Panics "non-positive interval for NewTicker"
  else Returns (loopSmallBatchesDb aggressive pruneLimit obs).



End Batches.

(** ** [AggregatorRoTx.Prune] *)

Module Prune.
Import Kv.

(** The hot store as the prune sees it: rows tagged with the txNum they
    belong to. *)
Record Row : Type := { table : string; key : bytes; txNum : Z }.
Abbreviation HotStore := (list Row).

(** [*DomainPruneStat], [*InvertedIndexPruneStat], [*AppendablePruneStat]. *)
Definition Stat : Type := Z.

(** The read handles of the components, as far as pruning uses them. *)
Record DomainRoTx : Type := {
  d_filenameBase : string;
  files_EndTxNum : Z;                                   (* d.files.EndTxNum() *)
  CanPruneUntil : HotStore -> Z -> bool;
  d_Prune : Z -> Z -> Z -> Z -> State HotStore (option Stat * option error)
                                         (* step, txFrom, txTo, limit *)
}.

Record InvertedIndexRoTx : Type := {
  ii_filenameBase : string;
  CanPrune : HotStore -> bool;
  ii_Prune : Z -> Z -> Z -> State HotStore (option Stat * option error)
                                         (* txFrom, txTo, limit *)
}.

Record AppendableRoTx : Type := {
  ap_filenameBase : string;
  ap_Prune : Z -> Z -> Z -> State HotStore (option Stat * option error)
}.

(** The aggregator: its step size, the atomic [visibleFilesMinimaxTxNum],
    the handles [BeginFilesRo] would pin right now (the visible files),
    and the [NO_PRUNE] switch read by [dbg.NoPrune()]. *)
Record Aggregator : Type := {
  aggregationStep : Z;
  visibleFilesMinimaxTxNum : Z;
  a_d : Domain -> DomainRoTx;
  a_iis : InvertedIdxPos -> InvertedIndexRoTx;
  a_ap : list AppendableRoTx;
  NoPrune : bool
}.

Record AggregatorRoTx : Type := {
  d : Domain -> DomainRoTx;
  iis : InvertedIdxPos -> InvertedIndexRoTx;
  appendable : list AppendableRoTx
}.

Definition BeginFilesRo (a : Aggregator) : AggregatorRoTx :=
  {| d := a_d a; iis := a_iis a; appendable := a_ap a |}.

Definition minimaxTxNumInDomainFiles (ac : AggregatorRoTx) : Z :=
  Z.min (Z.min (Z.min (files_EndTxNum (d ac AccountsDomain))
                      (files_EndTxNum (d ac CodeDomain)))
               (files_EndTxNum (d ac StorageDomain)))
        (files_EndTxNum (d ac CommitmentDomain)).

(** [a.visibleFilesMinimaxTxNum.Store(aggTx.minimaxTxNumInDomainFiles())],
    run at the end of every [recalcVisibleFiles]. *)
Definition recalcVisibleFilesMinimaxTxNum (a : Aggregator) : Aggregator :=
  {| aggregationStep := aggregationStep a;
     visibleFilesMinimaxTxNum := minimaxTxNumInDomainFiles (BeginFilesRo a);
     a_d := a_d a; a_iis := a_iis a; a_ap := a_ap a; NoPrune := NoPrune a |}.

Definition CanPrune_agg (a : Aggregator) (ac : AggregatorRoTx) (tx : HotStore)
    (untilTx : Z) : bool :=
  if NoPrune a then false
  else existsb (fun id => CanPruneUntil (d ac id) tx untilTx) Domains
       || existsb (fun pos => CanPrune (iis ac pos) tx) StandaloneIdx.

Record AggregatorPruneStat : Type := {
  Domains_ : gmap string (option Stat);
  Indices : gmap string (option Stat);
  Appendable : gmap string (option Stat)
}.

Definition newAggregatorPruneStat : AggregatorPruneStat :=
  {| Domains_ := ∅; Indices := ∅; Appendable := ∅ |}.

(** The component prunes that were invoked, with their arguments. *)
Inductive call : Type :=
| DomainPrune (id : Domain) (step txFrom txTo limit : Z)
| IndexPrune (pos : InvertedIdxPos) (txFrom txTo limit : Z)
| AppendablePrune (i : nat) (txFrom txTo limit : Z).


(** The transaction [tx] and the log of calls. *)
Record pstate : Type := { store : HotStore; log : list call }.

Definition invoke {A} (c : call) (m : State HotStore A) : State pstate A :=
  fun s => let '(r, st) := m (store s) in
           (r, {| store := st; log := log s ++ [c] |}).

(** [for id, d := range ac.d { aggStat.Domains[base], err = d.Prune(...) }] *)
Fixpoint prune_domains (ac : AggregatorRoTx) (step txFrom txTo limit : Z)
    (ids : list Domain) (aggStat : AggregatorPruneStat)
  : State pstate (AggregatorPruneStat * option error) :=
  match ids with
  | [] => ret (aggStat, None)
  | id :: rest =>
      do r <- invoke (DomainPrune id step txFrom txTo limit)
                (d_Prune (d ac id) step txFrom txTo limit) ;
      let '(stat, err) := r in
      let aggStat' :=
        {| Domains_ := <[d_filenameBase (d ac id) := stat]> (Domains_ aggStat);
           Indices := Indices aggStat; Appendable := Appendable aggStat |} in
      match err with
      | Some e => ret (aggStat', Some e)
      | None => prune_domains ac step txFrom txTo limit rest aggStat'
      end
  end.

(** [for i := 0; i < StandaloneIdxLen; i++ { stat, err := ac.iis[i].Prune(...) }] *)
Fixpoint prune_indices (ac : AggregatorRoTx) (txFrom txTo limit : Z)
    (poss : list InvertedIdxPos)
  : State pstate (list (InvertedIdxPos * option Stat) * option error) :=
  match poss with
  | [] => ret ([], None)
  | pos :: rest =>
      do r <- invoke (IndexPrune pos txFrom txTo limit)
                (ii_Prune (iis ac pos) txFrom txTo limit) ;
      let '(stat, err) := r in
      match err with
      | Some e => ret ([], Some e)
      | None =>
          do rs <- prune_indices ac txFrom txTo limit rest ;
          let '(stats, err') := rs in
          ret ((pos, stat) :: stats, err')
      end
  end.

Fixpoint prune_appendables (txFrom txTo limit : Z) (i : nat)
    (aps : list AppendableRoTx) (aggStat : AggregatorPruneStat)
  : State pstate (AggregatorPruneStat * option error) :=
  match aps with
  | [] => ret (aggStat, None)
  | ap :: rest =>
      do r <- invoke (AppendablePrune i txFrom txTo limit)
                (ap_Prune ap txFrom txTo limit) ;
      let '(stat, err) := r in
      match err with
      | Some e => ret (aggStat, Some e)
      | None =>
          prune_appendables txFrom txTo limit (S i) rest
            {| Domains_ := Domains_ aggStat; Indices := Indices aggStat;
               Appendable := <[ap_filenameBase ap := stat]> (Appendable aggStat) |}
      end
  end.

(** [ac.Prune(ctx, tx, limit, logEvery)]; [a] is the aggregator behind
    [ac.a] as it is at the time of the call. The integer division panics
    on a zero step size. *)
Definition Prune (a : Aggregator) (ac : AggregatorRoTx) (limit : Z)
  : State pstate (outcome (option AggregatorPruneStat * option error)) :=
  let limit := if limit =? 0 then U64.MaxUint64 else limit in
  let txFrom := 0 in
  let txTo := visibleFilesMinimaxTxNum a in
  if (0 <? txTo) && (aggregationStep a =? 0)
  then ret (Panics "integer divide by zero")
  else
  let step := if 0 <? txTo then (txTo - 1) / aggregationStep a else 0 in
  fun s =>
  if (txFrom =? txTo) || negb (CanPrune_agg a ac (store s) txTo)
  then (Returns (None, None), s)
  else
    (do rd <- prune_domains ac step txFrom txTo limit Domains newAggregatorPruneStat ;
     let '(aggStat, err) := rd in
     match err with
     | Some e => ret (Returns (Some aggStat, Some e))
     | None =>
     do ri <- prune_indices ac txFrom txTo limit StandaloneIdx ;
     let '(stats, err) := ri in
     match err with
     | Some e => ret (Returns (None, Some e))
     | None =>
     let aggStat :=
       {| Domains_ := Domains_ aggStat;
          Indices := foldl (fun m ps => <[ii_filenameBase (iis ac ps.1) := ps.2]> m)
                           (Indices aggStat) stats;
          Appendable := Appendable aggStat |} in
     do ra <- prune_appendables txFrom txTo limit 0 (appendable ac) aggStat ;
     let '(aggStat, err) := ra in
     match err with
     | Some e => ret (Returns (None, Some e))
     | None => ret (Returns (Some aggStat, None))
     end end end) s.



(** The atomic is up to date with the visible files. *)
Definition minimax_fresh (a : Aggregator) : Prop :=
  visibleFilesMinimaxTxNum a = minimaxTxNumInDomainFiles (BeginFilesRo a).

End Prune.

(** ** [Aggregator.buildFiles] *)

Module Build.
Import Kv.

(** A [StaticFiles], [InvertedFiles] or [AppendableFiles] value is the
    list of the files it holds; the zero value holds none. *)
Abbreviation Files := (list string).
Definition Collation : Type := nat.

(** The components, as far as one build round uses them. Whether a
    collation or a build fails (context cancelled, codec or file-system
    error) is the environment's choice. *)
Record Domain_ : Type := {
  filenameBase : string;
  collate : Z -> Z -> Z -> Collation * option error;       (* step, txFrom, txTo *)
  buildFiles_d : Z -> Collation -> Files * option error    (* step, collation *)
}.

Record InvertedIndex : Type := {
  ii_filenameBase : string;
  indexKeysTable : string;
  ii_collate : Z -> Collation * option error;
  ii_buildFiles : Z -> Collation -> Files * option error
}.

Record Appendable : Type := {
  ap_filenameBase : string;
  ap_collate : Z -> Collation * option error;
  ap_buildFiles : Z -> Collation -> Files * option error
}.

Record Aggregator : Type := {
  aggregationStep : Z;
  collateAndBuildWorkers : Z;
  d : Domain -> Domain_;
  iis : InvertedIdxPos -> InvertedIndex;
  ap : list Appendable
}.

(** What [buildFiles] takes from package [kv]: [kv.String2Domain] and
    the four table-name constants of its [switch]. *)
Record KvNames : Type := {
  String2Domain : string -> Domain * option error;
  TblLogTopicsKeys : string;
  TblLogAddressKeys : string;
  TblTracesFromKeys : string;
  TblTracesToKeys : string
}.

Record AggV3StaticFiles : Type := {
  sf_d : Domain -> Files;
  sf_ivfs : InvertedIdxPos -> Files;
  sf_appendable : nat -> Files
}.

Definition no_static : AggV3StaticFiles :=
  {| sf_d := fun _ => []; sf_ivfs := fun _ => []; sf_appendable := fun _ => [] |}.

(** What a round does to the world outside it. *)
Inductive event : Type :=
| CollationClose (c : Collation)
| CleanupOnError (sf : Files)
| IntegrateDomain (id : Domain) (sf : Files) (txNumFrom txNumTo : Z)
| IntegrateIndex (pos : InvertedIdxPos) (sf : Files) (txNumFrom txNumTo : Z)
| RecalcVisibleFiles
| NeedSaveFilesListInDB.

Record bstate : Type := {
  static : AggV3StaticFiles;
  collations : list Collation;
  trace : list event
}.

Definition emit (e : event) : State bstate unit := fun s =>
  (tt, {| static := static s; collations := collations s; trace := trace s ++ [e] |}).
Definition set_static (f : AggV3StaticFiles -> AggV3StaticFiles) : State bstate unit :=
  fun s =>
  (tt, {| static := f (static s); collations := collations s; trace := trace s |}).
Definition add_collation (c : Collation) : State bstate unit := fun s =>
  (tt, {| static := static s; collations := collations s ++ [c]; trace := trace s |}).

Definition FirstTxNumOfStep (a : Aggregator) (step : Z) : Z :=
  U64.mul step (aggregationStep a).

(** The goroutines handed to the errgroup: one per domain, per
    standalone index and per entry [name, ap] of [a.ap]. *)
Inductive task : Type :=
| TDomain (id : Domain)
| TIndex (pos : InvertedIdxPos)
| TAppendable (name : nat) (app : Appendable).

Definition tasks (a : Aggregator) : list task :=
  (TDomain <$> Domains) ++ (TIndex <$> StandaloneIdx) ++ imap TAppendable (ap a).

Definition domain_task (K : KvNames) (a : Aggregator) (step txFrom txTo : Z)
    (id : Domain) : State bstate (outcome (option error)) :=
  let dm := d a id in
  let '(collation, err) := collate dm step txFrom txTo in
  match err with
  | Some e =>
      ret (Returns (Some ("domain collation " +:+ Filepath.fmt_q (filenameBase dm)
                            +:+ " has failed: " +:+ e)))
  | None =>
      do _ <- add_collation collation ;
      let '(sf, err) := buildFiles_d dm step collation in
      do _ <- emit (CollationClose collation) ;
      match err with
      | Some e => do _ <- emit (CleanupOnError sf) ; ret (Returns (Some e))
      | None =>
          let '(dd, err) := String2Domain K (filenameBase dm) in
          match err with
          | Some e => ret (Returns (Some e))
          | None =>
              do _ <- set_static (fun st =>
                        {| sf_d := <[dd := sf]> (sf_d st); sf_ivfs := sf_ivfs st;
                           sf_appendable := sf_appendable st |}) ;
              ret (Returns None)
          end
      end
  end.

(** The [switch ii.indexKeysTable]; [None] is the panicking default. *)
Definition ivfs_slot (K : KvNames) (tbl : string) : option InvertedIdxPos :=
  if decide (tbl = TblLogTopicsKeys K) then Some LogTopicIdxPos
  else if decide (tbl = TblLogAddressKeys K) then Some LogAddrIdxPos
  else if decide (tbl = TblTracesFromKeys K) then Some TracesFromIdxPos
  else if decide (tbl = TblTracesToKeys K) then Some TracesToIdxPos
  else None.

Definition index_task (K : KvNames) (a : Aggregator) (step : Z)
    (pos : InvertedIdxPos) : State bstate (outcome (option error)) :=
  let ii := iis a pos in
  let '(collation, err) := ii_collate ii step in
  match err with
  | Some e =>
      ret (Returns (Some ("index collation " +:+ Filepath.fmt_q (ii_filenameBase ii)
                            +:+ " has failed: " +:+ e)))
  | None =>
      let '(sf, err) := ii_buildFiles ii step collation in
      match err with
      | Some e => do _ <- emit (CleanupOnError sf) ; ret (Returns (Some e))
      | None =>
          match ivfs_slot K (indexKeysTable ii) with
          | None => ret (Panics ("unknown index " +:+ indexKeysTable ii))
          | Some slot =>
              do _ <- set_static (fun st =>
                        {| sf_d := sf_d st; sf_ivfs := <[slot := sf]> (sf_ivfs st);
                           sf_appendable := sf_appendable st |}) ;
              ret (Returns None)
          end
      end
  end.

Definition appendable_task (step : Z) (name : nat) (app : Appendable)
  : State bstate (outcome (option error)) :=
  let '(collation, err) := ap_collate app step in
  match err with
  | Some e =>
      ret (Returns (Some ("index collation " +:+ Filepath.fmt_q (ap_filenameBase app)
                            +:+ " has failed: " +:+ e)))
  | None =>
      let '(sf, err) := ap_buildFiles app step collation in
      match err with
      | Some e => do _ <- emit (CleanupOnError sf) ; ret (Returns (Some e))
      | None =>
          do _ <- set_static (fun st =>
                    {| sf_d := sf_d st; sf_ivfs := sf_ivfs st;
                       sf_appendable := <[name := sf]> (sf_appendable st) |}) ;
          ret (Returns None)
      end
  end.

Definition run_task (K : KvNames) (a : Aggregator) (step txFrom txTo : Z)
    (t : task) : State bstate (outcome (option error)) :=
  match t with
  | TDomain id => domain_task K a step txFrom txTo id
  | TIndex pos => index_task K a step pos
  | TAppendable name app => appendable_task step name app
  end.

(** The errgroup once its goroutines run: the tasks complete in the
    order [sched]; [g.Wait()] returns the first error; a panic in a
    goroutine ends everything. *)
Fixpoint run_group (K : KvNames) (a : Aggregator) (step txFrom txTo : Z)
    (sched : list task) (first : option error)
  : State bstate (outcome (option error)) :=
  match sched with
  | [] => ret (Returns first)
  | t :: rest =>
      do r <- run_task K a step txFrom txTo t ;
      match r with
      | Panics msg => ret (Panics msg)
      | Returns err =>
          run_group K a step txFrom txTo rest
            (match first with Some e => Some e | None => err end)
      end
  end.

(** [AggV3StaticFiles.CleanupOnError] *)
Definition CleanupOnError_static (sf : AggV3StaticFiles) : list event :=
  ((fun id => CleanupOnError (sf_d sf id)) <$> Domains)
    ++ ((fun pos => CleanupOnError (sf_ivfs sf pos)) <$> StandaloneIdx).

(** [Aggregator.integrateDirtyFiles], with its deferred calls last. *)
Definition integrateDirtyFiles (sf : AggV3StaticFiles) (txNumFrom txNumTo : Z)
  : list event :=
  ((fun id => IntegrateDomain id (sf_d sf id) txNumFrom txNumTo) <$> Domains)
    ++ ((fun pos => IntegrateIndex pos (sf_ivfs sf pos) txNumFrom txNumTo)
          <$> StandaloneIdx)
    ++ [RecalcVisibleFiles; NeedSaveFilesListInDB].

(** [a.buildFiles(ctx, step)]: the returned error and what the round
    did. After [g.SetLimit(0)] the first [g.Go], the one of the Accounts
    domain, waits for a slot that never comes: the call does not return,
    which is [None]. A negative limit is no limit. *)
Definition buildFiles (K : KvNames) (a : Aggregator) (step : Z) (sched : list task)
  : option (outcome (option error) * list event) :=
  let txFrom := FirstTxNumOfStep a step in
  let txTo := FirstTxNumOfStep a (U64.add step 1) in
  if collateAndBuildWorkers a =? 0 then None
  else
    let '(r, s) := run_group K a step txFrom txTo sched None
                     {| static := no_static; collations := []; trace := [] |} in
    Some match r with
         | Panics msg => (Panics msg, trace s)
         | Returns (Some err) =>
             (Returns (Some ("domain collate-build: " +:+ err)),
              trace s ++ CleanupOnError_static (static s))
         | Returns None =>
             (Returns None, trace s ++ integrateDirtyFiles (static s) txFrom txTo)
         end.

(** *** Vocabulary for the round's outcome *)

(** The files a component's build handed back, if its collation went
    through, and whether the build succeeded. *)
Definition domain_built (a : Aggregator) (step : Z) (id : Domain)
  : option (Files * bool) :=
  let txFrom := FirstTxNumOfStep a step in
  let txTo := FirstTxNumOfStep a (U64.add step 1) in
  match collate (d a id) step txFrom txTo with
  | (_, Some _) => None
  | (c, None) =>
      let '(sf, err) := buildFiles_d (d a id) step c in
      Some (sf, bool_decide (err = None))
  end.

Definition index_built (a : Aggregator) (step : Z) (pos : InvertedIdxPos)
  : option (Files * bool) :=
  match ii_collate (iis a pos) step with
  | (_, Some _) => None
  | (c, None) =>
      let '(sf, err) := ii_buildFiles (iis a pos) step c in
      Some (sf, bool_decide (err = None))
  end.

Definition appendable_built (step : Z) (app : Appendable) : option (Files * bool) :=
  match ap_collate app step with
  | (_, Some _) => None
  | (c, None) =>
      let '(sf, err) := ap_buildFiles app step c in
      Some (sf, bool_decide (err = None))
  end.

Definition task_built (a : Aggregator) (step : Z) (t : task) : option (Files * bool) :=
  match t with
  | TDomain id => domain_built a step id
  | TIndex pos => index_built a step pos
  | TAppendable _ app => appendable_built step app
  end.

(** Collation and build both went through. *)
Definition task_ok (a : Aggregator) (step : Z) (t : task) : bool :=
  match task_built a step t with
  | Some (_, true) => true
  | _ => false
  end.

(** The files a succeeded component built; none otherwise. *)
Definition built_files (a : Aggregator) (step : Z) (t : task) : Files :=
  match task_built a step t with
  | Some (sf, true) => sf
  | _ => []
  end.

(** A file the round produced for a domain or a standalone index: one
    of the files a build handed back, whether the build succeeded or not. *)
Definition is_domain_or_index (t : task) : bool :=
  match t with TDomain _ | TIndex _ => true | TAppendable _ _ => false end.

Definition produced (a : Aggregator) (step : Z) (f : string) : Prop :=
  exists t sf ok,
    is_domain_or_index t = true
    /\ task_built a step t = Some (sf, ok) /\ f ∈ sf.

(** [CleanupOnError] was called on something that holds [f]. *)
Definition cleaned (tr : list event) (f : string) : Prop :=
  exists sf, CleanupOnError sf ∈ tr /\ f ∈ sf.

(** The aggregator is wired as [NewAggregator] and [registerII] wire it:
    the name of the domain in slot [id] maps back to [id], and the keys
    table of the index in slot [pos] selects [pos]. *)
Definition wired (K : KvNames) (a : Aggregator) : Prop :=
  (forall id, String2Domain K (filenameBase (d a id)) = (id, None))
  /\ (forall pos, ivfs_slot K (indexKeysTable (iis a pos)) = Some pos).

Definition is_integration (e : event) : bool :=
  match e with
  | IntegrateDomain _ _ _ _ | IntegrateIndex _ _ _ _
  | RecalcVisibleFiles | NeedSaveFilesListInDB => true
  | _ => false
  end.

(** The state of a round after the tasks [done] have completed, [first]
    being the error the errgroup holds. *)
Record round_inv (a : Aggregator) (step : Z) (done : list task) (s : bstate)
    (first : option error) : Prop := {
  inv_d_any : forall id,
    sf_d (static s) id = built_files a step (TDomain id) \/ sf_d (static s) id = [];
  inv_d : forall id,
    TDomain id ∈ done -> sf_d (static s) id = built_files a step (TDomain id);
  inv_ivfs_any : forall pos,
    sf_ivfs (static s) pos = built_files a step (TIndex pos)
    \/ sf_ivfs (static s) pos = [];
  inv_ivfs : forall pos,
    TIndex pos ∈ done -> sf_ivfs (static s) pos = built_files a step (TIndex pos);
  inv_no_integration : forall ev, ev ∈ trace s -> is_integration ev = false;
  inv_partial_cleaned : forall t sf,
    t ∈ done -> task_built a step t = Some (sf, false) -> CleanupOnError sf ∈ trace s;
  inv_no_cleanup :
    (forall t, t ∈ done -> task_ok a step t = true) ->
    forall sf, CleanupOnError sf ∉ trace s;
  inv_first : first = None <-> (forall t, t ∈ done -> task_ok a step t = true)
}.
End Build.

(** ** [AggregatorRoTx.SqueezeCommitmentFiles] *)

Module Squeeze.
(** A word of a segment as the reader hands it out; [None] is nil. *)
Abbreviation word := (option bytes).

(** A dirty file: its txNum range, the path and name of its
    decompressor, and the key/value pairs the reader yields from it. *)
Record filesItem : Type := {
  startTxNum : Z;
  endTxNum : Z;
  FilePath : string;
  FileName : string;
  pairs : list (word * word)
}.

(** The view: the three dirty-file lists, the step size, the switch. *)
Record AggregatorRoTx : Type := {
  commitmentValuesTransform : bool;
  StepSize : Z;
  accountFiles : list filesItem;
  storageFiles : list filesItem;
  commitFiles : list filesItem
}.

(** What lives elsewhere: the sentinel key, the value transformer built
    for a pair of Accounts and Storage files, the paths of the index
    artifacts of a Commitment file, and the failures of the compressor
    and of the file system. *)
Record Env : Type := {
  keyCommitmentState : bytes;
  commitmentValTransformDomain :
    filesItem -> filesItem -> word -> Z -> Z -> word * option error;
  kvBtFilePath : Z -> Z -> string;
  kvAccessorFilePath : Z -> Z -> string;
  kvExistenceIdxFilePath : Z -> Z -> string;
  NewCompressor_err : string -> option error;
  AddWord_err : string -> list word -> word -> option error;
  Compress_err : string -> list word -> option error;
  Rename_err : string -> string -> option error;
  Stat_err : string -> option error;
  Remove_err : string -> option error    (* an error other than ErrNotExist *)
}.

Definition sqExt : string := ".squeezed".

(** [strings.TrimSuffix] *)
Fixpoint TrimSuffix (s suffix : string) : string :=
  if decide (s = suffix) then ""
  else match s with
       | EmptyString => EmptyString
       | String c s' => String c (TrimSuffix s' suffix)
       end.

(** The file-system operations that change something. *)
Inductive op : Type :=
| OpWrite (path : string)
| OpRename (oldpath newpath : string)
| OpRemove (path : string).

Record sqstate : Type := {
  fs : gmap string (list word);
  ops : list op;
  obsoleteFiles : list string;
  temporalFiles : list string;
  processedFiles : nat
}.

Definition write_file (path : string) (ws : list word) : State sqstate unit :=
  fun s =>
  (tt, {| fs := <[path := ws]> (fs s); ops := ops s ++ [OpWrite path];
          obsoleteFiles := obsoleteFiles s; temporalFiles := temporalFiles s;
          processedFiles := processedFiles s |}).

Definition os_Rename (E : Env) (oldpath newpath : string) : State sqstate (option error) :=
  fun s =>
  match Rename_err E oldpath newpath, fs s !! oldpath with
  | Some e, _ => (Some e, s)
  | None, None => (Some Fs.ErrNotExist, s)
  | None, Some c =>
      (None, {| fs := <[newpath := c]> (delete oldpath (fs s));
                ops := ops s ++ [OpRename oldpath newpath];
                obsoleteFiles := obsoleteFiles s; temporalFiles := temporalFiles s;
                processedFiles := processedFiles s |})
  end.

(** [os.Remove] followed by the test
    [err != nil && !errors.Is(err, os.ErrNotExist)]. *)
Definition os_Remove (E : Env) (path : string) : State sqstate (option error) :=
  fun s =>
  match Remove_err E path with
  | Some e => (Some e, s)
  | None =>
      (None, {| fs := delete path (fs s); ops := ops s ++ [OpRemove path];
                obsoleteFiles := obsoleteFiles s; temporalFiles := temporalFiles s;
                processedFiles := processedFiles s |})
  end.

Definition add_temporal (path : string) : State sqstate unit := fun s =>
  (tt, {| fs := fs s; ops := ops s; obsoleteFiles := obsoleteFiles s;
          temporalFiles := temporalFiles s ++ [path];
          processedFiles := processedFiles s |}).

Definition add_obsolete (paths : list string) : State sqstate unit := fun s =>
  (tt, {| fs := fs s; ops := ops s; obsoleteFiles := obsoleteFiles s ++ paths;
          temporalFiles := temporalFiles s;
          processedFiles := S (processedFiles s) |}).

(** The loop [for reader.HasNext()]: the words written so far, then
    either all the words written or the error that ended the loop. *)
Fixpoint squeeze_pairs (E : Env) (vt : word -> Z -> Z -> word * option error)
    (af : filesItem) (out : string) (ps : list (word * word)) (written : list word)
  : list word + error :=
  match ps with
  | [] => inl written
  | (k, v) :: rest =>
      match k with
      | None => squeeze_pairs E vt af out rest written
      | Some kb =>
          let '(v', err) :=
            if bool_decide (kb = keyCommitmentState E) then (v, None)
            else vt v (startTxNum af) (endTxNum af) in
          match err with
          | Some e => inr ("failed to transform commitment value: " +:+ e)
          | None =>
              match AddWord_err E out written k with
              | Some e => inr ("write key word: " +:+ e)
              | None =>
                  match AddWord_err E out (written ++ [k]) v' with
                  | Some e => inr ("write value word: " +:+ e)
                  | None => squeeze_pairs E vt af out rest (written ++ [k; v'])
                  end
              end
          end
      end
  end.

(** The closure run for one Commitment file [cf] and its paired files.
    The integer division by the step size panics on a zero step size. *)
Definition squeeze_file (E : Env) (ac : AggregatorRoTx) (cf af sf : filesItem)
  : State sqstate (outcome (option error)) :=
  let originalPath := FilePath cf in
  let squeezedTmpPath := originalPath +:+ sqExt +:+ ".tmp" in
  match NewCompressor_err E squeezedTmpPath with
  | Some e => ret (Returns (Some e))
  | None =>
  let vt := commitmentValTransformDomain E af sf in
  match squeeze_pairs E vt af squeezedTmpPath (pairs cf) [] with
  | inr e => ret (Returns (Some e))
  | inl ws =>
  match Compress_err E squeezedTmpPath ws with
  | Some e => ret (Returns (Some e))
  | None =>
  do _ <- write_file squeezedTmpPath ws ;
  let squeezedPath := originalPath +:+ sqExt in
  do err <- os_Rename E squeezedTmpPath squeezedPath ;
  match err with
  | Some e => ret (Returns (Some e))
  | None =>
  do _ <- add_temporal squeezedPath ;
  match Stat_err E originalPath with
  | Some e => ret (Returns (Some e))
  | None =>
  match Stat_err E squeezedPath with
  | Some e => ret (Returns (Some e))
  | None =>
  if StepSize ac =? 0 then ret (Panics "integer divide by zero")
  else
  let fromStep := startTxNum af / StepSize ac in
  let toStep := endTxNum af / StepSize ac in
  do _ <- add_obsolete [originalPath; kvBtFilePath E fromStep toStep;
                        kvAccessorFilePath E fromStep toStep;
                        kvExistenceIdxFilePath E fromStep toStep] ;
  ret (Returns None)
  end end end end end end.

Definition same_range (cf f : filesItem) : bool :=
  (startTxNum f =? startTxNum cf) && (endTxNum f =? endTxNum cf).

(** The Accounts and Storage files paired with [cf]: the first of each
    list with the same txNum range, if both exist. *)
Definition paired (ac : AggregatorRoTx) (cf : filesItem) : option (filesItem * filesItem) :=
  match List.find (same_range cf) (accountFiles ac),
        List.find (same_range cf) (storageFiles ac) with
  | Some af, Some sf => Some (af, sf)
  | _, _ => None
  end.

(** [for ci := 0; ci < len(commitFiles); ci++] *)
Fixpoint squeeze_all (E : Env) (ac : AggregatorRoTx) (cfs : list filesItem)
  : State sqstate (outcome (option error)) :=
  match cfs with
  | [] => ret (Returns None)
  | cf :: rest =>
      match paired ac cf with
      | None => squeeze_all E ac rest
      | Some (af, sf) =>
          do r <- squeeze_file E ac cf af sf ;
          match r with
          | Panics msg => ret (Panics msg)
          | Returns (Some e) =>
              ret (Returns (Some ("failed to squeeze commitment file "
                                    +:+ Filepath.fmt_q (FileName cf) +:+ ": " +:+ e)))
          | Returns None => squeeze_all E ac rest
          end
      end
  end.

Fixpoint remove_obsolete (E : Env) (paths : list string) : State sqstate (option error) :=
  match paths with
  | [] => ret None
  | path :: rest =>
      do err <- os_Remove E path ;
      match err with
      | Some e => ret (Some e)
      | None => remove_obsolete E rest
      end
  end.

Fixpoint rename_temporal (E : Env) (paths : list string) : State sqstate (option error) :=
  match paths with
  | [] => ret None
  | path :: rest =>
      do err <- os_Rename E path (TrimSuffix path sqExt) ;
      match err with
      | Some e => ret (Some e)
      | None => rename_temporal E rest
      end
  end.

Definition SqueezeCommitmentFiles (E : Env) (ac : AggregatorRoTx)
  : State sqstate (outcome (option error)) :=
  if negb (commitmentValuesTransform ac) then ret (Returns None)
  else
    do r <- squeeze_all E ac (commitFiles ac) ;
    match r with
    | Panics msg => ret (Panics msg)
    | Returns (Some e) => ret (Returns (Some e))
    | Returns None =>
        fun s =>
        (do err <- remove_obsolete E (obsoleteFiles s) ;
         match err with
         | Some e => ret (Returns (Some e))
         | None =>
             fun s' => (do err <- rename_temporal E (temporalFiles s') ;
                        ret (Returns err)) s'
         end) s
    end.

(** *** Vocabulary *)

(** The words the loop writes for one pair. *)
Definition squeezed_pair (E : Env) (vt : word -> Z -> Z -> word * option error)
    (af : filesItem) (kv : word * word) : list word :=
  match kv.1 with
  | None => []
  | Some kb =>
      [Some kb;
       if bool_decide (kb = keyCommitmentState E) then kv.2
       else (vt kv.2 (startTxNum af) (endTxNum af)).1]
  end.

(** The transformer fails on a pair the loop would transform. *)
Definition transform_fails (E : Env) (vt : word -> Z -> Z -> word * option error)
    (af : filesItem) (kv : word * word) : Prop :=
  exists kb, kv.1 = Some kb /\ kb <> keyCommitmentState E
             /\ (vt kv.2 (startTxNum af) (endTxNum af)).2 <> None.

Fixpoint last_char (s : string) : option ascii :=
  match s with
  | EmptyString => None
  | String c EmptyString => Some c
  | String _ s' => last_char s'
  end.

(** A path the squeeze writes to while it produces the squeezed files. *)
Definition squeezed_path (p : string) : Prop :=
  exists orig, p = orig +:+ sqExt \/ p = orig +:+ sqExt +:+ ".tmp".

(** An operation of the producing phase: writing a temp file or moving
    it to its [.squeezed] name. *)
Definition producing_op (o : op) : Prop :=
  match o with
  | OpWrite p => exists orig, p = orig +:+ sqExt +:+ ".tmp"
  | OpRename a b => exists orig, a = orig +:+ sqExt +:+ ".tmp" /\ b = orig +:+ sqExt
  | OpRemove _ => False
  end.

(** [s'] comes from [s] by producing operations only. *)
Definition originals_intact (s s' : sqstate) : Prop :=
  (exists new, ops s' = ops s ++ new /\ Forall producing_op new)
  /\ (forall p, ~ squeezed_path p -> fs s' !! p = fs s !! p).

(** The words the loop has written once it is through the pairs [ps]. *)
Definition written_for (E : Env) (vt : word -> Z -> Z -> word * option error)
    (af : filesItem) (ps : list (word * word)) : list word :=
  concat (squeezed_pair E vt af <$> ps).

(** An operation of the closure run for [cf] fails, [e] being the error
    the closure returns for it: the compressor cannot be created; the
    transformer, the write of the key or the write of the value fails on
    a pair with a non-nil key, the pairs [pre] before it written; the
    compression of the written words fails; the rename of the temp file
    to its [.squeezed] name fails; one of the two [os.Stat] calls fails. *)
Inductive closure_failure (E : Env) (cf af sf : filesItem) : error -> Prop :=
| NewCompressor_fails (e : error) :
    NewCompressor_err E (FilePath cf +:+ sqExt +:+ ".tmp") = Some e ->
    closure_failure E cf af sf e
| transform_fails_at (pre post : list (word * word)) (kb : bytes) (v : word)
    (e : error) :
    pairs cf = pre ++ (Some kb, v) :: post ->
    kb <> keyCommitmentState E ->
    (commitmentValTransformDomain E af sf v (startTxNum af) (endTxNum af)).2 = Some e ->
    closure_failure E cf af sf ("failed to transform commitment value: " +:+ e)
| key_write_fails (pre post : list (word * word)) (kb : bytes) (v : word)
    (e : error) :
    pairs cf = pre ++ (Some kb, v) :: post ->
    AddWord_err E (FilePath cf +:+ sqExt +:+ ".tmp")
      (written_for E (commitmentValTransformDomain E af sf) af pre) (Some kb) = Some e ->
    closure_failure E cf af sf ("write key word: " +:+ e)
| value_write_fails (pre post : list (word * word)) (kb : bytes) (v : word)
    (e : error) :
    pairs cf = pre ++ (Some kb, v) :: post ->
    AddWord_err E (FilePath cf +:+ sqExt +:+ ".tmp")
      (written_for E (commitmentValTransformDomain E af sf) af pre ++ [Some kb])
      (if bool_decide (kb = keyCommitmentState E) then v
       else (commitmentValTransformDomain E af sf v (startTxNum af) (endTxNum af)).1)
      = Some e ->
    closure_failure E cf af sf ("write value word: " +:+ e)
| Compress_fails (e : error) :
    Compress_err E (FilePath cf +:+ sqExt +:+ ".tmp")
      (written_for E (commitmentValTransformDomain E af sf) af (pairs cf)) = Some e ->
    closure_failure E cf af sf e
| Rename_fails (e : error) :
    Rename_err E (FilePath cf +:+ sqExt +:+ ".tmp") (FilePath cf +:+ sqExt) = Some e ->
    closure_failure E cf af sf e
| Stat_original_fails (e : error) :
    Stat_err E (FilePath cf) = Some e -> closure_failure E cf af sf e
| Stat_squeezed_fails (e : error) :
    Stat_err E (FilePath cf +:+ sqExt) = Some e -> closure_failure E cf af sf e.
End Squeeze.

(** ** [AggregatorRoTx.mergeFiles]: the goroutines of one merge pass *)

Module Merge.
Import Kv.

(** A merged file ([*filesItem]); [None] is nil. *)
Abbreviation File := (option string).

(** A value transformer is known by the two files it was built against. *)
Abbreviation valueTransformer := (option (File * File)).

(** One merge pass: the switch [commitmentValuesTransform], the limit of
    the errgroup, which domains have something to merge
    ([r.domain[id].any()]), and how many index and appendable merges the
    pass holds.  What [ac.d[id].mergeFiles] returns is not fixed by the
    pass: it depends on the files and on the context, which the first
    failing goroutine cancels. *)
Record Pass : Type := {
  commitmentValuesTransform : bool;
  mergeWorkers : Z;
  any : Domain -> bool;
  others : nat
}.

(** Where a goroutine of the domain loop stands. *)
Inductive pc : Type :=
| NotStarted
| Entry                                     (* spawned by g.Go *)
| AtWait                                    (* Commitment: restricted, before Wait() *)
| BuildVT                                   (* Commitment: Wait() has returned *)
| AtMerge (vt : valueTransformer)           (* before ac.d[id].mergeFiles *)
| AfterMerge (err : option error)           (* mf.d[id] assigned *)
| Exited (err : option error).

(** Where the function body stands. *)
Inductive main_pc : Type :=
| InDomains (rest : list Domain) (added : bool)  (* at the head of [rest] *)
| InOthers (n : nat)                             (* index and appendable loops *)
| AtGroupWait                                    (* g.Wait() *)
| Returned.

Inductive event : Type :=
| EvAdd (id : Domain)                            (* accStorageMerged.Add(1) *)
| EvRestrict (b : bool)                          (* RestrictSubsetFileDeletions(b) *)
| EvWaitReturned                                 (* accStorageMerged.Wait() *)
| EvVT (accounts storage : File)                 (* commitmentValTransformDomain *)
| EvMerged (id : Domain) (vt : valueTransformer) (out : File) (err : option error)
| EvDone (id : Domain).                          (* accStorageMerged.Done() *)

Record config : Type := {
  main : main_pc;
  th : Domain -> pc;
  others_running : nat;
  wg : Z;                                        (* accStorageMerged *)
  mf_d : Domain -> File;                         (* mf.d *)
  trace : list event
}.

Definition init : config :=
  {| main := InDomains Domains false;
     th := fun _ => NotStarted;
     others_running := 0;
     wg := 0;
     mf_d := fun _ => None;
     trace := [] |}.

Definition is_acc_or_storage (id : Domain) : bool :=
  match id with AccountsDomain | StorageDomain => true | _ => false end.

Definition active (p : pc) : bool :=
  match p with NotStarted | Exited _ => false | _ => true end.

(** The goroutines that hold a slot of the errgroup. *)
Definition running (c : config) : nat :=
  (length (filter (fun id => active (th c id) = true) Domains) + others_running c)%nat.

Definition slot_free (P : Pass) (c : config) : Prop :=
  mergeWorkers P < 0 \/ Z.of_nat (running c) < mergeWorkers P.

Definition set_main (m : main_pc) (c : config) : config :=
  {| main := m; th := th c; others_running := others_running c; wg := wg c;
     mf_d := mf_d c; trace := trace c |}.
Definition set_th (id : Domain) (p : pc) (c : config) : config :=
  {| main := main c; th := <[id := p]> (th c); others_running := others_running c;
     wg := wg c; mf_d := mf_d c; trace := trace c |}.
Definition set_wg (n : Z) (c : config) : config :=
  {| main := main c; th := th c; others_running := others_running c; wg := n;
     mf_d := mf_d c; trace := trace c |}.
Definition set_mf (id : Domain) (f : File) (c : config) : config :=
  {| main := main c; th := th c; others_running := others_running c; wg := wg c;
     mf_d := <[id := f]> (mf_d c); trace := trace c |}.
Definition set_others (n : nat) (c : config) : config :=
  {| main := main c; th := th c; others_running := n; wg := wg c;
     mf_d := mf_d c; trace := trace c |}.
Definition log (e : event) (c : config) : config :=
  {| main := main c; th := th c; others_running := others_running c; wg := wg c;
     mf_d := mf_d c; trace := trace c ++ [e] |}.

(** One atomic action of the function body or of one goroutine. *)
Inductive step (P : Pass) : config -> config -> Prop :=
(* [if !r.domain[id].any() { continue }] *)
| main_skip c id rest :
    main c = InDomains (id :: rest) false -> any P id = false ->
    step P c (set_main (InDomains rest false) c)
(* [accStorageMerged.Add(1)] for Accounts and Storage *)
| main_add c id rest :
    main c = InDomains (id :: rest) false -> any P id = true ->
    commitmentValuesTransform P && is_acc_or_storage id = true ->
    step P c (log (EvAdd id) (set_wg (wg c + 1) (set_main (InDomains (id :: rest) true) c)))
| main_no_add c id rest :
    main c = InDomains (id :: rest) false -> any P id = true ->
    commitmentValuesTransform P && is_acc_or_storage id = false ->
    step P c (set_main (InDomains (id :: rest) true) c)
(* [g.Go(func() ...)]: waits for a free slot *)
| main_go c id rest :
    main c = InDomains (id :: rest) true -> slot_free P c ->
    step P c (set_th id Entry (set_main (InDomains rest false) c))
| main_domains_done c :
    main c = InDomains [] false ->
    step P c (set_main (InOthers (others P)) c)
| main_go_other c n :
    main c = InOthers (S n) -> slot_free P c ->
    step P c (set_others (S (others_running c)) (set_main (InOthers n) c))
| main_others_done c :
    main c = InOthers 0 ->
    step P c (set_main AtGroupWait c)
| main_wait c :
    main c = AtGroupWait -> running c = 0%nat ->
    step P c (set_main Returned c)
| other_exit c n :
    others_running c = S n ->
    step P c (set_others n c)
(* [if commitmentValuesTransform && kid == CommitmentDomain {
      ac.RestrictSubsetFileDeletions(true) ...] *)
| th_entry_commitment c :
    th c CommitmentDomain = Entry -> commitmentValuesTransform P = true ->
    step P c (log (EvRestrict true) (set_th CommitmentDomain AtWait c))
| th_entry c id :
    th c id = Entry ->
    commitmentValuesTransform P && bool_decide (id = CommitmentDomain) = false ->
    step P c (set_th id (AtMerge None) c)
(* [accStorageMerged.Wait()] returns once the counter is zero *)
| th_wait c :
    th c CommitmentDomain = AtWait -> wg c = 0 ->
    step P c (log EvWaitReturned (set_th CommitmentDomain BuildVT c))
(* [vt = commitmentValTransformDomain(..., mf.d[Accounts], mf.d[Storage])] *)
| th_build_vt c :
    th c CommitmentDomain = BuildVT ->
    step P c
      (log (EvVT (mf_d c AccountsDomain) (mf_d c StorageDomain))
         (set_th CommitmentDomain
            (AtMerge (Some (mf_d c AccountsDomain, mf_d c StorageDomain))) c))
(* [mf.d[id], ..., err = ac.d[id].mergeFiles(..., vt, ...)]: the merge
   returns some file [out] and some error [err] *)
| th_merge c id vt out err :
    th c id = AtMerge vt ->
    step P c (log (EvMerged id vt out err) (set_mf id out (set_th id (AfterMerge err) c)))
(* [accStorageMerged.Done()] for Accounts and Storage *)
| th_done c id err :
    th c id = AfterMerge err ->
    commitmentValuesTransform P && is_acc_or_storage id = true ->
    step P c (log (EvDone id) (set_wg (wg c - 1) (set_th id (Exited err) c)))
(* [RestrictSubsetFileDeletions(false)] after a successful Commitment merge *)
| th_unrestrict c :
    th c CommitmentDomain = AfterMerge None -> commitmentValuesTransform P = true ->
    step P c (log (EvRestrict false) (set_th CommitmentDomain (Exited None) c))
| th_exit c id err :
    th c id = AfterMerge err ->
    commitmentValuesTransform P && is_acc_or_storage id = false ->
    (commitmentValuesTransform P = true -> id = CommitmentDomain -> err <> None) ->
    step P c (set_th id (Exited err) c).

Inductive reachable (P : Pass) : config -> Prop :=
| reach_init : reachable P init
| reach_step c c' : reachable P c -> step P c c' -> reachable P c'.

(** The argument of [commitmentValTransformDomain] that stands for the
    merged file of [id]: [mf.d[AccountsDomain]] comes first,
    [mf.d[StorageDomain]] second. *)
Definition vt_arg (id : Domain) (accounts storage : File) : File :=
  match id with AccountsDomain => accounts | _ => storage end.

(** The events in which the merge of [id] returns, and those in which a
    transformer is built. *)
Definition is_merge_of (id : Domain) (e : event) : bool :=
  match e with EvMerged id' _ _ _ => bool_decide (id' = id) | _ => false end.

Definition is_vt (e : event) : bool :=
  match e with EvVT _ _ => true | _ => false end.

Definition merges_of (id : Domain) (tr : list event) : nat :=
  length (filter (fun e => is_merge_of id e = true) tr).

Definition vts_of (tr : list event) : nat :=
  length (filter (fun e => is_vt e = true) tr).

(** The Commitment goroutine has not built its transformer yet. *)
Definition before_vt (p : pc) : bool :=
  match p with NotStarted | Entry | AtWait | BuildVT => true | _ => false end.

(** A transformer built from [accounts] and [storage] after the events
    [pre]: each of the two domains that the pass merges has returned
    from its merge with that very file and has called [Done]; for a
    domain outside the pass the file is nil. *)
Definition built_after_merges (P : Pass) (pre : list event) (accounts storage : File) : Prop :=
  forall id, is_acc_or_storage id = true ->
    (any P id = true ->
       (exists err, EvMerged id None (vt_arg id accounts storage) err ∈ pre)
       /\ EvDone id ∈ pre)
    /\ (any P id = false -> vt_arg id accounts storage = None).

(** *** Bookkeeping for the wait group *)

(** The function body is past the [Add] it owes to [id]. *)
Definition main_added (m : main_pc) (id : Domain) : bool :=
  match m with
  | InDomains [] _ => true
  | InDomains (hd :: tl) a =>
      if bool_decide (id ∈ hd :: tl) then bool_decide (hd = id) && a else true
  | _ => true
  end.

Definition added (P : Pass) (c : config) (id : Domain) : bool :=
  commitmentValuesTransform P && is_acc_or_storage id && any P id
    && main_added (main c) id.

Definition exited (c : config) (id : Domain) : bool :=
  match th c id with Exited _ => true | _ => false end.

(** [id] has been added to the wait group and has not called [Done]. *)
Definition pending (P : Pass) (c : config) (id : Domain) : Z :=
  if added P c id && negb (exited c id) then 1 else 0.

(** The Commitment goroutine is past [accStorageMerged.Wait()]. *)
Definition past_wait (p : pc) : bool :=
  match p with
  | BuildVT | AtMerge _ | AfterMerge _ | Exited _ => true
  | _ => false
  end.

Definition merged (p : pc) : bool :=
  match p with AfterMerge _ | Exited _ => true | _ => false end.

(** The function body is past [id] in the loop over the domains. *)
Definition main_passed (m : main_pc) (id : Domain) : bool :=
  match m with
  | InDomains rest _ => negb (bool_decide (id ∈ rest))
  | _ => true
  end.
End Merge.

(** ** Sample configurations, used to run the model *)

Module Samples.
Import Kv Read.

(** The Storage history holds txNum 7 for every key, the Commitment
    history txNum 9; the Storage value is nil. *)
Definition demo_history (n : Z) : HistoryRoTx unit :=
  {| IdxRange := fun _ _ _ _ _ _ => (Some [n], None);
     HistorySeek := fun _ _ _ => (None, false, None) |}.
Definition demo_domain (n : Z) (v : option bytes) : DomainRoTx unit :=
  {| ht := demo_history n; GetAsOf := fun _ _ _ => (v, None) |}.
Definition demo_ac : AggregatorRoTx unit :=
  {| d := fun x => match x with
                   | StorageDomain => demo_domain 7 None
                   | CommitmentDomain => demo_domain 9 (Some [])
                   | _ => demo_domain 0 (Some [x01])
                   end;
     iis := fun _ => {| ii_IdxRange := fun _ _ _ _ _ _ => (Some [], None) |} |}.

(** A snapshot directory that holds the Commitment file of steps [3,4). *)
Definition demo_integrity : Integrity.Env :=
  {| Integrity.SnapDomain := "snapshots/domain";
     Integrity.Domain_String := fun x =>
       match x with
       | AccountsDomain => "accounts"
       | StorageDomain => "storage"
       | CodeDomain => "code"
       | CommitmentDomain => "commitment"
       end;
     Integrity.FileExist := fun p =>
       (bool_decide (p = "snapshots/domain/v1-commitment.3-4.kv"), None) |}.

(** Salt directories: only the legacy file, and the rename is refused;
    an existing salt file; an empty directory. *)
Definition legacy_rename_denied : Fs.world :=
  {| Fs.files := {[ "snap/salt.txt" := [x00; x00; x00; x2a] ]};
     Fs.faults := [None; None; Some "permission denied"];
     Fs.calls := [] |}.
Definition salt_present : Fs.world :=
  {| Fs.files := {[ "snap/salt-state.txt" := [x00; x00; x01; x02; xff] ]};
     Fs.faults := [];
     Fs.calls := [] |}.
Definition salt_absent : Fs.world :=
  {| Fs.files := ∅; Fs.faults := []; Fs.calls := [] |}.
Definition salt_unreadable : Fs.world :=
  {| Fs.files := {[ "snap/salt-state.txt" := [x00; x00; x01; x02] ]};
     Fs.faults := [None; None; None; Some "input/output error"];
     Fs.calls := [] |}.

(** A read view with two domain handles (one slot nil), two index
    handles and one appendable handle, at address 0 of the heap. *)
Definition open_view : Handles.AggregatorRoTx :=
  {| Handles.a := Some 1%nat;
     Handles.d := [Some 10%nat; None; Some 11%nat];
     Handles.iis := [Some 20%nat; Some 21%nat];
     Handles.appendable := [Some 30%nat];
     Handles.id := 5;
     Handles._leakID := 77 |}.
Definition demo_heap : nat -> Handles.AggregatorRoTx := fun _ => open_view.


(** An aggregator with step size 100 whose visible files end at txNum
    200 (Accounts, Storage, Commitment) and 300 (Code). A component prune
    drops the rows of its own table that fall in the range. *)
Definition prune_table (tbl : string) (txFrom txTo limit : Z)
  : State (list Prune.Row) (option Prune.Stat * option error) := fun s =>
  ((Some 0, None),
   filter (fun r => negb (bool_decide (Prune.table r = tbl)
                         && (txFrom <=? Prune.txNum r) && (Prune.txNum r <? txTo))) s).
Definition can_prune_table (tbl : string) (s : list Prune.Row) (untilTx : Z) : bool :=
  existsb (fun r => bool_decide (Prune.table r = tbl) && (Prune.txNum r <? untilTx)) s.
Definition prune_domain (name : string) (endTxNum : Z) : Prune.DomainRoTx :=
  {| Prune.d_filenameBase := name;
     Prune.files_EndTxNum := endTxNum;
     Prune.CanPruneUntil := can_prune_table name;
     Prune.d_Prune := fun _ => prune_table name |}.
Definition prune_index (name : string) : Prune.InvertedIndexRoTx :=
  {| Prune.ii_filenameBase := name;
     Prune.CanPrune := fun s => can_prune_table name s 200;
     Prune.ii_Prune := prune_table name |}.
Definition prune_agg : Prune.Aggregator :=
  {| Prune.aggregationStep := 100;
     Prune.visibleFilesMinimaxTxNum := 200;
     Prune.a_d := fun id =>
       match id with
       | AccountsDomain => prune_domain "accounts" 200
       | StorageDomain => prune_domain "storage" 200
       | CodeDomain => prune_domain "code" 300
       | CommitmentDomain => prune_domain "commitment" 200
       end;
     Prune.a_iis := fun pos =>
       match pos with
       | LogAddrIdxPos => prune_index "logaddrs"
       | LogTopicIdxPos => prune_index "logtopics"
       | TracesFromIdxPos => prune_index "tracesfrom"
       | TracesToIdxPos => prune_index "tracesto"
       end;
     Prune.a_ap := [];
     Prune.NoPrune := false |}.
Definition prune_store : Prune.pstate :=
  {| Prune.store :=
       [ {| Prune.table := "accounts"; Prune.key := [x01]; Prune.txNum := 150 |};
         {| Prune.table := "accounts"; Prune.key := [x01]; Prune.txNum := 250 |};
         {| Prune.table := "logaddrs"; Prune.key := [x02]; Prune.txNum := 199 |};
         {| Prune.table := "code"; Prune.key := [x03]; Prune.txNum := 200 |} ];
     Prune.log := [] |}.

(** A build round at step 3 in which the Storage build fails half way. *)
Definition kv_names : Build.KvNames :=
  {| Build.String2Domain := fun name =>
       if decide (name = "accounts") then (AccountsDomain, None)
       else if decide (name = "storage") then (StorageDomain, None)
       else if decide (name = "code") then (CodeDomain, None)
       else if decide (name = "commitment") then (CommitmentDomain, None)
       else (AccountsDomain, Some ("unknown name: " +:+ name));
     Build.TblLogTopicsKeys := "LogTopicsKeys";
     Build.TblLogAddressKeys := "LogAddressKeys";
     Build.TblTracesFromKeys := "TracesFromKeys";
     Build.TblTracesToKeys := "TracesToKeys" |}.
Definition build_domain (name : string) (fails : bool) : Build.Domain_ :=
  {| Build.filenameBase := name;
     Build.collate := fun _ _ _ => (1%nat, None);
     Build.buildFiles_d := fun step _ =>
       if fails then (["v1-" +:+ name +:+ ".kv.tmp"], Some "no space left on device")
       else (["v1-" +:+ name +:+ ".kv"; "v1-" +:+ name +:+ ".kvi"], None) |}.
Definition build_index (name tbl : string) : Build.InvertedIndex :=
  {| Build.ii_filenameBase := name;
     Build.indexKeysTable := tbl;
     Build.ii_collate := fun _ => (2%nat, None);
     Build.ii_buildFiles := fun _ _ => (["v1-" +:+ name +:+ ".ef"], None) |}.
Definition build_agg (storage_fails : bool) : Build.Aggregator :=
  {| Build.aggregationStep := 100;
     Build.collateAndBuildWorkers := 1;
     Build.d := fun id =>
       match id with
       | AccountsDomain => build_domain "accounts" false
       | StorageDomain => build_domain "storage" storage_fails
       | CodeDomain => build_domain "code" false
       | CommitmentDomain => build_domain "commitment" false
       end;
     Build.iis := fun pos =>
       match pos with
       | LogAddrIdxPos => build_index "logaddrs" "LogAddressKeys"
       | LogTopicIdxPos => build_index "logtopics" "LogTopicsKeys"
       | TracesFromIdxPos => build_index "tracesfrom" "TracesFromKeys"
       | TracesToIdxPos => build_index "tracesto" "TracesToKeys"
       end;
     Build.ap := [] |}.

(** A squeeze over one Commitment file of steps [0,1) whose second value
    cannot be transformed. *)
Definition state_key : bytes := [x73; x74; x61; x74; x65].
Definition squeeze_env : Squeeze.Env :=
  {| Squeeze.keyCommitmentState := state_key;
     Squeeze.commitmentValTransformDomain := fun _ _ v _ _ =>
       match v with
       | Some [xff] => (None, Some "reference not found")
       | Some b => (Some (x00 :: b), None)
       | None => (None, None)
       end;
     Squeeze.kvBtFilePath := fun f t => "v1-commitment.0-1.bt";
     Squeeze.kvAccessorFilePath := fun f t => "v1-commitment.0-1.kvi";
     Squeeze.kvExistenceIdxFilePath := fun f t => "v1-commitment.0-1.kvei";
     Squeeze.NewCompressor_err := fun _ => None;
     Squeeze.AddWord_err := fun _ _ _ => None;
     Squeeze.Compress_err := fun _ _ => None;
     Squeeze.Rename_err := fun _ _ => None;
     Squeeze.Stat_err := fun _ => None;
     Squeeze.Remove_err := fun _ => None |}.
Definition squeeze_item (path : string) (ps : list (option bytes * option bytes))
  : Squeeze.filesItem :=
  {| Squeeze.startTxNum := 0; Squeeze.endTxNum := 100;
     Squeeze.FilePath := path; Squeeze.FileName := path; Squeeze.pairs := ps |}.
Definition squeeze_view (ps : list (option bytes * option bytes))
  : Squeeze.AggregatorRoTx :=
  {| Squeeze.commitmentValuesTransform := true;
     Squeeze.StepSize := 100;
     Squeeze.accountFiles := [squeeze_item "v1-accounts.0-1.kv" []];
     Squeeze.storageFiles := [squeeze_item "v1-storage.0-1.kv" []];
     Squeeze.commitFiles := [squeeze_item "v1-commitment.0-1.kv" ps] |}.
Definition squeeze_disk : Squeeze.sqstate :=
  {| Squeeze.fs := {[ "v1-commitment.0-1.kv" := [Some [x01]; Some [x02]] ]};
     Squeeze.ops := []; Squeeze.obsoleteFiles := []; Squeeze.temporalFiles := [];
     Squeeze.processedFiles := 0 |}.

(** The same squeeze on a disk that fills up: the compressor takes two
    words and fails on the third. *)
Definition squeeze_env_full : Squeeze.Env :=
  {| Squeeze.keyCommitmentState := state_key;
     Squeeze.commitmentValTransformDomain :=
       Squeeze.commitmentValTransformDomain squeeze_env;
     Squeeze.kvBtFilePath := Squeeze.kvBtFilePath squeeze_env;
     Squeeze.kvAccessorFilePath := Squeeze.kvAccessorFilePath squeeze_env;
     Squeeze.kvExistenceIdxFilePath := Squeeze.kvExistenceIdxFilePath squeeze_env;
     Squeeze.NewCompressor_err := fun _ => None;
     Squeeze.AddWord_err := fun _ written _ =>
       if decide (length written = 2%nat) then Some "no space left on device"
       else None;
     Squeeze.Compress_err := fun _ _ => None;
     Squeeze.Rename_err := fun _ _ => None;
     Squeeze.Stat_err := fun _ => None;
     Squeeze.Remove_err := fun _ => None |}.

(** A merge pass over Accounts, Storage and Commitment (Code has nothing
    to merge) with four workers. The Commitment output records the
    files its transformer was built against. *)
Definition merge_pass : Merge.Pass :=
  {| Merge.commitmentValuesTransform := true;
     Merge.mergeWorkers := 4;
     Merge.any := fun id => match id with CodeDomain => false | _ => true end;
     Merge.others := 0 |}.
End Samples.

(** ** More reads through an [AggregatorRoTx]: [HistoryRange] and
       [DebugEFAllValuesAreInRange] *)

Module Histories.
Import Kv.

(** The domain whose history a [kv.History] names. *)
Definition history_domain (name : History) : option Domain :=
  match name with
  | AccountsHistory => Some AccountsDomain
  | StorageHistory => Some StorageDomain
  | CodeHistory => Some CodeDomain
  | CommitmentHistory => Some CommitmentDomain
  | OtherHistory _ => None
  end.

Section Components.
(** [kv.Tx]; the iterator a history hands out ([iter.KVS]) and the one
    [iter.WrapKV] makes of it ([iter.KV]). *)
Variables (Tx Hr KV : Type).
Variable WrapKV : option Hr -> KV.

(** The verb [%s] applied to a [kv.History]. *)
Variable History_String : History -> string.

(** [ac.d[id].ht.HistoryRange], [ac.d[id].ht.iit.DebugEFAllValuesAreInRange]
    and [ac.iis[pos].DebugEFAllValuesAreInRange]. *)
Record AggregatorRoTx : Type := {
  ht_HistoryRange : Domain -> Z -> Z -> Read.By -> Z -> Tx -> option Hr * option error;
  iit_DebugEFAllValuesAreInRange : Domain -> bool -> Z -> option error;
  iis_DebugEFAllValuesAreInRange : InvertedIdxPos -> bool -> Z -> option error
}.

Definition HistoryRange (ac : AggregatorRoTx) (name : History) (fromTs toTs : Z)
    (asc : Read.By) (limit : Z) (tx : Tx) : option KV * option error :=
  let domainName :=
    match name with
    | AccountsHistory => Some AccountsDomain
    | StorageHistory => Some StorageDomain
    | CodeHistory => Some CodeDomain
    | _ => None
    end in
  match domainName with
  | None => (None, Some ("unexpected history name: " +:+ History_String name))
  | Some domainName =>
      let '(hr, err) := ht_HistoryRange ac domainName fromTs toTs asc limit tx in
      match err with
      | Some e => (None, Some e)
      | None => (Some (WrapKV hr), None)
      end
  end.

(** The verb [%s] applied to a [kv.InvertedIdx]. *)
Variable InvertedIdx_String : InvertedIdx -> string.

Definition DebugEFAllValuesAreInRange (ac : AggregatorRoTx) (name : InvertedIdx)
    (failFast : bool) (fromStep : Z) : outcome (option error) :=
  match name with
  | AccountsHistoryIdx =>
      Returns (iit_DebugEFAllValuesAreInRange ac AccountsDomain failFast fromStep)
  | StorageHistoryIdx =>
      Returns (iit_DebugEFAllValuesAreInRange ac CodeDomain failFast fromStep)
  | CodeHistoryIdx =>
      Returns (iit_DebugEFAllValuesAreInRange ac StorageDomain failFast fromStep)
  | CommitmentHistoryIdx =>
      Returns (iit_DebugEFAllValuesAreInRange ac CommitmentDomain failFast fromStep)
  | TracesFromIdx =>
      Returns (iis_DebugEFAllValuesAreInRange ac TracesFromIdxPos failFast fromStep)
  | TracesToIdx =>
      Returns (iis_DebugEFAllValuesAreInRange ac TracesToIdxPos failFast fromStep)
  | LogAddrIdx =>
      Returns (iis_DebugEFAllValuesAreInRange ac LogAddrIdxPos failFast fromStep)
  | LogTopicIdx =>
      Returns (iis_DebugEFAllValuesAreInRange ac LogTopicIdxPos failFast fromStep)
  | OtherIdx _ => Panics ("unexpected: " +:+ InvertedIdx_String name)
  end.

(** The check of the component [c]. *)
Definition component_Debug (ac : AggregatorRoTx) (c : Read.component)
    (failFast : bool) (fromStep : Z) : option error :=
  match c with
  | Read.DomainHistory dom => iit_DebugEFAllValuesAreInRange ac dom failFast fromStep
  | Read.Standalone pos => iis_DebugEFAllValuesAreInRange ac pos failFast fromStep
  end.
End Components.

(** Storage and Code exchanged, everything else in place. *)
Definition swap_storage_code (c : Read.component) : Read.component :=
  match c with
  | Read.DomainHistory StorageDomain => Read.DomainHistory CodeDomain
  | Read.DomainHistory CodeDomain => Read.DomainHistory StorageDomain
  | other => other
  end.

Arguments ht_HistoryRange {Tx Hr} _ _ _ _ _ _ _.
Arguments iit_DebugEFAllValuesAreInRange {Tx Hr} _ _ _ _.
Arguments iis_DebugEFAllValuesAreInRange {Tx Hr} _ _ _ _.
Arguments HistoryRange {Tx Hr KV} _ _ _ _ _ _ _ _ _.
Arguments DebugEFAllValuesAreInRange {Tx Hr} _ _ _ _ _.
Arguments component_Debug {Tx Hr} _ _ _ _.
End Histories.

(** ** Steps and txNums: [firstTxNumOfStep], [lastTxNumOfStep] *)

Module Steps.
Definition firstTxNumOfStep (step size : Z) : Z := U64.mul step size.

Definition lastTxNumOfStep (step size : Z) : Z :=
  U64.sub (firstTxNumOfStep (U64.add step 1) size) 1.

(** The step argument of a domain prune. *)
Definition call_step (c : Prune.call) : option Z :=
  match c with
  | Prune.DomainPrune _ step _ _ _ => Some step
  | _ => None
  end.

(** [s'] extends the log of [s] by calls that satisfy [Q]. *)
Definition logs_only (Q : Prune.call -> Prop) (s s' : Prune.pstate) : Prop :=
  exists cs, Prune.log s' = Prune.log s ++ cs /\ forall c, c ∈ cs -> Q c.

(** A call that, if it prunes a domain, prunes it at step [st]. *)
Definition at_step (st : Z) (c : Prune.call) : Prop :=
  forall step, call_step c = Some step -> step = st.
End Steps.

(** ** [BackgroundResult] and [Aggregator.HasNewFrozenFiles] *)

Module Background.
Record BackgroundResult : Type := { err : option error; has : bool }.

Definition Has : State BackgroundResult bool := fun br => (has br, br).

Definition Set_ (e : option error) : State BackgroundResult unit := fun _ =>
  (tt, {| err := e; has := true |}).

Definition GetAndReset : State BackgroundResult (bool * option error) := fun br =>
  ((has br, err br), {| err := None; has := false |}).

(** The calls made on one [BackgroundResult] and what they return. *)
Inductive op : Type :=
| OpHas
| OpSet (e : option error)
| OpGetAndReset.

Inductive answer : Type :=
| AHas (b : bool)
| ASet
| AGetAndReset (has : bool) (e : option error).

Definition call (o : op) : State BackgroundResult answer :=
  match o with
  | OpHas => do b <- Has ; ret (AHas b)
  | OpSet e => do _ <- Set_ e ; ret ASet
  | OpGetAndReset => do r <- GetAndReset ; ret (AGetAndReset r.1 r.2)
  end.

Fixpoint calls (ops : list op) : State BackgroundResult (list answer) :=
  match ops with
  | [] => ret []
  | o :: rest => do x <- call o ; do xs <- calls rest ; ret (x :: xs)
  end.

Definition is_Has (o : op) : Prop := o = OpHas.
End Background.

Module Frozen.
(** [a.needSaveFilesListInDB]; the receiver of [HasNewFrozenFiles] is a
    nil-able pointer and the flag lives behind it. *)
Definition HasNewFrozenFiles (a : bool) (needSaveFilesListInDB : bool) : bool * bool :=
  if a then
    (* CompareAndSwap(true, false) *)
    if needSaveFilesListInDB then (true, false) else (false, needSaveFilesListInDB)
  else (false, needSaveFilesListInDB).

#[global] Instance build_event_eq_dec : EqDecision Build.event.
Proof. solve_decision. Defined.

(** The flag after the events of a build round: [integrateDirtyFiles]
    ends with [a.needSaveFilesListInDB.Store(true)]. *)
Definition needSave_after (tr : list Build.event) (flag : bool) : bool :=
  foldl (fun f ev => match ev with Build.NeedSaveFilesListInDB => true | _ => f end)
        flag tr.
End Frozen.

(** ** Unwinding: [CanUnwindBeforeBlockNum] and its helpers *)

Module Unwind.
Import Kv.

Section WithDb.
(** [kv.Tx] and [ReadLowestUnwindableBlock], which reads it. *)
Variable Tx : Type.
Variable ReadLowestUnwindableBlock : Tx -> Z * option error.

Definition CanUnwindToBlockNum (tx : Tx) : Z * option error :=
  ReadLowestUnwindableBlock tx.

Definition CanUnwindDomainsToTxNum (ac : Prune.AggregatorRoTx) : Z :=
  Prune.minimaxTxNumInDomainFiles ac.

Definition CanUnwindBeforeBlockNum (ac : Prune.AggregatorRoTx) (blockNum : Z) (tx : Tx)
  : Z * bool * option error :=
  if (blockNum =? 0) && (0 <? CanUnwindDomainsToTxNum ac) then
    let '(_minBlockNum, _) := CanUnwindToBlockNum tx in
    (_minBlockNum, _minBlockNum <=? blockNum, None)
  else (blockNum, true, None).
End WithDb.

Definition EndTxNumNoCommitment (ac : Prune.AggregatorRoTx) : Z :=
  Z.min (Z.min (Prune.files_EndTxNum (Prune.d ac AccountsDomain))
               (Prune.files_EndTxNum (Prune.d ac CodeDomain)))
        (Prune.files_EndTxNum (Prune.d ac StorageDomain)).

Arguments CanUnwindBeforeBlockNum {Tx} _ _ _ _.
End Unwind.

(** ** [AggregatorStep]: [MakeSteps], [Clone] and the reads that share
       a key buffer *)

Module StepReads.
Import Kv.

(** A byte slice that starts at the head of its backing array: the
    array, whose length is the capacity, and the length of the slice. *)
Record slice : Type := { arr : list byte; len : nat }.

Definition cap (s : slice) : nat := length (arr s).
Definition nil_slice : slice := {| arr := []; len := 0 |}.

(** [make([]byte, n)] *)
Definition make (n : nat) : slice := {| arr := replicate n x00; len := n |}.

(** The bytes seen through the slice. *)
Definition contents (s : slice) : bytes := take (len s) (arr s).

(** [copy(s[off:], src)]: as many bytes of [src] as [s[off:]] has room for. *)
Definition copy_from (s : slice) (off : nat) (src : bytes) : slice :=
  let n := ((len s - off) `min` length src)%nat in
  {| arr := take off (arr s) ++ take n src ++ drop (off + n)%nat (arr s);
     len := len s |}.

(** The buffer after
    [if cap(keyBuf) < n { keyBuf = make([]byte, n) }
     else if len(keyBuf) != n { keyBuf = keyBuf[:n] };
     copy(keyBuf, addr); copy(keyBuf[len(addr):], loc)]. *)
Definition fill_keyBuf (keyBuf : slice) (addr loc : bytes) : slice :=
  let n := (length addr + length loc)%nat in
  let keyBuf :=
    if bool_decide (cap keyBuf < n)%nat then make n
    else if bool_decide (len keyBuf <> n) then {| arr := arr keyBuf; len := n |}
    else keyBuf in
  copy_from (copy_from keyBuf 0 addr) (length addr) loc.

Section Steps.
(** [*HistoryStep] and the methods used here. *)
Variable HistoryStep : Type.
Variable GetNoState : HistoryStep -> bytes -> Z -> option bytes * bool * Z.
Variable MaxTxNum : HistoryStep -> bytes -> bool * Z.
Variable Clone_step : HistoryStep -> HistoryStep.

(** The history steps are behind pointers; [None] is nil. *)
Record AggregatorStep : Type := {
  accounts : option HistoryStep;
  storage : option HistoryStep;
  code : option HistoryStep;
  commitment : option HistoryStep;
  keyBuf : slice
}.

Definition set_keyBuf (kb : slice) (st : AggregatorStep) : AggregatorStep :=
  {| accounts := accounts st; storage := storage st; code := code st;
     commitment := commitment st; keyBuf := kb |}.

Definition ReadAccountStorageNoState (st : AggregatorStep) (addr loc : bytes) (txNum : Z)
  : outcome (option bytes * bool * Z) * AggregatorStep :=
  let kb := fill_keyBuf (keyBuf st) addr loc in
  (match storage st with
   | Some h => Returns (GetNoState h (contents kb) txNum)
   | None => Panics "nil pointer dereference"
   end, set_keyBuf kb st).

Definition MaxTxNumStorage (st : AggregatorStep) (addr loc : bytes)
  : outcome (bool * Z) * AggregatorStep :=
  let kb := fill_keyBuf (keyBuf st) addr loc in
  (match storage st with
   | Some h => Returns (MaxTxNum h (contents kb))
   | None => Panics "nil pointer dereference"
   end, set_keyBuf kb st).

(** [as.accounts.Clone()] on a nil pointer is left to the callee. *)
Definition Clone (st : AggregatorStep) : AggregatorStep :=
  {| accounts := Clone_step <$> accounts st;
     storage := Clone_step <$> storage st;
     code := Clone_step <$> code st;
     commitment := None;
     keyBuf := nil_slice |}.

(** The domains of the aggregator, as far as [MakeSteps] uses them. *)
Record Aggregator : Type := {
  dirtyFilesEndTxNumMinimax : Domain -> Z;
  d_MakeSteps : Domain -> Z -> list HistoryStep
}.

Definition EndTxNumDomainsFrozen (a : Aggregator) : Z :=
  Z.min (Z.min (Z.min (dirtyFilesEndTxNumMinimax a AccountsDomain)
                      (dirtyFilesEndTxNumMinimax a StorageDomain))
               (dirtyFilesEndTxNumMinimax a CodeDomain))
        (dirtyFilesEndTxNumMinimax a CommitmentDomain).

(** [for i, accountStep := range accountSteps { steps[i] = ... }], from
    index [i] on; an index beyond a slice panics. *)
Fixpoint zip_steps (i : nat) (accountSteps storageSteps codeSteps commitmentSteps
                      : list HistoryStep) : outcome (list AggregatorStep) :=
  match accountSteps with
  | [] => Returns []
  | accountStep :: rest =>
      match storageSteps !! i, codeSteps !! i, commitmentSteps !! i with
      | Some s, Some c, Some m =>
          match zip_steps (S i) rest storageSteps codeSteps commitmentSteps with
          | Returns steps =>
              Returns ({| accounts := Some accountStep; storage := Some s;
                          code := Some c; commitment := Some m;
                          keyBuf := nil_slice |} :: steps)
          | Panics msg => Panics msg
          end
      | _, _, _ => Panics "index out of range"
      end
  end.

Definition MakeSteps (a : Aggregator)
  : outcome (option (list AggregatorStep) * option error) :=
  let frozenAndIndexed := EndTxNumDomainsFrozen a in
  let accountSteps := d_MakeSteps a AccountsDomain frozenAndIndexed in
  let codeSteps := d_MakeSteps a CodeDomain frozenAndIndexed in
  let storageSteps := d_MakeSteps a StorageDomain frozenAndIndexed in
  let commitmentSteps := d_MakeSteps a CommitmentDomain frozenAndIndexed in
  if negb (length accountSteps =? length storageSteps)%nat
     || negb (length storageSteps =? length codeSteps)%nat
  then
    Returns (None,
             Some ("different limit of steps (try merge snapshots): accountSteps="
                     +:+ Filepath.fmt_d (Z.of_nat (length accountSteps))
                     +:+ ", storageSteps="
                     +:+ Filepath.fmt_d (Z.of_nat (length storageSteps))
                     +:+ ", codeSteps="
                     +:+ Filepath.fmt_d (Z.of_nat (length codeSteps))))
  else
    match zip_steps 0 accountSteps storageSteps codeSteps commitmentSteps with
    | Returns steps => Returns (Some steps, None)
    | Panics msg => Panics msg
    end.
End Steps.

Arguments accounts {HistoryStep} _.
Arguments storage {HistoryStep} _.
Arguments code {HistoryStep} _.
Arguments commitment {HistoryStep} _.
Arguments keyBuf {HistoryStep} _.
Arguments ReadAccountStorageNoState {HistoryStep} _ _ _ _ _.
Arguments MaxTxNumStorage {HistoryStep} _ _ _ _.
Arguments Clone {HistoryStep} _ _.
Arguments dirtyFilesEndTxNumMinimax {HistoryStep} _ _.
Arguments d_MakeSteps {HistoryStep} _ _ _.
Arguments EndTxNumDomainsFrozen {HistoryStep} _.
Arguments MakeSteps {HistoryStep} _.
End StepReads.

(** ** Byte-level helpers: [u64tob], [keybytesToHex], [getBlockTotal] *)

Module Tools.
Import BigEndian.

(** [binary.BigEndian.PutUint64] into a fresh slice of 8 bytes. *)
Definition PutUint64 (v : Z) : bytes :=
  [byte_of_Z (Z.shiftr v 56); byte_of_Z (Z.shiftr v 48);
   byte_of_Z (Z.shiftr v 40); byte_of_Z (Z.shiftr v 32);
   byte_of_Z (Z.shiftr v 24); byte_of_Z (Z.shiftr v 16);
   byte_of_Z (Z.shiftr v 8); byte_of_Z v].

Definition u64tob (v : Z) : bytes := PutUint64 v.

(** [bytes.Compare], the order of the keys of a table. *)
Fixpoint bytes_compare (a b : bytes) : comparison :=
  match a, b with
  | [], [] => Eq
  | [], _ :: _ => Lt
  | _ :: _, [] => Gt
  | x :: a', y :: b' =>
      match Z_of_byte x ?= Z_of_byte y with
      | Eq => bytes_compare a' b'
      | c => c
      end
  end.

(** The body of [for i, b := range str], from index [i] on. *)
Fixpoint fill_nibbles (i : nat) (str : bytes) (nibbles : bytes) : bytes :=
  match str with
  | [] => nibbles
  | b :: rest =>
      fill_nibbles (S i) rest
        (<[(i * 2 + 1)%nat := byte_of_Z (Z_of_byte b mod 16)]>
           (<[(i * 2)%nat := byte_of_Z (Z_of_byte b / 16)]> nibbles))
  end.

Definition keybytesToHex (str : bytes) : bytes :=
  let l := (length str * 2 + 1)%nat in
  let nibbles := replicate l x00 in
  let nibbles := fill_nibbles 0 str nibbles in
  <[(l - 1)%nat := x10]> nibbles.

(** [head] is what [rawdb.ReadCurrentBlockNumber] returns, a nil-able
    pointer. [blockTotalOrOffset] is an [int64]; the conversion
    [uint64(-blockTotalOrOffset)] keeps the 64 bits of the negation. *)
Definition getBlockTotal (head : option Z) (blockFrom blockTotalOrOffset : Z) : Z :=
  if 0 <? blockTotalOrOffset then blockTotalOrOffset
  else
    match head with
    | Some head =>
        let blockSub := U64.wrap (- blockTotalOrOffset) in
        if blockSub <=? head then
          let blockEnd := U64.sub head blockSub in
          if blockFrom <? blockEnd then U64.add (U64.sub blockEnd blockFrom) 1
          else 1
        else 1
    | None => 1
    end.
End Tools.

(** ** Runs of the prune drivers *)

Module BatchRuns.
Import Batches.

(** An iteration after which [PruneSmallBatchesDb] goes on: [Prune]
    returned a stat, [db.Update] no error, and neither the timeout nor
    the context fired. *)
Definition goes_on (it : iteration) : Prop :=
  (exists prunedNothing, prune it = PruneStat prunedNothing)
  /\ update_err it = None
  /\ (sel it = SelDefault \/ sel it = SelLog).

(** An iteration after which [PruneSmallBatches] goes on: [Prune]
    returned a stat that pruned something, and neither the timeout nor
    the context fired. *)
Definition prunes_on (it : iteration) : Prop :=
  prune it = PruneStat false
  /\ (sel it = SelDefault \/ sel it = SelLog).

(** Such an iteration that pruned something in less than 2 seconds. *)
Definition fast (it : iteration) : Prop :=
  prune it = PruneStat false
  /\ update_err it = None
  /\ (sel it = SelDefault \/ sel it = SelLog)
  /\ took it < 2 * Second.

(** A driver has called [ac.Prune] [n] times and stands at [r]:
    [(haveMore, err)] if it has returned, [None] if it is still going. *)
Definition after_calls (run : outcome Batches.run) (n : nat)
    (r : option (bool * option error)) : Prop :=
  exists ls, run = Returns (ls, r) /\ length ls = n.

(** The iteration at which a run that handed out the limits [ls] stands. *)
Definition current (obs : list iteration) (ls : list Z) : option iteration :=
  obs !! pred (length ls).
End BatchRuns.

(** ** [AggregatorPruneStat]: [PrunedNothing] and [String] *)

Module PruneStat.
Import Prune.

Section Stats.
(** [PrunedNothing] and [String] of [*DomainPruneStat] and of
    [*InvertedIndexPruneStat]. *)
Variable d_PrunedNothing : Stat -> bool.
Variable d_String : Stat -> string.
Variable ii_PrunedNothing : Stat -> bool.
Variable ii_String : Stat -> string.

(** [v != nil && !v.PrunedNothing()] *)
Definition pruned_something (nothing : Stat -> bool) (v : option Stat) : bool :=
  match v with
  | Some st => negb (nothing st)
  | None => false
  end.

(** [for _, d := range m { if d != nil && !d.PrunedNothing() { return false } }],
    over the entries in the order the map hands them out. *)
Fixpoint none_pruned (nothing : Stat -> bool) (entries : list (string * option Stat))
  : bool :=
  match entries with
  | [] => true
  | (_, v) :: rest =>
      if pruned_something nothing v then false else none_pruned nothing rest
  end.

(** [as.PrunedNothing()], the two maps being iterated in the orders
    [ds] and [ixs]. *)
Definition PrunedNothing_in (ds ixs : list (string * option Stat)) : bool :=
  if none_pruned d_PrunedNothing ds then none_pruned ii_PrunedNothing ixs
  else false.

Definition PrunedNothing (as_ : AggregatorPruneStat) : bool :=
  PrunedNothing_in (map_to_list (Domains_ as_)) (map_to_list (Indices as_)).

(** [names[i] < names[j]] on strings compares byte by byte. *)
Definition name_le (a b : string) : Prop := String.leb a b = true.

#[global] Instance name_le_dec (a b : string) : Decision (name_le a b).
Proof. unfold name_le. apply _. Defined.

(** The keys of a map, after [sort.Slice]. *)
Definition sorted_names (m : gmap string (option Stat)) : list string :=
  merge_sort name_le (map fst (map_to_list m)).

(** [for _, d := range names { v, ok := m[d]; if ok && v != nil &&
    !v.PrunedNothing() { sb.WriteString(Sprintf("%s| %s; ", d, v.String())) } }] *)
Fixpoint write_stats (nothing : Stat -> bool) (str : Stat -> string)
    (m : gmap string (option Stat)) (names : list string) (sb : string) : string :=
  match names with
  | [] => sb
  | d :: rest =>
      let sb :=
        match m !! d with
        | Some (Some v) =>
            if negb (nothing v) then sb +:+ (d +:+ "| " +:+ str v +:+ "; ")
            else sb
        | _ => sb
        end in
      write_stats nothing str m rest sb
  end.

(** [as.String()]; [None] is the nil receiver. *)
Definition String_ (as_ : option AggregatorPruneStat) : string :=
  match as_ with
  | None => ""
  | Some as_ =>
      let sb := write_stats d_PrunedNothing d_String (Domains_ as_)
                  (sorted_names (Domains_ as_)) "" in
      let sb := write_stats ii_PrunedNothing ii_String (Indices as_)
                  (sorted_names (Indices as_)) sb in
      Squeeze.TrimSuffix sb "; "
  end.
End Stats.
End PruneStat.

(** ** [mergeLoopStep] and [MergeLoop] *)

Module MergeLoop.
Import Kv.

Record MergeRange : Type := { needMerge : bool; from : Z; to : Z }.

(** [RangesV3]: of a [DomainRanges] only [any()] is read here; the
    index and appendable entries are nil-able pointers. *)
Record RangesV3 : Type := {
  domain_any : Domain -> bool;
  invertedIndex : InvertedIdxPos -> option MergeRange;
  appendable : list (option MergeRange)
}.

(** [for _, ii := range r.invertedIndex { if ii.needMerge { return true } }] *)
Fixpoint any_index (r : RangesV3) (ps : list InvertedIdxPos) : outcome bool :=
  match ps with
  | [] => Returns false
  | p :: rest =>
      match invertedIndex r p with
      | None => Panics "invalid memory address or nil pointer dereference"
      | Some ii => if needMerge ii then Returns true else any_index r rest
      end
  end.

Definition any (r : RangesV3) : outcome bool :=
  if existsb (domain_any r) Domains then Returns true
  else any_index r StandaloneIdx.

(** What one call of [mergeLoopStep] meets: the atomic
    [visibleFilesMinimaxTxNum], the ranges [findMergeRange] finds, the
    errors of [staticFilesInRange] and of [mergeFiles], what
    [minimaxTxNumInDomainFiles] gives once the merged files are
    integrated, and the frozen files of the merged set. *)
Record attempt : Type := {
  minimax : Z;
  found : RangesV3;
  outs_err : option error;
  merge_err : option error;
  minimax_after : Z;
  frozen : list string
}.

(** What a step does to the aggregator. The calls into a single
    component (a domain, an index, an appendable) are one event each. *)
Inductive event : Type :=
| EvBeginFilesRo                                (* a.BeginFilesRo() *)
| EvViewClose                                   (* Close() of a view *)
| EvMxInc
| EvMxDec
| EvFindMergeRange (maxEndTxNum maxSpan : Z)
| EvStaticFilesInRange
| EvMergeFiles                                  (* the merges of aggTx.mergeFiles *)
| EvOutsClose                                   (* outs.Close() *)
| EvInClose                                     (* mf.Close(), in.Close() *)
| EvDirtyLock                                   (* a.dirtyFilesLock.Lock() *)
| EvDirtyUnlock
| EvVisibleLock                                 (* a.visibleFilesLock.Lock() *)
| EvVisibleUnlock
| EvIntegrateMergedDomain (id : Domain)
| EvIntegrateMergedIndex (pos : InvertedIdxPos)
| EvIntegrateMergedAppendable (id : nat)
| EvReCalcDomain (id : Domain)                  (* domain.reCalcVisibleFiles() *)
| EvReCalcIndex (pos : InvertedIdxPos)
| EvStoreMinimax (v : Z)                        (* visibleFilesMinimaxTxNum.Store *)
| EvCleanDomain (id : Domain)                   (* d.cleanAfterMerge(...) *)
| EvCleanIndex (pos : InvertedIdxPos)
| EvCleanAppendable (id : nat)
| EvNeedSave                                    (* needSaveFilesListInDB.Store(true) *)
| EvOnFreeze (files : list string).

#[global] Instance merge_event_eq_dec : EqDecision event.
Proof. solve_decision. Defined.

Section Loop.
Variable StepsInColdFile : Z.
Variable aggregationStep : Z.
(** [kv.AppendableLen], the length of [a.ap] and of a view's
    [appendable]. *)
Variable AppendableLen : nat.

(** [a.recalcVisibleFilesMinimaxTxNum()], [v] being what
    [aggTx.minimaxTxNumInDomainFiles()] gives. *)
Definition recalcVisibleFilesMinimaxTxNum (v : Z) : list event :=
  [EvBeginFilesRo; EvStoreMinimax v; EvViewClose].

(** [a.recalcVisibleFiles()]; the deferred unlock and the deferred
    recalculation of the minimax run last, in this order. *)
Definition recalcVisibleFiles (v : Z) : list event :=
  [EvVisibleLock]
    ++ (EvReCalcDomain <$> Domains)
    ++ (EvReCalcIndex <$> StandaloneIdx)
    ++ [EvVisibleUnlock]
    ++ recalcVisibleFilesMinimaxTxNum v.

(** [a.integrateMergedDirtyFiles(outs, in)]; deferred, in the order they
    run: the unlock, [recalcVisibleFiles], the store of
    [needSaveFilesListInDB]. *)
Definition integrateMergedDirtyFiles (v : Z) : list event :=
  [EvDirtyLock]
    ++ (EvIntegrateMergedDomain <$> Domains)
    ++ (EvIntegrateMergedIndex <$> StandaloneIdx)
    ++ (EvIntegrateMergedAppendable <$> seq 0 AppendableLen)
    ++ [EvDirtyUnlock]
    ++ recalcVisibleFiles v
    ++ [EvNeedSave].

(** [a.cleanAfterMerge(in)], on a view of its own. *)
Definition cleanAfterMerge : list event :=
  [EvBeginFilesRo; EvDirtyLock]
    ++ (EvCleanDomain <$> Domains)
    ++ (EvCleanIndex <$> StandaloneIdx)
    ++ (EvCleanAppendable <$> seq 0 AppendableLen)
    ++ [EvDirtyUnlock; EvViewClose].

(** [aggTx.mergeFiles(ctx, outs, r)] as this loop sees it: the merges,
    and when [g.Wait()] returns an error the deferred [mf.Close()]. *)
Definition mergeFiles (t : attempt) : list event :=
  [EvMergeFiles] ++ match merge_err t with Some _ => [EvInClose] | None => [] end.

(** [a.mergeLoopStep(ctx)]. The deferred calls run last, in the reverse
    order of their [defer]; the two closures close [outs] and [in]
    while [closeAll] is still true, which it is not on the one path on
    which the closure of [in] is registered. *)
Definition mergeLoopStep (t : attempt) : list event * outcome (bool * option error) :=
  let maxSpan := U64.mul StepsInColdFile aggregationStep in
  let body := [EvBeginFilesRo; EvMxInc; EvFindMergeRange (minimax t) maxSpan] in
  let deferred := [EvMxDec; EvViewClose] in
  match any (found t) with
  | Panics msg => (body ++ deferred, Panics msg)
  | Returns false => (body ++ deferred, Returns (false, None))
  | Returns true =>
      let body := body ++ [EvStaticFilesInRange] in
      match outs_err t with
      | Some err => (body ++ [EvOutsClose] ++ deferred, Returns (false, Some err))
      | None =>
          let body := body ++ mergeFiles t in
          match merge_err t with
          | Some err => (body ++ [EvOutsClose] ++ deferred, Returns (true, Some err))
          | None =>
              (body ++ integrateMergedDirtyFiles (minimax_after t)
                    ++ cleanAfterMerge
                    ++ [EvNeedSave; EvOnFreeze (frozen t)] ++ deferred,
               Returns (true, None))
          end
      end
  end.

(** [a.MergeLoop(ctx)] over the attempts its iterations meet; [None]
    when the loop is still running after the last of them. *)
Fixpoint MergeLoop (ts : list attempt)
  : list event * option (outcome (option error)) :=
  match ts with
  | [] => ([], None)
  | t :: rest =>
      let '(tr, r) := mergeLoopStep t in
      match r with
      | Panics msg => (tr, Some (Panics msg))
      | Returns (_, Some err) => (tr, Some (Returns (Some err)))
      | Returns (false, None) => (tr, Some (Returns None))
      | Returns (true, None) =>
          let '(tr', r') := MergeLoop rest in (tr ++ tr', r')
      end
  end.
End Loop.

(** The attempt finds something to merge and merges it. *)
Definition merges (t : attempt) : bool :=
  match any (found t), outs_err t, merge_err t with
  | Returns true, None, None => true
  | _, _, _ => false
  end.

(** How often [e] occurs in a trace. *)
Definition count (e : event) (tr : list event) : nat :=
  length (filter (fun x => x = e) tr).

(** The values stored to [visibleFilesMinimaxTxNum], in order. *)
Definition stored (tr : list event) : list Z :=
  omap (fun e => match e with EvStoreMinimax v => Some v | _ => None end) tr.
End MergeLoop.

(** ** [BuildFilesInBackground] *)

Module BuildLoop.

Inductive event : Type :=
| EvCloseFin                                    (* close(fin) *)
| EvWgAdd                                       (* a.wg.Add(1) *)
| EvWgDone                                      (* a.wg.Done() *)
| EvBuildingFiles (b : bool)                    (* a.buildingFiles becomes [b] *)
| EvMergingFiles (b : bool)                     (* a.mergingFiles becomes [b] *)
| EvAcquire                                     (* a.snapshotBuildSema.Acquire *)
| EvRelease                                     (* a.snapshotBuildSema.Release *)
| EvBuildFiles (step : Z)                       (* a.buildFiles(a.ctx, step) *)
| EvBuildOptional                 (* a.BuildOptionalMissedIndicesInBackground *)
| EvMergeLoop                                   (* a.MergeLoop(a.ctx) *)
| EvWarn (err : error).

#[global] Instance bg_event_eq_dec : EqDecision event.
Proof. solve_decision. Defined.

(** The aggregator as the call finds it; [snapshotBuildSema] tells
    whether the semaphore is non-nil. *)
Record Aggregator : Type := {
  produce : bool;
  visibleFilesMinimaxTxNum : Z;
  aggregationStep : Z;
  buildingFiles : bool;
  snapshotBuildSema : bool
}.

(** What the goroutines meet: the error of [Acquire], the successive
    results of [lastIdInDB], the error of [buildFiles] at a step,
    whether an error is [context.Canceled] or [ErrStopped],
    [dbg.NoMerge()], the value [mergingFiles.CompareAndSwap] finds, and
    the error of [MergeLoop]. *)
Record Env : Type := {
  Acquire_err : option error;
  lastIdInDB : list Z;
  buildFiles_err : Z -> option error;
  is_stop : error -> bool;
  NoMerge : bool;
  mergingFiles : bool;
  MergeLoop_err : option error
}.

(** [for ; step < lastIdInDB(...); step++ { if err := a.buildFiles(...) ... }]
    over the results [ids] of [lastIdInDB]; the flag tells that the loop
    ended on a stop error, where the goroutine closes [fin] and returns.
    [None]: the loop is still running after the last of [ids]. *)
Fixpoint build_steps (E : Env) (step : Z) (ids : list Z)
  : option (list event * bool) :=
  match ids with
  | [] => None
  | last :: ids =>
      if step <? last then
        match buildFiles_err E step with
        | Some err =>
            if is_stop E err then Some ([EvBuildFiles step], true)
            else Some ([EvBuildFiles step; EvWarn err], false)
        | None =>
            match build_steps E (U64.add step 1) ids with
            | Some (tr, stopped) => Some (EvBuildFiles step :: tr, stopped)
            | None => None
            end
        end
      else Some ([], false)
  end.

(** The goroutine of the merge; its deferred calls run last. *)
Definition merger (E : Env) : list event :=
  [EvMergeLoop]
  ++ match MergeLoop_err E with
     | Some err => if is_stop E err then [] else [EvWarn err; EvBuildOptional]
     | None => [EvBuildOptional]
     end
  ++ [EvCloseFin; EvMergingFiles false; EvWgDone].

(** The goroutine of the build, and the goroutine of the merge when it
    starts one. *)
Definition builder (E : Env) (a : Aggregator) (step : Z)
  : option (list event * option (list event)) :=
  let deferred := [EvBuildingFiles false; EvWgDone] in
  match (if snapshotBuildSema a then Acquire_err E else None) with
  | Some err => Some ([EvAcquire; EvWarn err] ++ deferred, None)
  | None =>
      let acquired := if snapshotBuildSema a then [EvAcquire] else [] in
      let deferred := (if snapshotBuildSema a then [EvRelease] else []) ++ deferred in
      match lastIdInDB E with
      | [] => None
      | lastInDB :: ids =>
          let hasData := step <? lastInDB in
          if negb hasData then Some (acquired ++ [EvCloseFin] ++ deferred, None)
          else
            match build_steps E step ids with
            | None => None
            | Some (built, true) =>
                Some (acquired ++ built ++ [EvCloseFin] ++ deferred, None)
            | Some (built, false) =>
                let body := acquired ++ built ++ [EvBuildOptional] in
                if NoMerge E then Some (body ++ [EvCloseFin] ++ deferred, None)
                else if mergingFiles E
                then Some (body ++ [EvCloseFin] ++ deferred, None)
                else Some (body ++ [EvMergingFiles true; EvWgAdd] ++ deferred,
                           Some (merger E))
            end
      end
  end.

(** What a call sets off: the events of the caller, of the build
    goroutine and of the merge goroutine. *)
Record work : Type := {
  caller : list event;
  build_goroutine : option (list event);
  merge_goroutine : option (list event)
}.

Definition events (w : work) : list event :=
  caller w ++ default [] (build_goroutine w) ++ default [] (merge_goroutine w).

(** [a.BuildFilesInBackground(txNum)] with the goroutines it starts.
    [Returns None]: the build loop is still running after the last
    result of [lastIdInDB] that [E] holds. *)
Definition BuildFilesInBackground (E : Env) (a : Aggregator) (txNum : Z)
  : outcome (option work) :=
  let closed :=
    Returns (Some {| caller := [EvCloseFin]; build_goroutine := None;
                     merge_goroutine := None |}) in
  if negb (produce a) then closed
  else if U64.add txNum 1 <=? U64.add (visibleFilesMinimaxTxNum a) (aggregationStep a)
  then closed
  else if buildingFiles a then closed
  else if aggregationStep a =? 0 then Panics "integer divide by zero"
  else
    let step := U64.div (visibleFilesMinimaxTxNum a) (aggregationStep a) in
    match builder E a step with
    | None => Returns None
    | Some (b, m) =>
        Returns (Some {| caller := [EvBuildingFiles true; EvWgAdd];
                         build_goroutine := Some b; merge_goroutine := m |})
    end.

(** How often [e] occurs in a trace. *)
Definition count (e : event) (tr : list event) : nat :=
  length (filter (fun x => x = e) tr).


(** The events of the build loop. *)
Definition of_loop (e : event) : Prop :=
  match e with EvBuildFiles _ | EvWarn _ => True | _ => False end.

(** Whether the build goroutine was started and failed to acquire the
    semaphore. *)
Definition acquire_failed (E : Env) (a : Aggregator) (w : work) : bool :=
  match build_goroutine w with
  | Some _ => snapshotBuildSema a && bool_decide (Acquire_err E <> None)
  | None => false
  end.
End BuildLoop.

(** ** [SqueezeCommitmentFiles]: the run that succeeds *)

Module SqueezeDone.
Import Squeeze.

(** The Commitment files the loop processes: those with an Accounts
    and a Storage file of the same txNum range. *)
Definition processed (ac : AggregatorRoTx) (cfs : list filesItem) : list filesItem :=
  filter (fun cf => is_Some (paired ac cf)) cfs.

(** The words the closure writes for [cf]. *)
Definition squeezed_words (E : Env) (ac : AggregatorRoTx) (cf : filesItem)
  : list word :=
  match paired ac cf with
  | Some (af, sf) =>
      concat (squeezed_pair E (commitmentValTransformDomain E af sf) af <$> pairs cf)
  | None => []
  end.

(** The paths the closure appends to [obsoleteFiles] for [cf]. *)
Definition obsolete_of (E : Env) (ac : AggregatorRoTx) (cf : filesItem)
  : list string :=
  match paired ac cf with
  | Some (af, _) =>
      let fromStep := startTxNum af / StepSize ac in
      let toStep := endTxNum af / StepSize ac in
      [FilePath cf; kvBtFilePath E fromStep toStep;
       kvAccessorFilePath E fromStep toStep;
       kvExistenceIdxFilePath E fromStep toStep]
  | None => []
  end.
End SqueezeDone.

(** ** The order in which [Prune] visits the components *)

Module PrunePlan.
Import Kv Prune.

(** The component prunes of one [Prune], in the order of its loops:
    the domains, the standalone indices, the appendables. *)
Definition domain_calls (step txFrom txTo limit : Z) : list call :=
  (fun id => DomainPrune id step txFrom txTo limit) <$> Domains.

Definition index_calls (txFrom txTo limit : Z) : list call :=
  (fun pos => IndexPrune pos txFrom txTo limit) <$> StandaloneIdx.

Definition appendable_calls (ac : AggregatorRoTx) (txFrom txTo limit : Z) : list call :=
  imap (fun i _ => AppendablePrune i txFrom txTo limit) (appendable ac).

Definition plan (ac : AggregatorRoTx) (step txFrom txTo limit : Z) : list call :=
  domain_calls step txFrom txTo limit
  ++ index_calls txFrom txTo limit
  ++ appendable_calls ac txFrom txTo limit.
(** The component prune that a call stands for. *)
Definition component (ac : AggregatorRoTx) (c : call)
  : State HotStore (option Stat * option error) :=
  match c with
  | DomainPrune id step txFrom txTo limit => d_Prune (d ac id) step txFrom txTo limit
  | IndexPrune pos txFrom txTo limit => ii_Prune (iis ac pos) txFrom txTo limit
  | AppendablePrune i txFrom txTo limit =>
      match appendable ac !! i with
      | Some ap => ap_Prune ap txFrom txTo limit
      | None => ret (None, None)
      end
  end.

(** The hot store once the calls [cs] have run on it, one after the
    other. *)
Definition store_after (ac : AggregatorRoTx) (cs : list call) (st : HotStore)
  : HotStore :=
  foldl (fun st c => (component ac c st).2) st cs.

(** The error the [i]-th call of [cs] returns when the calls before it
    have run on [st]; [None] also when there is no such call. *)
Definition error_at (ac : AggregatorRoTx) (cs : list call) (st : HotStore) (i : nat)
  : option error :=
  match cs !! i with
  | Some c => (component ac c (store_after ac (take i cs) st)).1.2
  | None => None
  end.

(** A loop over the calls [cs] that stops at the first error has made
    the first [n] of them: each on the store the calls before left, and
    all of them but the last without error; it made all of them when it
    returns no error, and the last of them returned the error it
    returns otherwise. *)
Definition loop_run (ac : AggregatorRoTx) (cs : list call) (err : option error)
    (s s' : pstate) (n : nat) : Prop :=
  log s' = log s ++ take n cs
  /\ store s' = store_after ac (take n cs) (store s)
  /\ (n <= length cs)%nat
  /\ (forall i, (S i < n)%nat -> error_at ac cs (store s) i = None)
  /\ (err = None ->
      n = length cs /\ forall i, error_at ac cs (store s) i = None)
  /\ (forall e, err = Some e ->
      (1 <= n)%nat /\ error_at ac cs (store s) (n - 1) = Some e).
End PrunePlan.

(** ** More sample configurations *)

Module MoreSamples.
Import Kv.

(** A view whose Accounts history knows one value. *)
Definition seek_ac : Read.AggregatorRoTx unit :=
  {| Read.d := fun x =>
       {| Read.ht :=
            {| Read.IdxRange := fun _ _ _ _ _ _ => (Some [], None);
               Read.HistorySeek := fun _ _ _ =>
                 match x with
                 | AccountsDomain => (Some [x2a], true, None)
                 | _ => (None, false, None)
                 end |};
          Read.GetAsOf := fun _ _ _ => (None, None) |};
     Read.iis := fun _ => {| Read.ii_IdxRange := fun _ _ _ _ _ _ => (Some [], None) |} |}.

(** Two iterations in which [Prune] returns a stat that pruned nothing. *)
Definition idle_iterations : list Batches.iteration :=
  [ {| Batches.prune := Batches.PruneStat true; Batches.took := 1000000;
       Batches.sel := Batches.SelDefault; Batches.update_err := None |};
    {| Batches.prune := Batches.PruneStat true; Batches.took := 1000000;
       Batches.sel := Batches.SelDefault; Batches.update_err := None |} ].

(** An iteration that prunes something in a millisecond. *)
Definition quick_iteration : Batches.iteration :=
  {| Batches.prune := Batches.PruneStat false; Batches.took := 1000000;
     Batches.sel := Batches.SelDefault; Batches.update_err := None |}.

(** A step whose key buffer has capacity 4 and holds an older key of
    length 4. *)
Definition dirty_step : StepReads.AggregatorStep unit :=
  {| StepReads.accounts := Some tt; StepReads.storage := Some tt;
     StepReads.code := Some tt; StepReads.commitment := Some tt;
     StepReads.keyBuf := {| StepReads.arr := [xaa; xbb; xcc; xdd]; StepReads.len := 4 |} |}.

(** History steps are named by numbers; every domain has the steps 0
    and 1, Commitment the first [n] of them. *)
Definition steps_agg (n : nat) : StepReads.Aggregator nat :=
  {| StepReads.dirtyFilesEndTxNumMinimax := fun _ => 200;
     StepReads.d_MakeSteps := fun id _ =>
       match id with
       | CommitmentDomain => take n [0; 1]%nat
       | _ => [0; 1]%nat
       end |}.

(** A prune statistic: a domain and an index pruned something, one
    entry is nil and one pruned nothing. A component statistic is
    known by its number of pruned keys. *)
Definition pruned_stat : Prune.AggregatorPruneStat :=
  {| Prune.Domains_ := <["code" := None]> (<["accounts" := Some 3]> ∅);
     Prune.Indices := <["tracesto" := Some 0]> (<["logaddrs" := Some 7]> ∅);
     Prune.Appendable := ∅ |}.

(** Ranges in which only the Accounts domain has something to merge. *)
Definition accounts_ranges : MergeLoop.RangesV3 :=
  {| MergeLoop.domain_any := fun id =>
       match id with AccountsDomain => true | _ => false end;
     MergeLoop.invertedIndex := fun _ =>
       Some {| MergeLoop.needMerge := false; MergeLoop.from := 0; MergeLoop.to := 0 |};
     MergeLoop.appendable := [] |}.

Definition merging_attempt : MergeLoop.attempt :=
  {| MergeLoop.minimax := 32; MergeLoop.found := accounts_ranges;
     MergeLoop.outs_err := None; MergeLoop.merge_err := None;
     MergeLoop.minimax_after := 32; MergeLoop.frozen := [] |}.

Definition failing_attempt : MergeLoop.attempt :=
  {| MergeLoop.minimax := 32; MergeLoop.found := accounts_ranges;
     MergeLoop.outs_err := None; MergeLoop.merge_err := Some "context canceled";
     MergeLoop.minimax_after := 32; MergeLoop.frozen := [] |}.

(** An aggregator with files up to txNum 32 and steps of 16 txNums, and
    a database that holds the steps up to 4 while the build runs. *)
Definition bg_agg : BuildLoop.Aggregator :=
  {| BuildLoop.produce := true; BuildLoop.visibleFilesMinimaxTxNum := 32;
     BuildLoop.aggregationStep := 16; BuildLoop.buildingFiles := false;
     BuildLoop.snapshotBuildSema := true |}.

Definition bg_env (acquire : option error) : BuildLoop.Env :=
  {| BuildLoop.Acquire_err := acquire;
     BuildLoop.lastIdInDB := [4; 4; 4; 4];
     BuildLoop.buildFiles_err := fun _ => None;
     BuildLoop.is_stop := fun err => String.eqb err "context canceled";
     BuildLoop.NoMerge := false;
     BuildLoop.mergingFiles := false;
     BuildLoop.MergeLoop_err := None |}.

(** The aggregator of [Samples.prune_agg] with a Storage domain whose
    prune fails and leaves the hot store as it is. *)
Definition failing_prune_agg : Prune.Aggregator :=
  {| Prune.aggregationStep := Prune.aggregationStep Samples.prune_agg;
     Prune.visibleFilesMinimaxTxNum := Prune.visibleFilesMinimaxTxNum Samples.prune_agg;
     Prune.a_d := fun id =>
       match id with
       | StorageDomain =>
           {| Prune.d_filenameBase := "storage";
              Prune.files_EndTxNum := 200;
              Prune.CanPruneUntil := Samples.can_prune_table "storage";
              Prune.d_Prune := fun _ _ _ _ s => ((None, Some "mdbx: map full"), s) |}
       | _ => Prune.a_d Samples.prune_agg id
       end;
     Prune.a_iis := Prune.a_iis Samples.prune_agg;
     Prune.a_ap := [];
     Prune.NoPrune := false |}.
End MoreSamples.

(** * Properties *)

Module U64Facts.
Import U64.

Lemma wrap_range x : in_range (wrap x).
Proof. unfold in_range, wrap, modulus. apply Z.mod_pos_bound. lia. Qed.

Lemma wrap_small x : in_range x -> wrap x = x.
Proof. unfold in_range, wrap. intros H. apply Z.mod_small. exact H. Qed.
End U64Facts.

Module KvFacts.
Import Kv.

Lemma Domains_complete (d : Domain) : d ∈ Domains.
Proof. unfold Domains. rewrite !elem_of_cons. destruct d; tauto. Qed.

Lemma Domains_NoDup : NoDup Domains.
Proof. apply (bool_decide_unpack _). vm_compute. exact I. Qed.

Lemma StandaloneIdx_complete (p : InvertedIdxPos) : p ∈ StandaloneIdx.
Proof. unfold StandaloneIdx. rewrite !elem_of_cons. destruct p; tauto. Qed.

Lemma StandaloneIdx_NoDup : NoDup StandaloneIdx.
Proof. apply (bool_decide_unpack _). vm_compute. exact I. Qed.
End KvFacts.

(** ** Reads *)

Module ReadFacts.
Import Kv Read.

Section WithTx.
Context {Tx : Type}.
Implicit Types (ac : AggregatorRoTx Tx) (tx : Tx) (k key : bytes).

(** C10. [DomainGetAsOf] hands back the value and the error of the
    domain's [GetAsOf] unchanged and reports [ok = (v != nil)]: [ok] is
    true exactly when the value is a non-nil slice; in particular a
    lookup that succeeds ([err = nil]) with a nil value, as for a deleted
    key, is reported as not found. *)
Theorem DomainGetAsOf_found_iff_non_nil ac tx (name : Domain) key (ts : Z) :
  let '(v, ok, err) := DomainGetAsOf ac tx name key ts in
  (v, err) = GetAsOf (d ac name) key ts tx
  /\ (ok = true <-> v <> None)
  /\ (GetAsOf (d ac name) key ts tx = (None, None) ->
      DomainGetAsOf ac tx name key ts = (None, false, None)).
Proof.
  unfold DomainGetAsOf.
  destruct (GetAsOf (d ac name) key ts tx) as [v err] eqn:E.
  split; [reflexivity|]. split.
  - rewrite bool_decide_eq_true. tauto.
  - intros [= -> ->]. reflexivity.
Qed.

(** C9. [IndexRange] with [kv.CommitmentHistoryIdx] is answered by the
    Storage domain's history index, which is not what the Commitment
    domain's own index would answer in general; every other recognised
    name is answered by its own component; an unrecognised name yields
    a nil iterator and an error; no name makes [IndexRange] panic. *)
Theorem IndexRange_commitment_routes_to_storage
    ac k (fromTs toTs : Z) (asc : By) (limit : Z) tx :
  IndexRange ac CommitmentHistoryIdx k fromTs toTs asc limit tx
    = Returns (IdxRange (ht (d ac StorageDomain)) k fromTs toTs asc limit tx)
  /\ (exists ac' : AggregatorRoTx Tx,
        IndexRange ac' CommitmentHistoryIdx k fromTs toTs asc limit tx
        <> Returns (component_IdxRange ac' (DomainHistory CommitmentDomain)
                      k fromTs toTs asc limit tx))
  /\ (forall name c,
        name <> CommitmentHistoryIdx -> own_component name = Some c ->
        IndexRange ac name k fromTs toTs asc limit tx
          = Returns (component_IdxRange ac c k fromTs toTs asc limit tx))
  /\ (forall name,
        own_component name = None ->
        exists s,
          name = OtherIdx s
          /\ IndexRange ac name k fromTs toTs asc limit tx
              = Returns (None, Some ("unexpected history name: " +:+ s)))
  /\ (forall name, exists r,
        IndexRange ac name k fromTs toTs asc limit tx = Returns r).
Proof.
  split; [reflexivity|]. split.
  { pose (h := fun (r : U64iter) =>
      {| IdxRange := fun _ _ _ _ _ _ => (r, None);
         HistorySeek := fun _ _ _ => (None, false, None) |} : HistoryRoTx Tx).
    pose (dm := fun (r : U64iter) =>
      {| ht := h r; GetAsOf := fun _ _ _ => (None, None) |} : DomainRoTx Tx).
    exists {| d := fun x => match x with
                         | CommitmentDomain => dm (Some [1])
                         | _ => dm (Some [])
                         end;
              iis := iis ac |}.
    simpl. discriminate. }
  split.
  { intros name c Hne Hown.
    destruct name; simpl in Hown; try congruence;
      injection Hown as <-; reflexivity. }
  split.
  { intros name Hown. destruct name; simpl in Hown; try discriminate.
    eexists. split; reflexivity. }
  intros name. destruct name; simpl; eauto.
Qed.

(** The sibling [HistorySeek] is not as forgiving: its default branch
    panics. *)
Lemma HistorySeek_unknown_panics ac (s : string) key (ts : Z) tx :
  HistorySeek_agg ac (OtherHistory s) key ts tx = Panics ("unexpected: " +:+ s).
Proof. reflexivity. Qed.
End WithTx.

Lemma DomainGetAsOf_found_iff_non_nil_witness :
  DomainGetAsOf Samples.demo_ac tt StorageDomain [] 5 = (None, false, None).
Proof.
  pose proof (DomainGetAsOf_found_iff_non_nil Samples.demo_ac tt StorageDomain [] 5) as H.
  simpl in H. destruct H as (_ & _ & H). apply H. reflexivity.
Defined.

Lemma IndexRange_commitment_routes_to_storage_witness :
  IndexRange Samples.demo_ac CommitmentHistoryIdx [] 0 10 Asc (-1) tt
    = Returns (Some [7], None)
  /\ IndexRange Samples.demo_ac LogAddrIdx [] 0 10 Asc (-1) tt = Returns (Some [], None).
Proof.
  pose proof (IndexRange_commitment_routes_to_storage
                Samples.demo_ac [] 0 10 Asc (-1) tt) as (H1 & _ & H3 & _).
  split; [exact H1|].
  apply (H3 LogAddrIdx (Standalone LogAddrIdxPos)); [discriminate|reflexivity].
Defined.
End ReadFacts.

(** ** Formatting *)

Module FormatFacts.
Import Digits Filepath.

Lemma pretty_N_char_digit (x : N) : is_digit (pretty_N_char x) = true.
Proof.
  unfold pretty_N_char.
  repeat (case_match; [reflexivity|]); try reflexivity; repeat case_match; reflexivity.
Qed.

Lemma pretty_N_go_digits (x : N) (s : string) :
  all_digits s = true -> all_digits (pretty_N_go x s) = true.
Proof.
  revert s. induction (N.lt_wf_0 x) as [x _ IH]. intros s Hs.
  destruct (decide (x = 0%N)) as [->|Hx].
  - rewrite pretty_N_go_0. exact Hs.
  - rewrite pretty_N_go_step by lia.
    apply IH.
    + apply N.div_lt; lia.
    + simpl. rewrite pretty_N_char_digit. exact Hs.
Qed.

Lemma fmt_d_digits (x : Z) : all_digits (fmt_d x) = true.
Proof.
  unfold fmt_d, pretty, pretty_N. case_decide; [reflexivity|].
  apply pretty_N_go_digits. reflexivity.
Qed.

(** Two digit strings followed by the same non-digit separator. *)
Lemma digits_sep_inj (c : ascii) (d1 d2 r1 r2 : string) :
  is_digit c = false ->
  all_digits d1 = true -> all_digits d2 = true ->
  d1 +:+ String c r1 = d2 +:+ String c r2 -> d1 = d2 /\ r1 = r2.
Proof.
  intros Hc. revert d2. induction d1 as [|a d1 IH]; intros [|b d2] H1 H2 Heq;
    simpl in *.
  - injection Heq as ->. split; reflexivity.
  - injection Heq as <- _. apply andb_true_iff in H2 as [H2 _]. congruence.
  - injection Heq as -> _. apply andb_true_iff in H1 as [H1 _]. congruence.
  - injection Heq as -> Heq.
    apply andb_true_iff in H1 as [_ H1]. apply andb_true_iff in H2 as [_ H2].
    destruct (IH d2 H1 H2 Heq) as [-> ->]. split; reflexivity.
Qed.

Lemma fmt_d_inj (x y : Z) : 0 <= x -> 0 <= y -> fmt_d x = fmt_d y -> x = y.
Proof.
  unfold fmt_d. intros Hx Hy H. apply (inj pretty) in H. lia.
Qed.
End FormatFacts.

(** ** The integrity check *)

Module IntegrityFacts.
Import Kv Filepath Integrity FormatFacts.

(** The path names the step range: two ranges give the same Commitment
    file path only when they are the same range. *)
Lemma commitmentFilePath_inj (E : Env) (f t f' t' : Z) :
  0 <= f -> 0 <= t -> 0 <= f' -> 0 <= t' ->
  commitmentFilePath E f t = commitmentFilePath E f' t' -> f = f' /\ t = t'.
Proof.
  intros Hf Ht Hf' Ht'. unfold commitmentFilePath, Join. intros H.
  apply (inj (String.app _)) in H.
  apply (inj (String.app "/")) in H.
  apply (inj (String.app "v1-")) in H.
  apply (inj (String.app _)) in H.
  apply (inj (String.app ".")) in H.
  apply (digits_sep_inj "-"%char) in H as [H1 H2];
    [|reflexivity|apply fmt_d_digits..].
  apply (digits_sep_inj "."%char) in H2 as [H2 _];
    [|reflexivity|apply fmt_d_digits..].
  split; apply fmt_d_inj; assumption.
Qed.

(** C4. The integrity check answers true for the Commitment domain
    whatever the range, and for an Accounts, Storage or Code file that
    spans more than one step ([toStep - fromStep > 1] in [uint64]
    arithmetic); for an Accounts, Storage or Code file with
    [toStep - fromStep <= 1] it answers true exactly when [FileExist]
    reports the Commitment domain's [v1-<commitment>.<from>-<to>.kv] file
    of the same range as present, and false when it reports it missing. *)
Theorem integrityCheck_spec (E : Env) (fromStep toStep : Z) :
  integrityCheck E CommitmentDomain fromStep toStep = Returns true
  /\ (forall name, 1 < U64.sub toStep fromStep ->
        integrityCheck E name fromStep toStep = Returns true)
  /\ (forall name, name <> CommitmentDomain -> U64.sub toStep fromStep <= 1 ->
        (integrityCheck E name fromStep toStep = Returns true
         <-> FileExist E (commitmentFilePath E fromStep toStep) = (true, None))
        /\ (FileExist E (commitmentFilePath E fromStep toStep) = (false, None)
            -> integrityCheck E name fromStep toStep = Returns false)).
Proof.
  split; [reflexivity|]. split.
  - intros name H. apply Z.ltb_lt in H.
    destruct name; simpl; rewrite ?H; reflexivity.
  - intros name Hne H. apply Z.ltb_ge in H.
    assert (integrityCheck E name fromStep toStep
            = commitmentFileMustExist E fromStep toStep) as ->.
    { destruct name; simpl; rewrite ?H; congruence. }
    unfold commitmentFileMustExist.
    destruct (FileExist E (commitmentFilePath E fromStep toStep))
      as [b [e|]]; split.
    + split; intros; discriminate.
    + intros; discriminate.
    + split; [intros [= ->]; reflexivity|intros [= ->]; reflexivity].
    + intros [= ->]. reflexivity.
Qed.

(** A run on a snapshot directory that holds the Commitment file of step
    [3,4) only. *)
Lemma integrityCheck_spec_witness :
  integrityCheck Samples.demo_integrity AccountsDomain 3 4 = Returns true
  /\ integrityCheck Samples.demo_integrity AccountsDomain 4 5 = Returns false
  /\ integrityCheck Samples.demo_integrity StorageDomain 0 2 = Returns true.
Proof.
  pose proof (integrityCheck_spec Samples.demo_integrity 3 4) as (_ & _ & H34).
  pose proof (integrityCheck_spec Samples.demo_integrity 4 5) as (_ & _ & H45).
  pose proof (integrityCheck_spec Samples.demo_integrity 0 2) as (_ & H02 & _).
  split; [|split].
  - apply (H34 AccountsDomain); [discriminate|vm_compute; discriminate|reflexivity].
  - apply (H45 AccountsDomain); [discriminate|vm_compute; discriminate|reflexivity].
  - apply H02. reflexivity.
Defined.
End IntegrityFacts.

(** ** Big-endian encoding *)

Module BigEndianFacts.
Import BigEndian.

Lemma Z_of_byte_of_Z (z : Z) : Z_of_byte (byte_of_Z z) = Z.land z 255.
Proof.
  unfold Z_of_byte, byte_of_Z.
  assert (0 <= Z.land z 255 < 256) as Hr.
  { change 255 with (Z.ones 8). rewrite Z.land_ones by lia.
    apply Z.mod_pos_bound. lia. }
  destruct (Byte.of_N (Z.to_N (Z.land z 255))) as [b|] eqn:E.
  - apply Byte.to_of_N in E. simpl. rewrite E. lia.
  - apply Byte.of_N_None_iff in E. lia.
Qed.

Lemma Z_of_byte_range (b : byte) : 0 <= Z_of_byte b < 256.
Proof.
  unfold Z_of_byte. pose proof (Byte.to_N_bounded b). lia.
Qed.

Lemma testbit_255 (n : Z) : 0 <= n -> Z.testbit 255 n = (n <? 8).
Proof.
  intros Hn. change 255 with (Z.ones 8).
  destruct (n <? 8) eqn:E.
  - apply Z.ltb_lt in E. apply Z.ones_spec_low. lia.
  - apply Z.ltb_ge in E. apply Z.ones_spec_high. lia.
Qed.

Lemma testbit_high (v n : Z) : 0 <= v < 2 ^ 32 -> 32 <= n -> Z.testbit v n = false.
Proof.
  intros Hv Hn. destruct (decide (v = 0)) as [->|Hz]; [apply Z.bits_0|].
  apply Z.bits_above_log2; [lia|].
  assert (Z.log2 v < 32); [|lia]. apply Z.log2_lt_pow2; lia.
Qed.

(** Decoding what [PutUint32] wrote gives the value back. *)
Lemma Uint32_PutUint32 (v : Z) :
  0 <= v < 2 ^ 32 -> Uint32 (PutUint32 v) = Returns v.
Proof.
  intros Hv. unfold Uint32, PutUint32. f_equal.
  rewrite !Z_of_byte_of_Z.
  apply Z.bits_inj'. intros n Hn.
  rewrite !Z.lor_spec, !Z.land_spec.
  rewrite !Z.shiftl_spec by lia. rewrite !Z.land_spec.
  rewrite testbit_255 by lia.
  destruct (decide (n < 8)).
  { rewrite (Z.testbit_neg_r _ (n - 8)), (Z.testbit_neg_r _ (n - 16)),
      (Z.testbit_neg_r _ (n - 24)) by lia.
    replace (n <? 8) with true by (symmetry; apply Z.ltb_lt; lia).
    rewrite !andb_false_l, !orb_false_r, andb_true_r. reflexivity. }
  replace (n <? 8) with false by (symmetry; apply Z.ltb_ge; lia).
  rewrite andb_false_r, orb_false_l.
  rewrite (testbit_255 (n - 8)) by lia. rewrite Z.shiftr_spec by lia.
  replace (n - 8 + 8) with n by lia.
  destruct (decide (n < 16)).
  { rewrite (Z.testbit_neg_r _ (n - 16)), (Z.testbit_neg_r _ (n - 24)) by lia.
    replace (n - 8 <? 8) with true by (symmetry; apply Z.ltb_lt; lia).
    rewrite !andb_false_l, !orb_false_r, andb_true_r. reflexivity. }
  replace (n - 8 <? 8) with false by (symmetry; apply Z.ltb_ge; lia).
  rewrite andb_false_r, orb_false_l.
  rewrite (testbit_255 (n - 16)) by lia. rewrite Z.shiftr_spec by lia.
  replace (n - 16 + 16) with n by lia.
  destruct (decide (n < 24)).
  { rewrite (Z.testbit_neg_r _ (n - 24)) by lia.
    replace (n - 16 <? 8) with true by (symmetry; apply Z.ltb_lt; lia).
    rewrite !andb_false_l, !orb_false_r, andb_true_r. reflexivity. }
  replace (n - 16 <? 8) with false by (symmetry; apply Z.ltb_ge; lia).
  rewrite andb_false_r, orb_false_l.
  rewrite (testbit_255 (n - 24)) by lia. rewrite Z.shiftr_spec by lia.
  replace (n - 24 + 24) with n by lia.
  destruct (decide (n < 32)).
  { replace (n - 24 <? 8) with true by (symmetry; apply Z.ltb_lt; lia).
    rewrite andb_true_r. reflexivity. }
  replace (n - 24 <? 8) with false by (symmetry; apply Z.ltb_ge; lia).
  rewrite andb_false_r. symmetry. apply testbit_high; lia.
Qed.

(** Only the first four bytes are decoded. *)
Lemma Uint32_prefix (b0 b1 b2 b3 : byte) (rest : bytes) :
  Uint32 (b0 :: b1 :: b2 :: b3 :: rest) = Uint32 [b0; b1; b2; b3].
Proof. reflexivity. Qed.
End BigEndianFacts.

(** ** The salt file *)

Module SaltFacts.
Import Fs FsRun Filepath Salt BigEndian BigEndianFacts.

Lemma salt_paths_differ (baseDir : string) : legacy_path baseDir <> salt_path baseDir.
Proof.
  unfold legacy_path, salt_path, Join. intros H.
  apply (inj (String.app _)) in H. discriminate.
Qed.

Lemma next_fault_ok (w : world) :
  no_faults w ->
  exists rest, next_fault w = (None, rest)
               /\ Forall (fun f : option error => f = None) rest.
Proof.
  unfold no_faults, next_fault. intros H.
  destruct (faults w) as [|f rest]; [eauto|].
  inversion H as [|? ? Hf Hrest]; subst. eauto.
Qed.

Lemma FileExist_ok (p : string) (w : world) :
  no_faults w ->
  exists w', FileExist p w = ((bool_decide (is_Some (files w !! p)), None), w')
             /\ files w' = files w /\ no_faults w'.
Proof.
  intros H. destruct (next_fault_ok w H) as (rest & E & Hr).
  unfold FileExist. rewrite E. eexists. split; [reflexivity|]. split; [reflexivity|exact Hr].
Qed.

Lemma Rename_ok (a b : string) (c : bytes) (w : world) :
  no_faults w -> files w !! a = Some c ->
  exists w', Rename a b w = (None, w')
             /\ files w' = <[b := c]> (delete a (files w)) /\ no_faults w'.
Proof.
  intros H Ha. destruct (next_fault_ok w H) as (rest & E & Hr).
  unfold Rename. rewrite E, Ha. eexists. split; [reflexivity|]. split; [reflexivity|exact Hr].
Qed.

Lemma WriteFileWithFsync_ok (p : string) (data : bytes) (w : world) :
  no_faults w ->
  exists w', WriteFileWithFsync p data w = (None, w')
             /\ files w' = <[p := data]> (files w) /\ no_faults w'.
Proof.
  intros H. destruct (next_fault_ok w H) as (rest & E & Hr).
  unfold WriteFileWithFsync. rewrite E. eexists. split; [reflexivity|].
  split; [reflexivity|exact Hr].
Qed.

Lemma ReadFile_ok (p : string) (c : bytes) (w : world) :
  no_faults w -> files w !! p = Some c ->
  exists w', ReadFile p w = ((c, None), w')
             /\ files w' = files w /\ no_faults w'.
Proof.
  intros H Hp. destruct (next_fault_ok w H) as (rest & E & Hr).
  unfold ReadFile. rewrite E, Hp. eexists. split; [reflexivity|].
  split; [reflexivity|exact Hr].
Qed.

Lemma bind_run {S A B} (m : State S A) (k : A -> State S B) (s s' : S) (a : A) :
  m s = (a, s') -> bind m k s = k a s'.
Proof. unfold bind. intros ->. reflexivity. Qed.

Ltac step E := rewrite (bind_run _ _ _ _ _ E); cbv beta iota.
Ltac skip := rewrite (bind_run (ret None) _ _ _ None eq_refl); cbv beta iota.

(** The salt file is there: it is read, nothing is written. *)
Lemma salt_existing (rnd : Z) (baseDir : string) (w : world) (content : bytes) :
  no_faults w ->
  files w !! salt_path baseDir = Some content ->
  exists w', getStateIndicesSalt rnd baseDir w
             = (match Uint32 content with
                | Returns v => Returns (Some v, None)
                | Panics msg => Panics msg
                end, w')
             /\ files w' = files w.
Proof.
  intros Hnf Hs. unfold salt_path in *. unfold getStateIndicesSalt.
  destruct (FileExist_ok (Join baseDir "salt.txt") w Hnf) as (w1 & E1 & F1 & N1).
  step E1.
  destruct (FileExist_ok (Join baseDir "salt-state.txt") w1 N1) as (w2 & E2 & F2 & N2).
  step E2.
  rewrite F1, Hs, (bool_decide_eq_true_2 (is_Some (Some content))) by eauto.
  rewrite andb_false_r. skip.
  destruct (FileExist_ok (Join baseDir "salt-state.txt") w2 N2) as (w3 & E3 & F3 & N3).
  step E3.
  rewrite F2, F1, Hs, (bool_decide_eq_true_2 (is_Some (Some content))) by eauto.
  cbn [negb]. skip.
  destruct (ReadFile_ok (Join baseDir "salt-state.txt") content w3 N3)
    as (w4 & E4 & F4 & N4).
  { rewrite F3, F2, F1. exact Hs. }
  step E4.
  exists w4. split.
  - destruct (Uint32 content); reflexivity.
  - rewrite F4, F3, F2, F1. reflexivity.
Qed.

(** Only the legacy file is there: it is renamed into place and read. *)
Lemma salt_legacy (rnd : Z) (baseDir : string) (w : world) (content : bytes) :
  no_faults w ->
  files w !! salt_path baseDir = None ->
  files w !! legacy_path baseDir = Some content ->
  exists w', getStateIndicesSalt rnd baseDir w
             = (match Uint32 content with
                | Returns v => Returns (Some v, None)
                | Panics msg => Panics msg
                end, w')
             /\ files w'
                = <[salt_path baseDir := content]> (delete (legacy_path baseDir) (files w)).
Proof.
  intros Hnf Hs Hl. pose proof (salt_paths_differ baseDir) as Hne.
  unfold salt_path, legacy_path in *. unfold getStateIndicesSalt.
  destruct (FileExist_ok (Join baseDir "salt.txt") w Hnf) as (w1 & E1 & F1 & N1).
  step E1.
  destruct (FileExist_ok (Join baseDir "salt-state.txt") w1 N1) as (w2 & E2 & F2 & N2).
  step E2.
  rewrite F1, Hs, Hl, (bool_decide_eq_true_2 (is_Some (Some content))) by eauto.
  rewrite (bool_decide_eq_false_2 (is_Some None)) by (intros [? ?]; discriminate).
  cbn [andb negb]. cbv iota.
  destruct (Rename_ok (Join baseDir "salt.txt") (Join baseDir "salt-state.txt")
              content w2) as (w3 & E3 & F3 & N3); [exact N2|congruence|].
  step E3.
  destruct (FileExist_ok (Join baseDir "salt-state.txt") w3 N3) as (w4 & E4 & F4 & N4).
  step E4.
  rewrite F3, lookup_insert_eq, (bool_decide_eq_true_2 (is_Some (Some content))) by eauto.
  cbn [negb]. skip.
  destruct (ReadFile_ok (Join baseDir "salt-state.txt") content w4 N4)
    as (w5 & E5 & F5 & N5).
  { rewrite F4, F3. apply lookup_insert_eq. }
  step E5.
  exists w5. split.
  - destruct (Uint32 content); reflexivity.
  - rewrite F5, F4, F3, F2, F1. reflexivity.
Qed.

(** No salt file at all: a fresh salt is written and read back. *)
Lemma salt_fresh (rnd : Z) (baseDir : string) (w : world) :
  no_faults w ->
  files w !! salt_path baseDir = None ->
  files w !! legacy_path baseDir = None ->
  0 <= rnd < 2 ^ 32 ->
  exists w', getStateIndicesSalt rnd baseDir w = (Returns (Some rnd, None), w')
             /\ files w' = <[salt_path baseDir := PutUint32 rnd]> (files w).
Proof.
  intros Hnf Hs Hl Hr.
  unfold salt_path, legacy_path in *. unfold getStateIndicesSalt.
  destruct (FileExist_ok (Join baseDir "salt.txt") w Hnf) as (w1 & E1 & F1 & N1).
  step E1.
  destruct (FileExist_ok (Join baseDir "salt-state.txt") w1 N1) as (w2 & E2 & F2 & N2).
  step E2.
  rewrite F1, Hs, Hl.
  rewrite (bool_decide_eq_false_2 (is_Some None)) by (intros [? ?]; discriminate).
  cbn [andb negb]. skip.
  destruct (FileExist_ok (Join baseDir "salt-state.txt") w2 N2) as (w3 & E3 & F3 & N3).
  step E3.
  rewrite F2, F1, Hs.
  rewrite (bool_decide_eq_false_2 (is_Some None)) by (intros [? ?]; discriminate).
  cbn [negb]. cbv iota.
  destruct (WriteFileWithFsync_ok (Join baseDir "salt-state.txt") (PutUint32 rnd) w3 N3)
    as (w4 & E4 & F4 & N4).
  step E4.
  destruct (ReadFile_ok (Join baseDir "salt-state.txt") (PutUint32 rnd) w4 N4)
    as (w5 & E5 & F5 & N5).
  { rewrite F4. apply lookup_insert_eq. }
  step E5.
  exists w5. split.
  - rewrite (Uint32_PutUint32 rnd Hr). reflexivity.
  - rewrite F5, F4, F3, F2, F1. reflexivity.
Qed.
(** Every failed call other than the legacy rename ends the run with
    that error and a nil salt; and an error that is returned is the error
    of such a call. *)
Lemma salt_errors (rnd : Z) (baseDir : string) (w : world) :
  exists cs,
    calls (getStateIndicesSalt rnd baseDir w).2 = calls w ++ cs
    /\ (forall c e, c ∈ cs -> is_rename c = false -> call_err c = Some e ->
          (getStateIndicesSalt rnd baseDir w).1 = Returns (None, Some e))
    /\ (forall x e, (getStateIndicesSalt rnd baseDir w).1 = Returns (x, Some e) ->
          x = None
          /\ exists c, c ∈ cs /\ is_rename c = false /\ call_err c = Some e).
Proof.
  destruct w as [fl fa cl].
  unfold getStateIndicesSalt, bind, ret, FileExist, Rename, WriteFileWithFsync,
    ReadFile, next_fault.
  cbn [faults files calls].
  repeat (case_match; simplify_eq/=).
  all: rewrite <- ?app_assoc; eexists; (split; [reflexivity|]).
  all: split;
    [ intros cX eX HcX HrX HeX; cbn [app] in HcX;
      repeat (apply elem_of_cons in HcX as [->|HcX]; [simpl in *; congruence|]);
      apply elem_of_nil in HcX; contradiction
    | intros xX eX [= <- <-] || (intros xX eX ?; discriminate) ].
  all: split; [reflexivity|].
  all: eexists; split;
    [ cbn [app]; apply list_elem_of_In, in_rev; simpl; left; reflexivity
    | split; reflexivity ].
Qed.

(** The constructor stops at a salt error: the error is handed on, no
    aggregator is built, and the continuation does not run. *)
Lemma NewAggregator_salt_error {Aggregator : Type}
    (construct : option Z -> M (outcome (option Aggregator * option error)))
    (rnd : Z) (dirs_Snap : string) (w : world) (x : option Z) (e : error) :
  (getStateIndicesSalt rnd dirs_Snap w).1 = Returns (x, Some e) ->
  NewAggregator construct rnd dirs_Snap w
    = (Returns (None, Some e), (getStateIndicesSalt rnd dirs_Snap w).2).
Proof.
  unfold NewAggregator, bind.
  destruct (getStateIndicesSalt rnd dirs_Snap w) as [r w']. simpl.
  intros ->. reflexivity.
Qed.

(** C7, as the code has it. Without faults: an existing [salt-state.txt]
    of at least four bytes (in place, or the legacy [salt.txt] renamed
    into place) yields the big-endian value of its first four bytes; with
    neither file, the drawn salt is written big-endian and is the value
    read back and returned. Every failed [FileExist], [WriteFileWithFsync]
    or [ReadFile] ends the run with a nil salt and that error, a returned
    error is always such an error (a failed legacy rename is ignored), and
    [NewAggregator] returns a salt error with no aggregator. *)
Theorem getStateIndicesSalt_spec (rnd : Z) (baseDir : string) (w : world) :
  (forall b0 b1 b2 b3 rest v,
      no_faults w ->
      files w !! salt_path baseDir = Some (b0 :: b1 :: b2 :: b3 :: rest) ->
      Uint32 [b0; b1; b2; b3] = Returns v ->
      (getStateIndicesSalt rnd baseDir w).1 = Returns (Some v, None)
      /\ files (getStateIndicesSalt rnd baseDir w).2 = files w)
  /\ (forall b0 b1 b2 b3 rest v,
      no_faults w ->
      files w !! salt_path baseDir = None ->
      files w !! legacy_path baseDir = Some (b0 :: b1 :: b2 :: b3 :: rest) ->
      Uint32 [b0; b1; b2; b3] = Returns v ->
      (getStateIndicesSalt rnd baseDir w).1 = Returns (Some v, None)
      /\ files (getStateIndicesSalt rnd baseDir w).2
         = <[salt_path baseDir := b0 :: b1 :: b2 :: b3 :: rest]>
             (delete (legacy_path baseDir) (files w)))
  /\ (no_faults w ->
      files w !! salt_path baseDir = None ->
      files w !! legacy_path baseDir = None ->
      0 <= rnd < 2 ^ 32 ->
      (getStateIndicesSalt rnd baseDir w).1 = Returns (Some rnd, None)
      /\ files (getStateIndicesSalt rnd baseDir w).2
         = <[salt_path baseDir := PutUint32 rnd]> (files w))
  /\ (exists cs,
        calls (getStateIndicesSalt rnd baseDir w).2 = calls w ++ cs
        /\ (forall c e, c ∈ cs -> is_rename c = false -> call_err c = Some e ->
              (getStateIndicesSalt rnd baseDir w).1 = Returns (None, Some e))
        /\ (forall x e,
              (getStateIndicesSalt rnd baseDir w).1 = Returns (x, Some e) ->
              x = None
              /\ exists c, c ∈ cs /\ is_rename c = false /\ call_err c = Some e))
  /\ (forall (Aggregator : Type)
             (construct : option Z -> M (outcome (option Aggregator * option error)))
             x e,
        (getStateIndicesSalt rnd baseDir w).1 = Returns (x, Some e) ->
        NewAggregator construct rnd baseDir w
          = (Returns (None, Some e), (getStateIndicesSalt rnd baseDir w).2)).
Proof.
  split; [|split; [|split; [|split]]].
  - intros b0 b1 b2 b3 rest v Hnf Hs Hv.
    destruct (salt_existing rnd baseDir w _ Hnf Hs) as (w' & -> & Hf).
    rewrite Uint32_prefix, Hv. split; [reflexivity|exact Hf].
  - intros b0 b1 b2 b3 rest v Hnf Hs Hl Hv.
    destruct (salt_legacy rnd baseDir w _ Hnf Hs Hl) as (w' & -> & Hf).
    rewrite Uint32_prefix, Hv. split; [reflexivity|exact Hf].
  - intros Hnf Hs Hl Hr.
    destruct (salt_fresh rnd baseDir w Hnf Hs Hl Hr) as (w' & -> & Hf).
    split; [reflexivity|exact Hf].
  - apply salt_errors.
  - intros Aggregator construct x e. apply NewAggregator_salt_error.
Qed.

Lemma getStateIndicesSalt_spec_witness :
  (getStateIndicesSalt 7 "snap" Samples.salt_present).1 = Returns (Some 258, None)
  /\ (getStateIndicesSalt 7 "snap" Samples.salt_absent).1 = Returns (Some 7, None)
  /\ (getStateIndicesSalt 7 "snap" Samples.salt_unreadable).1
     = Returns (None, Some "input/output error").
Proof.
  split; [|split].
  - pose proof (getStateIndicesSalt_spec 7 "snap" Samples.salt_present)
      as (H & _).
    apply (H x00 x00 x01 x02 [xff] 258); [constructor|reflexivity|reflexivity].
  - pose proof (getStateIndicesSalt_spec 7 "snap" Samples.salt_absent)
      as (_ & _ & H & _).
    apply H; [constructor|reflexivity|reflexivity|lia].
  - pose proof (getStateIndicesSalt_spec 7 "snap" Samples.salt_unreadable)
      as (_ & _ & _ & (cs & Hcs & H & _) & _).
    apply (H (CReadFile "snap/salt-state.txt" (Some "input/output error")));
      [|reflexivity|reflexivity].
    vm_compute in Hcs. subst cs.
    rewrite !elem_of_cons. tauto.
Defined.

(** As the specification words it, the property fails on the legacy
    rename: the rename is refused, yet the run ends with a fresh salt
    and no error. *)
Lemma salt_rename_error_not_returned :
  let run := getStateIndicesSalt 7 "snap" Samples.legacy_rename_denied in
  CRename "snap/salt.txt" "snap/salt-state.txt" (Some "permission denied")
    ∈ calls run.2
  /\ run.1 = Returns (Some 7, None)
  /\ ~ (forall c e, c ∈ calls run.2 -> call_err c = Some e ->
                    run.1 = Returns (None, Some e)).
Proof.
  assert (getStateIndicesSalt 7 "snap" Samples.legacy_rename_denied
          = (Returns (Some 7, None),
             {| files := <["snap/salt-state.txt" := PutUint32 7]>
                           {[ "snap/salt.txt" := [x00; x00; x00; x2a] ]};
                faults := [];
                calls := [CFileExist "snap/salt.txt" None;
                          CFileExist "snap/salt-state.txt" None;
                          CRename "snap/salt.txt" "snap/salt-state.txt"
                            (Some "permission denied");
                          CFileExist "snap/salt-state.txt" None;
                          CWriteFileWithFsync "snap/salt-state.txt"
                            (PutUint32 7) None;
                          CReadFile "snap/salt-state.txt" None] |})) as E.
  { vm_compute. reflexivity. }
  cbv zeta. rewrite E. cbn [fst snd calls].
  assert (CRename "snap/salt.txt" "snap/salt-state.txt" (Some "permission denied")
            ∈ [CFileExist "snap/salt.txt" None;
               CFileExist "snap/salt-state.txt" None;
               CRename "snap/salt.txt" "snap/salt-state.txt"
                 (Some "permission denied");
               CFileExist "snap/salt-state.txt" None;
               CWriteFileWithFsync "snap/salt-state.txt" (PutUint32 7) None;
               CReadFile "snap/salt-state.txt" None]) as Hin.
  { rewrite !elem_of_cons. tauto. }
  split; [exact Hin|]. split; [reflexivity|].
  intros H. specialize (H _ _ Hin eq_refl). discriminate.
Qed.
End SaltFacts.

(** ** Closing a read view *)

Module HandlesFacts.
Import Handles.

Lemma Close_nil (h : heap) : Close None h = ([], h).
Proof. reflexivity. Qed.

Lemma Close_closed (l : loc) (h : heap) :
  a (h l) = None -> Close (Some l) h = ([], h).
Proof. unfold Close. intros ->. reflexivity. Qed.

Lemma Close_marks_closed (l : loc) (h : heap) : a ((Close (Some l) h).2 l) = None.
Proof.
  unfold Close. destruct (a (h l)) eqn:E; simpl.
  - rewrite fn_lookup_insert. reflexivity.
  - exact E.
Qed.

Lemma Close_n_closed (n : nat) (l : loc) (h : heap) :
  a (h l) = None -> Close_n n (Some l) h = (replicate n [], h).
Proof.
  intros Hc. induction n as [|n IH]; [reflexivity|].
  simpl. unfold bind. rewrite (Close_closed l h Hc), IH. reflexivity.
Qed.

Lemma omap_fmap_Some {A B : Type} (f : B -> option A) (g : A -> B) (l : list A) :
  (forall x, f (g x) = Some x) -> omap f (g <$> l) = l.
Proof.
  intros H. induction l as [|x l IH]; [reflexivity|].
  csimpl. rewrite H. csimpl. rewrite IH. reflexivity.
Qed.

Lemma omap_fmap_None {A B C : Type} (f : B -> option A) (g : C -> B) (l : list C) :
  (forall x, f (g x) = None) -> omap f (g <$> l) = [].
Proof.
  intros H. induction l as [|x l IH]; [reflexivity|].
  csimpl. rewrite H. csimpl. rewrite IH. reflexivity.
Qed.

Lemma filter_eq_absent {A : Type} `{EqDecision A} (x : A) (l : list A) :
  x ∉ l -> filter (fun y => y = x) l = [].
Proof.
  induction l as [|y l IH]; [reflexivity|].
  intros Hx. apply not_elem_of_cons in Hx as [Hne Hx].
  rewrite filter_cons_False by congruence. apply IH, Hx.
Qed.

(** An element of a duplicate-free list occurs in it exactly once. *)
Lemma once_in_NoDup {A : Type} `{EqDecision A} (x : A) (l : list A) :
  NoDup l -> x ∈ l -> length (filter (fun y => y = x) l) = 1%nat.
Proof.
  induction l as [|y l IH]; intros Hnd Hx.
  - apply elem_of_nil in Hx. contradiction.
  - apply list.NoDup_cons in Hnd as [Hy Hnd].
    apply elem_of_cons in Hx as [->|Hx].
    + rewrite filter_cons_True by reflexivity.
      rewrite filter_eq_absent by exact Hy. reflexivity.
    + rewrite filter_cons_False; [apply IH; assumption|].
      intros ->. apply Hy, Hx.
Qed.

Lemma domain_closes_trace (leak : Z) (ds : list handle)
    (is_ aps : list (option handle)) :
  domain_closes (LeakDetectorDel leak
                   :: (DomainClose <$> ds) ++ (IndexClose <$> is_)
                   ++ (AppendableClose <$> aps)) = ds.
Proof.
  unfold domain_closes. csimpl. rewrite !omap_app.
  rewrite (omap_fmap_Some _ DomainClose), (omap_fmap_None _ IndexClose),
    (omap_fmap_None _ AppendableClose), !app_nil_r by reflexivity.
  reflexivity.
Qed.

Lemma index_closes_trace (leak : Z) (ds : list handle)
    (is_ aps : list (option handle)) :
  index_closes (LeakDetectorDel leak
                  :: (DomainClose <$> ds) ++ (IndexClose <$> is_)
                  ++ (AppendableClose <$> aps)) = is_.
Proof.
  unfold index_closes. csimpl. rewrite !omap_app.
  rewrite (omap_fmap_Some _ IndexClose), (omap_fmap_None _ DomainClose),
    (omap_fmap_None _ AppendableClose), app_nil_r by reflexivity.
  reflexivity.
Qed.

Lemma appendable_closes_trace (leak : Z) (ds : list handle)
    (is_ aps : list (option handle)) :
  appendable_closes (LeakDetectorDel leak
                       :: (DomainClose <$> ds) ++ (IndexClose <$> is_)
                       ++ (AppendableClose <$> aps)) = aps.
Proof.
  unfold appendable_closes. csimpl. rewrite !omap_app.
  rewrite (omap_fmap_Some _ AppendableClose), (omap_fmap_None _ DomainClose),
    (omap_fmap_None _ IndexClose) by reflexivity.
  reflexivity.
Qed.

(** C8. [Close] on a nil receiver does nothing. The first [Close] of an
    open view calls [Close] once for every non-nil domain slot, once for
    every index slot and once for every appendable slot, in slot order
    (so a handle that sits in one slot is released exactly once), sets
    [ac.a] to nil and leaves every other object alone. Any number of
    further calls through the same pointer make no call and change
    nothing. *)
Theorem Close_idempotent (l : loc) (h : heap) (n : nat) :
  Close None h = ([], h)
  /\ (let h1 := (Close (Some l) h).2 in
      Close_n n (Some l) h1 = (replicate n [], h1))
  /\ (forall agg, a (h l) = Some agg ->
      let t := (Close (Some l) h).1 in
      let h1 := (Close (Some l) h).2 in
      domain_closes t = omap (fun x => x) (d (h l))
      /\ index_closes t = iis (h l)
      /\ appendable_closes t = appendable (h l)
      /\ (forall x, NoDup (omap (fun x => x) (d (h l))) -> Some x ∈ d (h l) ->
            length (filter (fun y => y = x) (domain_closes t)) = 1%nat)
      /\ h1 l = set_a_nil (h l)
      /\ (forall l', l' <> l -> h1 l' = h l')).
Proof.
  split; [reflexivity|]. split.
  - cbv zeta. apply Close_n_closed, Close_marks_closed.
  - intros agg Ha. cbv zeta. unfold Close. rewrite Ha. cbn [fst snd].
    rewrite domain_closes_trace, index_closes_trace, appendable_closes_trace.
    repeat split.
    + intros x Hnd Hx. apply once_in_NoDup; [exact Hnd|].
      apply list_elem_of_omap. exists (Some x). split; [exact Hx|reflexivity].
    + apply fn_lookup_insert.
    + intros l' Hne. apply fn_lookup_insert_ne. congruence.
Qed.

Lemma Close_idempotent_witness :
  (Close (Some 0%nat) Samples.demo_heap).1
    = [LeakDetectorDel 77; DomainClose 10%nat; DomainClose 11%nat;
       IndexClose (Some 20%nat); IndexClose (Some 21%nat);
       AppendableClose (Some 30%nat)]
  /\ domain_closes (Close (Some 0%nat) Samples.demo_heap).1 = [10%nat; 11%nat]
  /\ length (filter (fun y => y = 11%nat)
               (domain_closes (Close (Some 0%nat) Samples.demo_heap).1)) = 1%nat.
Proof.
  pose proof (Close_idempotent 0%nat Samples.demo_heap 3) as (_ & _ & H).
  destruct (H 1%nat eq_refl) as (H1 & _ & _ & H4 & _).
  split; [reflexivity|]. split; [exact H1|].
  apply H4.
  - apply (bool_decide_unpack _). vm_compute. exact I.
  - simpl. rewrite !elem_of_cons. tauto.
Defined.
End HandlesFacts.

(** ** Batch sizes of the prune drivers *)

Module BatchesFacts.
Import Batches BatchRuns.


Lemma adjust_calm (l took : Z) : adjust false l took = l.
Proof. reflexivity. Qed.









End BatchesFacts.

(** ** The prune boundary *)

Module PruneFacts.
Import Kv Prune.








(** Every [recalcVisibleFiles] leaves the atomic up to date. *)
Lemma recalc_fresh (a : Aggregator) : minimax_fresh (recalcVisibleFilesMinimaxTxNum a).
Proof. reflexivity. Qed.






End PruneFacts.

(** ** One build round *)

Module BuildFacts.
Import Kv Build.

Section Round.
Variables (K : KvNames) (a : Aggregator) (step : Z).
Hypothesis Hwired : wired K a.

Let txFrom := FirstTxNumOfStep a step.
Let txTo := FirstTxNumOfStep a (U64.add step 1).

(** What one task does to the state, read off the component's outcome. *)
Lemma run_task_outcome (t : task) (s : bstate) :
  exists err s',
    run_task K a step txFrom txTo t s = (Returns err, s')
    /\ (err = None <-> task_ok a step t = true)
    /\ (forall id,
          sf_d (static s') id
          = match t with
            | TDomain id0 =>
                if bool_decide (id0 = id) && task_ok a step t
                then built_files a step t else sf_d (static s) id
            | _ => sf_d (static s) id
            end)
    /\ (forall pos,
          sf_ivfs (static s') pos
          = match t with
            | TIndex pos0 =>
                if bool_decide (pos0 = pos) && task_ok a step t
                then built_files a step t else sf_ivfs (static s) pos
            | _ => sf_ivfs (static s) pos
            end)
    /\ exists evs,
         trace s' = trace s ++ evs
         /\ (forall ev, ev ∈ evs -> is_integration ev = false)
         /\ (forall sf, task_built a step t = Some (sf, false) ->
                        CleanupOnError sf ∈ evs)
         /\ (task_ok a step t = true -> forall sf, CleanupOnError sf ∉ evs).
Proof.
  destruct Hwired as [Hd Hi].
  destruct t as [id|pos|name app]; cbn [run_task].
  - unfold domain_task, task_ok, built_files, task_built, domain_built.
    fold txFrom txTo.
    destruct (collate (d a id) step txFrom txTo) as [c [e|]].
    { eexists _, s. split; [reflexivity|]. split; [split; discriminate|].
      split; [intros id'; rewrite andb_false_r; reflexivity|].
      split; [reflexivity|].
      exists []. rewrite app_nil_r. split; [reflexivity|].
      split; [intros ev Hev; apply elem_of_nil in Hev; contradiction|].
      split; [discriminate|]. discriminate. }
    destruct (buildFiles_d (d a id) step c) as [sf [e|]].
    { unfold bind, add_collation, emit, ret. cbn.
      eexists _, _. split; [reflexivity|]. cbn [static trace].
      split; [split; discriminate|].
      split; [intros id'; rewrite andb_false_r; reflexivity|].
      split; [reflexivity|].
      eexists. split; [rewrite <- app_assoc; reflexivity|].
      split.
      { intros ev Hev. cbn [app] in Hev.
        rewrite !elem_of_cons in Hev.
        destruct Hev as [->|[->|Hev]]; try reflexivity.
        apply elem_of_nil in Hev. contradiction. }
      split.
      { intros sf' [= <-]. cbn [app]. rewrite !elem_of_cons. tauto. }
      discriminate. }
    rewrite (Hd id).
    unfold bind, add_collation, emit, set_static, ret. cbn.
    eexists _, _. split; [reflexivity|]. cbn [static trace sf_d sf_ivfs].
    split; [split; reflexivity|].
    split.
    { intros id'. rewrite andb_true_r. case_bool_decide as Hid.
      - subst id'. apply fn_lookup_insert.
      - apply fn_lookup_insert_ne. exact Hid. }
    split; [reflexivity|].
    eexists. split; [reflexivity|].
    split.
    { intros ev Hev. apply list_elem_of_singleton in Hev. subst ev. reflexivity. }
    split; [discriminate|].
    intros _ sf' Hin. apply list_elem_of_singleton in Hin. discriminate.
  - unfold index_task, task_ok, built_files, task_built, index_built.
    destruct (ii_collate (iis a pos) step) as [c [e|]].
    { eexists _, s. split; [reflexivity|]. split; [split; discriminate|].
      split; [reflexivity|].
      split; [intros pos'; rewrite andb_false_r; reflexivity|].
      exists []. rewrite app_nil_r. split; [reflexivity|].
      split; [intros ev Hev; apply elem_of_nil in Hev; contradiction|].
      split; [discriminate|]. discriminate. }
    destruct (ii_buildFiles (iis a pos) step c) as [sf [e|]].
    { unfold bind, emit, ret. cbn.
      eexists _, _. split; [reflexivity|]. cbn [static trace].
      split; [split; discriminate|].
      split; [reflexivity|].
      split; [intros pos'; rewrite andb_false_r; reflexivity|].
      eexists. split; [reflexivity|].
      split.
      { intros ev Hev. apply list_elem_of_singleton in Hev. subst ev. reflexivity. }
      split.
      { intros sf' [= <-]. apply list_elem_of_singleton. reflexivity. }
      discriminate. }
    rewrite (Hi pos).
    unfold bind, set_static, ret. cbn.
    eexists _, _. split; [reflexivity|]. cbn [static trace sf_d sf_ivfs].
    split; [split; reflexivity|].
    split; [reflexivity|].
    split.
    { intros pos'. rewrite andb_true_r. case_bool_decide as Hp.
      - subst pos'. apply fn_lookup_insert.
      - apply fn_lookup_insert_ne. exact Hp. }
    exists []. rewrite app_nil_r. split; [reflexivity|].
    split; [intros ev Hev; apply elem_of_nil in Hev; contradiction|].
    split; [discriminate|].
    intros _ sf' Hin. apply elem_of_nil in Hin. contradiction.
  - unfold appendable_task, task_ok, built_files, task_built, appendable_built.
    destruct (ap_collate app step) as [c [e|]].
    { eexists _, s. split; [reflexivity|]. split; [split; discriminate|].
      split; [reflexivity|]. split; [reflexivity|].
      exists []. rewrite app_nil_r. split; [reflexivity|].
      split; [intros ev Hev; apply elem_of_nil in Hev; contradiction|].
      split; [discriminate|]. discriminate. }
    destruct (ap_buildFiles app step c) as [sf [e|]].
    { unfold bind, emit, ret. cbn.
      eexists _, _. split; [reflexivity|]. cbn [static trace].
      split; [split; discriminate|].
      split; [reflexivity|]. split; [reflexivity|].
      eexists. split; [reflexivity|].
      split.
      { intros ev Hev. apply list_elem_of_singleton in Hev. subst ev. reflexivity. }
      split.
      { intros sf' [= <-]. apply list_elem_of_singleton. reflexivity. }
      discriminate. }
    unfold bind, set_static, ret. cbn.
    eexists _, _. split; [reflexivity|]. cbn [static trace sf_d sf_ivfs].
    split; [split; reflexivity|].
    split; [reflexivity|]. split; [reflexivity|].
    exists []. rewrite app_nil_r. split; [reflexivity|].
    split; [intros ev Hev; apply elem_of_nil in Hev; contradiction|].
    split; [discriminate|].
    intros _ sf' Hin. apply elem_of_nil in Hin. contradiction.
Qed.

Lemma built_files_not_ok (t : task) :
  task_ok a step t = false -> built_files a step t = [].
Proof.
  unfold task_ok, built_files.
  destruct (task_built a step t) as [[sf [|]]|]; [discriminate|reflexivity..].
Qed.

Lemma built_false_not_ok (t : task) (sf : Files) :
  task_built a step t = Some (sf, false) -> task_ok a step t = false.
Proof. unfold task_ok. intros ->. reflexivity. Qed.

Lemma round_inv_init :
  round_inv a step [] {| static := no_static; collations := []; trace := [] |} None.
Proof.
  split; cbn [static trace no_static sf_d sf_ivfs].
  - intros id. right. reflexivity.
  - intros id H. apply elem_of_nil in H. contradiction.
  - intros pos. right. reflexivity.
  - intros pos H. apply elem_of_nil in H. contradiction.
  - intros ev H. apply elem_of_nil in H. contradiction.
  - intros t sf H. apply elem_of_nil in H. contradiction.
  - intros _ sf H. apply elem_of_nil in H. contradiction.
  - split; [|reflexivity]. intros _ t H. apply elem_of_nil in H. contradiction.
Qed.

Lemma round_inv_step (t : task) (done : list task) (s : bstate)
    (first : option error) :
  round_inv a step done s first ->
  exists err s',
    run_task K a step txFrom txTo t s = (Returns err, s')
    /\ round_inv a step (done ++ [t]) s'
         (match first with Some e => Some e | None => err end).
Proof.
  intros [Hda Hd Hia Hi Hni Hpc Hnc Hf].
  destruct (run_task_outcome t s)
    as (err & s' & Hrun & Herr & Hsd & Hsi & evs & Htr & Hevi & Hevc & Hevn).
  exists err, s'. split; [exact Hrun|].
  assert (forall t', t' ∈ done ++ [t] <-> t' ∈ done \/ t' = t) as Hmem.
  { intros t'. rewrite elem_of_app, list_elem_of_singleton. reflexivity. }
  split.
  - intros id. rewrite Hsd. destruct t as [id0| |]; try apply Hda.
    destruct (bool_decide (id0 = id) && task_ok a step (TDomain id0)) eqn:E;
      [|apply Hda].
    apply andb_true_iff in E as [E _]. apply bool_decide_eq_true in E. subst id0.
    left. reflexivity.
  - intros id Hin. apply Hmem in Hin. rewrite Hsd.
    destruct t as [id0| |].
    + case_bool_decide as Hid; cbn [andb].
      * subst id0. destruct (task_ok a step (TDomain id)) eqn:Hok; [reflexivity|].
        destruct (Hda id) as [H|H]; [exact H|].
        rewrite H. symmetry. apply built_files_not_ok. exact Hok.
      * destruct Hin as [Hin|Heq]; [apply Hd; exact Hin|congruence].
    + destruct Hin as [Hin|Heq]; [apply Hd; exact Hin|discriminate].
    + destruct Hin as [Hin|Heq]; [apply Hd; exact Hin|discriminate].
  - intros pos. rewrite Hsi. destruct t as [|pos0|]; try apply Hia.
    destruct (bool_decide (pos0 = pos) && task_ok a step (TIndex pos0)) eqn:E;
      [|apply Hia].
    apply andb_true_iff in E as [E _]. apply bool_decide_eq_true in E. subst pos0.
    left. reflexivity.
  - intros pos Hin. apply Hmem in Hin. rewrite Hsi.
    destruct t as [|pos0|].
    + destruct Hin as [Hin|Heq]; [apply Hi; exact Hin|discriminate].
    + case_bool_decide as Hp; cbn [andb].
      * subst pos0. destruct (task_ok a step (TIndex pos)) eqn:Hok; [reflexivity|].
        destruct (Hia pos) as [H|H]; [exact H|].
        rewrite H. symmetry. apply built_files_not_ok. exact Hok.
      * destruct Hin as [Hin|Heq]; [apply Hi; exact Hin|congruence].
    + destruct Hin as [Hin|Heq]; [apply Hi; exact Hin|discriminate].
  - intros ev Hev. rewrite Htr in Hev. apply elem_of_app in Hev as [Hev|Hev]; auto.
  - intros t' sf Hin Hb. apply Hmem in Hin. rewrite Htr. apply elem_of_app.
    destruct Hin as [Hin | ->]; [left; eapply Hpc; eassumption|right; auto].
  - intros Hall sf Hin. rewrite Htr in Hin. apply elem_of_app in Hin as [Hin|Hin].
    + eapply Hnc; [|exact Hin]. intros t' Ht'. apply Hall, Hmem. left. exact Ht'.
    + eapply Hevn; [|exact Hin]. apply Hall, Hmem. right. reflexivity.
  - split.
    + intros Hnone t' Ht'. apply Hmem in Ht'.
      destruct first as [e|]; [discriminate|].
      destruct Ht' as [Ht' | ->]; [apply Hf; [reflexivity|exact Ht']|].
      apply Herr. exact Hnone.
    + intros Hall.
      assert (first = None) as ->.
      { apply Hf. intros t' Ht'. apply Hall, Hmem. left. exact Ht'. }
      apply Herr, Hall, Hmem. right. reflexivity.
Qed.

Lemma run_group_inv (sched : list task) :
  forall done s first,
    round_inv a step done s first ->
    exists r s',
      run_group K a step txFrom txTo sched first s = (Returns r, s')
      /\ round_inv a step (done ++ sched) s' r.
Proof.
  induction sched as [|t rest IH]; intros done s first Hinv.
  - exists first, s. rewrite app_nil_r. split; [reflexivity|exact Hinv].
  - destruct (round_inv_step t done s first Hinv) as (err & s1 & Hrun & Hinv1).
    destruct (IH _ _ _ Hinv1) as (r & s' & Hgrp & Hinv').
    exists r, s'. split.
    + cbn [run_group]. unfold bind. rewrite Hrun. exact Hgrp.
    + rewrite <- app_assoc in Hinv'. exact Hinv'.
Qed.

Lemma TDomain_in_tasks (id : Domain) : TDomain id ∈ tasks a.
Proof.
  unfold tasks. apply elem_of_app. left.
  apply list_elem_of_fmap. exists id. split; [reflexivity|].
  apply KvFacts.Domains_complete.
Qed.

Lemma TIndex_in_tasks (pos : InvertedIdxPos) : TIndex pos ∈ tasks a.
Proof.
  unfold tasks. apply elem_of_app. right. apply elem_of_app. left.
  apply list_elem_of_fmap. exists pos. split; [reflexivity|].
  apply KvFacts.StandaloneIdx_complete.
Qed.

Lemma cleanup_static_not_integration (sf : AggV3StaticFiles) (ev : event) :
  ev ∈ CleanupOnError_static sf -> is_integration ev = false.
Proof.
  unfold CleanupOnError_static. intros H.
  apply elem_of_app in H as [H|H];
    apply list_elem_of_fmap in H as (x & -> & _); reflexivity.
Qed.

Lemma cleanup_static_d (sf : AggV3StaticFiles) (id : Domain) :
  CleanupOnError (sf_d sf id) ∈ CleanupOnError_static sf.
Proof.
  unfold CleanupOnError_static. apply elem_of_app. left.
  apply list_elem_of_fmap. exists id. split; [reflexivity|].
  apply KvFacts.Domains_complete.
Qed.

Lemma cleanup_static_ivfs (sf : AggV3StaticFiles) (pos : InvertedIdxPos) :
  CleanupOnError (sf_ivfs sf pos) ∈ CleanupOnError_static sf.
Proof.
  unfold CleanupOnError_static. apply elem_of_app. right.
  apply list_elem_of_fmap. exists pos. split; [reflexivity|].
  apply KvFacts.StandaloneIdx_complete.
Qed.

Lemma built_true_files (t : task) (sf : Files) :
  task_built a step t = Some (sf, true) -> built_files a step t = sf.
Proof. unfold built_files. intros ->. reflexivity. Qed.

(** C1. One round of [buildFiles] with a worker limit other than zero,
    the tasks completing in any order [sched]: the call returns. If the
    collation or the build of some component fails,
    [buildFiles] returns an error, no [integrateDirtyFiles] call (and no
    visible-set recompute) happens, and [CleanupOnError] is called on
    every file that a domain or index build handed back in the round,
    finished or partial. If every component succeeds, [buildFiles]
    returns nil and its last actions are, event by event, the
    integration of the files built for each of the four domains and each
    of the four standalone indices, for the step's txNum range, followed
    by the visible-set recompute and the raising of
    [needSaveFilesListInDB], with no [CleanupOnError] call and no
    integration before. Integration happens only when every component
    succeeded. *)
Theorem buildFiles_atomic (sched : list task) :
  sched ≡ₚ tasks a ->
  collateAndBuildWorkers a <> 0 ->
  exists r tr,
  buildFiles K a step sched = Some (r, tr) /\
  ((exists t, t ∈ tasks a /\ task_ok a step t = false) ->
     (exists e, r = Returns (Some e))
     /\ (forall ev, ev ∈ tr -> is_integration ev = false)
     /\ (forall f, produced a step f -> cleaned tr f))
  /\ ((forall t, t ∈ tasks a -> task_ok a step t = true) ->
      r = Returns None
      /\ exists pre,
           let from := FirstTxNumOfStep a step in
           let to := FirstTxNumOfStep a (U64.add step 1) in
           tr = pre ++
                [ IntegrateDomain AccountsDomain
                    (built_files a step (TDomain AccountsDomain)) from to;
                  IntegrateDomain StorageDomain
                    (built_files a step (TDomain StorageDomain)) from to;
                  IntegrateDomain CodeDomain
                    (built_files a step (TDomain CodeDomain)) from to;
                  IntegrateDomain CommitmentDomain
                    (built_files a step (TDomain CommitmentDomain)) from to;
                  IntegrateIndex LogAddrIdxPos
                    (built_files a step (TIndex LogAddrIdxPos)) from to;
                  IntegrateIndex LogTopicIdxPos
                    (built_files a step (TIndex LogTopicIdxPos)) from to;
                  IntegrateIndex TracesFromIdxPos
                    (built_files a step (TIndex TracesFromIdxPos)) from to;
                  IntegrateIndex TracesToIdxPos
                    (built_files a step (TIndex TracesToIdxPos)) from to;
                  RecalcVisibleFiles;
                  NeedSaveFilesListInDB ]
           /\ (forall ev, ev ∈ pre -> is_integration ev = false)
           /\ (forall sf, CleanupOnError sf ∉ pre))
  /\ ((exists ev, ev ∈ tr /\ is_integration ev = true) ->
      forall t, t ∈ tasks a -> task_ok a step t = true).
Proof.
  intros Hperm Hworkers.
  assert (forall t, t ∈ sched <-> t ∈ tasks a) as Hmem.
  { intros t. rewrite Hperm. reflexivity. }
  destruct (run_group_inv sched [] _ None round_inv_init)
    as (r0 & s' & Hrun & Hinv).
  rewrite app_nil_l in Hinv.
  destruct Hinv as [Hda Hd Hia Hi Hni Hpc Hnc Hf].
  unfold buildFiles. fold txFrom txTo.
  rewrite (proj2 (Z.eqb_neq _ _) Hworkers), Hrun.
  assert (forall ev, ev ∈ trace s' ++ CleanupOnError_static (static s') ->
                     is_integration ev = false) as Hfail_ni.
  { intros ev Hev. apply elem_of_app in Hev as [Hev|Hev];
      [apply Hni; exact Hev|eapply cleanup_static_not_integration; exact Hev]. }
  destruct r0 as [e|]; eexists _, _; (split; [reflexivity|]); (split; [|split]).
  - (* some component failed *)
    intros (t & Ht & Hbad).
    split; [eauto|]. split; [exact Hfail_ni|].
    intros f (t' & sf & ok & Hkind & Hb & Hin).
    destruct ok.
    + exists sf. split; [|exact Hin]. apply elem_of_app. right.
      destruct t' as [id|pos|]; [| |discriminate].
      * rewrite <- (built_true_files _ _ Hb), <- (Hd id)
          by (apply Hmem, TDomain_in_tasks).
        apply cleanup_static_d.
      * rewrite <- (built_true_files _ _ Hb), <- (Hi pos)
          by (apply Hmem, TIndex_in_tasks).
        apply cleanup_static_ivfs.
    + exists sf. split; [|exact Hin]. apply elem_of_app. left.
      apply (Hpc t'); [|exact Hb]. apply Hmem.
      destruct t' as [id|pos|]; [apply TDomain_in_tasks|apply TIndex_in_tasks|
                                 discriminate].
  - intros Hall. exfalso.
    assert (Some e = None) as Hno; [|discriminate Hno].
    apply Hf. intros t Ht. apply Hall, Hmem. exact Ht.
  - intros (ev & Hev & Hint).
    rewrite (Hfail_ni ev Hev) in Hint. discriminate.
  - (* every component succeeded *)
    intros (t & Ht & Hbad).
    assert (task_ok a step t = true) as Hok
      by (apply Hf; [reflexivity|apply Hmem; exact Ht]).
    congruence.
  - intros Hall. split; [reflexivity|].
    exists (trace s'). cbv zeta. split; [|split].
    + f_equal. unfold integrateDirtyFiles, Domains, StandaloneIdx.
      cbn [fmap list_fmap app].
      rewrite !Hd by (apply Hmem, TDomain_in_tasks).
      rewrite !Hi by (apply Hmem, TIndex_in_tasks).
      reflexivity.
    + exact Hni.
    + apply Hnc. intros t Ht. apply Hall, Hmem. exact Ht.
  - intros _ t Ht. apply Hf; [reflexivity|apply Hmem; exact Ht].
Qed.

(** With a worker limit of zero no goroutine is ever started and the
    round does not return. *)
Lemma buildFiles_no_workers (sched : list task) :
  collateAndBuildWorkers a = 0 -> buildFiles K a step sched = None.
Proof. unfold buildFiles. intros ->. reflexivity. Qed.
End Round.

Lemma sample_wired (storage_fails : bool) :
  wired Samples.kv_names (Samples.build_agg storage_fails).
Proof.
  split.
  - intros id. destruct id; reflexivity.
  - intros pos. destruct pos; reflexivity.
Qed.

(** Two rounds at step 3. In the first the Storage build fails: the
    round ends in an error, integrates nothing, and cleans up both the
    partial Storage file and the finished Accounts files. In the second
    every component succeeds: the round returns nil, closes the four
    collations and then integrates the eight components' files for the
    txNums 300..400, recomputes the visible set and raises the flag. *)
Lemma buildFiles_atomic_witness :
  (exists tr,
    buildFiles Samples.kv_names (Samples.build_agg true) 3
      (reverse (tasks (Samples.build_agg true)))
    = Some (Returns (Some "domain collate-build: no space left on device"), tr)
    /\ (forall ev, ev ∈ tr -> is_integration ev = false)
    /\ cleaned tr "v1-storage.kv.tmp"
    /\ cleaned tr "v1-accounts.kvi")
  /\ buildFiles Samples.kv_names (Samples.build_agg false) 3
       (reverse (tasks (Samples.build_agg false)))
     = Some (Returns None,
             [ CollationClose 1%nat; CollationClose 1%nat;
               CollationClose 1%nat; CollationClose 1%nat;
               IntegrateDomain AccountsDomain
                 ["v1-accounts.kv"; "v1-accounts.kvi"] 300 400;
               IntegrateDomain StorageDomain
                 ["v1-storage.kv"; "v1-storage.kvi"] 300 400;
               IntegrateDomain CodeDomain ["v1-code.kv"; "v1-code.kvi"] 300 400;
               IntegrateDomain CommitmentDomain
                 ["v1-commitment.kv"; "v1-commitment.kvi"] 300 400;
               IntegrateIndex LogAddrIdxPos ["v1-logaddrs.ef"] 300 400;
               IntegrateIndex LogTopicIdxPos ["v1-logtopics.ef"] 300 400;
               IntegrateIndex TracesFromIdxPos ["v1-tracesfrom.ef"] 300 400;
               IntegrateIndex TracesToIdxPos ["v1-tracesto.ef"] 300 400;
               RecalcVisibleFiles; NeedSaveFilesListInDB ]).
Proof.
  split.
  - destruct (buildFiles_atomic Samples.kv_names (Samples.build_agg true) 3
                (sample_wired true) (reverse (tasks (Samples.build_agg true)))
                (reverse_Permutation _) ltac:(discriminate))
      as (r & tr & Hrun & Hfail & _ & _).
    destruct Hfail as ((e & He) & Hni & Hclean).
    { exists (TDomain StorageDomain). split; [|reflexivity].
      apply (TDomain_in_tasks (Samples.build_agg true)). }
    exists tr. split.
    { rewrite Hrun. vm_compute in Hrun. injection Hrun as <- _. reflexivity. }
    split; [exact Hni|]. split.
    + apply Hclean. exists (TDomain StorageDomain), ["v1-storage.kv.tmp"], false.
      split; [reflexivity|]. split; [reflexivity|].
      apply list_elem_of_singleton. reflexivity.
    + apply Hclean.
      exists (TDomain AccountsDomain), ["v1-accounts.kv"; "v1-accounts.kvi"], true.
      split; [reflexivity|]. split; [reflexivity|].
      rewrite !elem_of_cons. tauto.
  - destruct (buildFiles_atomic Samples.kv_names (Samples.build_agg false) 3
                (sample_wired false) (reverse (tasks (Samples.build_agg false)))
                (reverse_Permutation _) ltac:(discriminate))
      as (r & tr & Hrun & _ & Hgood & _).
    destruct Hgood as (-> & pre & Htr & _).
    { intros t Ht. vm_compute in Ht.
      repeat (apply elem_of_cons in Ht as [->|Ht]; [reflexivity|]).
      apply elem_of_nil in Ht. destruct Ht. }
    rewrite Hrun. vm_compute in Hrun. injection Hrun as <-. reflexivity.
Defined.
End BuildFacts.

(** ** Squeezing the Commitment files *)

Module SqueezeFacts.
Import Squeeze.

Section WithEnv.
Variable E : Env.

(** A loop that ran to its end wrote, for every pair with a non-nil
    key, the key and then the value, transformed unless the key is the
    sentinel; and the transformer failed on none of them. *)
Lemma squeeze_pairs_ok vt af out ps :
  forall written ws,
    squeeze_pairs E vt af out ps written = inl ws ->
    ws = written ++ concat (squeezed_pair E vt af <$> ps)
    /\ (forall kv, kv ∈ ps -> ~ transform_fails E vt af kv).
Proof.
  induction ps as [|[k v] rest IH]; intros written ws H; cbn [squeeze_pairs] in H.
  - injection H as <-. cbn. rewrite app_nil_r. split; [reflexivity|].
    intros kv Hkv. apply elem_of_nil in Hkv. contradiction.
  - destruct k as [kb|].
    + unfold squeezed_pair at 1. cbn [fst snd fmap list_fmap concat].
      case_bool_decide as Hs.
      * destruct (AddWord_err E out written (Some kb)); [discriminate|].
        destruct (AddWord_err E out (written ++ [Some kb]) v); [discriminate|].
        apply IH in H as [-> Hrest]. split.
        { rewrite <- app_assoc. reflexivity. }
        intros kv Hkv. apply elem_of_cons in Hkv as [->|Hkv]; [|auto].
        intros (kb' & [= <-] & Hne & _). contradiction.
      * destruct (vt v (startTxNum af) (endTxNum af)) as [v' [e|]] eqn:Evt;
          [discriminate|].
        destruct (AddWord_err E out written (Some kb)); [discriminate|].
        destruct (AddWord_err E out (written ++ [Some kb]) v'); [discriminate|].
        apply IH in H as [-> Hrest]. split.
        { rewrite <- app_assoc. reflexivity. }
        intros kv Hkv. apply elem_of_cons in Hkv as [->|Hkv]; [|auto].
        intros (kb' & _ & _ & Hf). cbn [snd] in Hf. rewrite Evt in Hf.
        apply Hf. reflexivity.
    + apply IH in H as [-> Hrest]. split; [reflexivity|].
      intros kv Hkv. apply elem_of_cons in Hkv as [->|Hkv]; [|auto].
      intros (kb' & Hk & _). discriminate.
Qed.

Lemma originals_intact_refl (s : sqstate) : originals_intact s s.
Proof.
  split; [|reflexivity]. exists []. rewrite app_nil_r. split; [reflexivity|constructor].
Qed.

Lemma originals_intact_trans (s1 s2 s3 : sqstate) :
  originals_intact s1 s2 -> originals_intact s2 s3 -> originals_intact s1 s3.
Proof.
  intros [(n1 & O1 & F1) P1] [(n2 & O2 & F2) P2]. split.
  - exists (n1 ++ n2). split; [rewrite O2, O1, app_assoc; reflexivity|].
    apply Forall_app. split; assumption.
  - intros p Hp. rewrite P2, P1 by exact Hp. reflexivity.
Qed.

(** The closure of one file: the originals stay, and when it succeeds
    the [.squeezed] file holds the words of the loop. *)
Lemma squeeze_file_spec (ac : AggregatorRoTx) (cf af sf : filesItem) (s : sqstate) :
  originals_intact s (squeeze_file E ac cf af sf s).2
  /\ ((squeeze_file E ac cf af sf s).1 = Returns None ->
      fs (squeeze_file E ac cf af sf s).2 !! (FilePath cf +:+ sqExt)
        = Some (concat (squeezed_pair E (commitmentValTransformDomain E af sf) af
                          <$> pairs cf))
      /\ (forall kv, kv ∈ pairs cf ->
            ~ transform_fails E (commitmentValTransformDomain E af sf) af kv)).
Proof.
  unfold squeeze_file.
  destruct (NewCompressor_err E (FilePath cf +:+ sqExt +:+ ".tmp")) as [e|];
    [split; [apply originals_intact_refl|discriminate]|].
  destruct (squeeze_pairs E (commitmentValTransformDomain E af sf) af
              (FilePath cf +:+ sqExt +:+ ".tmp") (pairs cf) []) as [ws|e] eqn:Ep;
    [|split; [apply originals_intact_refl|discriminate]].
  apply squeeze_pairs_ok in Ep as [Hws Hnf]. rewrite app_nil_l in Hws.
  destruct (Compress_err E (FilePath cf +:+ sqExt +:+ ".tmp") ws) as [e|];
    [split; [apply originals_intact_refl|discriminate]|].
  unfold bind, write_file, os_Rename, add_temporal, add_obsolete, ret.
  cbn [fs ops obsoleteFiles temporalFiles processedFiles].
  assert (originals_intact s
            {| fs := <[FilePath cf +:+ sqExt +:+ ".tmp" := ws]> (fs s);
               ops := ops s ++ [OpWrite (FilePath cf +:+ sqExt +:+ ".tmp")];
               obsoleteFiles := obsoleteFiles s;
               temporalFiles := temporalFiles s;
               processedFiles := processedFiles s |}) as Hw.
  { split; cbn [fs ops].
    - eexists. split; [reflexivity|]. constructor; [|constructor].
      exists (FilePath cf). reflexivity.
    - intros p Hp. apply lookup_insert_ne. intros <-. apply Hp.
      exists (FilePath cf). right. reflexivity. }
  destruct (Rename_err E (FilePath cf +:+ sqExt +:+ ".tmp") (FilePath cf +:+ sqExt))
    as [e|]; [split; [exact Hw|discriminate]|].
  rewrite lookup_insert_eq.
  cbn [fs ops obsoleteFiles temporalFiles processedFiles].
  assert (forall o t n,
            originals_intact s
              {| fs := <[FilePath cf +:+ sqExt := ws]>
                         (delete (FilePath cf +:+ sqExt +:+ ".tmp")
                            (<[FilePath cf +:+ sqExt +:+ ".tmp" := ws]> (fs s)));
                 ops := (ops s ++ [OpWrite (FilePath cf +:+ sqExt +:+ ".tmp")])
                          ++ [OpRename (FilePath cf +:+ sqExt +:+ ".tmp")
                                (FilePath cf +:+ sqExt)];
                 obsoleteFiles := o; temporalFiles := t; processedFiles := n |})
    as Hr.
  { intros o t n. split; cbn [fs ops].
    - eexists. split; [rewrite <- app_assoc; reflexivity|].
      constructor; [exists (FilePath cf); reflexivity|].
      constructor; [|constructor]. exists (FilePath cf). split; reflexivity.
    - intros p Hp.
      rewrite lookup_insert_ne, lookup_delete_ne, lookup_insert_ne; [reflexivity|..].
      + intros <-. apply Hp. exists (FilePath cf). right. reflexivity.
      + intros <-. apply Hp. exists (FilePath cf). right. reflexivity.
      + intros <-. apply Hp. exists (FilePath cf). left. reflexivity. }
  destruct (Stat_err E (FilePath cf)) as [e|];
    [split; [apply Hr|discriminate]|].
  destruct (Stat_err E (FilePath cf +:+ sqExt)) as [e|];
    [split; [apply Hr|discriminate]|].
  destruct (StepSize ac =? 0); [split; [apply Hr|discriminate]|].
  split; [apply Hr|]. intros _. cbn [snd fs]. split; [|exact Hnf].
  rewrite lookup_insert_eq, Hws. reflexivity.
Qed.

Lemma squeeze_all_intact (ac : AggregatorRoTx) (cfs : list filesItem) :
  forall s, originals_intact s (squeeze_all E ac cfs s).2.
Proof.
  induction cfs as [|cf rest IH]; intros s; cbn [squeeze_all].
  - apply originals_intact_refl.
  - destruct (paired ac cf) as [[af sf]|]; [|apply IH].
    unfold bind.
    destruct (squeeze_file_spec ac cf af sf s) as [Hi _].
    destruct (squeeze_file E ac cf af sf s) as [[[e|]|msg] s1]; cbn [snd] in *.
    + exact Hi.
    + eapply originals_intact_trans; [exact Hi|apply IH].
    + exact Hi.
Qed.

Lemma squeeze_file_panics (ac : AggregatorRoTx) (cf af sf : filesItem) (s : sqstate)
    (msg : string) :
  (squeeze_file E ac cf af sf s).1 = Panics msg -> StepSize ac = 0.
Proof.
  unfold squeeze_file, bind, write_file, os_Rename, add_temporal, add_obsolete, ret.
  repeat (case_match; try discriminate).
  intros _. apply Z.eqb_eq. assumption.
Qed.

Lemma squeeze_all_panics (ac : AggregatorRoTx) (cfs : list filesItem) :
  forall s msg, (squeeze_all E ac cfs s).1 = Panics msg -> StepSize ac = 0.
Proof.
  induction cfs as [|cf rest IH]; intros s msg; cbn [squeeze_all].
  - discriminate.
  - destruct (paired ac cf) as [[af sf]|]; [|apply IH].
    unfold bind.
    pose proof (squeeze_file_panics ac cf af sf s) as Hp.
    destruct (squeeze_file E ac cf af sf s) as [[[e|]|m] s1]; cbn [fst] in *.
    + discriminate.
    + apply IH.
    + intros _. eapply Hp. reflexivity.
Qed.

(** A transformer failure on a pair of a processed file makes the
    producing phase fail. *)
Lemma squeeze_all_fails (ac : AggregatorRoTx) (cfs : list filesItem) :
  StepSize ac <> 0 ->
  forall s,
    (exists cf af sf kv,
        cf ∈ cfs /\ paired ac cf = Some (af, sf) /\ kv ∈ pairs cf
        /\ transform_fails E (commitmentValTransformDomain E af sf) af kv) ->
    exists e, (squeeze_all E ac cfs s).1 = Returns (Some e).
Proof.
  intros Hstep.
  induction cfs as [|cf rest IH]; intros s (cf0 & af0 & sf0 & kv & Hin & Hp & Hkv & Hf).
  - apply elem_of_nil in Hin. contradiction.
  - cbn [squeeze_all]. apply elem_of_cons in Hin as [->|Hin].
    + rewrite Hp. unfold bind.
      destruct (squeeze_file_spec ac cf af0 sf0 s) as [_ Hok].
      pose proof (squeeze_file_panics ac cf af0 sf0 s) as Hpanic.
      destruct (squeeze_file E ac cf af0 sf0 s) as [[[e|]|msg] s1]; cbn [fst snd] in *.
      * eauto.
      * destruct (Hok eq_refl) as [_ Hnf]. exfalso. eapply Hnf; eassumption.
      * exfalso. eapply Hstep, Hpanic. reflexivity.
    + destruct (paired ac cf) as [[af sf]|].
      * unfold bind.
        pose proof (squeeze_file_panics ac cf af sf s) as Hpanic.
        destruct (squeeze_file E ac cf af sf s) as [[[e|]|msg] s1];
          cbn [fst] in *; [eauto| |exfalso; eapply Hstep, Hpanic; reflexivity].
        apply IH. exists cf0, af0, sf0, kv. auto.
      * apply IH. exists cf0, af0, sf0, kv. auto.
Qed.

Lemma written_for_snoc vt af pre kv :
  written_for E vt af (pre ++ [kv])
  = written_for E vt af pre ++ squeezed_pair E vt af kv.
Proof.
  unfold written_for. rewrite fmap_app, concat_app. cbn. rewrite app_nil_r.
  reflexivity.
Qed.

(** The loop over [ps], entered after the pairs [pre0]: it ends in an
    error exactly on the first pair on which the transformer or a write
    fails, and in no error when there is no such pair. *)
Lemma squeeze_pairs_cases vt af out (ps : list (word * word)) :
  forall pre0,
    match squeeze_pairs E vt af out ps (written_for E vt af pre0) with
    | inl ws =>
        ws = written_for E vt af (pre0 ++ ps)
        /\ (forall pre post kb v,
              ps = pre ++ (Some kb, v) :: post ->
              (kb <> keyCommitmentState E ->
               (vt v (startTxNum af) (endTxNum af)).2 = None)
              /\ AddWord_err E out (written_for E vt af (pre0 ++ pre)) (Some kb) = None
              /\ AddWord_err E out (written_for E vt af (pre0 ++ pre) ++ [Some kb])
                   (if bool_decide (kb = keyCommitmentState E) then v
                    else (vt v (startTxNum af) (endTxNum af)).1) = None)
    | inr e =>
        exists pre post kb v,
          ps = pre ++ (Some kb, v) :: post
          /\ ((kb <> keyCommitmentState E
               /\ exists e0, (vt v (startTxNum af) (endTxNum af)).2 = Some e0
                             /\ e = "failed to transform commitment value: " +:+ e0)
              \/ (exists e0,
                    AddWord_err E out (written_for E vt af (pre0 ++ pre)) (Some kb)
                      = Some e0
                    /\ e = "write key word: " +:+ e0)
              \/ (exists e0,
                    AddWord_err E out (written_for E vt af (pre0 ++ pre) ++ [Some kb])
                      (if bool_decide (kb = keyCommitmentState E) then v
                       else (vt v (startTxNum af) (endTxNum af)).1) = Some e0
                    /\ e = "write value word: " +:+ e0))
    end.
Proof.
  induction ps as [|[k v] rest IH]; intros pre0; cbn [squeeze_pairs].
  - rewrite app_nil_r. split; [reflexivity|].
    intros pre post kb v H. destruct pre; discriminate.
  - assert (forall (P : list word + error -> Prop),
              (forall ws, P (inl ws)) -> True) as _ by auto.
    destruct k as [kb|].
    + (* a pair with a key *)
      set (r := if bool_decide (kb = keyCommitmentState E) then (v, None)
                else vt v (startTxNum af) (endTxNum af)).
      assert (r.1 = (if bool_decide (kb = keyCommitmentState E) then v
                     else (vt v (startTxNum af) (endTxNum af)).1)) as Hr1
        by (unfold r; case_bool_decide; reflexivity).
      assert (kb <> keyCommitmentState E ->
              r.2 = (vt v (startTxNum af) (endTxNum af)).2) as Hr2
        by (intros Hne; unfold r; rewrite bool_decide_eq_false_2 by exact Hne;
            reflexivity).
      assert (kb = keyCommitmentState E -> r.2 = None) as Hr3
        by (intros He; unfold r; rewrite bool_decide_eq_true_2 by exact He;
            reflexivity).
      destruct r as [v' err]. cbn [fst snd] in Hr1, Hr2, Hr3.
      destruct err as [e0|].
      { exists [], rest, kb, v. split; [reflexivity|]. left.
        destruct (decide (kb = keyCommitmentState E)) as [He|Hne].
        - specialize (Hr3 He). discriminate.
        - split; [exact Hne|]. exists e0. rewrite <- Hr2 by exact Hne. auto. }
      destruct (AddWord_err E out (written_for E vt af pre0) (Some kb)) as [e0|] eqn:Ek.
      { exists [], rest, kb, v. split; [reflexivity|]. right. left.
        exists e0. rewrite app_nil_r. auto. }
      destruct (AddWord_err E out (written_for E vt af pre0 ++ [Some kb]) v')
        as [e0|] eqn:Ev.
      { exists [], rest, kb, v. split; [reflexivity|]. right. right.
        exists e0. rewrite app_nil_r, <- Hr1. auto. }
      assert (written_for E vt af pre0 ++ [Some kb; v']
              = written_for E vt af (pre0 ++ [(Some kb, v)])) as Hw.
      { rewrite written_for_snoc. unfold squeezed_pair. cbn [fst snd].
        rewrite <- Hr1. reflexivity. }
      rewrite Hw. specialize (IH (pre0 ++ [(Some kb, v)])).
      destruct (squeeze_pairs E vt af out rest
                  (written_for E vt af (pre0 ++ [(Some kb, v)]))) as [ws|e].
      * destruct IH as [-> Hall]. rewrite <- app_assoc. split; [reflexivity|].
        intros pre post kb1 v1 Hsplit.
        destruct pre as [|p pre]; cbn in Hsplit.
        -- injection Hsplit as <- <- <-. rewrite app_nil_r. split; [|split].
           ++ intros Hne. rewrite <- Hr2 by exact Hne. reflexivity.
           ++ exact Ek.
           ++ rewrite <- Hr1. exact Ev.
        -- injection Hsplit as <- ->.
           specialize (Hall pre post kb1 v1 eq_refl).
           rewrite <- app_assoc in Hall. exact Hall.
      * destruct IH as (pre & post & kb1 & v1 & -> & Hcase).
        exists ((Some kb, v) :: pre), post, kb1, v1. split; [reflexivity|].
        rewrite <- app_assoc in Hcase. exact Hcase.
    + (* a nil key: skipped *)
      assert (written_for E vt af pre0 = written_for E vt af (pre0 ++ [(None, v)]))
        as Hw by (rewrite written_for_snoc; cbn; rewrite app_nil_r; reflexivity).
      rewrite Hw. specialize (IH (pre0 ++ [(None, v)])).
      destruct (squeeze_pairs E vt af out rest
                  (written_for E vt af (pre0 ++ [(None, v)]))) as [ws|e].
      * destruct IH as [-> Hall]. rewrite <- app_assoc. split; [reflexivity|].
        intros pre post kb1 v1 Hsplit.
        destruct pre as [|p pre]; cbn in Hsplit; [discriminate|].
        injection Hsplit as <- ->.
        specialize (Hall pre post kb1 v1 eq_refl).
        rewrite <- app_assoc in Hall. exact Hall.
      * destruct IH as (pre & post & kb1 & v1 & -> & Hcase).
        exists ((None, v) :: pre), post, kb1, v1. split; [reflexivity|].
        rewrite <- app_assoc in Hcase. exact Hcase.
Qed.

(** The closure returns an error exactly when one of its operations
    fails, and the error is that of a failing operation. *)
Lemma squeeze_file_error (ac : AggregatorRoTx) (cf af sf : filesItem) (s : sqstate) :
  (forall e, (squeeze_file E ac cf af sf s).1 = Returns (Some e) ->
             closure_failure E cf af sf e)
  /\ ((exists e, closure_failure E cf af sf e) ->
      exists e, (squeeze_file E ac cf af sf s).1 = Returns (Some e)).
Proof.
  pose proof (squeeze_pairs_cases (commitmentValTransformDomain E af sf) af
                (FilePath cf +:+ sqExt +:+ ".tmp") (pairs cf) []) as Hloop.
  change (written_for E (commitmentValTransformDomain E af sf) af []) with (@nil word)
    in Hloop.
  unfold squeeze_file.
  destruct (NewCompressor_err E (FilePath cf +:+ sqExt +:+ ".tmp")) as [e0|] eqn:En.
  { split; [|eauto]. intros e [= <-]. apply NewCompressor_fails. exact En. }
  destruct (squeeze_pairs E (commitmentValTransformDomain E af sf) af
              (FilePath cf +:+ sqExt +:+ ".tmp") (pairs cf) []) as [ws|e0].
  2:{ split; [|eauto]. intros e [= <-].
      destruct Hloop as (pre & post & kb & v & Hsplit & Hcase).
      cbn [app] in Hcase.
      destruct Hcase as [(Hne & e1 & He1 & ->)|[(e1 & He1 & ->)|(e1 & He1 & ->)]].
      - eapply transform_fails_at; eassumption.
      - eapply key_write_fails; eassumption.
      - eapply value_write_fails; eassumption. }
  destruct Hloop as [-> Hall]. cbn [app] in Hall |- *.
  destruct (Compress_err E (FilePath cf +:+ sqExt +:+ ".tmp")
              (written_for E (commitmentValTransformDomain E af sf) af (pairs cf)))
    as [e0|] eqn:Ec.
  { split; [|eauto]. intros e [= <-]. apply Compress_fails. exact Ec. }
  unfold bind, write_file, os_Rename, add_temporal, add_obsolete, ret.
  cbn [fs ops obsoleteFiles temporalFiles processedFiles].
  destruct (Rename_err E (FilePath cf +:+ sqExt +:+ ".tmp") (FilePath cf +:+ sqExt))
    as [e0|] eqn:Er.
  { split; [|eauto]. intros e [= <-]. apply Rename_fails. exact Er. }
  rewrite lookup_insert_eq.
  destruct (Stat_err E (FilePath cf)) as [e0|] eqn:Es1.
  { split; [|eauto]. intros e [= <-]. apply Stat_original_fails. exact Es1. }
  destruct (Stat_err E (FilePath cf +:+ sqExt)) as [e0|] eqn:Es2.
  { split; [|eauto]. intros e [= <-]. apply Stat_squeezed_fails. exact Es2. }
  assert (~ exists e, closure_failure E cf af sf e) as Hnone.
  { intros (e & Hf). destruct Hf as [e H|pre post kb v e Hs Hne H|pre post kb v e Hs H
                                     |pre post kb v e Hs H|e H|e H|e H|e H];
      try congruence.
    - destruct (Hall pre post kb v Hs) as (Ht & _ & _). rewrite Ht in H by exact Hne.
      discriminate.
    - destruct (Hall pre post kb v Hs) as (_ & Hk & _). congruence.
    - destruct (Hall pre post kb v Hs) as (_ & _ & Hv). congruence. }
  destruct (StepSize ac =? 0); cbn [fst].
  - split; [discriminate|]. intros H. destruct (Hnone H).
  - split; [discriminate|]. intros H. destruct (Hnone H).
Qed.

(** The producing loop returns an error exactly when the closure of a
    processed file fails (the step size not being zero), and the error
    is the closure's error wrapped with the name of that file. *)
Lemma squeeze_all_error (ac : AggregatorRoTx) (cfs : list filesItem) :
  forall s,
    (forall e, (squeeze_all E ac cfs s).1 = Returns (Some e) ->
       exists cf af sf e0,
         cf ∈ cfs /\ paired ac cf = Some (af, sf)
         /\ closure_failure E cf af sf e0
         /\ e = "failed to squeeze commitment file "
                 +:+ Filepath.fmt_q (FileName cf) +:+ ": " +:+ e0)
    /\ (StepSize ac <> 0 ->
        (exists cf af sf e0,
            cf ∈ cfs /\ paired ac cf = Some (af, sf) /\ closure_failure E cf af sf e0) ->
        exists e, (squeeze_all E ac cfs s).1 = Returns (Some e)).
Proof.
  induction cfs as [|cf rest IH]; intros s; cbn [squeeze_all].
  - split; [discriminate|]. intros _ (cf & _ & _ & _ & Hin & _).
    apply elem_of_nil in Hin. destruct Hin.
  - destruct (paired ac cf) as [[af sf]|] eqn:Ep.
    + unfold bind.
      destruct (squeeze_file_error ac cf af sf s) as [Hback Hforw].
      pose proof (squeeze_file_panics ac cf af sf s) as Hpanic.
      destruct (squeeze_file E ac cf af sf s) as [[[e0|]|msg] s1]; cbn [fst snd] in *.
      * split; [|eauto]. intros e [= <-].
        exists cf, af, sf, e0. split; [apply elem_of_cons; left; reflexivity|].
        split; [exact Ep|]. split; [apply Hback; reflexivity|reflexivity].
      * destruct (IH s1) as [IHb IHf]. split.
        -- intros e He. destruct (IHb e He) as (cf' & af' & sf' & e0 & Hin & H).
           exists cf', af', sf', e0. split; [apply elem_of_cons; right; exact Hin|exact H].
        -- intros Hstep (cf' & af' & sf' & e0 & Hin & Hp & Hf).
           apply elem_of_cons in Hin as [->|Hin].
           ++ rewrite Ep in Hp. injection Hp as <- <-.
              destruct Hforw as (e & He); [eauto|discriminate].
           ++ apply IHf; [exact Hstep|]. exists cf', af', sf', e0. auto.
      * split; [discriminate|]. intros Hstep _.
        destruct Hstep. eapply Hpanic. reflexivity.
    + destruct (IH s) as [IHb IHf]. split.
      * intros e He. destruct (IHb e He) as (cf' & af' & sf' & e0 & Hin & H).
        exists cf', af', sf', e0. split; [apply elem_of_cons; right; exact Hin|exact H].
      * intros Hstep (cf' & af' & sf' & e0 & Hin & Hp & Hf).
        apply elem_of_cons in Hin as [->|Hin]; [congruence|].
        apply IHf; [exact Hstep|]. exists cf', af', sf', e0. auto.
Qed.
(** Whatever the step size: when an operation fails for a processed
    file, the producing loop does not return nil. *)
Lemma squeeze_all_not_nil (ac : AggregatorRoTx) (cfs : list filesItem) :
  forall s,
    (exists cf af sf e0,
        cf ∈ cfs /\ paired ac cf = Some (af, sf) /\ closure_failure E cf af sf e0) ->
    (squeeze_all E ac cfs s).1 <> Returns None.
Proof.
  induction cfs as [|cf rest IH]; intros s (cf' & af' & sf' & e0 & Hin & Hp & Hf).
  - apply elem_of_nil in Hin. destruct Hin.
  - cbn [squeeze_all]. apply elem_of_cons in Hin as [->|Hin].
    + rewrite Hp. unfold bind.
      destruct (squeeze_file_error ac cf af' sf' s) as [_ Hforw].
      destruct (Hforw (ex_intro _ e0 Hf)) as (e & He).
      destruct (squeeze_file E ac cf af' sf' s) as [r s1]. cbn [fst] in He.
      subst r. discriminate.
    + destruct (paired ac cf) as [[af sf]|].
      * unfold bind.
        destruct (squeeze_file E ac cf af sf s) as [[[e|]|msg] s1];
          [discriminate| |discriminate].
        apply IH. exists cf', af', sf', e0. auto.
      * apply IH. exists cf', af', sf', e0. auto.
Qed.
End WithEnv.

Lemma last_char_app (orig suffix : string) :
  suffix <> "" -> last_char (orig +:+ suffix) = last_char suffix.
Proof.
  intros Hne. induction orig as [|c orig IH]; [reflexivity|].
  change (String c orig +:+ suffix) with (String c (orig +:+ suffix)).
  destruct (orig +:+ suffix) as [|c' rest] eqn:E.
  - destruct orig; [exfalso; apply Hne; exact E|discriminate].
  - rewrite <- IH. reflexivity.
Qed.

(** A path that ends in neither [d] nor [p] is not a squeezed path. *)
Lemma not_squeezed_path (p : string) (c : ascii) :
  last_char p = Some c -> c <> "d"%char -> c <> "p"%char -> ~ squeezed_path p.
Proof.
  intros Hl Hd Hp (orig & [->| ->]).
  - rewrite last_char_app in Hl by discriminate. injection Hl as <-.
    apply Hd. reflexivity.
  - rewrite (last_char_app orig (sqExt +:+ ".tmp")) in Hl by discriminate.
    injection Hl as <-. apply Hp. reflexivity.
Qed.

(** C5, as the code has it. A processed Commitment file is rewritten
    pair by pair: a pair with a nil key is dropped, the pair whose key is
    the sentinel [keyCommitmentState] is copied unchanged, and every
    other pair keeps its key and gets its value transformed; the
    [.squeezed] file of a file whose closure succeeded holds exactly
    these words. If the closure of any file returns an error (a failed
    transform, a failed write, or any other failure while the squeezed
    files are produced), [SqueezeCommitmentFiles] returns that error
    wrapped with the file's name, having only written [.squeezed.tmp]
    files and renamed them to [.squeezed]: no file was removed, nothing
    was renamed over an original, and every other path holds what it
    held before; the same holds when the closure panics, which a zero
    step size makes it do. With a step size other than zero, a
    transformer failure on any pair of a processed file leads to such
    an error. The closure of a file returns an error exactly when one of
    its operations fails (creating the compressor, the transformer,
    writing a key or a value word, compressing, renaming the temp file,
    the two [os.Stat] calls), and the error is that of a failing
    operation, with the prefix the loop gives it; and when, the step
    size not being zero, an operation fails for some processed file,
    [SqueezeCommitmentFiles] returns the error of a failing operation of
    a processed file, wrapped with that file's name, the originals
    being intact; whatever the step size, it then does not return nil. *)
Theorem SqueezeCommitmentFiles_spec (E : Env) (ac : AggregatorRoTx) (s : sqstate) :
  (forall vt af v, squeezed_pair E vt af (None, v) = [])
  /\ (forall vt af v,
        squeezed_pair E vt af (Some (keyCommitmentState E), v)
        = [Some (keyCommitmentState E); v])
  /\ (forall vt af kb v,
        kb <> keyCommitmentState E ->
        squeezed_pair E vt af (Some kb, v)
        = [Some kb; (vt v (startTxNum af) (endTxNum af)).1])
  /\ (forall cf af sf s0,
        (squeeze_file E ac cf af sf s0).1 = Returns None ->
        fs (squeeze_file E ac cf af sf s0).2 !! (FilePath cf +:+ sqExt)
        = Some (concat (squeezed_pair E (commitmentValTransformDomain E af sf) af
                          <$> pairs cf)))
  /\ (commitmentValuesTransform ac = true ->
      forall r,
        (squeeze_all E ac (commitFiles ac) s).1 = r -> r <> Returns None ->
        SqueezeCommitmentFiles E ac s
          = (r, (squeeze_all E ac (commitFiles ac) s).2)
        /\ originals_intact s (squeeze_all E ac (commitFiles ac) s).2
        /\ (forall msg, r = Panics msg -> StepSize ac = 0))
  /\ (commitmentValuesTransform ac = true ->
      StepSize ac <> 0 ->
      (exists cf af sf kv,
          cf ∈ commitFiles ac /\ paired ac cf = Some (af, sf) /\ kv ∈ pairs cf
          /\ transform_fails E (commitmentValTransformDomain E af sf) af kv) ->
      exists e,
        (SqueezeCommitmentFiles E ac s).1 = Returns (Some e)
        /\ originals_intact s (SqueezeCommitmentFiles E ac s).2)
  /\ (forall cf af sf s0,
        (forall e, (squeeze_file E ac cf af sf s0).1 = Returns (Some e) ->
                   closure_failure E cf af sf e)
        /\ ((exists e, closure_failure E cf af sf e) ->
            exists e, (squeeze_file E ac cf af sf s0).1 = Returns (Some e)))
  /\ (commitmentValuesTransform ac = true ->
      StepSize ac <> 0 ->
      (exists cf af sf e,
          cf ∈ commitFiles ac /\ paired ac cf = Some (af, sf)
          /\ closure_failure E cf af sf e) ->
      exists cf af sf e,
        cf ∈ commitFiles ac /\ paired ac cf = Some (af, sf)
        /\ closure_failure E cf af sf e
        /\ (SqueezeCommitmentFiles E ac s).1
           = Returns (Some ("failed to squeeze commitment file "
                              +:+ Filepath.fmt_q (FileName cf) +:+ ": " +:+ e))
        /\ originals_intact s (SqueezeCommitmentFiles E ac s).2)
  /\ (commitmentValuesTransform ac = true ->
      (exists cf af sf e,
          cf ∈ commitFiles ac /\ paired ac cf = Some (af, sf)
          /\ closure_failure E cf af sf e) ->
      (SqueezeCommitmentFiles E ac s).1 <> Returns None
      /\ originals_intact s (SqueezeCommitmentFiles E ac s).2).
Proof.
  assert (commitmentValuesTransform ac = true ->
          forall r,
            (squeeze_all E ac (commitFiles ac) s).1 = r -> r <> Returns None ->
            SqueezeCommitmentFiles E ac s
              = (r, (squeeze_all E ac (commitFiles ac) s).2)
            /\ originals_intact s (squeeze_all E ac (commitFiles ac) s).2
            /\ (forall msg, r = Panics msg -> StepSize ac = 0)) as Herr.
  { intros Hcvt r He Hr. split; [|split; [apply squeeze_all_intact|]].
    - unfold SqueezeCommitmentFiles, bind. rewrite Hcvt. cbn [negb].
      destruct (squeeze_all E ac (commitFiles ac) s) as [r0 s1]. cbn [fst snd] in *.
      subst r0. destruct r as [[e|]|msg]; [reflexivity|contradiction|reflexivity].
    - intros msg ->. eapply squeeze_all_panics. exact He. }
  split; [reflexivity|]. split.
  { intros vt af v. unfold squeezed_pair. cbn [fst snd].
    rewrite bool_decide_eq_true_2 by reflexivity. reflexivity. }
  split.
  { intros vt af kb v Hne. unfold squeezed_pair. cbn [fst snd].
    rewrite bool_decide_eq_false_2 by exact Hne. reflexivity. }
  split.
  { intros cf af sf s0 Hok. apply (squeeze_file_spec E ac cf af sf s0). exact Hok. }
  split; [exact Herr|].
  split.
  { intros Hcvt Hstep Hfail.
    destruct (squeeze_all_fails E ac (commitFiles ac) Hstep s Hfail) as (e & He).
    destruct (Herr Hcvt _ He ltac:(discriminate)) as (Hrun & Hint & _).
    exists e. rewrite Hrun. split; [reflexivity|exact Hint]. }
  split; [intros cf af sf s0; apply squeeze_file_error|].
  split.
  { intros Hcvt Hstep Hfail.
    destruct (squeeze_all_error E ac (commitFiles ac) s) as [Hback Hforw].
    destruct (Hforw Hstep Hfail) as (e & He).
    destruct (Hback e He) as (cf & af & sf & e0 & Hin & Hp & Hf & ->).
    destruct (Herr Hcvt _ He ltac:(discriminate)) as (Hrun & Hint & _).
    exists cf, af, sf, e0. rewrite Hrun.
    split; [exact Hin|]. split; [exact Hp|]. split; [exact Hf|].
    split; [reflexivity|exact Hint]. }
  intros Hcvt Hfail.
  pose proof (squeeze_all_not_nil E ac (commitFiles ac) s Hfail) as Hne.
  destruct (Herr Hcvt _ eq_refl Hne) as (Hrun & Hint & _).
  rewrite Hrun. split; [exact Hne|exact Hint].
Qed.

(** Two failing runs over one Commitment file. In the first the second
    value cannot be transformed; in the second the disk is full when the
    second key is written. Both return the error, wrapped with the
    file's name, and leave the original file as it was. *)
Lemma SqueezeCommitmentFiles_spec_witness :
  let ps := [(Some Samples.state_key, Some [x01]); (Some [x0a], Some [xff])] in
  let run := SqueezeCommitmentFiles Samples.squeeze_env (Samples.squeeze_view ps)
               Samples.squeeze_disk in
  let ps' := [(Some Samples.state_key, Some [x01]); (Some [x0a], Some [x02])] in
  let run' := SqueezeCommitmentFiles Samples.squeeze_env_full
                (Samples.squeeze_view ps') Samples.squeeze_disk in
  ((exists e, run.1 = Returns (Some e))
   /\ fs run.2 !! "v1-commitment.0-1.kv" = Some [Some [x01]; Some [x02]])
  /\ run'.1 = Returns (Some ("failed to squeeze commitment file "
                               +:+ Filepath.fmt_q "v1-commitment.0-1.kv"
                               +:+ ": write key word: no space left on device"))
  /\ fs run'.2 !! "v1-commitment.0-1.kv" = Some [Some [x01]; Some [x02]].
Proof.
  cbv zeta. split.
  - destruct (SqueezeCommitmentFiles_spec Samples.squeeze_env
                (Samples.squeeze_view
                   [(Some Samples.state_key, Some [x01]); (Some [x0a], Some [xff])])
                Samples.squeeze_disk) as (_ & _ & _ & _ & _ & H & _).
    destruct H as (e & He & (_ & Hfs)); [reflexivity|discriminate| |].
    + eexists _, _, _, (Some [x0a], Some [xff]).
      split; [apply list_elem_of_singleton; reflexivity|].
      split; [reflexivity|]. split; [cbn; rewrite !elem_of_cons; tauto|].
      exists [x0a]. split; [reflexivity|]. split; [discriminate|discriminate].
    + split; [eauto|]. rewrite Hfs; [reflexivity|].
      apply (not_squeezed_path _ "v"%char); [reflexivity|discriminate..].
  - destruct (SqueezeCommitmentFiles_spec Samples.squeeze_env_full
                (Samples.squeeze_view
                   [(Some Samples.state_key, Some [x01]); (Some [x0a], Some [x02])])
                Samples.squeeze_disk) as (_ & _ & _ & _ & _ & _ & _ & H & _).
    destruct H as (cf & af & sf & e & _ & _ & _ & _ & (_ & Hfs));
      [reflexivity|discriminate| |].
    + eexists _, _, _, _.
      split; [apply list_elem_of_singleton; reflexivity|].
      split; [reflexivity|].
      apply (key_write_fails Samples.squeeze_env_full _ _ _
               [(Some Samples.state_key, Some [x01])] [] [x0a] (Some [x02])
               "no space left on device"); reflexivity.
    + split.
      * vm_compute. reflexivity.
      * rewrite Hfs; [reflexivity|].
        apply (not_squeezed_path _ "v"%char); [reflexivity|discriminate..].
Defined.

(** As the specification words it, the property fails on a pair with a
    nil key: it is neither transformed nor copied, the squeezed file
    simply lacks it. *)
Lemma squeeze_drops_nil_key_pair :
  let ps := [(None, Some [x01]); (Some [x0a], Some [x02])] in
  let vt := commitmentValTransformDomain Samples.squeeze_env
              (Samples.squeeze_item "a" []) (Samples.squeeze_item "s" []) in
  squeeze_pairs Samples.squeeze_env vt (Samples.squeeze_item "a" []) "out" ps []
    = inl [Some [x0a]; Some [x00; x02]]
  /\ ~ (forall kv, kv ∈ ps ->
          exists pre post,
            [Some [x0a]; Some [x00; x02]]
            = pre ++ [kv.1; (vt kv.2 0 100).1] ++ post).
Proof.
  cbv zeta. split; [reflexivity|].
  intros H. destruct (H (None, Some [x01])) as (pre & post & Heq).
  { rewrite !elem_of_cons. tauto. }
  cbn [fst snd] in Heq.
  destruct pre as [|w1 [|w2 [|w3 pre]]]; cbn in Heq; discriminate.
Qed.
End SqueezeFacts.

(** ** The merge pass: Commitment waits for Accounts and Storage *)

Module MergeFacts.
Import Kv Merge.

Section WithPass.
Variable P : Pass.

(** The function body walks down the list of domains. *)
Lemma main_suffix (c : config) :
  reachable P c ->
  forall rest a, main c = InDomains rest a ->
    (rest = Domains \/ rest = [StorageDomain; CodeDomain; CommitmentDomain]
     \/ rest = [CodeDomain; CommitmentDomain] \/ rest = [CommitmentDomain]
     \/ rest = [])
    /\ (a = true -> exists id tl, rest = id :: tl /\ any P id = true).
Proof.
  induction 1 as [|c c' Hr IH Hstep].
  - intros rest a [= <- <-]. split; [left; reflexivity|discriminate].
  - intros rest a Hm.
    inversion Hstep; subst; cbn [main set_main set_th set_wg set_mf set_others log] in Hm;
      try (eapply IH; eassumption); try discriminate.
    + injection Hm as <- <-.
      destruct (IH _ _ H) as [Hs _]. split; [|discriminate].
      unfold Domains in *. intuition congruence.
    + injection Hm as <- <-.
      destruct (IH _ _ H) as [Hs _]. split; [exact Hs|]. intros _. eauto.
    + injection Hm as <- <-.
      destruct (IH _ _ H) as [Hs _]. split; [exact Hs|]. intros _. eauto.
    + injection Hm as <- <-.
      destruct (IH _ _ H) as [Hs _]. split; [|discriminate].
      unfold Domains in *. intuition congruence.
Qed.

Ltac unfold_sets :=
  cbn [main th others_running wg mf_d trace
       set_main set_th set_wg set_mf set_others log] in *.

Ltac suffix_cases H :=
  let Hs := fresh "Hs" in
  let Ha := fresh "Ha" in
  destruct H as [Hs Ha];
  unfold Domains in Hs;
  destruct Hs as [Hs|[Hs|[Hs|[Hs|Hs]]]];
  try discriminate Hs;
  try (injection Hs as ? ?); subst.

(** A goroutine that was spawned belongs to a domain of the pass that
    the loop has left behind. *)
Lemma started_passed (c : config) :
  reachable P c ->
  forall id, th c id <> NotStarted ->
             any P id = true /\ main_passed (main c) id = true.
Proof.
  induction 1 as [|c c' Hr IH Hstep].
  - intros id H. contradiction H. reflexivity.
  - pose proof (main_suffix c Hr) as Hsuf.
    intros id' Hth.
    inversion Hstep; subst; unfold_sets;
      try (solve
             [apply IH; intros Hold;
              match goal with
              | Hs : th _ ?i = _ |- _ =>
                  destruct (decide (i = id')) as [Heq|Hne];
                  [rewrite <- Heq in Hold; rewrite Hs in Hold; discriminate
                  |apply Hth; rewrite fn_lookup_insert_ne by exact Hne; exact Hold]
              end]);
      try (destruct (IH id' Hth) as [Hany Hpass]; rewrite ?H in Hpass;
           split; [exact Hany|]).
    + (* main_skip *)
      specialize (Hsuf _ _ H). suffix_cases Hsuf;
        destruct id'; cbn in Hpass |- *; try reflexivity; try discriminate.
    + exact Hpass.
    + exact Hpass.
    + (* main_go *)
      specialize (Hsuf _ _ H). destruct Hsuf as [Hs Ha].
      destruct (Ha eq_refl) as (id0 & tl & [= <- <-] & Hany0).
      destruct (decide (id = id')) as [<-|Hne].
      * split; [exact Hany0|].
        unfold Domains in Hs.
        destruct Hs as [Hs|[Hs|[Hs|[Hs|Hs]]]]; try discriminate Hs;
          injection Hs as -> ->; reflexivity.
      * rewrite fn_lookup_insert_ne in Hth by exact Hne.
        destruct (IH id' Hth) as [Hany Hpass]. rewrite H in Hpass.
        split; [exact Hany|].
        unfold Domains in Hs.
        destruct Hs as [Hs|[Hs|[Hs|[Hs|Hs]]]]; try discriminate Hs;
          injection Hs as -> ->; destruct id'; cbn in Hpass |- *;
          try reflexivity; try discriminate; try congruence.
    + reflexivity.
    + reflexivity.
    + reflexivity.
    + reflexivity.
    + exact Hpass.
Qed.

Lemma waiting_is_commitment (c : config) :
  reachable P c ->
  forall id, th c id = AtWait \/ th c id = BuildVT ->
             id = CommitmentDomain /\ commitmentValuesTransform P = true.
Proof.
  induction 1 as [|c c' Hr IH Hstep].
  - intros id [H|H]; discriminate.
  - intros id' Hth.
    inversion Hstep; subst; unfold_sets; try (apply IH; exact Hth).
    + (* main_go *)
      destruct (decide (id = id')) as [<-|Hne].
      * rewrite fn_lookup_insert in Hth. destruct Hth; discriminate.
      * rewrite fn_lookup_insert_ne in Hth by exact Hne. apply IH; exact Hth.
    + destruct (decide (CommitmentDomain = id')) as [<-|Hne]; [auto|].
      rewrite fn_lookup_insert_ne in Hth by exact Hne. apply IH; exact Hth.
    + destruct (decide (id = id')) as [<-|Hne].
      * rewrite fn_lookup_insert in Hth. destruct Hth; discriminate.
      * rewrite fn_lookup_insert_ne in Hth by exact Hne. apply IH; exact Hth.
    + destruct (decide (CommitmentDomain = id')) as [<-|Hne].
      * split; [reflexivity|]. apply (IH CommitmentDomain). left. assumption.
      * rewrite fn_lookup_insert_ne in Hth by exact Hne. apply IH; exact Hth.
    + destruct (decide (CommitmentDomain = id')) as [<-|Hne].
      * rewrite fn_lookup_insert in Hth. destruct Hth; discriminate.
      * rewrite fn_lookup_insert_ne in Hth by exact Hne. apply IH; exact Hth.
    + destruct (decide (id = id')) as [<-|Hne].
      * rewrite fn_lookup_insert in Hth. destruct Hth; discriminate.
      * rewrite fn_lookup_insert_ne in Hth by exact Hne. apply IH; exact Hth.
    + destruct (decide (id = id')) as [<-|Hne].
      * rewrite fn_lookup_insert in Hth. destruct Hth; discriminate.
      * rewrite fn_lookup_insert_ne in Hth by exact Hne. apply IH; exact Hth.
    + destruct (decide (CommitmentDomain = id')) as [<-|Hne].
      * rewrite fn_lookup_insert in Hth. destruct Hth; discriminate.
      * rewrite fn_lookup_insert_ne in Hth by exact Hne. apply IH; exact Hth.
    + destruct (decide (id = id')) as [<-|Hne].
      * rewrite fn_lookup_insert in Hth. destruct Hth; discriminate.
      * rewrite fn_lookup_insert_ne in Hth by exact Hne. apply IH; exact Hth.
Qed.

Lemma not_started_no_file (c : config) :
  reachable P c -> forall id, th c id = NotStarted -> mf_d c id = None.
Proof.
  induction 1 as [|c c' Hr IH Hstep].
  - reflexivity.
  - intros id' Hth.
    inversion Hstep; subst; unfold_sets; try (apply IH; exact Hth).
    all: match goal with
         | |- context [<[?i := _]> (mf_d _) _] =>
             destruct (decide (i = id')) as [<-|Hne];
             [rewrite fn_lookup_insert in Hth; discriminate
             |rewrite fn_lookup_insert_ne in Hth by exact Hne;
              rewrite fn_lookup_insert_ne by exact Hne; apply IH; exact Hth]
         | Hth : <[?i := _]> (th _) _ = NotStarted |- _ =>
             destruct (decide (i = id')) as [<-|Hne];
             [rewrite fn_lookup_insert in Hth; discriminate
             |rewrite fn_lookup_insert_ne in Hth by exact Hne; apply IH; exact Hth]
         end.
Qed.

(** Only the Commitment goroutine of a transforming pass merges with a
    transformer. *)
Lemma plain_merge_no_vt (c : config) :
  reachable P c ->
  forall id vt,
    th c id = AtMerge vt ->
    commitmentValuesTransform P && bool_decide (id = CommitmentDomain) = false ->
    vt = None.
Proof.
  induction 1 as [|c c' Hr IH Hstep].
  - intros id vt H. discriminate.
  - pose proof (waiting_is_commitment c Hr) as Hw.
    intros id' vt' Hth Hplain.
    inversion Hstep; subst; unfold_sets; try (eapply IH; eassumption).
    all: match goal with
         | Hth : <[?i := _]> (th _) _ = AtMerge _ |- _ =>
             destruct (decide (i = id')) as [<-|Hne];
             [rewrite fn_lookup_insert in Hth
             |rewrite fn_lookup_insert_ne in Hth by exact Hne;
              eapply IH; eassumption]
         end.
    all: try discriminate.
    + injection Hth as <-. reflexivity.
    + destruct (Hw CommitmentDomain (or_intror ltac:(eassumption))) as [_ Hc].
      rewrite Hc in Hplain. discriminate.
Qed.

(** A plain merge that is over has left in the trace the file it put
    into [mf.d]. *)
Lemma merged_recorded (c : config) :
  reachable P c ->
  forall id,
    merged (th c id) = true ->
    commitmentValuesTransform P && bool_decide (id = CommitmentDomain) = false ->
    exists err, EvMerged id None (mf_d c id) err ∈ trace c.
Proof.
  induction 1 as [|c c' Hr IH Hstep].
  - intros id H. discriminate.
  - pose proof (plain_merge_no_vt c Hr) as Hvt.
    intros id' Hm Hplain.
    assert (forall e,
              merged (th c id') = true ->
              exists err, EvMerged id' None (mf_d c id') err ∈ trace c ++ [e])
      as Hgrow.
    { intros e Hold. destruct (IH id' Hold Hplain) as (err0 & H2).
      exists err0. apply elem_of_app. left. exact H2. }
    inversion Hstep; subst; unfold_sets;
      try (apply IH; assumption); try (apply Hgrow; assumption).
    + (* main_go *)
      destruct (decide (id = id')) as [<-|Hne].
      * rewrite fn_lookup_insert in Hm. discriminate.
      * rewrite fn_lookup_insert_ne in Hm by exact Hne. apply IH; assumption.
    + destruct (decide (CommitmentDomain = id')) as [<-|Hne].
      * rewrite fn_lookup_insert in Hm. discriminate.
      * rewrite fn_lookup_insert_ne in Hm by exact Hne. apply Hgrow; assumption.
    + destruct (decide (id = id')) as [<-|Hne].
      * rewrite fn_lookup_insert in Hm. discriminate.
      * rewrite fn_lookup_insert_ne in Hm by exact Hne. apply IH; assumption.
    + destruct (decide (CommitmentDomain = id')) as [<-|Hne].
      * rewrite fn_lookup_insert in Hm. discriminate.
      * rewrite fn_lookup_insert_ne in Hm by exact Hne. apply Hgrow; assumption.
    + destruct (decide (CommitmentDomain = id')) as [<-|Hne].
      * rewrite fn_lookup_insert in Hm. discriminate.
      * rewrite fn_lookup_insert_ne in Hm by exact Hne. apply Hgrow; assumption.
    + (* th_merge *)
      destruct (decide (id = id')) as [<-|Hne].
      * rewrite (Hvt id vt) by assumption.
        rewrite fn_lookup_insert.
        exists err. apply elem_of_app. right. apply list_elem_of_singleton. reflexivity.
      * rewrite fn_lookup_insert_ne in Hm by exact Hne.
        rewrite fn_lookup_insert_ne by exact Hne. apply Hgrow; assumption.
    + destruct (decide (id = id')) as [<-|Hne].
      * apply Hgrow. rewrite H. reflexivity.
      * rewrite fn_lookup_insert_ne in Hm by exact Hne. apply Hgrow; assumption.
    + destruct (decide (CommitmentDomain = id')) as [<-|Hne].
      * apply Hgrow. rewrite H. reflexivity.
      * rewrite fn_lookup_insert_ne in Hm by exact Hne. apply Hgrow; assumption.
    + destruct (decide (id = id')) as [<-|Hne].
      * apply IH; [rewrite H; reflexivity|assumption].
      * rewrite fn_lookup_insert_ne in Hm by exact Hne. apply IH; assumption.
Qed.

Lemma main_passed_added (m : main_pc) (id : Domain) :
  main_passed m id = true -> main_added m id = true.
Proof.
  destruct m as [[|hd tl] a| | |]; cbn; try reflexivity.
  intros H. apply negb_true_iff in H. rewrite H. reflexivity.
Qed.

Lemma not_passed_not_started (c : config) (id : Domain) :
  reachable P c -> main_passed (main c) id = false -> th c id = NotStarted.
Proof.
  intros Hr Hnp. destruct (th c id) eqn:E; try reflexivity;
    destruct (started_passed c Hr id) as [_ Hp]; try congruence;
    rewrite E; discriminate.
Qed.

Ltac crunch :=
  cbn; rewrite ?fn_lookup_insert; rewrite ?fn_lookup_insert_ne by discriminate;
  rewrite ?andb_true_r, ?andb_false_r; cbn;
  try reflexivity; try lia;
  repeat (case_match; cbn in *; try reflexivity; try lia; try discriminate;
          try congruence).

(** The counter of the wait group is the number of Accounts and
    Storage merges that were added and have not called [Done]. *)
Lemma wg_counts_pending (c : config) :
  reachable P c ->
  wg c = pending P c AccountsDomain + pending P c StorageDomain.
Proof.
  induction 1 as [|c c' Hr IH Hstep].
  - unfold pending, added, exited. cbn.
    rewrite !andb_false_r. reflexivity.
  - pose proof (main_suffix c Hr) as Hsuf.
    pose proof (started_passed c Hr) as Hsp.
    pose proof (fun id => not_passed_not_started c id Hr) as Hns.
    unfold pending, added, exited in *.
    inversion Hstep; subst; unfold_sets; rewrite IH; clear IH.
    + (* main_skip *)
      rewrite H. specialize (Hsuf _ _ H). suffix_cases Hsuf; cbn;
        rewrite ?H0, ?andb_false_r, ?andb_true_r; reflexivity.
    + (* main_add *)
      rewrite H.
      apply andb_true_iff in H1 as [Hc Has]. rewrite Hc.
      specialize (Hsuf _ _ H). suffix_cases Hsuf; try discriminate Has.
      * rewrite H0, (Hns AccountsDomain) by (rewrite H; reflexivity). crunch.
      * rewrite H0, (Hns StorageDomain) by (rewrite H; reflexivity). crunch.
    + (* main_no_add *)
      rewrite H.
      specialize (Hsuf _ _ H). suffix_cases Hsuf; cbn in H1 |- *;
        rewrite ?andb_true_r in H1; rewrite ?H1, ?andb_false_r, ?andb_true_r;
        cbn; try reflexivity.
    + (* main_go *)
      rewrite H.
      specialize (Hsuf _ _ H). suffix_cases Hsuf.
      * rewrite (Hns AccountsDomain) by (rewrite H; reflexivity). crunch.
      * rewrite (Hns StorageDomain) by (rewrite H; reflexivity). crunch.
      * crunch.
      * crunch.
    + (* main_domains_done *)
      rewrite H. reflexivity.
    + rewrite H. reflexivity.
    + rewrite H. reflexivity.
    + rewrite H. reflexivity.
    + reflexivity.
    + (* th_entry_commitment *)
      crunch.
    + (* th_entry *)
      destruct id; rewrite ?H; crunch.
    + crunch.
    + crunch.
    + (* th_merge *)
      destruct id; rewrite ?H; crunch.
    + (* th_done *)
      apply andb_true_iff in H0 as [Hc Has]. rewrite Hc.
      destruct (Hsp id) as [Hany Hpass]; [rewrite H; discriminate|].
      apply main_passed_added in Hpass.
      destruct id; try discriminate Has; rewrite H, Hany, Hpass; crunch.
    + (* th_unrestrict *)
      crunch.
    + (* th_exit *)
      destruct id; cbn in H0; rewrite ?andb_true_r in H0;
        rewrite ?H0, ?H; crunch.
Qed.

Lemma commitment_started_main (c : config) :
  reachable P c -> th c CommitmentDomain <> NotStarted ->
  forall id, main_added (main c) id = true
             /\ (forall id0 rest, main c <> InDomains (id0 :: rest) true).
Proof.
  intros Hr Hst id.
  destruct (started_passed c Hr CommitmentDomain Hst) as [_ Hp].
  pose proof (main_suffix c Hr) as Hsuf.
  destruct (main c) as [rest a| | |] eqn:Em; try (split; [reflexivity|discriminate]).
  specialize (Hsuf _ _ eq_refl). suffix_cases Hsuf; try discriminate Hp.
  split; [reflexivity|discriminate].
Qed.

(** Once the Commitment goroutine is past [Wait], the Accounts and
    Storage goroutines of the pass have exited. *)
Lemma commitment_waits (c : config) :
  reachable P c ->
  commitmentValuesTransform P = true ->
  past_wait (th c CommitmentDomain) = true ->
  forall id, is_acc_or_storage id = true -> any P id = true -> exited c id = true.
Proof.
  intros Hr Hcvt. induction Hr as [|c c' Hr IH Hstep].
  - discriminate.
  - pose proof (wg_counts_pending c Hr) as Hwg.
    pose proof (commitment_started_main c Hr) as Hmain.
    intros Hpw id' Has Hany. unfold exited in *.
    inversion Hstep; subst; unfold_sets; try (apply IH; assumption).
    + (* main_go *)
      exfalso.
      destruct (decide (id = CommitmentDomain)) as [->|Hne].
      * rewrite fn_lookup_insert in Hpw. discriminate.
      * rewrite fn_lookup_insert_ne in Hpw by exact Hne.
        assert (th c CommitmentDomain <> NotStarted) as Hst.
        { intros Hns. rewrite Hns in Hpw. discriminate. }
        destruct (Hmain Hst id') as [_ Hno]. eapply Hno. eassumption.
    + (* th_entry_commitment *)
      rewrite fn_lookup_insert in Hpw. discriminate.
    + (* th_entry *)
      destruct (decide (id = CommitmentDomain)) as [->|Hne].
      * rewrite Hcvt in H0. rewrite bool_decide_eq_true_2 in H0 by reflexivity.
        discriminate.
      * rewrite fn_lookup_insert_ne in Hpw by exact Hne.
        specialize (IH Hpw id' Has Hany).
        destruct (decide (id = id')) as [->|Hne'];
          [rewrite H in IH; discriminate|].
        rewrite fn_lookup_insert_ne by exact Hne'. exact IH.
    + (* th_wait *)
      assert (th c CommitmentDomain <> NotStarted) as Hst by (rewrite H; discriminate).
      destruct (Hmain Hst id') as [Hadd _].
      assert (pending P c id' = 0) as Hp.
      { assert (0 <= pending P c AccountsDomain <= 1
                /\ 0 <= pending P c StorageDomain <= 1) as [? ?].
        { unfold pending. split; case_match; lia. }
        destruct id'; try discriminate Has; lia. }
      unfold pending, added, exited in Hp.
      rewrite Hcvt, Has, Hany, Hadd in Hp. cbn in Hp.
      destruct (decide (CommitmentDomain = id')) as [<-|Hne]; [discriminate Has|].
      rewrite fn_lookup_insert_ne by exact Hne.
      destruct (th c id'); try discriminate Hp; reflexivity.
    + (* th_build_vt *)
      assert (past_wait (th c CommitmentDomain) = true) as Hold
        by (rewrite H; reflexivity).
      specialize (IH Hold id' Has Hany).
      destruct (decide (CommitmentDomain = id')) as [<-|Hne]; [discriminate Has|].
      rewrite fn_lookup_insert_ne by exact Hne. exact IH.
    + (* th_merge *)
      destruct (decide (id = CommitmentDomain)) as [->|Hne].
      * assert (past_wait (th c CommitmentDomain) = true) as Hold
          by (rewrite H; reflexivity).
        specialize (IH Hold id' Has Hany).
        destruct (decide (CommitmentDomain = id')) as [<-|Hne]; [discriminate Has|].
        rewrite fn_lookup_insert_ne by exact Hne. exact IH.
      * rewrite fn_lookup_insert_ne in Hpw by exact Hne.
        specialize (IH Hpw id' Has Hany).
        destruct (decide (id = id')) as [->|Hne'];
          [rewrite H in IH; discriminate|].
        rewrite fn_lookup_insert_ne by exact Hne'. exact IH.
    + (* th_done *)
      destruct (decide (id = id')) as [->|Hne'];
        [rewrite fn_lookup_insert; reflexivity|].
      rewrite fn_lookup_insert_ne by exact Hne'. apply IH; try assumption.
      destruct (decide (id = CommitmentDomain)) as [->|Hne].
      * rewrite H. reflexivity.
      * rewrite fn_lookup_insert_ne in Hpw by exact Hne. exact Hpw.
    + (* th_unrestrict *)
      assert (past_wait (th c CommitmentDomain) = true) as Hold
        by (rewrite H; reflexivity).
      specialize (IH Hold id' Has Hany).
      destruct (decide (CommitmentDomain = id')) as [<-|Hne]; [discriminate Has|].
      rewrite fn_lookup_insert_ne by exact Hne. exact IH.
    + (* th_exit *)
      destruct (decide (id = id')) as [->|Hne'];
        [rewrite fn_lookup_insert; reflexivity|].
      rewrite fn_lookup_insert_ne by exact Hne'. apply IH; try assumption.
      destruct (decide (id = CommitmentDomain)) as [->|Hne].
      * rewrite H. reflexivity.
      * rewrite fn_lookup_insert_ne in Hpw by exact Hne. exact Hpw.
Qed.

(** An Accounts or Storage goroutine that has exited has called [Done]. *)
Lemma exited_called_done (c : config) :
  reachable P c ->
  commitmentValuesTransform P = true ->
  forall id, is_acc_or_storage id = true -> exited c id = true ->
             EvDone id ∈ trace c.
Proof.
  intros Hr Hcvt. induction Hr as [|c c' Hr IH Hstep].
  - intros id _ H. discriminate.
  - intros id' Has Hex. unfold exited in *.
    assert (forall e, match th c id' with Exited _ => true | _ => false end = true ->
                      EvDone id' ∈ trace c ++ [e]) as Hgrow.
    { intros e Hold. apply elem_of_app. left. apply IH; assumption. }
    inversion Hstep; subst; unfold_sets;
      try (apply IH; assumption); try (apply Hgrow; assumption).
    all: match goal with
         | Hex : match <[?i := _]> (th _) _ with _ => _ end = true |- _ =>
             destruct (decide (i = id')) as [Heq|Hne];
             [try subst id'; try subst i; rewrite ?fn_lookup_insert in Hex
             |rewrite fn_lookup_insert_ne in Hex by exact Hne]
         end;
         try discriminate;
         try (apply IH; assumption); try (apply Hgrow; assumption).
    + apply elem_of_app. right. apply list_elem_of_singleton. reflexivity.
    + rewrite Hcvt, Has in H0. discriminate.
Qed.

(** Past [Wait], [mf.d] holds what the Accounts and Storage merges of
    the pass returned, both having called [Done]; for a domain outside
    the pass it holds nil. *)
Lemma mf_past_wait (c : config) :
  reachable P c ->
  commitmentValuesTransform P = true ->
  past_wait (th c CommitmentDomain) = true ->
  forall id, is_acc_or_storage id = true ->
    (any P id = true ->
       (exists err, EvMerged id None (mf_d c id) err ∈ trace c)
       /\ EvDone id ∈ trace c)
    /\ (any P id = false -> mf_d c id = None).
Proof.
  intros Hr Hcvt Hpw id Has.
  assert (commitmentValuesTransform P && bool_decide (id = CommitmentDomain) = false)
    as Hplain.
  { rewrite bool_decide_eq_false_2; [apply andb_false_r|].
    intros ->. discriminate. }
  split.
  - intros Hany.
    pose proof (commitment_waits c Hr Hcvt Hpw id Has Hany) as Hex.
    assert (merged (th c id) = true) as Hm.
    { unfold exited in Hex. destruct (th c id); try discriminate. reflexivity. }
    split; [apply merged_recorded; assumption|].
    apply exited_called_done; assumption.
  - intros Hany.
    apply not_started_no_file; [exact Hr|].
    destruct (th c id) eqn:E; try reflexivity;
      destruct (started_passed c Hr id) as [Ha _];
      try (rewrite E; discriminate); congruence.
Qed.

Lemma split_snoc {A : Type} (pre post tr : list A) (x e : A) :
  pre ++ x :: post = tr ++ [e] ->
  (post = [] /\ pre = tr /\ x = e)
  \/ (exists post', post = post' ++ [e] /\ tr = pre ++ x :: post').
Proof.
  intros H. destruct (post) as [|y post0] using rev_ind.
  - left. apply app_inj_tail in H as [-> ->]. auto.
  - rewrite app_comm_cons, app_assoc in H.
    apply app_inj_tail in H as [Htr ->].
    right. exists post0. split; [reflexivity|]. symmetry. exact Htr.
Qed.

(** The transformer of the Commitment merge, wherever it shows up: in
    the goroutine's hands, where it is built, and where it is used. *)
Lemma vt_in_order (c : config) :
  reachable P c ->
  commitmentValuesTransform P = true ->
  (forall pre af sf post,
      trace c = pre ++ EvVT af sf :: post -> built_after_merges P pre af sf)
  /\ (forall vt, th c CommitmentDomain = AtMerge vt ->
        exists af sf, vt = Some (af, sf) /\ EvVT af sf ∈ trace c)
  /\ (forall pre vt out err post,
        trace c = pre ++ EvMerged CommitmentDomain vt out err :: post ->
        exists af sf, vt = Some (af, sf) /\ EvVT af sf ∈ pre).
Proof.
  intros Hr Hcvt. induction Hr as [|c c' Hr IH Hstep].
  - split; [|split].
    + intros pre af sf post H. destruct pre; discriminate.
    + intros vt H. discriminate.
    + intros pre vt out err post H. destruct pre; discriminate.
  - destruct IH as (IH1 & IH2 & IH3).
    pose proof (mf_past_wait c Hr Hcvt) as Hmf.
    (* appending an event other than the two of interest *)
    assert (forall e,
              (forall af sf, e <> EvVT af sf) ->
              forall pre af sf post,
                trace c ++ [e] = pre ++ EvVT af sf :: post ->
                built_after_merges P pre af sf)
      as Hgrow1.
    { intros e He pre af sf post Heq. symmetry in Heq.
      apply split_snoc in Heq as [(_ & _ & Hx)|(post' & _ & Htr)].
      - exfalso. eapply He. symmetry. exact Hx.
      - eapply IH1. exact Htr. }
    assert (forall e,
              (forall vt out err, e <> EvMerged CommitmentDomain vt out err) ->
              forall pre vt out err post,
                trace c ++ [e] = pre ++ EvMerged CommitmentDomain vt out err :: post ->
                exists af sf, vt = Some (af, sf) /\ EvVT af sf ∈ pre)
      as Hgrow3.
    { intros e He pre vt out err post Heq. symmetry in Heq.
      apply split_snoc in Heq as [(_ & _ & Hx)|(post' & _ & Htr)].
      - exfalso. eapply He. symmetry. exact Hx.
      - eapply IH3. exact Htr. }
    assert (forall e vt,
              th c CommitmentDomain = AtMerge vt ->
              exists af sf, vt = Some (af, sf) /\ EvVT af sf ∈ trace c ++ [e])
      as Hgrow2.
    { intros e vt Hth. destruct (IH2 vt Hth) as (af & sf & H1 & H2).
      exists af, sf. split; [exact H1|]. apply elem_of_app. left. exact H2. }
    inversion Hstep; subst; unfold_sets;
      try (split; [exact IH1|split; [exact IH2|exact IH3]]).
    + (* main_add *)
      split; [apply Hgrow1; discriminate|].
      split; [apply Hgrow2|apply Hgrow3; discriminate].
    + (* main_go *)
      split; [exact IH1|]. split; [|exact IH3].
      intros vt Hth. destruct (decide (id = CommitmentDomain)) as [->|Hne].
      * rewrite fn_lookup_insert in Hth. discriminate.
      * rewrite fn_lookup_insert_ne in Hth by exact Hne. apply IH2. exact Hth.
    + (* th_entry_commitment *)
      split; [apply Hgrow1; discriminate|].
      split; [|apply Hgrow3; discriminate].
      intros vt Hth. rewrite fn_lookup_insert in Hth. discriminate.
    + (* th_entry *)
      split; [exact IH1|]. split; [|exact IH3].
      intros vt Hth. destruct (decide (id = CommitmentDomain)) as [->|Hne].
      * rewrite Hcvt, bool_decide_eq_true_2 in H0 by reflexivity. discriminate.
      * rewrite fn_lookup_insert_ne in Hth by exact Hne. apply IH2. exact Hth.
    + (* th_wait *)
      split; [apply Hgrow1; discriminate|].
      split; [|apply Hgrow3; discriminate].
      intros vt Hth. rewrite fn_lookup_insert in Hth. discriminate.
    + (* th_build_vt *)
      assert (past_wait (th c CommitmentDomain) = true) as Hpw
        by (rewrite H; reflexivity).
      split; [|split; [|apply Hgrow3; discriminate]].
      * intros pre af sf post Heq. symmetry in Heq.
        apply split_snoc in Heq as [(_ & -> & Hx)|(post' & _ & Htr)].
        -- injection Hx as -> ->.
           intros id Has. specialize (Hmf Hpw id Has).
           destruct id; try discriminate Has; exact Hmf.
        -- eapply IH1. exact Htr.
      * intros vt Hth. rewrite fn_lookup_insert in Hth. injection Hth as <-.
        eexists _, _. split; [reflexivity|].
        apply elem_of_app. right. apply list_elem_of_singleton. reflexivity.
    + (* th_merge *)
      split; [apply Hgrow1; discriminate|]. split.
      * intros vt' Hth. destruct (decide (id = CommitmentDomain)) as [->|Hne].
        -- rewrite fn_lookup_insert in Hth. discriminate.
        -- rewrite fn_lookup_insert_ne in Hth by exact Hne. apply Hgrow2. exact Hth.
      * destruct (decide (id = CommitmentDomain)) as [->|Hne].
        -- intros pre vt' out' err' post Heq. symmetry in Heq.
           apply split_snoc in Heq as [(_ & -> & Hx)|(post' & _ & Htr)].
           ++ injection Hx as -> _ _. apply IH2. exact H.
           ++ eapply IH3. exact Htr.
        -- apply Hgrow3. intros vt' out' err' [= Heq _ _ _]. contradiction.
    + (* th_done *)
      split; [apply Hgrow1; discriminate|]. split; [|apply Hgrow3; discriminate].
      intros vt Hth. destruct (decide (id = CommitmentDomain)) as [->|Hne].
      * rewrite fn_lookup_insert in Hth. discriminate.
      * rewrite fn_lookup_insert_ne in Hth by exact Hne. apply Hgrow2. exact Hth.
    + (* th_unrestrict *)
      split; [apply Hgrow1; discriminate|]. split; [|apply Hgrow3; discriminate].
      intros vt Hth. rewrite fn_lookup_insert in Hth. discriminate.
    + (* th_exit *)
      split; [exact IH1|]. split; [|exact IH3].
      intros vt Hth. destruct (decide (id = CommitmentDomain)) as [->|Hne].
      * rewrite fn_lookup_insert in Hth. discriminate.
      * rewrite fn_lookup_insert_ne in Hth by exact Hne. apply IH2. exact Hth.
Qed.

Lemma merges_of_snoc (id : Domain) (tr : list event) (e : event) :
  merges_of id (tr ++ [e])
  = (merges_of id tr + if is_merge_of id e then 1 else 0)%nat.
Proof.
  unfold merges_of. rewrite list.filter_app, length_app. f_equal.
  destruct (is_merge_of id e) eqn:E.
  - rewrite filter_cons_True by exact E. reflexivity.
  - rewrite filter_cons_False by (rewrite E; discriminate). reflexivity.
Qed.

(** The merge of a domain returns once in a pass, and not before its
    goroutine gets there. *)
Lemma merged_once (c : config) :
  reachable P c ->
  forall id, merges_of id (trace c) = if merged (th c id) then 1%nat else 0%nat.
Proof.
  induction 1 as [|c c' Hr IH Hstep].
  - reflexivity.
  - intros id'. specialize (IH id').
    inversion Hstep; subst; unfold_sets;
      rewrite ?merges_of_snoc; cbn [is_merge_of];
      rewrite ?Nat.add_0_r; try exact IH.
    all: match goal with
         | |- context [<[?i := _]> (th _) _] =>
             destruct (decide (i = id')) as [Heq|Hne];
             [try subst id'; try subst i; rewrite ?fn_lookup_insert
             |rewrite fn_lookup_insert_ne by exact Hne]
         end.
    all: rewrite ?bool_decide_eq_true_2 by reflexivity;
         rewrite ?bool_decide_eq_false_2 by assumption;
         rewrite ?Nat.add_0_r; try exact IH.
    all: try match goal with
             | Hs : th _ _ = _ |- _ => rewrite Hs in IH
             end; cbn [merged] in *; rewrite ?IH; try reflexivity.
    (* main_go: the goroutine was not running before *)
    rewrite (not_passed_not_started c id Hr); [reflexivity|].
    rewrite H. cbn. rewrite bool_decide_eq_true_2 by (left). reflexivity.
Qed.

Lemma vts_of_snoc (tr : list event) (e : event) :
  vts_of (tr ++ [e]) = (vts_of tr + if is_vt e then 1 else 0)%nat.
Proof.
  unfold vts_of. rewrite list.filter_app, length_app. f_equal.
  destruct (is_vt e) eqn:E.
  - rewrite filter_cons_True by exact E. reflexivity.
  - rewrite filter_cons_False by (rewrite E; discriminate). reflexivity.
Qed.

(** A pass builds at most one transformer. *)
Lemma vt_once (c : config) :
  reachable P c ->
  (vts_of (trace c) <= 1)%nat
  /\ (before_vt (th c CommitmentDomain) = true -> vts_of (trace c) = 0%nat).
Proof.
  induction 1 as [|c c' Hr IH Hstep].
  - split; [cbn; lia|reflexivity].
  - destruct IH as [IH1 IH2].
    inversion Hstep; subst; unfold_sets;
      rewrite ?vts_of_snoc; cbn [is_vt]; rewrite ?Nat.add_0_r;
      try (split; [exact IH1|exact IH2]).
    all: try match goal with
             | Hs : th _ CommitmentDomain = _ |- _ =>
                 rewrite Hs in IH2; cbn [before_vt] in IH2
             end.
    all: try (rewrite fn_lookup_insert; cbn [before_vt];
              split; [try rewrite IH2 by reflexivity; lia|];
              try discriminate; intros _; apply IH2; reflexivity).
    all: split; [exact IH1|].
    all: match goal with
         | |- context [<[?i := _]> (th _) _] =>
             destruct (decide (i = CommitmentDomain)) as [Heq|Hne];
             [subst; rewrite fn_lookup_insert
             |rewrite fn_lookup_insert_ne by exact Hne; exact IH2]
         end.
    all: cbn [before_vt]; try discriminate; intros _; apply IH2.
    all: try match goal with
             | Hs : th _ CommitmentDomain = _ |- _ => rewrite Hs; reflexivity
             end.
    (* main_go: the goroutine was not running before *)
    rewrite (not_passed_not_started c CommitmentDomain Hr); [reflexivity|].
    rewrite H. cbn. rewrite bool_decide_eq_true_2 by (left). reflexivity.
Qed.

(** *** The barrier does not hang *)

(** A domain of the pass that the loop has left behind has had its
    goroutine spawned. *)
Lemma passed_started (c : config) :
  reachable P c ->
  forall id, main_passed (main c) id = true -> any P id = true ->
             th c id <> NotStarted.
Proof.
  induction 1 as [|c c' Hr IH Hstep].
  - intros id Hp. destruct id; discriminate Hp.
  - pose proof (main_suffix c Hr) as Hsuf.
    intros id' Hp Hany.
    inversion Hstep; subst; unfold_sets;
      try (apply IH; [rewrite ?H; try exact Hp; reflexivity|exact Hany]);
      try (solve
             [match goal with
              | |- <[?i := ?p]> (th _) _ <> NotStarted =>
                  destruct (decide (i = id')) as [Heq|Hne];
                  [subst; rewrite fn_lookup_insert; discriminate
                  |rewrite fn_lookup_insert_ne by exact Hne;
                   apply IH; [exact Hp|exact Hany]]
              end]).
    + (* main_skip *)
      apply IH; [|exact Hany]. rewrite H.
      specialize (Hsuf _ _ H). suffix_cases Hsuf;
        destruct id'; cbn in Hp |- *; try reflexivity; try discriminate; congruence.
    + (* main_go *)
      destruct (decide (id = id')) as [<-|Hne].
      * rewrite fn_lookup_insert. discriminate.
      * rewrite fn_lookup_insert_ne by exact Hne.
        apply IH; [|exact Hany]. rewrite H.
        specialize (Hsuf _ _ H). suffix_cases Hsuf;
          destruct id'; cbn in Hp |- *; try reflexivity; try discriminate; congruence.
Qed.

(** A goroutine that holds a slot can move, unless it is the Commitment
    goroutine waiting at the barrier. *)
Lemma active_can_step (c : config) (id : Domain) :
  reachable P c ->
  active (th c id) = true ->
  (th c id = AtWait -> wg c = 0) ->
  exists c', step P c c'.
Proof.
  intros Hr Hact Hwait.
  pose proof (waiting_is_commitment c Hr id) as Hw.
  destruct (th c id) as [| | | |vt|err|err] eqn:E; try discriminate Hact.
  - (* Entry *)
    destruct (commitmentValuesTransform P && bool_decide (id = CommitmentDomain)) eqn:X.
    + apply andb_true_iff in X as [Hc Hid]. apply bool_decide_eq_true in Hid. subst id.
      eexists. apply th_entry_commitment; assumption.
    + eexists. eapply th_entry; eassumption.
  - (* AtWait *)
    destruct Hw as [-> _]; [left; reflexivity|].
    eexists. apply th_wait; [exact E|]. apply Hwait. reflexivity.
  - (* BuildVT *)
    destruct Hw as [-> _]; [right; reflexivity|].
    eexists. apply th_build_vt. exact E.
  - (* AtMerge *)
    eexists. apply (th_merge P c id vt None None E).
  - (* AfterMerge *)
    destruct (commitmentValuesTransform P && is_acc_or_storage id) eqn:X.
    + eexists. eapply th_done; eassumption.
    + destruct (decide (commitmentValuesTransform P = true
                        /\ id = CommitmentDomain /\ err = None)) as [(Hc & -> & ->)|Hno].
      * eexists. apply th_unrestrict; assumption.
      * eexists. eapply th_exit; [exact E|exact X|].
        intros Hc Hid ->. apply Hno. auto.
Qed.

(** While some goroutine holds a slot, the pass can move: the
    Commitment goroutine waits at the barrier only as long as an
    Accounts or Storage merge of the pass is still running. *)
Lemma running_can_step (c : config) :
  reachable P c -> running c <> 0%nat -> exists c', step P c c'.
Proof.
  intros Hr Hrun.
  destruct (others_running c) as [|n] eqn:Eo; [|eexists; eapply other_exit; exact Eo].
  unfold running in Hrun. rewrite Eo, Nat.add_0_r in Hrun.
  destruct (filter (fun id => active (th c id) = true) Domains) as [|id l] eqn:Ef;
    [contradiction Hrun; reflexivity|].
  assert (active (th c id) = true) as Hact.
  { assert (id ∈ filter (fun id => active (th c id) = true) Domains) as Hin
      by (rewrite Ef; left).
    apply list_elem_of_filter in Hin as [Hin _]. exact Hin. }
  destruct (decide (wg c = 0)) as [Hz|Hwg].
  { apply (active_can_step c id Hr Hact). intros _. exact Hz. }
  assert (th c id = AtWait \/ th c id <> AtWait) as [Hth|Hth].
  { destruct (th c id); (left; reflexivity) || (right; discriminate). }
  2:{ apply (active_can_step c id Hr Hact). intros H. contradiction. }
  (* the barrier is closed: some Accounts or Storage merge is pending *)
  destruct (waiting_is_commitment c Hr id (or_introl Hth)) as [-> Hcvt].
  assert (th c CommitmentDomain <> NotStarted) as Hst by (rewrite Hth; discriminate).
  assert (forall id', main_passed (main c) id' = true) as Hpassed.
  { intros id'. destruct (started_passed c Hr CommitmentDomain Hst) as [_ Hp].
    pose proof (main_suffix c Hr) as Hsuf.
    destruct (main c) as [rest a| | |] eqn:Em; try reflexivity.
    specialize (Hsuf _ _ eq_refl). suffix_cases Hsuf; try discriminate Hp.
    reflexivity. }
  assert (exists id', is_acc_or_storage id' = true /\ pending P c id' = 1)
    as (id' & Has & Hpend).
  { pose proof (wg_counts_pending c Hr) as Hsum.
    assert (0 <= pending P c AccountsDomain <= 1
            /\ 0 <= pending P c StorageDomain <= 1) as [? ?].
    { unfold pending. split; case_match; lia. }
    destruct (decide (pending P c AccountsDomain = 1)) as [Ha|Ha].
    - exists AccountsDomain. split; [reflexivity|exact Ha].
    - exists StorageDomain. split; [reflexivity|lia]. }
  unfold pending, added, exited in Hpend.
  destruct (any P id') eqn:Hany;
    [|rewrite andb_false_r in Hpend; discriminate Hpend].
  pose proof (passed_started c Hr id' (Hpassed id') Hany) as Hstarted.
  apply (active_can_step c id' Hr).
  - destruct (th c id'); try reflexivity; [contradiction Hstarted; reflexivity|].
    rewrite andb_false_r in Hpend. discriminate Hpend.
  - intros Hth'.
    destruct (waiting_is_commitment c Hr id' (or_introl Hth')) as [-> _].
    discriminate Has.
Qed.

Lemma slot_free_dec (c : config) : {slot_free P c} + {~ slot_free P c}.
Proof.
  unfold slot_free.
  destruct (decide (mergeWorkers P < 0)); [left; left; assumption|].
  destruct (decide (Z.of_nat (running c) < mergeWorkers P));
    [left; right; assumption|right; tauto].
Qed.

(** X21. With a worker limit other than zero a merge pass never gets stuck:
    until [mergeFiles] has returned from [g.Wait()], the function body
    or one of the goroutines can take a step. *)
Theorem merge_pass_progress (c : config) :
  reachable P c -> mergeWorkers P <> 0 ->
  main c = Returned \/ exists c', step P c c'.
Proof.
  intros Hr Hlimit.
  assert (~ slot_free P c -> exists c', step P c c') as Hbusy.
  { intros Hno. apply (running_can_step c Hr). unfold slot_free in Hno. lia. }
  pose proof (main_suffix c Hr) as Hsuf.
  destruct (main c) as [rest a|n| |] eqn:Em.
  - right. destruct (Hsuf _ _ eq_refl) as [_ Ha].
    destruct a.
    + destruct (Ha eq_refl) as (id & tl & -> & _).
      destruct (slot_free_dec c) as [Hfree|Hno]; [|exact (Hbusy Hno)].
      eexists. eapply main_go; eassumption.
    + destruct rest as [|id tl].
      * eexists. apply main_domains_done. exact Em.
      * destruct (any P id) eqn:Hany.
        -- destruct (commitmentValuesTransform P && is_acc_or_storage id) eqn:X.
           ++ eexists. eapply main_add; eassumption.
           ++ eexists. eapply main_no_add; eassumption.
        -- eexists. eapply main_skip; eassumption.
  - right. destruct n as [|n].
    + eexists. apply main_others_done. exact Em.
    + destruct (slot_free_dec c) as [Hfree|Hno]; [|exact (Hbusy Hno)].
      eexists. eapply main_go_other; eassumption.
  - right. destruct (decide (running c = 0%nat)) as [Hz|Hnz].
    + eexists. apply main_wait; assumption.
    + apply running_can_step; assumption.
  - left. reflexivity.
Qed.

(** C3. In a merge pass with [commitmentValuesTransform], in every
    interleaving of the goroutines and whatever the merges return:
    wherever the Commitment transformer is built, each of the Accounts
    and Storage domains that the pass merges has already returned from
    its merge and called [accStorageMerged.Done()], and the transformer
    is built against the very file that merge returned (against nil for
    a domain the pass does not merge); wherever the Commitment merge
    runs, it runs with a transformer built before; no domain is merged
    twice in a pass, so the file the transformer refers to is the one
    merged output of the domain; and no second transformer is built. *)
Theorem commitment_transform_after_merges (c : config) :
  reachable P c ->
  commitmentValuesTransform P = true ->
  (forall pre af sf post,
      trace c = pre ++ EvVT af sf :: post ->
      forall id, is_acc_or_storage id = true ->
        (any P id = true ->
           (exists err, EvMerged id None (vt_arg id af sf) err ∈ pre)
           /\ EvDone id ∈ pre)
        /\ (any P id = false -> vt_arg id af sf = None))
  /\ (forall pre vt out err post,
        trace c = pre ++ EvMerged CommitmentDomain vt out err :: post ->
        exists af sf, vt = Some (af, sf) /\ EvVT af sf ∈ pre)
  /\ (forall id, (merges_of id (trace c) <= 1)%nat)
  /\ (vts_of (trace c) <= 1)%nat.
Proof.
  intros Hr Hcvt. destruct (vt_in_order c Hr Hcvt) as (H1 & _ & H3).
  split; [exact H1|]. split; [exact H3|]. split; [|apply vt_once; exact Hr].
  intros id. rewrite (merged_once c Hr id). destruct (merged (th c id)); lia.
Qed.
End WithPass.

(** One more step of a run: [R'] from [R] by the step [k] builds. *)
Ltac fwd R R' k :=
  match type of R with
  | reachable ?P ?c =>
      let H := k P c in
      pose proof (reach_step P c _ R H) as R'
  end.

(** A run with four workers in which the Commitment goroutine is spawned
    and waits while the Accounts and Storage merges are still to run. *)
Lemma commitment_transform_after_merges_witness :
  exists c,
    reachable Samples.merge_pass c
    /\ trace c
       = [EvAdd AccountsDomain; EvAdd StorageDomain; EvRestrict true;
          EvMerged AccountsDomain None (Some "v1-accounts.0-2.kv") None;
          EvDone AccountsDomain;
          EvMerged StorageDomain None (Some "v1-storage.0-2.kv") None;
          EvDone StorageDomain;
          EvWaitReturned;
          EvVT (Some "v1-accounts.0-2.kv") (Some "v1-storage.0-2.kv");
          EvMerged CommitmentDomain
            (Some (Some "v1-accounts.0-2.kv", Some "v1-storage.0-2.kv"))
            (Some "v1-commitment.0-2.kv") None]
    /\ (exists err,
          EvMerged AccountsDomain None (Some "v1-accounts.0-2.kv") err
            ∈ [EvAdd AccountsDomain; EvAdd StorageDomain; EvRestrict true;
               EvMerged AccountsDomain None (Some "v1-accounts.0-2.kv") None;
               EvDone AccountsDomain;
               EvMerged StorageDomain None (Some "v1-storage.0-2.kv") None;
               EvDone StorageDomain;
               EvWaitReturned]).
Proof.
  pose (P := Samples.merge_pass).
  pose proof (reach_init P) as R0.
  fwd R0 R1 ltac:(fun P c => constr:(main_add P c AccountsDomain _ eq_refl eq_refl eq_refl)).
  fwd R1 R2 ltac:(fun P c => constr:(main_go P c AccountsDomain _ eq_refl (or_intror eq_refl))).
  fwd R2 R3 ltac:(fun P c => constr:(main_add P c StorageDomain _ eq_refl eq_refl eq_refl)).
  fwd R3 R4 ltac:(fun P c => constr:(main_go P c StorageDomain _ eq_refl (or_intror eq_refl))).
  fwd R4 R5 ltac:(fun P c => constr:(main_skip P c CodeDomain _ eq_refl eq_refl)).
  fwd R5 R6 ltac:(fun P c => constr:(main_no_add P c CommitmentDomain _ eq_refl eq_refl eq_refl)).
  fwd R6 R7 ltac:(fun P c => constr:(main_go P c CommitmentDomain _ eq_refl (or_intror eq_refl))).
  fwd R7 R8 ltac:(fun P c => constr:(th_entry_commitment P c eq_refl eq_refl)).
  fwd R8 R9 ltac:(fun P c => constr:(th_entry P c AccountsDomain eq_refl eq_refl)).
  fwd R9 R10 ltac:(fun P c => constr:(th_merge P c AccountsDomain None (Some "v1-accounts.0-2.kv") None eq_refl)).
  fwd R10 R11 ltac:(fun P c => constr:(th_done P c AccountsDomain None eq_refl eq_refl)).
  fwd R11 R12 ltac:(fun P c => constr:(th_entry P c StorageDomain eq_refl eq_refl)).
  fwd R12 R13 ltac:(fun P c => constr:(th_merge P c StorageDomain None (Some "v1-storage.0-2.kv") None eq_refl)).
  fwd R13 R14 ltac:(fun P c => constr:(th_done P c StorageDomain None eq_refl eq_refl)).
  fwd R14 R15 ltac:(fun P c => constr:(th_wait P c eq_refl eq_refl)).
  fwd R15 R16 ltac:(fun P c => constr:(th_build_vt P c eq_refl)).
  fwd R16 R17 ltac:(fun P c => constr:(th_merge P c CommitmentDomain (Some (Some "v1-accounts.0-2.kv", Some "v1-storage.0-2.kv")) (Some "v1-commitment.0-2.kv") None eq_refl)).
  eexists. split; [exact R17|]. split; [reflexivity|].
  destruct (commitment_transform_after_merges P _ R17 eq_refl) as [H _].
  refine (proj1 (proj1 (H [EvAdd AccountsDomain; EvAdd StorageDomain; EvRestrict true;
                           EvMerged AccountsDomain None (Some "v1-accounts.0-2.kv") None;
                           EvDone AccountsDomain;
                           EvMerged StorageDomain None (Some "v1-storage.0-2.kv") None;
                           EvDone StorageDomain;
                           EvWaitReturned]
                          (Some "v1-accounts.0-2.kv") (Some "v1-storage.0-2.kv")
                          [EvMerged CommitmentDomain
                             (Some (Some "v1-accounts.0-2.kv", Some "v1-storage.0-2.kv"))
                             (Some "v1-commitment.0-2.kv") None]
                          eq_refl AccountsDomain eq_refl) eq_refl)).
Defined.
End MergeFacts.

(** ** Strings: [+:+] and [strings.TrimSuffix] *)

Module TextFacts.

Lemma append_length (a b : string) :
  String.length (a +:+ b) = (String.length a + String.length b)%nat.
Proof.
  induction a as [|c a IH]; [reflexivity|].
  change (String c a +:+ b) with (String c (a +:+ b)).
  cbn [String.length]. rewrite IH. reflexivity.
Qed.

Lemma append_inj_r (a b s : string) : a +:+ s = b +:+ s -> a = b.
Proof.
  revert b. induction a as [|c a IH]; intros [|c' b] H.
  - reflexivity.
  - apply (f_equal String.length) in H. rewrite !append_length in H.
    cbn [String.length] in H. lia.
  - apply (f_equal String.length) in H. rewrite !append_length in H.
    cbn [String.length] in H. lia.
  - change (String c (a +:+ s) = String c' (b +:+ s)) in H.
    injection H as -> H. f_equal. apply IH. exact H.
Qed.

Lemma TrimSuffix_length (s suffix : string) :
  (String.length s
   <= String.length (Squeeze.TrimSuffix s suffix) + String.length suffix)%nat.
Proof.
  induction s as [|c s IH]; cbn [Squeeze.TrimSuffix].
  - destruct (decide ("" = suffix)); cbn; lia.
  - destruct (decide (String c s = suffix)) as [<-|Hne]; cbn [String.length] in *; lia.
Qed.

(** Trimming a suffix that was appended gives the string back. *)
Lemma TrimSuffix_append (p suffix : string) :
  Squeeze.TrimSuffix (p +:+ suffix) suffix = p.
Proof.
  induction p as [|c p IH].
  - change ("" +:+ suffix) with suffix.
    destruct suffix; cbn [Squeeze.TrimSuffix]; rewrite decide_True by reflexivity;
      reflexivity.
  - change (String c p +:+ suffix) with (String c (p +:+ suffix)).
    cbn [Squeeze.TrimSuffix]. rewrite decide_False.
    + rewrite IH. reflexivity.
    + intros H. apply (f_equal String.length) in H.
      cbn [String.length] in H. rewrite append_length in H. lia.
Qed.
End TextFacts.

(** ** More reads: [HistorySeek], [HistoryRange], [DebugEFAllValuesAreInRange] *)

Module HistoriesFacts.
Import Kv Read Histories.

(** X1. [HistorySeek] hands a lookup that succeeded back as the history of
    the named domain answered it, for each of the four histories: the
    extra branch for Accounts changes nothing. Only along with an error
    does the Accounts lookup return nil and false instead of the
    history's own value and flag. *)
Theorem HistorySeek_answers_as_history {Tx : Type} (ac : Read.AggregatorRoTx Tx)
    (name : History) (dom : Domain) (key : bytes) (ts : Z) (tx : Tx) :
  history_domain name = Some dom ->
  let '(v, ok, err) := HistorySeek (ht (d ac dom)) key ts tx in
  (err = None -> HistorySeek_agg ac name key ts tx = Returns (v, ok, None))
  /\ (forall e, err = Some e ->
        HistorySeek_agg ac name key ts tx
        = Returns (match name with
                   | AccountsHistory => (None, false, Some e)
                   | _ => (v, ok, Some e)
                   end)).
Proof.
  intros Hdom.
  destruct name; cbn in Hdom; try discriminate; injection Hdom as <-;
    cbn [HistorySeek_agg];
    destruct (HistorySeek (ht (d ac _)) key ts tx) as [[v ok] err] eqn:E.
  - split.
    + intros ->. destruct ok; cbn [negb orb]; [|reflexivity].
      case_bool_decide; reflexivity.
    + intros e ->. reflexivity.
  - split; [intros ->; reflexivity|intros e ->; reflexivity].
  - split; [intros ->; reflexivity|intros e ->; reflexivity].
  - split; [intros ->; reflexivity|intros e ->; reflexivity].
Qed.

Lemma HistorySeek_answers_as_history_witness :
  HistorySeek_agg MoreSamples.seek_ac AccountsHistory [] 5 tt
  = Returns (Some [x2a], true, None).
Proof.
  pose proof (HistorySeek_answers_as_history MoreSamples.seek_ac AccountsHistory
                AccountsDomain [] 5 tt eq_refl) as H.
  cbn in H. destruct H as [H _]. exact (H eq_refl).
Defined.

Section WithComponents.
Context {Tx Hr KV : Type}.
Variable WrapKV : option Hr -> KV.
Variable History_String : History -> string.
Variable InvertedIdx_String : InvertedIdx -> string.
Implicit Types (ac : Histories.AggregatorRoTx Tx Hr) (tx : Tx).

(** X2. [HistoryRange] serves the Accounts, Storage and Code histories from
    their own domain, wrapping the iterator, or passing the domain's
    error on with a nil iterator. Every other name, the Commitment
    history that [HistorySeek] serves included, is answered with an
    error and without consulting any component; no name makes it panic. *)
Theorem HistoryRange_serves_three_histories ac (name : History)
    (fromTs toTs : Z) (asc : By) (limit : Z) tx :
  (forall dom, history_domain name = Some dom -> dom <> CommitmentDomain ->
     HistoryRange WrapKV History_String ac name fromTs toTs asc limit tx
     = match ht_HistoryRange ac dom fromTs toTs asc limit tx with
       | (_, Some e) => (None, Some e)
       | (hr, None) => (Some (WrapKV hr), None)
       end)
  /\ (name = CommitmentHistory \/ history_domain name = None ->
      forall ac',
        HistoryRange WrapKV History_String ac' name fromTs toTs asc limit tx
        = (None, Some ("unexpected history name: " +:+ History_String name)))
  /\ (forall (ac0 : Read.AggregatorRoTx Tx) key ts,
        HistorySeek_agg ac0 CommitmentHistory key ts tx
        = Returns (HistorySeek (ht (d ac0 CommitmentDomain)) key ts tx)).
Proof.
  split; [|split].
  - intros dom Hdom Hne.
    destruct name; cbn in Hdom; try discriminate; injection Hdom as <-;
      try contradiction; unfold HistoryRange;
      destruct (ht_HistoryRange ac _ fromTs toTs asc limit tx) as [hr [e|]];
      reflexivity.
  - intros [->|Hnone] ac'; [reflexivity|].
    destruct name; cbn in Hnone; try discriminate. reflexivity.
  - reflexivity.
Qed.

(** X3. [DebugEFAllValuesAreInRange] checks the index that answers for the
    name, except that [StorageHistoryIdx] checks the Code domain's index
    and [CodeHistoryIdx] the Storage domain's; the component's error is
    returned as it is; an unrecognised name panics. *)
Theorem DebugEFAllValuesAreInRange_swaps_storage_and_code ac
    (name : InvertedIdx) (failFast : bool) (fromStep : Z) :
  (forall c, own_component name = Some c ->
     DebugEFAllValuesAreInRange InvertedIdx_String ac name failFast fromStep
     = Returns (component_Debug ac (swap_storage_code c) failFast fromStep))
  /\ (own_component name = None ->
      DebugEFAllValuesAreInRange InvertedIdx_String ac name failFast fromStep
      = Panics ("unexpected: " +:+ InvertedIdx_String name))
  /\ (forall c, own_component name = Some c ->
        swap_storage_code c <> c <->
        name = StorageHistoryIdx \/ name = CodeHistoryIdx).
Proof.
  split; [|split].
  - intros c Hc. destruct name; cbn in Hc; try discriminate;
      injection Hc as <-; reflexivity.
  - intros Hnone. destruct name; cbn in Hnone; try discriminate. reflexivity.
  - intros c Hc. destruct name; cbn in Hc; try discriminate;
      injection Hc as <-; cbn; split;
      try (intros H; exfalso; apply H; reflexivity);
      try (intros [H|H]; discriminate H);
      try (intros _; auto; fail);
      try (intros _; discriminate).
Qed.
End WithComponents.
End HistoriesFacts.

(** ** Steps and txNums *)

Module StepsFacts.
Import Steps.

Lemma first_exact (step size : Z) :
  0 <= step -> 0 <= size -> step * size < U64.modulus ->
  firstTxNumOfStep step size = step * size.
Proof.
  intros Hs Hz Hlt. unfold firstTxNumOfStep, U64.mul, U64.wrap.
  apply Z.mod_small. nia.
Qed.

Lemma last_exact (step size : Z) :
  0 <= step -> 0 < size -> (step + 1) * size <= U64.modulus ->
  lastTxNumOfStep step size = (step + 1) * size - 1.
Proof.
  intros Hs Hz Hle.
  assert (step + 1 <= U64.modulus) as Hstep by nia.
  unfold lastTxNumOfStep, firstTxNumOfStep, U64.sub, U64.mul, U64.add, U64.wrap in *.
  destruct (decide (step + 1 = U64.modulus)) as [Hmax|Hlt].
  - (* the last step of all: its successor wraps to step 0 *)
    assert (size = 1) as -> by nia.
    rewrite Hmax, Z.mod_same by (unfold U64.modulus; lia).
    unfold U64.modulus. reflexivity.
  - rewrite (Z.mod_small (step + 1)) by lia.
    destruct (decide ((step + 1) * size = U64.modulus)) as [Heq|Hne].
    + rewrite Heq, Z.mod_same by (unfold U64.modulus; lia).
      unfold U64.modulus. reflexivity.
    + rewrite (Z.mod_small ((step + 1) * size)) by nia.
      apply Z.mod_small. nia.
Qed.

(** X4. A step [s] of size [size > 0] that fits into [uint64] is the range
    of txNums from [firstTxNumOfStep] to [lastTxNumOfStep], both
    included: these are exactly the txNums whose quotient by the step
    size is [s], and the next step starts right after. *)
Theorem step_is_its_txNum_range (step size : Z) :
  0 <= step -> 0 < size -> (step + 1) * size <= U64.modulus ->
  firstTxNumOfStep step size <= lastTxNumOfStep step size
  /\ (forall txNum,
        firstTxNumOfStep step size <= txNum <= lastTxNumOfStep step size
        <-> txNum / size = step)
  /\ ((step + 1) * size < U64.modulus ->
      firstTxNumOfStep (step + 1) size = lastTxNumOfStep step size + 1).
Proof.
  intros Hs Hz Hle.
  rewrite last_exact by assumption.
  rewrite first_exact by nia.
  split; [nia|]. split.
  - intros txNum. split.
    + intros [H1 H2]. symmetry. apply (Z.div_unique txNum size step (txNum - step * size)); nia.
    + intros <-. pose proof (Z.mul_div_le txNum size Hz).
      pose proof (Z.mul_succ_div_gt txNum size Hz). lia.
  - intros Hlt. rewrite first_exact by lia. lia.
Qed.

Lemma step_is_its_txNum_range_witness :
  firstTxNumOfStep 3 100 = 300 /\ lastTxNumOfStep 3 100 = 399 /\ 399 / 100 = 3.
Proof.
  destruct (step_is_its_txNum_range 3 100) as (_ & H & _);
    [lia|lia|unfold U64.modulus; lia|].
  split; [reflexivity|]. split; [reflexivity|].
  apply H. vm_compute. split; discriminate.
Defined.

(** With a step size of zero every step starts at txNum 0 and "ends" at
    the largest [uint64]. *)
Lemma step_size_zero (step : Z) :
  firstTxNumOfStep step 0 = 0 /\ lastTxNumOfStep step 0 = U64.MaxUint64.
Proof.
  unfold lastTxNumOfStep, firstTxNumOfStep, U64.mul, U64.sub, U64.wrap.
  rewrite !Z.mul_0_r. split; reflexivity.
Qed.
End StepsFacts.

(** ** The step [Prune] hands to the domains *)

Module PruneStepFacts.
Import Kv Prune Steps.

Lemma logs_only_refl Q s : logs_only Q s s.
Proof.
  exists []. rewrite app_nil_r. split; [reflexivity|].
  intros c Hc. apply elem_of_nil in Hc. contradiction.
Qed.

Lemma logs_only_trans Q s1 s2 s3 :
  logs_only Q s1 s2 -> logs_only Q s2 s3 -> logs_only Q s1 s3.
Proof.
  intros (cs1 & L1 & C1) (cs2 & L2 & C2).
  exists (cs1 ++ cs2). split; [rewrite L2, L1, app_assoc; reflexivity|].
  intros c Hc. apply elem_of_app in Hc as [Hc|Hc]; auto.
Qed.

Lemma logs_only_invoke {A} Q (c : call) (m : State HotStore A) s :
  Q c -> logs_only Q s (invoke c m s).2.
Proof.
  intros Hc. unfold invoke. destruct (m (store s)) as [r st]. cbn [snd].
  exists [c]. split; [reflexivity|].
  intros c' Hc'. apply list_elem_of_singleton in Hc'. subst c'. exact Hc.
Qed.

Lemma prune_domains_at_step ac step txFrom txTo limit ids :
  forall aggStat s,
    logs_only (at_step step) s (prune_domains ac step txFrom txTo limit ids aggStat s).2.
Proof.
  induction ids as [|id rest IH]; intros aggStat s.
  - apply logs_only_refl.
  - cbn [prune_domains]. unfold bind.
    pose proof (logs_only_invoke (at_step step)
                  (DomainPrune id step txFrom txTo limit)
                  (d_Prune (d ac id) step txFrom txTo limit) s) as Hi.
    destruct (invoke (DomainPrune id step txFrom txTo limit)
                (d_Prune (d ac id) step txFrom txTo limit) s) as [[stat err] s1].
    cbn [snd] in Hi.
    assert (logs_only (at_step step) s s1) as H1.
    { apply Hi. intros st [= <-]. reflexivity. }
    destruct err as [e|]; [exact H1|].
    eapply logs_only_trans; [exact H1|apply IH].
Qed.

Lemma prune_indices_at_step ac st txFrom txTo limit poss :
  forall s,
    logs_only (at_step st) s (prune_indices ac txFrom txTo limit poss s).2.
Proof.
  induction poss as [|pos rest IH]; intros s.
  - apply logs_only_refl.
  - cbn [prune_indices]. unfold bind.
    pose proof (logs_only_invoke (at_step st)
                  (IndexPrune pos txFrom txTo limit)
                  (ii_Prune (iis ac pos) txFrom txTo limit) s) as Hi.
    destruct (invoke (IndexPrune pos txFrom txTo limit)
                (ii_Prune (iis ac pos) txFrom txTo limit) s) as [[stat err] s1].
    cbn [snd] in Hi.
    assert (logs_only (at_step st) s s1) as H1.
    { apply Hi. intros step [=]. }
    destruct err as [e|]; [exact H1|].
    specialize (IH s1).
    destruct (prune_indices ac txFrom txTo limit rest s1) as [[stats err'] s2].
    eapply logs_only_trans; [exact H1|exact IH].
Qed.

Lemma prune_appendables_at_step st txFrom txTo limit aps :
  forall i aggStat s,
    logs_only (at_step st) s (prune_appendables txFrom txTo limit i aps aggStat s).2.
Proof.
  induction aps as [|ap rest IH]; intros i aggStat s.
  - apply logs_only_refl.
  - cbn [prune_appendables]. unfold bind.
    pose proof (logs_only_invoke (at_step st)
                  (AppendablePrune i txFrom txTo limit)
                  (ap_Prune ap txFrom txTo limit) s) as Hi.
    destruct (invoke (AppendablePrune i txFrom txTo limit)
                (ap_Prune ap txFrom txTo limit) s) as [[stat err] s1].
    cbn [snd] in Hi.
    assert (logs_only (at_step st) s s1) as H1.
    { apply Hi. intros step [=]. }
    destruct err as [e|]; [exact H1|].
    eapply logs_only_trans; [exact H1|apply IH].
Qed.

(** X5. Once the files reach the end of step [st] (the minimax txNum is the
    first txNum of step [st + 1]), every domain prune that [Prune]
    invokes is handed the step [st]: the last step that the files
    cover. *)
Theorem Prune_prunes_domains_at_last_built_step
    (a : Aggregator) (ac : AggregatorRoTx) (limit : Z) (s : pstate) (st : Z) :
  0 <= st -> 0 < aggregationStep a ->
  (st + 1) * aggregationStep a < U64.modulus ->
  visibleFilesMinimaxTxNum a = firstTxNumOfStep (U64.add st 1) (aggregationStep a) ->
  logs_only (at_step st) s (Prune a ac limit s).2.
Proof.
  intros Hst Hsize Hfit Hmm.
  assert (U64.add st 1 = st + 1) as Hadd.
  { unfold U64.add, U64.wrap. apply Z.mod_small. nia. }
  rewrite Hadd in Hmm.
  assert (firstTxNumOfStep (st + 1) (aggregationStep a)
          = (st + 1) * aggregationStep a) as Hfirst
    by (apply StepsFacts.first_exact; lia).
  rewrite Hfirst in Hmm.
  unfold Prune. rewrite Hmm.
  assert ((0 <? (st + 1) * aggregationStep a) = true) as -> by (apply Z.ltb_lt; nia).
  assert ((aggregationStep a =? 0) = false) as -> by (apply Z.eqb_neq; lia).
  cbn [andb].
  assert (((st + 1) * aggregationStep a - 1) / aggregationStep a = st) as ->.
  { symmetry.
    apply (Z.div_unique _ (aggregationStep a) st (aggregationStep a - 1)); nia. }
  destruct ((0 =? (st + 1) * aggregationStep a)
            || negb (CanPrune_agg a ac (store s) ((st + 1) * aggregationStep a)));
    [apply logs_only_refl|].
  set (lim := if limit =? 0 then U64.MaxUint64 else limit).
  set (txTo := (st + 1) * aggregationStep a).
  unfold bind.
  pose proof (prune_domains_at_step ac st 0 txTo lim Domains newAggregatorPruneStat s)
    as H1.
  destruct (prune_domains ac st 0 txTo lim Domains newAggregatorPruneStat s)
    as [[aggStat err] s1].
  cbn [snd] in H1. destruct err as [e|]; [exact H1|].
  pose proof (prune_indices_at_step ac st 0 txTo lim StandaloneIdx s1) as H2.
  destruct (prune_indices ac 0 txTo lim StandaloneIdx s1) as [[stats err] s2].
  cbn [snd] in H2.
  assert (logs_only (at_step st) s s2) as H12
    by (eapply logs_only_trans; eassumption).
  destruct err as [e|]; [exact H12|].
  match goal with
  | |- context [prune_appendables ?f ?t ?l ?i ?aps ?ag s2] =>
      pose proof (prune_appendables_at_step st f t l aps i ag s2) as H3;
      destruct (prune_appendables f t l i aps ag s2) as [[aggStat' err] s3]
  end.
  cbn [snd] in H3.
  assert (logs_only (at_step st) s s3) as H123
    by (eapply logs_only_trans; eassumption).
  destruct err; exact H123.
Qed.

(** Step size 100 and files up to txNum 200: the domains are pruned at
    step 1. *)
Lemma Prune_prunes_domains_at_last_built_step_witness :
  DomainPrune AccountsDomain 1 0 200 10
    ∈ log (Prune Samples.prune_agg (BeginFilesRo Samples.prune_agg) 10
             Samples.prune_store).2
  /\ logs_only (at_step 1) Samples.prune_store
       (Prune Samples.prune_agg (BeginFilesRo Samples.prune_agg) 10
          Samples.prune_store).2.
Proof.
  split.
  - vm_compute. left.
  - apply (Prune_prunes_domains_at_last_built_step Samples.prune_agg
             (BeginFilesRo Samples.prune_agg) 10 Samples.prune_store 1);
      [lia|reflexivity|reflexivity|reflexivity].
Defined.
End PruneStepFacts.

(** ** When the prune drivers stop, and how far the limit grows *)

Module BatchRunsFacts.
Import Batches BatchRuns.

Lemma current_cons (it : iteration) (rest : list iteration) (l : Z) (ls : list Z) :
  ls <> [] -> current (it :: rest) (l :: ls) = current rest ls.
Proof.
  intros Hne. unfold current. destruct ls as [|l' ls]; [contradiction|]. reflexivity.
Qed.

Lemma loopSmallBatches_nonempty (aggressive : bool) (obs : list iteration) (start : Z) :
  obs <> [] -> (loopSmallBatches aggressive start obs).1 <> [].
Proof.
  destruct obs as [|it rest]; [contradiction|]. intros _. cbn [loopSmallBatches].
  destruct (prune it) as [e| |[|]]; try discriminate.
  destruct (sel it); try discriminate;
    destruct (loopSmallBatches aggressive _ rest); discriminate.
Qed.

Lemma loopSmallBatchesDb_nonempty (aggressive : bool) (obs : list iteration) (start : Z) :
  obs <> [] -> (loopSmallBatchesDb aggressive start obs).1 <> [].
Proof.
  destruct obs as [|it rest]; [contradiction|]. intros _. cbn [loopSmallBatchesDb].
  destruct (prune it) as [e| |pn]; cbn; try discriminate;
    destruct (update_err it); try discriminate;
    destruct (sel it); try discriminate;
    destruct (loopSmallBatchesDb aggressive _ rest); discriminate.
Qed.

Lemma loopSmallBatches_returns (aggressive : bool) (obs : list iteration) :
  forall start ls hm err,
    loopSmallBatches aggressive start obs = (ls, Some (hm, err)) ->
    exists it,
      current obs ls = Some it
      /\ (hm = true -> err = None /\ sel it = SelTimeout)
      /\ (hm = false -> err = None ->
          prune it = PruneNil \/ prune it = PruneStat true).
Proof.
  induction obs as [|it rest IH]; intros start ls hm err H; [discriminate|].
  cbn [loopSmallBatches] in H.
  destruct (prune it) as [e| |[|]] eqn:Ep;
    try (injection H as <- <- <-; exists it; split; [reflexivity|];
         split; [discriminate|]; intros _; try discriminate; auto; fail).
  destruct (sel it) as [| |e|] eqn:Es;
    try (injection H as <- <- <-; exists it; split; [reflexivity|];
         split; [auto|]; intros; discriminate).
  all: pose proof (loopSmallBatches_nonempty aggressive rest
                     (adjust aggressive start (took it))) as Hne;
    destruct (loopSmallBatches aggressive (adjust aggressive start (took it)) rest)
      as [ls' r] eqn:El;
    injection H as <- ->;
    destruct rest as [|it2 rest2]; [discriminate El|];
    rewrite current_cons by (apply Hne; discriminate);
    eapply IH; exact El.
Qed.

Lemma loopSmallBatchesDb_returns (aggressive : bool) (obs : list iteration) :
  forall start ls hm err,
    loopSmallBatchesDb aggressive start obs = (ls, Some (hm, err)) ->
    exists it,
      current obs ls = Some it
      /\ (hm = true -> err = None /\ sel it = SelTimeout)
      /\ (hm = false -> err = None -> prune it = PruneNil).
Proof.
  induction obs as [|it rest IH]; intros start ls hm err H; [discriminate|].
  cbn [loopSmallBatchesDb] in H.
  destruct (prune it) as [e| |pn] eqn:Ep; cbn in H.
  - injection H as <- <- <-. exists it. split; [reflexivity|].
    split; [discriminate|]. intros _ [=].
  - destruct (update_err it) as [e|].
    + injection H as <- <- <-. exists it. split; [reflexivity|].
      split; [discriminate|]. intros _ [=].
    + destruct (sel it) as [| |e|] eqn:Es; injection H as <- <- <-;
        exists it; (split; [reflexivity|]); (split; [auto; discriminate|]);
        intros; try discriminate; exact Ep.
  - destruct (update_err it) as [e|].
    + injection H as <- <- <-. exists it. split; [reflexivity|].
      split; [discriminate|]. intros _ [=].
    + destruct (sel it) as [| |e|] eqn:Es;
        try (injection H as <- <- <-; exists it; split; [reflexivity|];
             split; [auto|]; intros; discriminate).
      all: pose proof (loopSmallBatchesDb_nonempty aggressive rest
                         (adjust aggressive start (took it))) as Hne;
        destruct (loopSmallBatchesDb aggressive (adjust aggressive start (took it)) rest)
          as [ls' r] eqn:El;
        injection H as <- ->;
        destruct rest as [|it2 rest2]; [discriminate El|];
        rewrite current_cons by (apply Hne; discriminate);
        eapply IH; exact El.
Qed.

Lemma loopSmallBatchesDb_goes_on (aggressive : bool) (obs : list iteration) :
  forall start,
    Forall goes_on obs ->
    exists ls, loopSmallBatchesDb aggressive start obs = (ls, None)
               /\ length ls = length obs.
Proof.
  induction obs as [|it rest IH]; intros start Hall.
  - exists []. split; reflexivity.
  - inversion Hall as [|? ? ((pn & Hp) & Hu & Hs) Hrest]; subst.
    cbn [loopSmallBatchesDb]. rewrite Hp, Hu.
    destruct (IH (adjust aggressive start (took it)) Hrest) as (ls & Hrun & Hlen).
    exists (start :: ls).
    destruct Hs as [-> | ->]; rewrite Hrun; cbn [length]; rewrite Hlen; split; reflexivity.
Qed.

(** Iterations that go on only prefix the run of the rest. *)
Lemma loopSmallBatches_prefix (aggressive : bool) (pre : list iteration) :
  forall start,
    Forall prunes_on pre ->
    exists chain l,
      length chain = length pre
      /\ forall rest,
           loopSmallBatches aggressive start (pre ++ rest)
           = (chain ++ (loopSmallBatches aggressive l rest).1,
              (loopSmallBatches aggressive l rest).2).
Proof.
  induction pre as [|it pre IH]; intros start Hall.
  - exists [], start. split; [reflexivity|]. intros rest. cbn [app].
    destruct (loopSmallBatches aggressive start rest); reflexivity.
  - inversion Hall as [|? ? (Hp & Hs) Hrest]; subst.
    destruct (IH (adjust aggressive start (took it)) Hrest) as (chain & l & Hlen & Hrun).
    exists (start :: chain), l. split; [cbn; rewrite Hlen; reflexivity|].
    intros rest. cbn [app loopSmallBatches]. rewrite Hp, Hrun.
    destruct Hs as [-> | ->]; reflexivity.
Qed.

Lemma loopSmallBatchesDb_prefix (aggressive : bool) (pre : list iteration) :
  forall start,
    Forall goes_on pre ->
    exists chain l,
      length chain = length pre
      /\ forall rest,
           loopSmallBatchesDb aggressive start (pre ++ rest)
           = (chain ++ (loopSmallBatchesDb aggressive l rest).1,
              (loopSmallBatchesDb aggressive l rest).2).
Proof.
  induction pre as [|it pre IH]; intros start Hall.
  - exists [], start. split; [reflexivity|]. intros rest. cbn [app].
    destruct (loopSmallBatchesDb aggressive start rest); reflexivity.
  - inversion Hall as [|? ? ((pn & Hp) & Hu & Hs) Hrest]; subst.
    destruct (IH (adjust aggressive start (took it)) Hrest) as (chain & l & Hlen & Hrun).
    exists (start :: chain), l. split; [cbn; rewrite Hlen; reflexivity|].
    intros rest. cbn [app loopSmallBatchesDb]. rewrite Hp, Hu, Hrun.
    destruct Hs as [-> | ->]; reflexivity.
Qed.

(** X6. How the two prune drivers end, [it] being the iteration they
    stand at after iterations [pre] that all went on. [PruneSmallBatches]
    returns [(false, nil)] as soon as [Prune] hands back a nil stat or a
    stat that pruned nothing, whatever the timeout and the context do;
    it returns [Prune]'s error; and after a stat that pruned something
    it returns [(true, nil)] when the timeout has fired and the
    context's error when the context is done. [PruneSmallBatchesDb]
    returns the error of [Prune] or of [db.Update]; otherwise it looks
    at the timeout and the context first, so that even after a nil stat
    it answers [(true, nil)] when the timeout has fired; it returns
    [(false, nil)] only after a nil stat with nothing fired; and after a
    stat that pruned nothing it is still going, where
    [PruneSmallBatches] has returned. Either driver reports
    [haveMore = true] only when its timeout has fired, and then without
    an error. *)
Theorem drivers_stop (timeout : Z) (pre : list iteration) (it : iteration)
    (rest : list iteration) :
  0 < timeout ->
  let n := S (length pre) in
  let tx := PruneSmallBatches timeout (pre ++ it :: rest) in
  let db := PruneSmallBatchesDb timeout (pre ++ it :: rest) in
  (Forall prunes_on pre ->
     (prune it = PruneNil \/ prune it = PruneStat true ->
      after_calls tx n (Some (false, None)))
     /\ (forall e, prune it = PruneErr e -> after_calls tx n (Some (false, Some e)))
     /\ (prune it = PruneStat false -> sel it = SelTimeout ->
         after_calls tx n (Some (true, None)))
     /\ (forall e, prune it = PruneStat false -> sel it = SelDone e ->
         after_calls tx n (Some (false, Some e))))
  /\ (Forall goes_on pre ->
      (forall e, prune it = PruneErr e -> after_calls db n (Some (false, Some e)))
      /\ (forall e, (forall e', prune it <> PruneErr e') -> update_err it = Some e ->
          after_calls db n (Some (false, Some e)))
      /\ ((forall e', prune it <> PruneErr e') -> update_err it = None ->
          (sel it = SelTimeout -> after_calls db n (Some (true, None)))
          /\ (forall e, sel it = SelDone e -> after_calls db n (Some (false, Some e)))
          /\ (sel it = SelDefault \/ sel it = SelLog ->
              (prune it = PruneNil -> after_calls db n (Some (false, None)))
              /\ (forall pn, prune it = PruneStat pn ->
                  after_calls (PruneSmallBatchesDb timeout (pre ++ [it])) n None))))
  /\ (forall ls err,
        tx = Returns (ls, Some (true, err)) \/ db = Returns (ls, Some (true, err)) ->
        err = None
        /\ exists it', current (pre ++ it :: rest) ls = Some it' /\ sel it' = SelTimeout).
Proof.
  intros Hpos. cbv zeta. unfold PruneSmallBatches, PruneSmallBatchesDb, after_calls.
  replace (timeout <=? 0) with false by (symmetry; apply Z.leb_gt; lia).
  set (ag := aggressivePrune timeout).
  set (start := if furiousPrune timeout then 1000000 else 1000).
  split; [|split].
  - intros Hall.
    destruct (loopSmallBatches_prefix ag pre start Hall) as (chain & l & Hlen & Hrun).
    rewrite Hrun. cbn [loopSmallBatches].
    assert (length (chain ++ [l]) = S (length pre)) as Hn
      by (rewrite length_app, Hlen; cbn; lia).
    split; [|split; [|split]].
    + intros [-> | ->]; exists (chain ++ [l]); (split; [reflexivity|exact Hn]).
    + intros e ->. exists (chain ++ [l]). split; [reflexivity|exact Hn].
    + intros -> ->. exists (chain ++ [l]). split; [reflexivity|exact Hn].
    + intros e -> ->. exists (chain ++ [l]). split; [reflexivity|exact Hn].
  - intros Hall.
    destruct (loopSmallBatchesDb_prefix ag pre start Hall) as (chain & l & Hlen & Hrun).
    rewrite !Hrun. cbn [loopSmallBatchesDb].
    assert (length (chain ++ [l]) = S (length pre)) as Hn
      by (rewrite length_app, Hlen; cbn; lia).
    split; [|split].
    + intros e ->. exists (chain ++ [l]). split; [reflexivity|exact Hn].
    + intros e Hne ->. exists (chain ++ [l]).
      destruct (prune it) as [e'| |pn] eqn:Ep; [destruct (Hne e'); reflexivity|..];
        (split; [reflexivity|exact Hn]).
    + intros Hne ->. split; [|split].
      * intros ->. exists (chain ++ [l]).
        destruct (prune it) as [e'| |pn] eqn:Ep; [destruct (Hne e'); reflexivity|..];
          (split; [reflexivity|exact Hn]).
      * intros e ->. exists (chain ++ [l]).
        destruct (prune it) as [e'| |pn] eqn:Ep; [destruct (Hne e'); reflexivity|..];
          (split; [reflexivity|exact Hn]).
      * intros Hs. split.
        -- intros ->. exists (chain ++ [l]).
           destruct Hs as [-> | ->]; (split; [reflexivity|exact Hn]).
        -- intros pn ->. exists (chain ++ [l]).
           destruct Hs as [-> | ->]; (split; [reflexivity|exact Hn]).
  - intros ls err [H|H]; injection H as H.
    + destruct (loopSmallBatches_returns _ _ _ _ _ _ H)
        as (it' & Hcur & Htrue & _).
      destruct (Htrue eq_refl) as [-> Hs]. split; [reflexivity|]. eauto.
    + destruct (loopSmallBatchesDb_returns _ _ _ _ _ _ H)
        as (it' & Hcur & Htrue & _).
      destruct (Htrue eq_refl) as [-> Hs]. split; [reflexivity|]. eauto.
Qed.

(** Three seconds; the first call prunes something, the second finds
    nothing to prune: the plain driver returns [(false, nil)] after the
    second call, the other one is still going after it. *)
Lemma drivers_stop_witness :
  let idle := {| prune := PruneStat true; took := 1000000;
                 sel := SelDefault; update_err := None |} in
  after_calls
    (PruneSmallBatches (3 * Second) (MoreSamples.quick_iteration :: [idle; idle]))
    2 (Some (false, None))
  /\ after_calls
       (PruneSmallBatchesDb (3 * Second) [MoreSamples.quick_iteration; idle]) 2 None.
Proof.
  cbv zeta.
  destruct (drivers_stop (3 * Second) [MoreSamples.quick_iteration]
              {| prune := PruneStat true; took := 1000000;
                 sel := SelDefault; update_err := None |}
              [{| prune := PruneStat true; took := 1000000;
                  sel := SelDefault; update_err := None |}])
    as (Htx & Hdb & _); [reflexivity|].
  split.
  - apply Htx; [|right; reflexivity].
    constructor; [split; [reflexivity|left; reflexivity]|constructor].
  - destruct Hdb as (_ & _ & H).
    { constructor; [|constructor].
      split; [exists false; reflexivity|split; [reflexivity|left; reflexivity]]. }
    destruct H as (_ & _ & H); [intros e'; discriminate|reflexivity|].
    apply (proj2 (H (or_introl eq_refl)) true). reflexivity.
Defined.
End BatchRunsFacts.

(** ** How far the limit of the prune drivers grows *)

Module LimitGrowthFacts.
Import Batches BatchRuns.

Lemma adjust_fast (l took : Z) : took < 2 * Second -> adjust true l took = U64.mul l 10.
Proof.
  intros H. unfold adjust, logPeriod, Second in *.
  replace (took <? 2 * 1000000000) with true by (symmetry; apply Z.ltb_lt; lia).
  replace (30 * 1000000000 <? took) with false by (symmetry; apply Z.ltb_ge; lia).
  reflexivity.
Qed.

Lemma wrap_mul_pow (start : Z) (i : nat) :
  U64.wrap (U64.mul start 10 * 10 ^ Z.of_nat i)
  = U64.wrap (start * 10 ^ Z.of_nat (S i)).
Proof.
  unfold U64.mul, U64.wrap.
  rewrite Z.mul_mod_idemp_l by (unfold U64.modulus; lia).
  rewrite Nat2Z.inj_succ, Z.pow_succ_r by lia.
  f_equal. ring.
Qed.

Lemma fast_limits_Db (obs : list iteration) :
  forall start,
    U64.wrap start = start ->
    Forall fast obs ->
    exists ls,
      loopSmallBatchesDb true start obs = (ls, None)
      /\ length ls = length obs
      /\ forall i, (i < length obs)%nat ->
                   ls !! i = Some (U64.wrap (start * 10 ^ Z.of_nat i)).
Proof.
  induction obs as [|it rest IH]; intros start Hstart Hall.
  - exists []. split; [reflexivity|]. split; [reflexivity|].
    intros i Hi. cbn in Hi. lia.
  - inversion Hall as [|? ? (Hp & Hu & Hs & Ht) Hrest]; subst.
    cbn [loopSmallBatchesDb]. rewrite Hp, Hu, (adjust_fast _ _ Ht).
    destruct (IH (U64.mul start 10)) as (ls & Hrun & Hlen & Hls); [|exact Hrest|].
    { unfold U64.mul, U64.wrap. apply Z.mod_mod. unfold U64.modulus. lia. }
    exists (start :: ls).
    split; [destruct Hs as [-> | ->]; rewrite Hrun; reflexivity|].
    split; [cbn [length]; rewrite Hlen; reflexivity|].
    intros [|i] Hi.
    + cbn. rewrite Z.mul_1_r, Hstart. reflexivity.
    + cbn [lookup list_lookup]. cbn in Hi.
      change ((start :: ls) !! S i) with (ls !! i).
      rewrite Hls by lia. f_equal. apply wrap_mul_pow.
Qed.

Lemma fast_limits (obs : list iteration) :
  forall start,
    U64.wrap start = start ->
    Forall fast obs ->
    exists ls,
      loopSmallBatches true start obs = (ls, None)
      /\ length ls = length obs
      /\ forall i, (i < length obs)%nat ->
                   ls !! i = Some (U64.wrap (start * 10 ^ Z.of_nat i)).
Proof.
  induction obs as [|it rest IH]; intros start Hstart Hall.
  - exists []. split; [reflexivity|]. split; [reflexivity|].
    intros i Hi. cbn in Hi. lia.
  - inversion Hall as [|? ? (Hp & Hu & Hs & Ht) Hrest]; subst.
    cbn [loopSmallBatches]. rewrite Hp, (adjust_fast _ _ Ht).
    destruct (IH (U64.mul start 10)) as (ls & Hrun & Hlen & Hls); [|exact Hrest|].
    { unfold U64.mul, U64.wrap. apply Z.mod_mod. unfold U64.modulus. lia. }
    exists (start :: ls).
    split; [destruct Hs as [-> | ->]; rewrite Hrun; reflexivity|].
    split; [cbn [length]; rewrite Hlen; reflexivity|].
    intros [|i] Hi.
    + cbn. rewrite Z.mul_1_r, Hstart. reflexivity.
    + cbn in Hi. change ((start :: ls) !! S i) with (ls !! i).
      rewrite Hls by lia. f_equal. apply wrap_mul_pow.
Qed.

Lemma thousand_tens_small (i : nat) :
  (i <= 16)%nat -> U64.wrap (1000 * 10 ^ Z.of_nat i) = 1000 * 10 ^ Z.of_nat i.
Proof.
  intros Hi. unfold U64.wrap. apply Z.mod_small.
  assert (0 < 10 ^ Z.of_nat i) by (apply Z.pow_pos_nonneg; lia).
  assert (10 ^ Z.of_nat i <= 10 ^ 16) by (apply Z.pow_le_mono_r; lia).
  unfold U64.modulus. lia.
Qed.

Lemma thousand_tens_zero (i : nat) :
  (61 <= i)%nat -> U64.wrap (1000 * 10 ^ Z.of_nat i) = 0.
Proof.
  intros Hi. unfold U64.wrap.
  replace (Z.of_nat i) with (61 + Z.of_nat (i - 61)) by lia.
  rewrite Z.pow_add_r by lia.
  rewrite Z.mul_assoc, <- Z.mul_mod_idemp_l by (unfold U64.modulus; lia).
  replace ((1000 * 10 ^ 61) mod U64.modulus) with 0 by (vm_compute; reflexivity).
  reflexivity.
Qed.

(** X7. In aggressive mode, while every iteration prunes something in less
    than 2 seconds, both drivers multiply the limit by 10 in [uint64]:
    the limit of iteration [i] is [1000 * 10^i] up to [i = 16], wraps
    around from [i = 17] on, and is 0 from [i = 61] on; and a limit of 0
    makes [Prune] run with the key bound [2^64 - 1], that is unbounded. *)
Theorem limit_grows_until_it_wraps_to_zero (timeout : Z) (obs : list iteration) :
  1 * Minute <= timeout <= 5 * Hour ->
  Forall fast obs ->
  exists ls,
    PruneSmallBatches timeout obs = Returns (ls, None)
    /\ PruneSmallBatchesDb timeout obs = Returns (ls, None)
    /\ length ls = length obs
    /\ (forall i l, ls !! i = Some l ->
          ((i <= 16)%nat -> l = 1000 * 10 ^ Z.of_nat i)
          /\ ((61 <= i)%nat ->
              l = 0
              /\ forall a ac s,
                   Prune.Prune a ac l s = Prune.Prune a ac U64.MaxUint64 s)).
Proof.
  intros Hag Hall.
  assert ((timeout <=? 0) = false) as Hpos.
  { apply Z.leb_gt. unfold Minute, Second in Hag. lia. }
  assert (furiousPrune timeout = false) as Hfur.
  { unfold furiousPrune. apply Z.ltb_ge. lia. }
  assert (aggressivePrune timeout = true) as Hagg.
  { unfold aggressivePrune. rewrite Hfur. apply Z.leb_le. lia. }
  unfold PruneSmallBatches, PruneSmallBatchesDb. rewrite Hpos, Hfur, Hagg.
  destruct (fast_limits obs 1000 eq_refl Hall) as (ls & Hrun & Hlen & Hls).
  destruct (fast_limits_Db obs 1000 eq_refl Hall) as (ls' & Hrun' & Hlen' & Hls').
  assert (ls' = ls) as ->.
  { apply list_eq. intros i.
    destruct (decide (i < length obs)%nat) as [Hi|Hi].
    - rewrite Hls, Hls' by exact Hi. reflexivity.
    - rewrite !lookup_ge_None_2 by lia. reflexivity. }
  exists ls. rewrite Hrun, Hrun'.
  split; [reflexivity|]. split; [reflexivity|]. split; [exact Hlen|].
  intros i l Hl.
  assert (i < length obs)%nat as Hi by (rewrite <- Hlen; eapply lookup_lt_Some; exact Hl).
  rewrite Hls in Hl by exact Hi. injection Hl as <-.
  split.
  - intros H16. apply thousand_tens_small. exact H16.
  - intros H61. rewrite thousand_tens_zero by exact H61.
    split; reflexivity.
Qed.

(** Ten minutes and 62 quick iterations: the last one runs with limit 0. *)
Lemma limit_grows_until_it_wraps_to_zero_witness :
  exists ls,
    PruneSmallBatchesDb (10 * Minute) (replicate 62 MoreSamples.quick_iteration)
      = Returns (ls, None)
    /\ ls !! 16%nat = Some 10000000000000000000
    /\ ls !! 61%nat = Some 0.
Proof.
  destruct (limit_grows_until_it_wraps_to_zero (10 * Minute)
              (replicate 62 MoreSamples.quick_iteration))
    as (ls & _ & Hrun & Hlen & Hls).
  - vm_compute. split; discriminate.
  - apply Forall_replicate. repeat split; try reflexivity. left. reflexivity.
  - exists ls. split; [exact Hrun|].
    rewrite length_replicate in Hlen.
    destruct (lookup_lt_is_Some_2 ls 16) as (l16 & H16); [lia|].
    destruct (lookup_lt_is_Some_2 ls 61) as (l61 & H61); [lia|].
    rewrite H16, H61.
    destruct (Hls _ _ H16) as [Ha _]. destruct (Hls _ _ H61) as [_ Hb].
    rewrite (Ha ltac:(lia)). destruct (Hb ltac:(lia)) as [-> _].
    split; reflexivity.
Defined.
End LimitGrowthFacts.

(** ** [BackgroundResult] *)

Module BackgroundFacts.
Import Background.

Lemma calls_app (ops1 ops2 : list op) (br : BackgroundResult) :
  calls (ops1 ++ ops2) br
  = ((calls ops1 br).1 ++ (calls ops2 (calls ops1 br).2).1,
     (calls ops2 (calls ops1 br).2).2).
Proof.
  revert br. induction ops1 as [|o rest IH]; intros br.
  - cbn. destruct (calls ops2 br). reflexivity.
  - cbn [calls app]. unfold bind, ret.
    destruct (call o br) as [x br1]. rewrite IH.
    destruct (calls rest br1) as [xs br2]. cbn [fst snd].
    destruct (calls ops2 br2). reflexivity.
Qed.

Lemma calls_Has_keep (ops : list op) (br : BackgroundResult) :
  Forall is_Has ops ->
  (calls ops br).2 = br
  /\ Forall (fun x => x = AHas (has br)) (calls ops br).1.
Proof.
  induction 1 as [|o rest Ho Hrest IH]; [split; [reflexivity|constructor]|].
  rewrite Ho. cbn [calls call]. unfold bind, ret, Has.
  destruct (calls rest br) as [xs br']. cbn [fst snd] in *.
  destruct IH as [-> IH]. split; [reflexivity|]. constructor; [reflexivity|exact IH].
Qed.

(** X8. Whatever happened before: after [Set(e)], and any number of [Has]
    in between, [GetAndReset] returns [(true, e)] and every [Has] in
    between returns true; after a [GetAndReset], the next
    [GetAndReset] returns [(false, nil)] and every [Has] in between
    returns false. In particular only the last [Set] before a
    [GetAndReset] is reported. *)
Theorem GetAndReset_reports_last_Set (pre mid : list op) (br : BackgroundResult)
    (e : option error) :
  Forall is_Has mid ->
  (calls (pre ++ OpSet e :: mid ++ [OpGetAndReset]) br).1
    = (calls pre br).1 ++ ASet :: replicate (length mid) (AHas true)
        ++ [AGetAndReset true e]
  /\ (calls (pre ++ OpGetAndReset :: mid ++ [OpGetAndReset]) br).1
     = (calls pre br).1
         ++ AGetAndReset (has (calls pre br).2) (err (calls pre br).2)
         :: replicate (length mid) (AHas false) ++ [AGetAndReset false None].
Proof.
  intros Hmid.
  assert (forall br0, (calls mid br0).1 = replicate (length mid) (AHas (has br0)))
    as Hans.
  { intros br0. destruct (calls_Has_keep mid br0 Hmid) as [_ H].
    assert (length (calls mid br0).1 = length mid) as Hlen.
    { clear. revert br0. induction mid as [|o rest IH]; intros br0; [reflexivity|].
      cbn [calls]. unfold bind, ret. destruct (call o br0) as [x br1].
      specialize (IH br1). destruct (calls rest br1). cbn in *. lia. }
    rewrite <- Hlen. clear Hlen.
    induction H as [|x xs -> H IH]; [reflexivity|].
    cbn. rewrite <- IH. reflexivity. }
  split.
  - rewrite calls_app. cbn [fst]. f_equal.
    change (OpSet e :: mid ++ [OpGetAndReset])
      with ([OpSet e] ++ mid ++ [OpGetAndReset]).
    rewrite calls_app. cbn [fst]. rewrite calls_app.
    set (br1 := (calls [OpSet e] (calls pre br).2).2).
    assert (br1 = {| err := e; has := true |}) as Hbr1 by reflexivity.
    destruct (calls_Has_keep mid br1 Hmid) as [Hkeep _].
    cbn [fst snd]. rewrite Hkeep, Hans, Hbr1. reflexivity.
  - rewrite calls_app. cbn [fst]. f_equal.
    change (OpGetAndReset :: mid ++ [OpGetAndReset])
      with ([OpGetAndReset] ++ mid ++ [OpGetAndReset]).
    rewrite calls_app. cbn [fst]. rewrite calls_app.
    set (br1 := (calls [OpGetAndReset] (calls pre br).2).2).
    assert (br1 = {| err := None; has := false |}) as Hbr1 by reflexivity.
    destruct (calls_Has_keep mid br1 Hmid) as [Hkeep _].
    cbn [fst snd]. rewrite Hkeep, Hans, Hbr1. reflexivity.
Qed.

(** Two errors are set, the second being nil; then the result is read
    twice. *)
Lemma GetAndReset_reports_last_Set_witness :
  (calls [OpSet (Some "disk full"); OpSet None; OpHas; OpGetAndReset]
     {| err := None; has := false |}).1
  = [ASet; ASet; AHas true; AGetAndReset true None].
Proof.
  apply (GetAndReset_reports_last_Set [OpSet (Some "disk full")] [OpHas]
           {| err := None; has := false |} None).
  repeat constructor.
Defined.
End BackgroundFacts.

(** ** [HasNewFrozenFiles] after a build round *)

Module FrozenFacts.
Import Kv Build Frozen.

Lemma needSave_after_app (tr1 tr2 : list event) (flag : bool) :
  needSave_after (tr1 ++ tr2) flag = needSave_after tr2 (needSave_after tr1 flag).
Proof. unfold needSave_after. apply foldl_app. Qed.

Lemma needSave_after_quiet (tr : list event) (flag : bool) :
  (forall ev, ev ∈ tr -> ev <> NeedSaveFilesListInDB) ->
  needSave_after tr flag = flag.
Proof.
  revert flag. induction tr as [|ev rest IH]; intros flag Hq; [reflexivity|].
  cbn. change (foldl _ ?f rest) with (needSave_after rest f).
  rewrite IH by (intros ev' H; apply Hq; right; exact H).
  destruct ev; try reflexivity. exfalso. apply (Hq NeedSaveFilesListInDB); [left|reflexivity].
Qed.

Lemma needSave_after_integrate (sf : AggV3StaticFiles) (txFrom txTo : Z) (flag : bool) :
  needSave_after (integrateDirtyFiles sf txFrom txTo) flag = true.
Proof.
  unfold integrateDirtyFiles. rewrite !needSave_after_app. reflexivity.
Qed.

(** X9. After a build round that started with the flag down,
    [HasNewFrozenFiles] reports true if and only if the round returned
    nil, that is if it integrated its files; it reports true once: the
    call takes the flag down, and the next call reports false. On a nil
    receiver it reports false and touches nothing. *)
Theorem HasNewFrozenFiles_once_per_integrated_round
    (K : KvNames) (a : Aggregator) (step : Z) (sched : list task)
    (r : outcome (option error)) (tr : list event) :
  wired K a ->
  buildFiles K a step sched = Some (r, tr) ->
  let flag := needSave_after tr false in
  ((HasNewFrozenFiles true flag).1 = true <-> r = Returns None)
  /\ (HasNewFrozenFiles true (HasNewFrozenFiles true flag).2).1 = false
  /\ (forall f, HasNewFrozenFiles false f = (false, f)).
Proof.
  intros Hwired Hrun flag.
  assert (flag = true <-> r = Returns None) as Hflag.
  { unfold flag. unfold buildFiles in Hrun.
    destruct (collateAndBuildWorkers a =? 0); [discriminate|].
    destruct (BuildFacts.run_group_inv K a step Hwired sched [] _ None
                (BuildFacts.round_inv_init a step))
      as (r0 & s' & Hgrp & Hinv).
    rewrite Hgrp in Hrun. destruct Hinv as [_ _ _ _ Hni _ _ _].
    assert (forall ev, ev ∈ trace s' -> ev <> NeedSaveFilesListInDB) as Hq.
    { intros ev Hev ->. specialize (Hni _ Hev). discriminate. }
    destruct r0 as [e|]; injection Hrun as <- <-.
    - rewrite needSave_after_app, (needSave_after_quiet _ _ Hq).
      rewrite needSave_after_quiet; [split; discriminate|].
      intros ev Hev ->.
      pose proof (BuildFacts.cleanup_static_not_integration _ _ Hev) as H.
      discriminate.
    - rewrite needSave_after_app, needSave_after_integrate. split; reflexivity. }
  split; [|split].
  - rewrite <- Hflag. unfold HasNewFrozenFiles. destruct flag; cbn; tauto.
  - unfold HasNewFrozenFiles. destruct flag; reflexivity.
  - reflexivity.
Qed.

(** A round in which every component succeeds raises the flag, and
    [HasNewFrozenFiles] takes it down. *)
Lemma HasNewFrozenFiles_once_per_integrated_round_witness :
  exists r tr,
    buildFiles Samples.kv_names (Samples.build_agg false) 3
      (tasks (Samples.build_agg false)) = Some (r, tr)
    /\ HasNewFrozenFiles true (needSave_after tr false) = (true, false).
Proof.
  destruct (buildFiles Samples.kv_names (Samples.build_agg false) 3
              (tasks (Samples.build_agg false))) as [[r tr]|] eqn:E;
    [|vm_compute in E; discriminate E].
  exists r, tr. split; [reflexivity|].
  destruct (HasNewFrozenFiles_once_per_integrated_round _ _ _ _ _ _
              (BuildFacts.sample_wired false) E) as (H & _ & _).
  assert (r = Returns None) as Hr.
  { vm_compute in E. injection E as <- _. reflexivity. }
  apply H in Hr. unfold HasNewFrozenFiles in *.
  destruct (needSave_after tr false); [reflexivity|discriminate Hr].
Defined.
End FrozenFacts.

(** ** Unwinding *)

Module UnwindFacts.
Import Kv Unwind.

(** X10. [CanUnwindBeforeBlockNum] never returns an error, not even when the
    read of the lowest unwindable block fails. It refuses only block 0,
    and only when the domain files have progressed and the lowest
    unwindable block is above 0; any other block number comes back
    unchanged and allowed, however far the files have progressed. *)
Theorem CanUnwindBeforeBlockNum_refuses_only_block_zero {Tx : Type}
    (ReadLowestUnwindableBlock : Tx -> Z * option error)
    (ac : Prune.AggregatorRoTx) (blockNum : Z) (tx : Tx) :
  0 <= (ReadLowestUnwindableBlock tx).1 ->
  let '(n, ok, err) := CanUnwindBeforeBlockNum ReadLowestUnwindableBlock ac blockNum tx in
  err = None
  /\ (blockNum <> 0 -> n = blockNum /\ ok = true)
  /\ (ok = false <->
      blockNum = 0 /\ 0 < Prune.minimaxTxNumInDomainFiles ac
      /\ 0 < (ReadLowestUnwindableBlock tx).1)
  /\ (ok = false -> n = (ReadLowestUnwindableBlock tx).1).
Proof.
  intros Hmin. unfold CanUnwindBeforeBlockNum, CanUnwindDomainsToTxNum, CanUnwindToBlockNum.
  destruct (ReadLowestUnwindableBlock tx) as [m e] eqn:E. cbn [fst] in *.
  destruct (blockNum =? 0) eqn:Eb; cbn [andb].
  - apply Z.eqb_eq in Eb. subst blockNum.
    destruct (0 <? Prune.minimaxTxNumInDomainFiles ac) eqn:Ef.
    + apply Z.ltb_lt in Ef. split; [reflexivity|]. split; [intros H; contradiction|].
      split; [|intros _; reflexivity].
      rewrite Z.leb_gt. split; [intros H; auto|intros (_ & _ & H); exact H].
    + apply Z.ltb_ge in Ef. split; [reflexivity|]. split; [intros H; contradiction|].
      split; [|discriminate]. split; [discriminate|]. intros (_ & H & _). lia.
  - apply Z.eqb_neq in Eb. split; [reflexivity|]. split; [auto|].
    split; [|discriminate]. split; [discriminate|]. intros (H & _). contradiction.
Qed.

(** Files up to txNum 200 and a lowest unwindable block of 5: block 0 is
    refused, block 1 is let through. *)
Lemma CanUnwindBeforeBlockNum_refuses_only_block_zero_witness :
  CanUnwindBeforeBlockNum (fun _ : unit => (5, Some "read failed"))
    (Prune.BeginFilesRo Samples.prune_agg) 0 tt = (5, false, None)
  /\ CanUnwindBeforeBlockNum (fun _ : unit => (5, Some "read failed"))
       (Prune.BeginFilesRo Samples.prune_agg) 1 tt = (1, true, None).
Proof.
  pose proof (CanUnwindBeforeBlockNum_refuses_only_block_zero
                (fun _ : unit => (5, Some "read failed"))
                (Prune.BeginFilesRo Samples.prune_agg) 0 tt) as H0.
  pose proof (CanUnwindBeforeBlockNum_refuses_only_block_zero
                (fun _ : unit => (5, Some "read failed"))
                (Prune.BeginFilesRo Samples.prune_agg) 1 tt) as H1.
  destruct (CanUnwindBeforeBlockNum _ _ 0 tt) as [[n0 ok0] e0] eqn:E0.
  destruct (CanUnwindBeforeBlockNum _ _ 1 tt) as [[n1 ok1] e1] eqn:E1.
  destruct H0 as (-> & _ & Hok0 & Hn0); [cbn; lia|].
  destruct H1 as (-> & Hn1 & _); [cbn; lia|].
  destruct (Hn1 ltac:(lia)) as [-> ->].
  assert (ok0 = false) as -> by (apply Hok0; vm_compute; auto).
  rewrite (Hn0 eq_refl). split; reflexivity.
Defined.

(** The files of the Commitment domain can only hold the prune boundary
    back: the minimax txNum never exceeds the end of the three other
    domains' files, and equals it unless Commitment is behind. *)
Lemma minimax_le_EndTxNumNoCommitment (ac : Prune.AggregatorRoTx) :
  Prune.minimaxTxNumInDomainFiles ac
  = Z.min (EndTxNumNoCommitment ac)
          (Prune.files_EndTxNum (Prune.d ac CommitmentDomain)).
Proof. reflexivity. Qed.
End UnwindFacts.

(** ** Reads of an [AggregatorStep] *)

Module StepReadsFacts.
Import Kv StepReads.

Lemma fill_keyBuf_arr (kb : slice) (addr loc : bytes) :
  exists tail,
    arr (fill_keyBuf kb addr loc) = addr ++ loc ++ tail
    /\ len (fill_keyBuf kb addr loc) = (length addr + length loc)%nat
    /\ cap (fill_keyBuf kb addr loc)
       = (if bool_decide (cap kb < length addr + length loc)%nat
          then length addr + length loc else cap kb)%nat.
Proof.
  unfold fill_keyBuf.
  set (n := (length addr + length loc)%nat).
  set (kb1 := if bool_decide (cap kb < n)%nat then make n
              else if bool_decide (len kb <> n) then {| arr := arr kb; len := n |}
              else kb).
  assert (len kb1 = n /\ (n <= length (arr kb1))%nat
          /\ length (arr kb1) = (if bool_decide (cap kb < n)%nat then n else cap kb))
    as (Hlen & Hcap & Hcap').
  { unfold kb1, cap. case_bool_decide as H1.
    - cbn. rewrite length_replicate. auto.
    - case_bool_decide as H2; cbn; [unfold cap in H1; lia|].
      unfold cap in H1. split; [|lia]. destruct (decide (len kb = n)); [assumption|].
      contradiction. }
  unfold copy_from. cbn [arr len]. rewrite Hlen.
  rewrite Nat.sub_0_r.
  replace (n `min` length addr)%nat with (length addr) by (unfold n; lia).
  rewrite firstn_all, take_0, app_nil_l, Nat.add_0_l.
  replace ((n - length addr) `min` length loc)%nat with (length loc)
    by (unfold n; lia).
  rewrite firstn_all.
  rewrite take_app_length.
  exists (drop (length addr + length loc)
               (addr ++ drop (length addr) (arr kb1))).
  split; [reflexivity|]. split; [reflexivity|].
  fold n. rewrite <- Hcap'. unfold cap at 1. cbn [arr].
  rewrite !length_app, !length_drop, length_app, length_drop.
  unfold n in Hcap. lia.
Qed.

(** X11. Whatever the key buffer held before, long or short or nil,
    [ReadAccountStorageNoState] and [MaxTxNumStorage] look the storage
    history up under the key [addr ++ loc], and leave the buffer holding
    that key; the buffer is reallocated only when its capacity is too
    small, and its capacity never shrinks. *)
Theorem storage_reads_use_addr_and_loc {HistoryStep : Type}
    (GetNoState : HistoryStep -> bytes -> Z -> option bytes * bool * Z)
    (MaxTxNum : HistoryStep -> bytes -> bool * Z)
    (st : AggregatorStep HistoryStep) (h : HistoryStep)
    (addr loc : bytes) (txNum : Z) :
  storage st = Some h ->
  let r := ReadAccountStorageNoState GetNoState st addr loc txNum in
  let m := MaxTxNumStorage MaxTxNum st addr loc in
  r.1 = Returns (GetNoState h (addr ++ loc) txNum)
  /\ m.1 = Returns (MaxTxNum h (addr ++ loc))
  /\ r.2 = m.2
  /\ contents (keyBuf r.2) = addr ++ loc
  /\ (cap (keyBuf st) <= cap (keyBuf r.2))%nat
  /\ ((length addr + length loc <= cap (keyBuf st))%nat ->
      cap (keyBuf r.2) = cap (keyBuf st)).
Proof.
  intros Hst. cbv zeta. unfold ReadAccountStorageNoState, MaxTxNumStorage.
  rewrite Hst. cbn [fst snd keyBuf set_keyBuf].
  destruct (fill_keyBuf_arr (keyBuf st) addr loc) as (tail & Harr & Hlen & Hcap).
  assert (contents (fill_keyBuf (keyBuf st) addr loc) = addr ++ loc) as Hc.
  { unfold contents. rewrite Harr, Hlen, app_assoc.
    rewrite <- length_app. apply take_app_length. }
  rewrite Hc. repeat split; try reflexivity.
  - rewrite Hcap. case_bool_decide; lia.
  - intros Hfit. rewrite Hcap. case_bool_decide; [lia|reflexivity].
Qed.

(** A buffer of capacity 4 that still holds an older, longer key. *)
Lemma storage_reads_use_addr_and_loc_witness :
  (ReadAccountStorageNoState (fun (h : unit) k _ => (Some k, true, 0))
     MoreSamples.dirty_step [x01] [x02; x03] 7).1
  = Returns (Some [x01; x02; x03], true, 0).
Proof.
  exact (proj1 (storage_reads_use_addr_and_loc
                  (fun (h : unit) k _ => (Some k, true, 0))
                  (fun _ _ => (false, 0))
                  MoreSamples.dirty_step tt [x01] [x02; x03] 7 eq_refl)).
Defined.

Section WithSteps.
Context {HistoryStep : Type}.
Implicit Types (a : Aggregator HistoryStep).

Lemma zip_steps_spec (accs sto co com : list HistoryStep) :
  forall i,
    (i + length accs <= length sto)%nat ->
    (i + length accs <= length co)%nat ->
    ((i + length accs <= length com)%nat ->
     exists steps,
       zip_steps HistoryStep i accs sto co com = Returns steps
       /\ length steps = length accs
       /\ forall j, (j < length accs)%nat ->
            steps !! j
            = Some {| accounts := accs !! j; storage := sto !! (i + j)%nat;
                      code := co !! (i + j)%nat; commitment := com !! (i + j)%nat;
                      keyBuf := nil_slice |})
    /\ (accs <> [] -> (length com < i + length accs)%nat ->
        exists msg, zip_steps HistoryStep i accs sto co com = Panics msg).
Proof.
  induction accs as [|acc rest IH]; intros i Hs Hc.
  - split.
    + intros _. exists []. split; [reflexivity|]. split; [reflexivity|].
      intros j Hj. cbn in Hj. lia.
    + intros H. contradiction.
  - cbn [length] in *. cbn [zip_steps].
    destruct (lookup_lt_is_Some_2 sto i) as (s & Es); [lia|].
    destruct (lookup_lt_is_Some_2 co i) as (c & Ec); [lia|].
    rewrite Es, Ec.
    destruct (IH (S i)) as [IHok IHbad]; [lia|lia|].
    split.
    + intros Hm.
      destruct (lookup_lt_is_Some_2 com i) as (m & Em); [lia|]. rewrite Em.
      destruct IHok as (steps & -> & Hlen & Hsteps); [lia|].
      eexists. split; [reflexivity|]. split; [cbn; rewrite Hlen; reflexivity|].
      intros [|j] Hj.
      * cbn. rewrite Nat.add_0_r, Es, Ec, Em. reflexivity.
      * cbn [lookup list_lookup]. cbn. rewrite Hsteps by lia.
        replace (S i + j)%nat with (i + S j)%nat by lia. reflexivity.
    + intros _ Hm.
      destruct (com !! i) as [m|] eqn:Em; [|eauto].
      apply lookup_lt_Some in Em.
      destruct IHbad as (msg & ->); [|lia|eauto].
      intros ->. cbn in Hm. lia.
Qed.

(** X12. [MakeSteps] asks the four domains for their steps up to the same
    bound, the end of the frozen files. If Accounts, Storage and Code do
    not hand back equally many steps, it returns an error and no steps.
    Otherwise step [j] of the result is made of the [j]-th step of each
    of the four domains; the number of Commitment steps is not checked:
    with fewer of them than Accounts steps [MakeSteps] panics. *)
Theorem MakeSteps_zips_or_fails a :
  let bound := EndTxNumDomainsFrozen a in
  let accs := d_MakeSteps a AccountsDomain bound in
  let sto := d_MakeSteps a StorageDomain bound in
  let co := d_MakeSteps a CodeDomain bound in
  let com := d_MakeSteps a CommitmentDomain bound in
  (~ (length accs = length sto /\ length sto = length co) ->
   exists e, MakeSteps a = Returns (None, Some e))
  /\ (length accs = length sto -> length sto = length co ->
      (length accs <= length com)%nat ->
      exists steps,
        MakeSteps a = Returns (Some steps, None)
        /\ length steps = length accs
        /\ forall j, (j < length accs)%nat ->
             steps !! j
             = Some {| accounts := accs !! j; storage := sto !! j;
                       code := co !! j; commitment := com !! j;
                       keyBuf := nil_slice |})
  /\ (length accs = length sto -> length sto = length co ->
      (length com < length accs)%nat ->
      exists msg, MakeSteps a = Panics msg).
Proof.
  cbv zeta. unfold MakeSteps.
  set (bound := EndTxNumDomainsFrozen a).
  set (accs := d_MakeSteps a AccountsDomain bound).
  set (sto := d_MakeSteps a StorageDomain bound).
  set (co := d_MakeSteps a CodeDomain bound).
  set (com := d_MakeSteps a CommitmentDomain bound).
  split; [|split].
  - intros Hne.
    destruct (negb (length accs =? length sto)%nat
              || negb (length sto =? length co)%nat) eqn:E; [eauto|].
    exfalso. apply Hne. apply orb_false_iff in E as [E1 E2].
    apply negb_false_iff in E1, E2. apply Nat.eqb_eq in E1, E2. auto.
  - intros H1 H2 H3.
    assert ((negb (length accs =? length sto)%nat
             || negb (length sto =? length co)%nat) = false) as ->
      by (rewrite H1, H2, !Nat.eqb_refl; reflexivity).
    destruct (zip_steps_spec accs sto co com 0) as [Hok _]; [cbn; lia|cbn; lia|].
    destruct Hok as (steps & -> & Hlen & Hsteps); [cbn; lia|].
    exists steps. split; [reflexivity|]. split; [exact Hlen|exact Hsteps].
  - intros H1 H2 H3.
    assert ((negb (length accs =? length sto)%nat
             || negb (length sto =? length co)%nat) = false) as ->
      by (rewrite H1, H2, !Nat.eqb_refl; reflexivity).
    destruct (zip_steps_spec accs sto co com 0) as [_ Hbad]; [cbn; lia|cbn; lia|].
    destruct Hbad as (msg & ->); [|cbn; lia|eauto].
    intros Hnil. rewrite Hnil in H3. cbn in H3. lia.
Qed.

(** A clone of a step has lost its Commitment history and starts with
    an empty key buffer. *)
Lemma Clone_drops_commitment (Clone_step : HistoryStep -> HistoryStep)
    (st : AggregatorStep HistoryStep) :
  commitment (Clone Clone_step st) = None
  /\ keyBuf (Clone Clone_step st) = nil_slice.
Proof. split; reflexivity. Qed.
End WithSteps.

(** Two steps in each of Accounts, Storage and Code, one in Commitment. *)
Lemma MakeSteps_zips_or_fails_witness :
  MakeSteps (MoreSamples.steps_agg 1) = Panics "index out of range"
  /\ exists steps, MakeSteps (MoreSamples.steps_agg 2) = Returns (Some steps, None)
                   /\ length steps = 2%nat.
Proof.
  destruct (MakeSteps_zips_or_fails (MoreSamples.steps_agg 1)) as (_ & _ & Hbad).
  destruct (MakeSteps_zips_or_fails (MoreSamples.steps_agg 2)) as (_ & Hok & _).
  split.
  - destruct Hbad as (msg & Hmsg); [reflexivity|reflexivity|cbn; lia|].
    rewrite Hmsg. vm_compute in Hmsg. injection Hmsg as <-. reflexivity.
  - destruct Hok as (steps & Hrun & Hlen & _); [reflexivity|reflexivity|cbn; lia|].
    exists steps. split; [exact Hrun|exact Hlen].
Defined.
End StepReadsFacts.

(** ** Byte-level helpers *)

Module ToolsFacts.
Import BigEndian Tools.

(** Big-endian digits in base 256. *)
Lemma byte_of_shift (v : Z) (k : Z) :
  0 <= k -> Z_of_byte (byte_of_Z (Z.shiftr v (8 * k))) = (v / 256 ^ k) mod 256.
Proof.
  intros Hk. rewrite BigEndianFacts.Z_of_byte_of_Z.
  change 255 with (Z.ones 8). rewrite Z.land_ones by lia.
  rewrite Z.shiftr_div_pow2 by lia.
  rewrite Z.pow_mul_r by lia. reflexivity.
Qed.

Lemma compare_digits (q1 r1 q2 r2 : Z) :
  0 <= r1 < 256 -> 0 <= r2 < 256 ->
  (256 * q1 + r1 ?= 256 * q2 + r2)
  = match q1 ?= q2 with Eq => r1 ?= r2 | c => c end.
Proof.
  intros H1 H2.
  destruct (Z.compare_spec q1 q2) as [->|Hlt|Hgt].
  - destruct (Z.compare_spec r1 r2); [apply Z.compare_eq_iff|apply Z.compare_lt_iff
                                      |apply Z.compare_gt_iff]; lia.
  - apply Z.compare_lt_iff. lia.
  - apply Z.compare_gt_iff. lia.
Qed.

Lemma split_digit (v : Z) (k : Z) :
  0 <= k -> v / 256 ^ k = 256 * (v / 256 ^ (k + 1)) + (v / 256 ^ k) mod 256.
Proof.
  intros Hk. rewrite Z.pow_add_r, Z.pow_1_r by lia.
  rewrite <- Z.div_div by lia.
  apply Z.div_mod. lia.
Qed.

(** X13. [u64tob] writes 8 bytes whose order as keys ([bytes.Compare]) is
    the order of the numbers: the encoding is order-preserving, and in
    particular injective. *)
Theorem u64tob_preserves_order (v1 v2 : Z) :
  0 <= v1 < U64.modulus -> 0 <= v2 < U64.modulus ->
  length (u64tob v1) = 8%nat
  /\ bytes_compare (u64tob v1) (u64tob v2) = (v1 ?= v2)
  /\ (u64tob v1 = u64tob v2 -> v1 = v2).
Proof.
  intros H1 H2.
  assert (bytes_compare (u64tob v1) (u64tob v2) = (v1 ?= v2)) as Hcmp.
  { unfold u64tob, PutUint64, bytes_compare.
    change 56 with (8 * 7). change 48 with (8 * 6). change 40 with (8 * 5).
    change 32 with (8 * 4). change 24 with (8 * 3). change 16 with (8 * 2).
    change (Z.shiftr v1 8) with (Z.shiftr v1 (8 * 1)).
    change (Z.shiftr v2 8) with (Z.shiftr v2 (8 * 1)).
    replace (byte_of_Z v1) with (byte_of_Z (Z.shiftr v1 (8 * 0)))
      by (rewrite Z.shiftr_0_r; reflexivity).
    replace (byte_of_Z v2) with (byte_of_Z (Z.shiftr v2 (8 * 0)))
      by (rewrite Z.shiftr_0_r; reflexivity).
    rewrite !byte_of_shift by lia.
    assert (forall v, 0 <= v < U64.modulus -> v / 256 ^ 8 = 0) as Htop.
    { intros v Hv. apply Z.div_small. unfold U64.modulus in Hv. lia. }
    assert (forall v k, 0 <= (v / 256 ^ k) mod 256 < 256) as Hd
      by (intros; apply Z.mod_pos_bound; lia).
    pose proof (fun v k => split_digit v k) as Hs.
    assert (forall k, 0 <= k ->
              (v1 / 256 ^ k ?= v2 / 256 ^ k)
              = match v1 / 256 ^ (k + 1) ?= v2 / 256 ^ (k + 1) with
                | Eq => (v1 / 256 ^ k) mod 256 ?= (v2 / 256 ^ k) mod 256
                | c => c
                end) as Hstep.
    { intros k Hk. rewrite (Hs v1 k Hk) at 1. rewrite (Hs v2 k Hk) at 1.
      apply compare_digits; apply Hd. }
    replace (v1 ?= v2) with (v1 / 256 ^ 0 ?= v2 / 256 ^ 0)
      by (rewrite Z.pow_0_r, !Z.div_1_r; reflexivity).
    rewrite (Hstep 0) by lia. change (0 + 1) with 1.
    rewrite (Hstep 1) by lia. change (1 + 1) with 2.
    rewrite (Hstep 2) by lia. change (2 + 1) with 3.
    rewrite (Hstep 3) by lia. change (3 + 1) with 4.
    rewrite (Hstep 4) by lia. change (4 + 1) with 5.
    rewrite (Hstep 5) by lia. change (5 + 1) with 6.
    rewrite (Hstep 6) by lia. change (6 + 1) with 7.
    rewrite (Hstep 7) by lia. change (7 + 1) with 8.
    rewrite (Htop v1 H1), (Htop v2 H2). cbn [Z.compare].
    repeat (match goal with
            | |- context [?a mod 256 ?= ?b mod 256] =>
                destruct (a mod 256 ?= b mod 256); try reflexivity
            end). }
  split; [reflexivity|]. split; [exact Hcmp|].
  intros Heq. rewrite Heq in Hcmp.
  assert (forall b, bytes_compare b b = Eq) as Hrefl.
  { induction b as [|x b IH]; [reflexivity|]. cbn. rewrite Z.compare_refl. exact IH. }
  rewrite Hrefl in Hcmp. symmetry in Hcmp. apply Z.compare_eq_iff in Hcmp. exact Hcmp.
Qed.

Lemma u64tob_preserves_order_witness :
  bytes_compare (u64tob 255) (u64tob 256) = Lt.
Proof.
  destruct (u64tob_preserves_order 255 256) as (_ & H & _);
    [unfold U64.modulus; lia|unfold U64.modulus; lia|].
  rewrite H. reflexivity.
Defined.

(** The two nibbles of a byte, high one first. *)
Lemma fill_nibbles_spec (str : bytes) : forall (i : nat) (nibbles : bytes),
  (2 * (i + length str) <= length nibbles)%nat ->
  fill_nibbles i str nibbles
  = take (2 * i) nibbles
    ++ flat_map (fun b => [byte_of_Z (Z_of_byte b / 16);
                           byte_of_Z (Z_of_byte b mod 16)]) str
    ++ drop (2 * (i + length str)) nibbles.
Proof.
  induction str as [|b rest IH]; intros i nibbles Hlen.
  - cbn [fill_nibbles flat_map length app].
    rewrite Nat.add_0_r, take_drop. reflexivity.
  - cbn [fill_nibbles flat_map length app] in *. unfold bytes in *.
    rewrite IH by (rewrite !length_insert; lia).
    replace (i * 2 + 1)%nat with (S (2 * i)) by lia.
    replace (i * 2)%nat with (2 * i)%nat by lia.
    replace (2 * S i)%nat with (S (S (2 * i))) by lia.
    replace (2 * (S i + length rest))%nat with (S (S (2 * (i + length rest)))) by lia.
    replace (2 * (i + S (length rest)))%nat with (S (S (2 * (i + length rest)))) by lia.
    set (h := byte_of_Z (Z_of_byte b / 16)).
    set (l := byte_of_Z (Z_of_byte b mod 16)).
    set (k := (2 * i)%nat) in *.
    assert (S k < length nibbles)%nat as Hk by lia.
    rewrite <- (take_drop k nibbles) at 1 2.
    destruct (drop k nibbles) as [|x0 [|x1 tl]] eqn:Hd.
    { apply (f_equal length) in Hd. rewrite length_drop in Hd. cbn in Hd. lia. }
    { apply (f_equal length) in Hd. rewrite length_drop in Hd. cbn in Hd. lia. }
    assert (length (take k nibbles) = k) as Htk by (rewrite length_take; lia).
    rewrite (insert_app_r_alt (take k nibbles) _ k) by lia.
    rewrite (insert_app_r_alt (take k nibbles) _ (S k)) by lia.
    rewrite Htk, Nat.sub_diag. replace (S k - k)%nat with 1%nat by lia.
    cbn [list_insert insert].
    assert (drop (S (S (2 * (i + length rest)))) nibbles
            = drop (2 * (i + length rest) - k) tl) as Hdrop.
    { replace (S (S (2 * (i + length rest))))
        with (k + S (S (2 * (i + length rest) - k)))%nat by lia.
      rewrite <- drop_drop, Hd. reflexivity. }
    rewrite Hdrop.
    replace (S (S k)) with (length (take k nibbles ++ [h; l])) at 1
      by (rewrite length_app, Htk; cbn; lia).
    replace (take k nibbles ++ h :: l :: tl)
      with ((take k nibbles ++ [h; l]) ++ tl) by (rewrite <- app_assoc; reflexivity).
    rewrite take_app_length.
    rewrite drop_app_ge by (rewrite length_app, Htk; cbn; lia).
    rewrite length_app, Htk. cbn [length].
    replace (S (S (2 * (i + length rest))) - (k + 2))%nat
      with (2 * (i + length rest) - k)%nat by lia.
    rewrite <- !app_assoc. reflexivity.
Qed.

Lemma keybytesToHex_flat (str : bytes) :
  keybytesToHex str
  = flat_map (fun b => [byte_of_Z (Z_of_byte b / 16);
                        byte_of_Z (Z_of_byte b mod 16)]) str ++ [x10].
Proof.
  unfold keybytesToHex, bytes.
  rewrite fill_nibbles_spec by (rewrite length_replicate; lia).
  cbn [Nat.mul take app Nat.add].
  rewrite take_0. cbn [app].
  set (f := flat_map _ str).
  assert (length f = (2 * length str)%nat) as Hf.
  { unfold f. clear. induction str as [|b r IH]; cbn [flat_map length app]; lia. }
  replace (length str * 2 + 1 - 1)%nat with (length f + 0)%nat by lia.
  rewrite insert_app_r.
  f_equal.
  rewrite drop_replicate.
  replace (length str * 2 + 1 - (length str + (length str + 0)))%nat with 1%nat by lia.
  reflexivity.
Qed.

Lemma nibble_byte (z : Z) : 0 <= z < 256 -> Z_of_byte (byte_of_Z z) = z.
Proof.
  intros Hz. rewrite BigEndianFacts.Z_of_byte_of_Z.
  change 255 with (Z.ones 8). rewrite Z.land_ones by lia.
  apply Z.mod_small. lia.
Qed.

Lemma Z_of_byte_inj (a b : byte) : Z_of_byte a = Z_of_byte b -> a = b.
Proof.
  intros H. revert H. destruct a, b; vm_compute; congruence.
Qed.

(** X14. [keybytesToHex] writes, for every byte of the key, its high and
    its low nibble, and ends with the terminator 16: the result has
    [2 * len + 1] entries, the entries [2i] and [2i+1] are below 16 and
    recombine to byte [i], and different keys get different results. *)
Theorem keybytesToHex_nibbles (str : bytes) :
  length (keybytesToHex str) = (2 * length str + 1)%nat
  /\ keybytesToHex str !! (2 * length str)%nat = Some x10
  /\ (forall (i : nat) (b : byte), str !! i = Some b ->
        exists h l : byte,
          keybytesToHex str !! (2 * i)%nat = Some h
          /\ keybytesToHex str !! (2 * i + 1)%nat = Some l
          /\ 0 <= Z_of_byte h < 16 /\ 0 <= Z_of_byte l < 16
          /\ 16 * Z_of_byte h + Z_of_byte l = Z_of_byte b)
  /\ (forall str' : bytes, keybytesToHex str = keybytesToHex str' -> str = str').
Proof.
  rewrite keybytesToHex_flat. unfold bytes.
  set (nib := fun b : byte => [byte_of_Z (Z_of_byte b / 16);
                               byte_of_Z (Z_of_byte b mod 16)]).
  assert (forall s, length (flat_map nib s) = (2 * length s)%nat) as Hlen.
  { induction s as [|b r IH]; cbn [flat_map length app nib]; lia. }
  split; [|split; [|split]].
  - rewrite length_app, Hlen. cbn. lia.
  - rewrite lookup_app_r by (rewrite Hlen; lia).
    rewrite Hlen, Nat.sub_diag. reflexivity.
  - intros i b Hi.
    pose proof (BigEndianFacts.Z_of_byte_range b) as Hb.
    exists (byte_of_Z (Z_of_byte b / 16)), (byte_of_Z (Z_of_byte b mod 16)).
    assert (0 <= Z_of_byte b / 16 < 16) as Hh
      by (split; [apply Z.div_pos; lia|apply Z.div_lt_upper_bound; lia]).
    assert (0 <= Z_of_byte b mod 16 < 16) as Hl by (apply Z.mod_pos_bound; lia).
    rewrite !nibble_byte by lia.
    assert (forall s j c, s !! j = Some c ->
              flat_map nib s !! (2 * j)%nat = Some (byte_of_Z (Z_of_byte c / 16))
              /\ flat_map nib s !! (2 * j + 1)%nat
                 = Some (byte_of_Z (Z_of_byte c mod 16))) as Hget.
    { induction s as [|x r IH]; intros j c Hj; [discriminate|].
      destruct j as [|j].
      - cbn in Hj. injection Hj as ->. split; reflexivity.
      - cbn in Hj. destruct (IH j c Hj) as [H1 H2].
        cbn [flat_map nib app].
        replace (2 * S j)%nat with (S (S (2 * j))) by lia.
        replace (S (S (2 * j)) + 1)%nat with (S (S (2 * j + 1))) by lia.
        split; assumption. }
    destruct (Hget str i b Hi) as [H1 H2].
    repeat split; try lia.
    + rewrite lookup_app_l by (rewrite Hlen; apply lookup_lt_Some in Hi; lia).
      exact H1.
    + rewrite lookup_app_l by (rewrite Hlen; apply lookup_lt_Some in Hi; lia).
      exact H2.
    + pose proof (Z.div_mod (Z_of_byte b) 16). lia.
  - intros str' Heq. rewrite keybytesToHex_flat in Heq. unfold bytes in *.
    fold nib in Heq.
    apply app_inj_tail in Heq as [Heq _].
    revert str' Heq. induction str as [|b r IH]; intros [|b' r'] Heq.
    + reflexivity.
    + discriminate.
    + discriminate.
    + cbn [flat_map nib app] in Heq.
      injection Heq as Hh Hl Hrest.
      f_equal; [|apply IH; exact Hrest].
      apply Z_of_byte_inj.
      pose proof (BigEndianFacts.Z_of_byte_range b) as Hb.
      pose proof (BigEndianFacts.Z_of_byte_range b') as Hb'.
      apply (f_equal Z_of_byte) in Hh, Hl.
      rewrite !nibble_byte in Hh, Hl;
        try (apply Z.mod_pos_bound; lia);
        try (split; [apply Z.div_pos; lia|apply Z.div_lt_upper_bound; lia]);
        try (pose proof (Z.mod_pos_bound (Z_of_byte b) 16);
             pose proof (Z.mod_pos_bound (Z_of_byte b') 16); lia).
      pose proof (Z.div_mod (Z_of_byte b) 16).
      pose proof (Z.div_mod (Z_of_byte b') 16). lia.
Qed.

(** X15. [getBlockTotal]: a positive argument is the number of blocks.
    Otherwise it is an offset from the head block: when the database
    has a head and the block [head + offset] lies after [blockFrom],
    the result counts the blocks from [blockFrom] to that block;
    in every other case the result is 1. *)
Theorem getBlockTotal_counts_to_offset_from_head
  (head : option Z) (blockFrom off : Z) :
  0 <= blockFrom < U64.modulus ->
  - 2 ^ 63 <= off < 2 ^ 63 ->
  (forall h, head = Some h -> 0 <= h < U64.modulus) ->
  (0 < off -> getBlockTotal head blockFrom off = off)
  /\ (off <= 0 ->
      (exists h, head = Some h /\ blockFrom < h + off
                 /\ getBlockTotal head blockFrom off
                    = U64.wrap (h + off - blockFrom + 1))
      \/ ((forall h, head = Some h -> h + off <= blockFrom)
          /\ getBlockTotal head blockFrom off = 1)).
Proof.
  intros Hf Ho Hh. unfold getBlockTotal. split.
  - intros Hpos. destruct (Z.ltb_spec 0 off); [reflexivity|lia].
  - intros Hnp. destruct (Z.ltb_spec 0 off); [lia|].
    destruct head as [h|]; [|right; split; [discriminate|reflexivity]].
    specialize (Hh h eq_refl).
    assert (U64.wrap (- off) = - off) as Hw
      by (unfold U64.wrap; apply Z.mod_small; unfold U64.modulus in *; lia).
    rewrite Hw.
    destruct (Z.leb_spec (- off) h) as [Hle|Hgt].
    + assert (U64.sub h (- off) = h + off) as Hs
        by (unfold U64.sub, U64.wrap; replace (h - - off) with (h + off) by lia;
            apply Z.mod_small; unfold U64.modulus in *; lia).
      rewrite Hs.
      destruct (Z.ltb_spec blockFrom (h + off)) as [Hlt|Hge].
      * left. exists h. split; [reflexivity|]. split; [exact Hlt|].
        unfold U64.add, U64.sub.
        assert (U64.wrap (h + off - blockFrom) = h + off - blockFrom) as ->
          by (unfold U64.wrap; apply Z.mod_small; unfold U64.modulus in *; lia).
        reflexivity.
      * right. split; [|reflexivity]. intros h' [= <-]. exact Hge.
    + right. split; [|reflexivity]. intros h' [= <-]. lia.
Qed.

Lemma getBlockTotal_counts_to_offset_from_head_witness :
  getBlockTotal (Some 100) 50 (-10) = 41.
Proof.
  destruct (getBlockTotal_counts_to_offset_from_head (Some 100) 50 (-10))
    as [_ H].
  - unfold U64.modulus. lia.
  - lia.
  - intros h [= <-]. unfold U64.modulus. lia.
  - destruct H as [(h & [= <-] & _ & ->)|[Hno _]]; [lia|reflexivity|].
    specialize (Hno 100 eq_refl). lia.
Defined.
End ToolsFacts.

(** ** [AggregatorPruneStat] *)

Module PruneStatFacts.
Import Prune PruneStat.

Lemma none_pruned_spec (nothing : Stat -> bool) (l : list (string * option Stat)) :
  none_pruned nothing l = true
  <-> forall k v, (k, v) ∈ l -> pruned_something nothing v = false.
Proof.
  induction l as [|[k v] l IH]; cbn [none_pruned].
  - split; [intros _ k v H; inversion H|reflexivity].
  - destruct (pruned_something nothing v) eqn:Hv.
    + split; [discriminate|]. intros H.
      rewrite (H k v) in Hv by left. discriminate.
    + rewrite IH. split.
      * intros H k' v' Hin. apply elem_of_cons in Hin as [[= -> ->]|Hin];
          [exact Hv|exact (H _ _ Hin)].
      * intros H k' v' Hin. apply (H k' v'). right. exact Hin.
Qed.

Lemma none_pruned_false (nothing : Stat -> bool) (l : list (string * option Stat)) :
  none_pruned nothing l = false ->
  exists k v, (k, v) ∈ l /\ pruned_something nothing v = true.
Proof.
  induction l as [|[k v] l IH]; cbn [none_pruned]; [discriminate|].
  destruct (pruned_something nothing v) eqn:Hv.
  - intros _. exists k, v. split; [left|exact Hv].
  - intros H. destruct (IH H) as (k' & v' & Hin & Hp).
    exists k', v'. split; [right; exact Hin|exact Hp].
Qed.

(** The builder only grows, and it grows exactly when a name of the
    list has an entry that pruned something. *)
Lemma write_stats_grows (nothing : Stat -> bool) (str : Stat -> string)
    (m : gmap string (option Stat)) (names : list string) : forall sb : string,
  (String.length sb <= String.length (write_stats nothing str m names sb))%nat
  /\ ((forall d v, d ∈ names -> m !! d = Some v -> pruned_something nothing v = false)
      -> write_stats nothing str m names sb = sb)
  /\ ((exists d v, d ∈ names /\ m !! d = Some v /\ pruned_something nothing v = true)
      -> (String.length sb + 4 <= String.length (write_stats nothing str m names sb))%nat).
Proof.
  induction names as [|d rest IH]; intros sb; cbn [write_stats].
  - split; [lia|]. split; [reflexivity|].
    intros (d & v & Hin & _). inversion Hin.
  - set (sb' := match m !! d with
                | Some (Some v) =>
                    if negb (nothing v) then sb +:+ (d +:+ "| " +:+ str v +:+ "; ")
                    else sb
                | _ => sb
                end).
    destruct (IH sb') as (Hlen & Hsame & Hmore).
    assert (String.length sb <= String.length sb')%nat as Hsb.
    { unfold sb'. destruct (m !! d) as [[v|]|]; try lia.
      destruct (negb (nothing v)); [rewrite TextFacts.append_length|]; lia. }
    assert (forall v, m !! d = Some v -> pruned_something nothing v = true ->
              (String.length sb + 4 <= String.length sb')%nat) as Hhere.
    { intros v Hv Hp. unfold sb'. rewrite Hv.
      destruct v as [st|]; [|discriminate]. cbn in Hp. rewrite Hp.
      rewrite !TextFacts.append_length. cbn [String.length]. lia. }
    split; [lia|]. split.
    + intros Hnone. rewrite Hsame.
      * unfold sb'. destruct (m !! d) as [[v|]|] eqn:Hd; try reflexivity.
        assert (d ∈ d :: rest) as Hin by left.
        pose proof (Hnone d (Some v) Hin Hd) as Hp.
        cbn in Hp. rewrite Hp. reflexivity.
      * intros d' v Hin. apply Hnone. right. exact Hin.
    + intros (d' & v & Hin & Hv & Hp).
      apply elem_of_cons in Hin as [->|Hin].
      * specialize (Hhere v Hv Hp). lia.
      * assert (String.length sb' + 4
                <= String.length (write_stats nothing str m rest sb'))%nat
          by (apply Hmore; eauto).
        lia.
Qed.

Lemma sorted_names_keys (m : gmap string (option Stat)) (d : string) :
  d ∈ sorted_names m <-> exists v, m !! d = Some v.
Proof.
  unfold sorted_names. rewrite merge_sort_Permutation.
  rewrite list_elem_of_fmap. split.
  - intros ([k v] & -> & Hin). exists v. apply elem_of_map_to_list in Hin. exact Hin.
  - intros (v & Hv). exists (d, v). split; [reflexivity|].
    apply elem_of_map_to_list. exact Hv.
Qed.

Section WithStats.
Variable d_PrunedNothing : Stat -> bool.
Variable d_String : Stat -> string.
Variable ii_PrunedNothing : Stat -> bool.
Variable ii_String : Stat -> string.

(** X16. The text of a prune statistic is empty exactly when nothing was
    pruned: [String()] writes one part for every domain and every index
    whose entry is non-nil and pruned something, and [PrunedNothing()]
    is true when there is no such entry, in whatever order the maps are
    iterated. A nil statistic prints as the empty text. *)
Theorem String_empty_iff_PrunedNothing (as_ : AggregatorPruneStat)
    (ds ixs : list (string * option Stat)) :
  ds ≡ₚ map_to_list (Domains_ as_) ->
  ixs ≡ₚ map_to_list (Indices as_) ->
  (String_ d_PrunedNothing d_String ii_PrunedNothing ii_String (Some as_) = ""
   <-> PrunedNothing_in d_PrunedNothing ii_PrunedNothing ds ixs = true)
  /\ PrunedNothing_in d_PrunedNothing ii_PrunedNothing ds ixs
     = PrunedNothing d_PrunedNothing ii_PrunedNothing as_
  /\ String_ d_PrunedNothing d_String ii_PrunedNothing ii_String None = "".
Proof.
  intros Hds His.
  assert (forall nothing (l : list (string * option Stat)) m,
            l ≡ₚ map_to_list m ->
            (none_pruned nothing l = true
             <-> forall d v, m !! d = Some v -> pruned_something nothing v = false))
    as Hmap.
  { intros nothing l m Hl. rewrite none_pruned_spec. split.
    - intros H d v Hv. apply (H d v). rewrite Hl. apply elem_of_map_to_list. exact Hv.
    - intros H d v Hin. rewrite Hl in Hin. apply elem_of_map_to_list in Hin.
      exact (H d v Hin). }
  assert (forall nothing l m, l ≡ₚ map_to_list m ->
            none_pruned nothing l = none_pruned nothing (map_to_list m)) as Horder.
  { intros nothing l m Hl.
    pose proof (Hmap nothing l m Hl) as A.
    pose proof (Hmap nothing (map_to_list m) m (reflexivity _)) as B.
    destruct (none_pruned nothing l), (none_pruned nothing (map_to_list m));
      try reflexivity.
    - symmetry. apply B, A. reflexivity.
    - apply A, B. reflexivity. }
  split; [|split; [|reflexivity]].
  2:{ unfold PrunedNothing, PrunedNothing_in.
      rewrite (Horder _ ds _ Hds), (Horder _ ixs _ His). reflexivity. }
  unfold String_, PrunedNothing_in.
  set (sb1 := write_stats d_PrunedNothing d_String (Domains_ as_)
                (sorted_names (Domains_ as_)) "").
  set (sb2 := write_stats ii_PrunedNothing ii_String (Indices as_)
                (sorted_names (Indices as_)) sb1).
  destruct (write_stats_grows d_PrunedNothing d_String (Domains_ as_)
              (sorted_names (Domains_ as_)) "") as (_ & Hsame1 & Hmore1).
  destruct (write_stats_grows ii_PrunedNothing ii_String (Indices as_)
              (sorted_names (Indices as_)) sb1) as (Hlen2 & Hsame2 & Hmore2).
  fold sb1 in Hsame1, Hmore1. fold sb2 in Hlen2, Hsame2, Hmore2.
  assert (forall s, (4 <= String.length s)%nat -> Squeeze.TrimSuffix s "; " <> "") as Hne.
  { intros s Hs Heq. pose proof (TextFacts.TrimSuffix_length s "; ") as Hl.
    rewrite Heq in Hl. cbn in Hl. lia. }
  destruct (none_pruned d_PrunedNothing ds) eqn:Hd.
  - pose proof (proj1 (Hmap _ _ _ Hds) Hd) as Hd'.
    assert (sb1 = "") as Hsb1 by (apply Hsame1; intros d v _ Hv; exact (Hd' d v Hv)).
    destruct (none_pruned ii_PrunedNothing ixs) eqn:Hi.
    + pose proof (proj1 (Hmap _ _ _ His) Hi) as Hi'.
      rewrite Hsame2 by (intros d v _ Hv; exact (Hi' d v Hv)).
      rewrite Hsb1. split; reflexivity.
    + split; [|discriminate]. intros Heq. exfalso.
      destruct (none_pruned_false _ _ Hi) as (d & v & Hin & Hp).
      rewrite His in Hin. apply elem_of_map_to_list in Hin.
      apply (Hne sb2); [|exact Heq].
      assert (String.length sb1 + 4 <= String.length sb2)%nat; [|lia].
      apply Hmore2. exists d, v. split; [|split; assumption].
      apply sorted_names_keys. eauto.
  - split; [|discriminate]. intros Heq. exfalso.
    destruct (none_pruned_false _ _ Hd) as (d & v & Hin & Hp).
    rewrite Hds in Hin. apply elem_of_map_to_list in Hin.
    apply (Hne sb2); [|exact Heq].
    assert (4 <= String.length sb1)%nat; [|lia].
    change 4%nat with (String.length "" + 4)%nat.
    apply Hmore1. exists d, v. split; [|split; assumption].
    apply sorted_names_keys. eauto.
Qed.
End WithStats.

Lemma String_empty_iff_PrunedNothing_witness :
  PrunedNothing (fun n => n =? 0) (fun n => n =? 0) MoreSamples.pruned_stat = false
  /\ String_ (fun n => n =? 0) Filepath.fmt_d (fun n => n =? 0) Filepath.fmt_d
       (Some MoreSamples.pruned_stat) = "accounts| 3; logaddrs| 7".
Proof.
  destruct (String_empty_iff_PrunedNothing
              (fun n => n =? 0) Filepath.fmt_d (fun n => n =? 0) Filepath.fmt_d
              MoreSamples.pruned_stat
              (map_to_list (Domains_ MoreSamples.pruned_stat))
              (map_to_list (Indices MoreSamples.pruned_stat)))
    as (Hiff & Hsame & _); [reflexivity|reflexivity|].
  split; [|vm_compute; reflexivity].
  rewrite <- Hsame.
  destruct (PrunedNothing_in _ _ _ _); [|reflexivity].
  destruct Hiff as [_ Hempty]. specialize (Hempty eq_refl).
  vm_compute in Hempty. discriminate Hempty.
Defined.
End PruneStatFacts.

(** ** [MergeLoop] *)

Module MergeLoopFacts.
Import Kv MergeLoop.

Lemma merge_count_app (e : event) (a b : list event) :
  count e (a ++ b) = (count e a + count e b)%nat.
Proof. unfold count. rewrite list.filter_app, length_app. reflexivity. Qed.

(** An event that none of the slots produces does not occur among them. *)
Lemma count_slots (e : event) (f : nat -> event) (ids : list nat) :
  (forall id, f id <> e) -> count e (f <$> ids) = 0%nat.
Proof.
  intros Hne. unfold count. induction ids as [|id ids IH]; [reflexivity|].
  cbn [fmap list_fmap]. rewrite filter_cons_False by apply Hne. exact IH.
Qed.

Lemma stored_app (a b : list event) : stored (a ++ b) = stored a ++ stored b.
Proof. apply omap_app. Qed.

Lemma stored_slots (f : nat -> event) (ids : list nat) :
  (forall id v, f id <> EvStoreMinimax v) -> stored (f <$> ids) = [].
Proof.
  intros Hne. unfold stored. induction ids as [|id ids IH]; [reflexivity|].
  cbn [fmap list_fmap omap list_omap].
  destruct (f id) eqn:E; try exact IH. destruct (Hne id v). exact E.
Qed.

Section WithLoop.
Variable StepsInColdFile : Z.
Variable aggregationStep : Z.
Variable AppendableLen : nat.

Local Abbreviation step := (mergeLoopStep StepsInColdFile aggregationStep AppendableLen).
Local Abbreviation loop := (MergeLoop.MergeLoop StepsInColdFile aggregationStep AppendableLen).

(** A step that merges: the files of every domain and index are
    integrated once, the flag is raised twice, the minimax is stored
    once, three views are opened and closed, nothing else is closed. *)
Lemma mergeLoopStep_merges (t : attempt) :
  merges t = true ->
  exists tr, step t = (tr, Returns (true, None))
    /\ (forall id, count (EvIntegrateMergedDomain id) tr = 1%nat)
    /\ (forall pos, count (EvIntegrateMergedIndex pos) tr = 1%nat)
    /\ count EvNeedSave tr = 2%nat
    /\ stored tr = [minimax_after t]
    /\ count EvBeginFilesRo tr = 3%nat /\ count EvViewClose tr = 3%nat
    /\ count EvOutsClose tr = 0%nat /\ count EvInClose tr = 0%nat.
Proof.
  unfold merges, MergeLoop.mergeLoopStep, MergeLoop.mergeFiles.
  destruct (any (found t)) as [[|]|msg]; try discriminate.
  destruct (outs_err t); try discriminate.
  destruct (merge_err t); try discriminate.
  intros _. eexists. split; [reflexivity|].
  unfold integrateMergedDirtyFiles, cleanAfterMerge, recalcVisibleFiles,
    recalcVisibleFilesMinimaxTxNum.
  repeat split; try intros x;
    rewrite ?stored_app, ?merge_count_app;
    rewrite ?count_slots by discriminate;
    rewrite ?stored_slots by discriminate;
    try (destruct x); reflexivity.
Qed.

(** A step that does not merge: one view, opened and closed; the
    selected files are closed when [staticFilesInRange] or [mergeFiles]
    fails, and the merged files, by [mergeFiles], when it fails. *)
Lemma mergeLoopStep_stops (t : attempt) :
  merges t = false ->
  exists tr r,
    step t = (tr, r)
    /\ r <> Returns (true, None)
    /\ (r = Returns (false, None) <-> any (found t) = Returns false)
    /\ (forall sd err, r = Returns (sd, Some err)
          <-> any (found t) = Returns true
              /\ ((sd = false /\ outs_err t = Some err)
                  \/ (sd = true /\ outs_err t = None /\ merge_err t = Some err)))
    /\ (forall id, count (EvIntegrateMergedDomain id) tr = 0%nat)
    /\ (forall pos, count (EvIntegrateMergedIndex pos) tr = 0%nat)
    /\ count EvNeedSave tr = 0%nat
    /\ stored tr = []
    /\ count EvBeginFilesRo tr = 1%nat /\ count EvViewClose tr = 1%nat
    /\ count EvOutsClose tr
       = (match r with Returns (_, Some _) => 1 | _ => 0 end)%nat
    /\ count EvInClose tr
       = (match r with Returns (true, Some _) => 1 | _ => 0 end)%nat.
Proof.
  unfold merges, MergeLoop.mergeLoopStep, MergeLoop.mergeFiles.
  destruct (any (found t)) as [[|]|msg] eqn:Hany.
  - destruct (outs_err t) as [e|] eqn:Ho.
    + intros _. eexists _, _. split; [reflexivity|].
      split; [discriminate|]. split; [split; discriminate|].
      split; [|repeat split; reflexivity].
      intros sd err. split.
      * intros [= <- <-]. split; [reflexivity|]. left. split; reflexivity.
      * intros [_ [[-> [= ->]]|[_ [[=] _]]]]. reflexivity.
    + destruct (merge_err t) as [e|] eqn:Hm; [|discriminate].
      intros _. eexists _, _. split; [reflexivity|].
      split; [discriminate|]. split; [split; discriminate|].
      split; [|repeat split; reflexivity].
      intros sd err. split.
      * intros [= <- <-]. split; [reflexivity|]. right. repeat split; reflexivity.
      * intros [_ [[_ [=]]|[-> [_ [= ->]]]]]. reflexivity.
  - intros _. eexists _, _. split; [reflexivity|].
    split; [discriminate|]. split; [split; reflexivity|].
    split; [|repeat split; reflexivity].
    intros sd err. split; [discriminate|]. intros [[=] _].
  - intros _. eexists _, _. split; [reflexivity|].
    split; [discriminate|]. split; [split; discriminate|].
    split; [|repeat split; reflexivity].
    intros sd err. split; [discriminate|]. intros [[=] _].
Qed.

(** X17. [MergeLoop] merges step after step and stops at the first step
    that finds nothing to merge, fails or panics. It returns nil in the
    first case and the error of [staticFilesInRange] or of [mergeFiles]
    in the second. Up to there every step that merged has integrated
    the merged files of every domain and index once, raised
    [needSaveFilesListInDB] twice (in [integrateMergedDirtyFiles] and in
    [mergeLoopStep] itself) and stored the new minimax txNum once; each
    such step opened three views and the last step one, and all of them
    are closed; the files selected for a merge are closed only by a
    step that failed, and the merged files only when [mergeFiles]
    failed, by [mergeFiles] itself. *)
Theorem MergeLoop_stops_at_first_idle_or_failed_step
    (done rest : list attempt) (t : attempt) :
  Forall (fun d => merges d = true) done ->
  merges t = false ->
  exists tr r,
    loop (done ++ t :: rest) = (tr, Some r)
    /\ (r = Returns None <-> any (found t) = Returns false)
    /\ (forall err, r = Returns (Some err)
          <-> any (found t) = Returns true
              /\ (outs_err t = Some err
                  \/ (outs_err t = None /\ merge_err t = Some err)))
    /\ (forall id, count (EvIntegrateMergedDomain id) tr = length done)
    /\ (forall pos, count (EvIntegrateMergedIndex pos) tr = length done)
    /\ count EvNeedSave tr = (2 * length done)%nat
    /\ stored tr = minimax_after <$> done
    /\ count EvBeginFilesRo tr = (3 * length done + 1)%nat
    /\ count EvViewClose tr = (3 * length done + 1)%nat
    /\ count EvOutsClose tr = (match r with Returns (Some _) => 1 | _ => 0 end)%nat
    /\ (count EvInClose tr <= 1)%nat
    /\ (count EvInClose tr = 1%nat
        <-> any (found t) = Returns true /\ outs_err t = None /\ merge_err t <> None).
Proof.
  intros Hdone Ht. induction Hdone as [|d done Hd Hdone IH].
  - cbn [app MergeLoop.MergeLoop length fmap list_fmap].
    destruct (mergeLoopStep_stops t Ht)
      as (tr & r & Hstep & Hne & Hnil & Herr & H1 & H2 & H3 & H4 & H5 & H6 & H7 & H8).
    rewrite Hstep.
    assert (forall sd, r = Returns (sd, None) -> sd = false) as Hsd.
    { intros [|] ->; [destruct Hne|]; reflexivity. }
    assert ((count EvInClose tr <= 1)%nat
            /\ (count EvInClose tr = 1%nat
                <-> any (found t) = Returns true /\ outs_err t = None
                    /\ merge_err t <> None)) as Hin.
    { rewrite H8.
      assert (any (found t) = Returns true /\ outs_err t = None /\ merge_err t <> None
              <-> exists e, r = Returns (true, Some e)) as ->.
      { split.
        - intros (Ha & Ho & Hm). destruct (merge_err t) as [e|] eqn:Em;
            [|destruct Hm; reflexivity].
          exists e. apply Herr. split; [exact Ha|]. right. auto.
        - intros (e & ->).
          destruct (proj1 (Herr true e) eq_refl) as (Ha & [[[=] _]|(_ & Ho & Hm)]).
          rewrite Hm. repeat split; auto. }
      destruct r as [[[|] [e|]]|msg]; (split; [lia|]); split;
        try discriminate; try (intros (e' & [=])); eauto. }
    destruct r as [[sd [e|]]|msg].
    + exists tr, (Returns (Some e)). split; [destruct sd; reflexivity|].
      split; [split; [discriminate|]|].
      { intros Ha. apply Hnil in Ha. discriminate. }
      split.
      { intros err. split.
        - intros [= <-]. destruct (proj1 (Herr sd e) eq_refl) as (Ha & Hc).
          split; [exact Ha|]. destruct Hc as [[_ Ho]|(_ & Ho & Hm)]; auto.
        - intros (Ha & Hc). f_equal. f_equal.
          destruct (proj1 (Herr sd e) eq_refl) as (_ & Hc').
          destruct Hc as [Ho|[Ho Hm]], Hc' as [[_ Ho']|(_ & Ho' & Hm')]; congruence. }
      repeat (split; [assumption|]); exact Hin.
    + pose proof (Hsd sd eq_refl) as ->.
      eexists _, _. split; [reflexivity|].
      split; [split; [intros _; apply Hnil; reflexivity|reflexivity]|].
      split.
      { intros err. split; [discriminate|]. intros (Ha & _).
        rewrite (proj1 Hnil eq_refl) in Ha. discriminate. }
      repeat (split; [assumption|]); exact Hin.
    + eexists _, _. split; [reflexivity|].
      split; [split; [discriminate|]|].
      { intros Ha. apply Hnil in Ha. discriminate. }
      split.
      { intros err. split; [discriminate|]. intros (Ha & Hc).
        destruct Hc as [Ho|[Ho Hm]].
        - specialize (proj2 (Herr false err)) as H. discriminate H. auto.
        - specialize (proj2 (Herr true err)) as H. discriminate H. auto. }
      repeat (split; [assumption|]); exact Hin.
  - destruct IH as (tr' & r & Hloop & Hnil & Herr & H1 & H2 & H3 & H4 & H5 & H6 & H7 & H8 & H9).
    destruct (mergeLoopStep_merges d Hd)
      as (tr & Hstep & G1 & G2 & G3 & G4 & G5 & G6 & G7 & G8).
    exists (tr ++ tr'), r.
    cbn [app MergeLoop.MergeLoop length fmap list_fmap]. rewrite Hstep, Hloop.
    split; [reflexivity|]. split; [exact Hnil|]. split; [exact Herr|].
    rewrite stored_app, !merge_count_app, G3, G4, G5, G6, G7, G8, H3, H4, H5, H6, H7.
    split; [intros id; rewrite merge_count_app, G1, H1; reflexivity|].
    split; [intros pos; rewrite merge_count_app, G2, H2; reflexivity|].
    split; [lia|]. split; [reflexivity|]. split; [lia|]. split; [lia|].
    split; [reflexivity|]. exact (conj H8 H9).
Qed.
End WithLoop.

(** Two steps merge, the third one fails in [mergeFiles]. *)
Lemma MergeLoop_stops_at_first_idle_or_failed_step_witness :
  exists tr,
    MergeLoop.MergeLoop 64 16 1
      [MoreSamples.merging_attempt; MoreSamples.merging_attempt;
       MoreSamples.failing_attempt; MoreSamples.merging_attempt]
    = (tr, Some (Returns (Some "context canceled")))
    /\ count EvNeedSave tr = 4%nat
    /\ stored tr = [32; 32]
    /\ count EvViewClose tr = 7%nat
    /\ count EvOutsClose tr = 1%nat
    /\ count EvInClose tr = 1%nat.
Proof.
  destruct (MergeLoop_stops_at_first_idle_or_failed_step 64 16 1
              [MoreSamples.merging_attempt; MoreSamples.merging_attempt]
              [MoreSamples.merging_attempt] MoreSamples.failing_attempt)
    as (tr & r & Hloop & _ & Herr & _ & _ & H3 & H4 & _ & H6 & H7 & _ & H9).
  - repeat constructor.
  - reflexivity.
  - assert (r = Returns (Some "context canceled")) as ->.
    { apply Herr. split; [reflexivity|]. right. split; reflexivity. }
    exists tr. repeat split; try assumption.
    apply H9. split; [reflexivity|]. split; [reflexivity|discriminate].
Defined.
End MergeLoopFacts.

(** ** [BuildFilesInBackground] *)

Module BuildLoopFacts.
Import BuildLoop.

Lemma bg_count_app (e : event) (a b : list event) :
  count e (a ++ b) = (count e a + count e b)%nat.
Proof. unfold count. rewrite list.filter_app, length_app. reflexivity. Qed.

Lemma bg_count_cons (e x : event) (tr : list event) :
  count e (x :: tr) = ((if decide (x = e) then 1 else 0) + count e tr)%nat.
Proof.
  unfold count. rewrite filter_cons. destruct (decide (x = e)); reflexivity.
Qed.

Lemma build_steps_events (E : Env) (ids : list Z) : forall step tr stopped,
  build_steps E step ids = Some (tr, stopped) -> Forall of_loop tr.
Proof.
  induction ids as [|last ids IH]; intros step tr stopped; cbn [build_steps];
    [discriminate|].
  destruct (step <? last); [|intros [= <- <-]; constructor].
  destruct (buildFiles_err E step) as [err|].
  - destruct (is_stop E err); intros [= <- <-]; repeat constructor.
  - destruct (build_steps E (U64.add step 1) ids) as [[tr' st']|] eqn:Hrec;
      [|discriminate].
    intros [= <- <-]. constructor; [exact I|]. exact (IH _ _ _ Hrec).
Qed.

Lemma count_outside_loop (e : event) (tr : list event) :
  Forall of_loop tr -> ~ of_loop e -> count e tr = 0%nat.
Proof.
  intros Htr He. unfold count.
  induction Htr as [|x tr Hx Htr IH]; [reflexivity|].
  rewrite filter_cons. destruct (decide (x = e)) as [->|_]; [contradiction|exact IH].
Qed.

Ltac tally :=
  match goal with
  | Hb : Some _ = Some _ |- _ => injection Hb as <- <-
  end;
  cbn [default from_option]; unfold id; rewrite ?app_nil_r;
  repeat split;
  repeat first [rewrite bg_count_app|rewrite bg_count_cons];
  repeat match goal with
         | H : count _ _ = 0%nat |- _ => rewrite H
         | H : forall e, count e (merger _) = _ |- _ => rewrite H
         end;
  repeat first [rewrite bg_count_app|rewrite bg_count_cons];
  repeat match goal with
         | H : forall e, _ -> _ -> count e _ = 0%nat |- _ => rewrite H by discriminate
         end;
  reflexivity.

(** X18. The channel [BuildFilesInBackground] returns is closed exactly once
    when the work it sets off is over, with one exception: when the
    build goroutine fails to acquire the semaphore, nobody closes it.
    Whatever happens, [buildingFiles] and [mergingFiles] go back to
    false as often as they were raised, every [wg.Add] has its
    [wg.Done], and the semaphore is released as often as it was
    acquired. *)
Theorem fin_closed_once_unless_acquire_fails
    (E : Env) (a : Aggregator) (txNum : Z) (w : work) :
  BuildFilesInBackground E a txNum = Returns (Some w) ->
  count EvCloseFin (events w) = (if acquire_failed E a w then 0 else 1)%nat
  /\ count (EvBuildingFiles true) (events w) = count (EvBuildingFiles false) (events w)
  /\ count (EvMergingFiles true) (events w) = count (EvMergingFiles false) (events w)
  /\ count EvWgAdd (events w) = count EvWgDone (events w)
  /\ count EvAcquire (events w)
     = (count EvRelease (events w) + (if acquire_failed E a w then 1 else 0))%nat.
Proof.
  unfold BuildFilesInBackground.
  destruct (produce a); cbn [negb];
    [|intros [= <-]; repeat split; reflexivity].
  destruct (U64.add txNum 1 <=? _);
    [intros [= <-]; repeat split; reflexivity|].
  destruct (buildingFiles a);
    [intros [= <-]; repeat split; reflexivity|].
  destruct (aggregationStep a =? 0); [discriminate|].
  set (step := U64.div _ _).
  destruct (builder E a step) as [[b m]|] eqn:Hb; [|discriminate].
  intros [= <-]. unfold acquire_failed, events.
  cbn [caller build_goroutine merge_goroutine default].
  unfold builder in Hb.
  assert (forall tr st e, build_steps E step tr = Some (st, e) ->
            count EvCloseFin st = 0%nat /\ count (EvBuildingFiles true) st = 0%nat
            /\ count (EvBuildingFiles false) st = 0%nat
            /\ count (EvMergingFiles true) st = 0%nat
            /\ count (EvMergingFiles false) st = 0%nat
            /\ count EvWgAdd st = 0%nat /\ count EvWgDone st = 0%nat
            /\ count EvAcquire st = 0%nat /\ count EvRelease st = 0%nat) as Hloop.
  { intros tr st e Hs. pose proof (build_steps_events _ _ _ _ _ Hs) as Hof.
    repeat split; apply count_outside_loop; try exact Hof; intros []. }
  assert (forall e, count e (merger E)
            = (count e [EvMergeLoop]
               + count e (match MergeLoop_err E with
                          | Some err => if is_stop E err then []
                                        else [EvWarn err; EvBuildOptional]
                          | None => [EvBuildOptional]
                          end)
               + count e [EvCloseFin; EvMergingFiles false; EvWgDone])%nat) as Hm.
  { intros e. unfold merger. rewrite !bg_count_app. lia. }
  assert (forall e, (forall err, e <> EvWarn err) -> e <> EvBuildOptional ->
            count e (match MergeLoop_err E with
                     | Some err => if is_stop E err then []
                                   else [EvWarn err; EvBuildOptional]
                     | None => [EvBuildOptional]
                     end) = 0%nat) as Hmid.
  { intros e Hw Ho. destruct (MergeLoop_err E) as [err|]; [destruct (is_stop E err)|];
      try reflexivity; unfold count; rewrite ?filter_cons;
      repeat (destruct (decide _) as [Heq|_];
              [exfalso; first [exact (Hw _ (eq_sym Heq))|exact (Ho (eq_sym Heq))]|]);
      reflexivity. }
  destruct (snapshotBuildSema a) eqn:Hsema.
  - destruct (Acquire_err E) as [err|] eqn:Hacq.
    + injection Hb as <- <-. cbn [default andb].
      rewrite bool_decide_true by discriminate.
      rewrite ?app_nil_r. repeat split; reflexivity.
    + cbn [andb]. rewrite bool_decide_false by (intros H; apply H; reflexivity).
      destruct (lastIdInDB E) as [|lastInDB ids]; [discriminate|].
      destruct (step <? lastInDB); cbn [negb] in Hb.
      * destruct (build_steps E step ids) as [[built stopped]|] eqn:Hs; [|discriminate].
        destruct (Hloop _ _ _ Hs) as (L1 & L2 & L3 & L4 & L5 & L6 & L7 & L8 & L9).
        destruct stopped.
        -- tally.
        -- destruct (NoMerge E).
           ++ tally.
           ++ destruct (mergingFiles E).
              ** tally.
              ** tally.
      * injection Hb as <- <-. cbn [default]. rewrite ?app_nil_r.
        repeat split; reflexivity.
  - cbn [andb].
    destruct (lastIdInDB E) as [|lastInDB ids]; [discriminate|].
    destruct (step <? lastInDB); cbn [negb] in Hb.
    * destruct (build_steps E step ids) as [[built stopped]|] eqn:Hs; [|discriminate].
      destruct (Hloop _ _ _ Hs) as (L1 & L2 & L3 & L4 & L5 & L6 & L7 & L8 & L9).
      destruct stopped.
      -- tally.
      -- destruct (NoMerge E).
         ++ tally.
         ++ destruct (mergingFiles E).
            ** tally.
            ** tally.
    * injection Hb as <- <-. cbn [default]. rewrite ?app_nil_r.
      repeat split; reflexivity.
Qed.



(** The semaphore is not acquired: the channel stays open. *)
Lemma fin_closed_once_unless_acquire_fails_witness :
  exists w,
    BuildFilesInBackground (MoreSamples.bg_env (Some "context canceled"))
      MoreSamples.bg_agg 100 = Returns (Some w)
    /\ count EvCloseFin (events w) = 0%nat
    /\ count (EvBuildingFiles false) (events w) = 1%nat.
Proof.
  eexists. split; [vm_compute; reflexivity|].
  destruct (fin_closed_once_unless_acquire_fails
              (MoreSamples.bg_env (Some "context canceled")) MoreSamples.bg_agg 100 _
              eq_refl) as (Hfin & Hflag & _).
  split; [exact Hfin|]. symmetry. exact Hflag.
Defined.





End BuildLoopFacts.

(** ** [mergeFiles]: the restriction of file deletions, and progress *)

Module MergeRestrictFacts.
Import Kv Merge MergeFacts.

Section WithPass.
Variable P : Pass.

Ltac unfold_conf :=
  cbn [main th others_running wg mf_d trace
       set_main set_th set_wg set_mf set_others log] in *.

Lemma restriction_inv (c : config) :
  reachable P c ->
  (forall pre post,
      trace c = pre ++ EvRestrict false :: post ->
      EvRestrict true ∈ pre
      /\ exists vt out, EvMerged CommitmentDomain vt out None ∈ pre)
  /\ (EvRestrict false ∈ trace c -> th c CommitmentDomain = Exited None)
  /\ (forall err, th c CommitmentDomain = AfterMerge err ->
        exists vt out, EvMerged CommitmentDomain vt out err ∈ trace c)
  /\ (commitmentValuesTransform P = true -> (th c CommitmentDomain <> NotStarted /\ th c CommitmentDomain <> Entry) ->
      EvRestrict true ∈ trace c).
Proof.
  induction 1 as [|c c' Hr IH Hstep].
  - split; [|split; [|split]].
    + intros pre post H. destruct pre; discriminate.
    + intros H. inversion H.
    + intros err H. discriminate.
    + intros _ [H _]. destruct (H eq_refl).
  - destruct IH as (IH1 & IH2 & IH3 & IH4).
    assert (forall e, e <> EvRestrict false ->
              forall pre post,
                trace c ++ [e] = pre ++ EvRestrict false :: post ->
                EvRestrict true ∈ pre
                /\ exists vt out, EvMerged CommitmentDomain vt out None ∈ pre)
      as G1.
    { intros e He pre post Heq. symmetry in Heq.
      apply split_snoc in Heq as [(_ & _ & Hx)|(post' & _ & Htr)].
      - exfalso. apply He. symmetry. exact Hx.
      - eapply IH1. exact Htr. }
    assert (forall e, e <> EvRestrict false ->
              EvRestrict false ∈ trace c ++ [e] -> EvRestrict false ∈ trace c)
      as G2.
    { intros e He Hin. apply elem_of_app in Hin as [Hin|Hin]; [exact Hin|].
      apply list_elem_of_singleton in Hin. exfalso. apply He. symmetry. exact Hin. }
    assert (forall e err, th c CommitmentDomain = AfterMerge err ->
              exists vt out, EvMerged CommitmentDomain vt out err ∈ trace c ++ [e])
      as G3.
    { intros e err Hth. destruct (IH3 err Hth) as (vt & out & Hin).
      exists vt, out. apply elem_of_app. left. exact Hin. }
    assert (forall e, commitmentValuesTransform P = true ->
              (th c CommitmentDomain <> NotStarted /\ th c CommitmentDomain <> Entry) -> EvRestrict true ∈ trace c ++ [e])
      as G4.
    { intros e Hcvt Hp. apply elem_of_app. left. exact (IH4 Hcvt Hp). }
    (* a goroutine other than the one of Commitment moves *)
    assert (forall id p,
              id <> CommitmentDomain ->
              <[id := p]> (th c) CommitmentDomain = th c CommitmentDomain) as Hother
      by (intros id p Hne; apply fn_lookup_insert_ne; exact Hne).
    (* the Commitment goroutine moves on before it has left *)
    assert (forall p, th c CommitmentDomain = p -> p <> Exited None ->
              EvRestrict false ∈ trace c -> False) as Hearly.
    { intros p Hp Hne Hin. apply Hne. rewrite <- Hp. exact (IH2 Hin). }
    inversion Hstep; subst; unfold_conf;
      try (split; [exact IH1|split; [exact IH2|split; [exact IH3|exact IH4]]]).
    + (* main_add *)
      split; [apply G1; discriminate|]. split; [|split; [apply G3|apply G4]].
      intros Hin. apply IH2. eapply G2; [|exact Hin]. discriminate.
    + (* main_go *)
      destruct (decide (id = CommitmentDomain)) as [->|Hne].
      * assert (th c CommitmentDomain = NotStarted) as Hns.
        { apply (not_passed_not_started P c CommitmentDomain Hr).
          rewrite H. cbn. rewrite bool_decide_eq_true_2 by left. reflexivity. }
        rewrite fn_lookup_insert.
        split; [exact IH1|]. split; [|split].
        -- intros Hin. exfalso. exact (Hearly _ Hns ltac:(discriminate) Hin).
        -- intros err [=].
        -- intros _ [_ Hp]. destruct (Hp eq_refl).
      * rewrite (Hother _ _ Hne).
        split; [exact IH1|split; [exact IH2|split; [exact IH3|exact IH4]]].
    + (* th_entry_commitment *)
      rewrite fn_lookup_insert.
      split; [apply G1; discriminate|]. split; [|split].
      * intros Hin. exfalso. apply (Hearly _ H); [discriminate|].
        eapply G2; [|exact Hin]. discriminate.
      * intros err [=].
      * intros _ _. apply elem_of_app. right. apply list_elem_of_singleton. reflexivity.
    + (* th_entry *)
      destruct (decide (id = CommitmentDomain)) as [->|Hne].
      * rewrite fn_lookup_insert.
        split; [exact IH1|]. split; [|split].
        -- intros Hin. exfalso. exact (Hearly _ H ltac:(discriminate) Hin).
        -- intros err [=].
        -- intros Hcvt _. rewrite Hcvt, bool_decide_eq_true_2 in H0 by reflexivity.
           discriminate.
      * rewrite (Hother _ _ Hne).
        split; [exact IH1|split; [exact IH2|split; [exact IH3|exact IH4]]].
    + (* th_wait *)
      rewrite fn_lookup_insert.
      split; [apply G1; discriminate|]. split; [|split].
      * intros Hin. exfalso. apply (Hearly _ H); [discriminate|].
        eapply G2; [|exact Hin]. discriminate.
      * intros err [=].
      * intros Hcvt _. apply G4; [exact Hcvt|]. rewrite H. split; discriminate.
    + (* th_build_vt *)
      rewrite fn_lookup_insert.
      split; [apply G1; discriminate|]. split; [|split].
      * intros Hin. exfalso. apply (Hearly _ H); [discriminate|].
        eapply G2; [|exact Hin]. discriminate.
      * intros err [=].
      * intros Hcvt _. apply G4; [exact Hcvt|]. rewrite H. split; discriminate.
    + (* th_merge *)
      destruct (decide (id = CommitmentDomain)) as [->|Hne].
      * rewrite fn_lookup_insert.
        split; [apply G1; discriminate|]. split; [|split].
        -- intros Hin. exfalso. apply (Hearly _ H); [discriminate|].
           eapply G2; [|exact Hin]. discriminate.
        -- intros err' [= <-]. exists vt, out.
           apply elem_of_app. right. apply list_elem_of_singleton. reflexivity.
        -- intros Hcvt _. apply G4; [exact Hcvt|]. rewrite H. split; discriminate.
      * rewrite (Hother _ _ Hne).
        split; [apply G1; discriminate|]. split; [|split; [apply G3|apply G4]].
        intros Hin. apply IH2. eapply G2; [|exact Hin]. discriminate.
    + (* th_done *)
      assert (id <> CommitmentDomain) as Hne.
      { intros ->. rewrite andb_false_r in H0. discriminate. }
      rewrite (Hother _ _ Hne).
      split; [apply G1; discriminate|]. split; [|split; [apply G3|apply G4]].
      intros Hin. apply IH2. eapply G2; [|exact Hin]. discriminate.
    + (* th_unrestrict *)
      rewrite fn_lookup_insert.
      assert ((th c CommitmentDomain <> NotStarted /\ th c CommitmentDomain <> Entry)) as Hp
        by (rewrite H; split; discriminate).
      split; [|split; [|split]].
      * intros pre post Heq. symmetry in Heq.
        apply split_snoc in Heq as [(_ & -> & _)|(post' & _ & Htr)].
        -- split; [exact (IH4 H0 Hp)|exact (IH3 None H)].
        -- eapply IH1. exact Htr.
      * intros _. reflexivity.
      * intros err [=].
      * intros Hcvt _. apply G4; assumption.
    + (* th_exit *)
      destruct (decide (id = CommitmentDomain)) as [->|Hne].
      * rewrite fn_lookup_insert.
        split; [exact IH1|]. split; [|split].
        -- intros Hin. exfalso. apply (Hearly _ H); [discriminate|exact Hin].
        -- intros err' [=].
        -- intros Hcvt _. apply IH4; [exact Hcvt|]. rewrite H. split; discriminate.
      * rewrite (Hother _ _ Hne).
        split; [exact IH1|split; [exact IH2|split; [exact IH3|exact IH4]]].
Qed.

(** X20. In every interleaving of a merge pass,
    [RestrictSubsetFileDeletions(false)] is called only after
    [RestrictSubsetFileDeletions(true)] and after the Commitment merge
    has returned without error. When the
    Commitment merge of a pass with [commitmentValuesTransform] fails,
    the restriction is switched on and never switched off. *)
Theorem restriction_lifted_only_after_commitment_merged (c : config) :
  reachable P c ->
  (forall pre post,
      trace c = pre ++ EvRestrict false :: post ->
      EvRestrict true ∈ pre
      /\ exists vt out, EvMerged CommitmentDomain vt out None ∈ pre)
  /\ (forall err,
        commitmentValuesTransform P = true ->
        th c CommitmentDomain = Exited (Some err) ->
        EvRestrict true ∈ trace c /\ EvRestrict false ∉ trace c).
Proof.
  intros Hr. destruct (restriction_inv c Hr) as (I1 & I2 & _ & I4).
  split; [exact I1|]. intros err Hcvt Hth. split.
  - apply (I4 Hcvt). rewrite Hth. split; discriminate.
  - intros Hin. specialize (I2 Hin). rewrite Hth in I2. discriminate.
Qed.
End WithPass.

(** A run in which the Commitment merge fails after the Accounts and
    Storage merges. *)
Lemma restriction_lifted_only_after_commitment_merged_witness :
  exists c,
    reachable Samples.merge_pass c
    /\ th c CommitmentDomain = Exited (Some "context canceled")
    /\ EvRestrict true ∈ trace c
    /\ EvRestrict false ∉ trace c.
Proof.
  pose (P := Samples.merge_pass).
  pose proof (reach_init P) as R0.
  fwd R0 R1 ltac:(fun P c => constr:(main_add P c AccountsDomain _ eq_refl eq_refl eq_refl)).
  fwd R1 R2 ltac:(fun P c => constr:(main_go P c AccountsDomain _ eq_refl (or_intror eq_refl))).
  fwd R2 R3 ltac:(fun P c => constr:(main_add P c StorageDomain _ eq_refl eq_refl eq_refl)).
  fwd R3 R4 ltac:(fun P c => constr:(main_go P c StorageDomain _ eq_refl (or_intror eq_refl))).
  fwd R4 R5 ltac:(fun P c => constr:(main_skip P c CodeDomain _ eq_refl eq_refl)).
  fwd R5 R6 ltac:(fun P c => constr:(main_no_add P c CommitmentDomain _ eq_refl eq_refl eq_refl)).
  fwd R6 R7 ltac:(fun P c => constr:(main_go P c CommitmentDomain _ eq_refl (or_intror eq_refl))).
  fwd R7 R8 ltac:(fun P c => constr:(th_entry_commitment P c eq_refl eq_refl)).
  fwd R8 R9 ltac:(fun P c => constr:(th_entry P c AccountsDomain eq_refl eq_refl)).
  fwd R9 R10 ltac:(fun P c => constr:(th_merge P c AccountsDomain None (Some "v1-accounts.0-2.kv") None eq_refl)).
  fwd R10 R11 ltac:(fun P c => constr:(th_done P c AccountsDomain None eq_refl eq_refl)).
  fwd R11 R12 ltac:(fun P c => constr:(th_entry P c StorageDomain eq_refl eq_refl)).
  fwd R12 R13 ltac:(fun P c => constr:(th_merge P c StorageDomain None (Some "v1-storage.0-2.kv") None eq_refl)).
  fwd R13 R14 ltac:(fun P c => constr:(th_done P c StorageDomain None eq_refl eq_refl)).
  fwd R14 R15 ltac:(fun P c => constr:(th_wait P c eq_refl eq_refl)).
  fwd R15 R16 ltac:(fun P c => constr:(th_build_vt P c eq_refl)).
  fwd R16 R17 ltac:(fun P c => constr:(th_merge P c CommitmentDomain (Some (Some "v1-accounts.0-2.kv", Some "v1-storage.0-2.kv")) None (Some "context canceled") eq_refl)).
  fwd R17 R18 ltac:(fun P c => constr:(th_exit P c CommitmentDomain (Some "context canceled") eq_refl eq_refl ltac:(intros _ _; discriminate))).
  eexists. split; [exact R18|]. split; [reflexivity|].
  exact (proj2 (restriction_lifted_only_after_commitment_merged P _ R18)
           "context canceled" eq_refl eq_refl).
Defined.

(** The first step of a pass with four workers. *)
Lemma merge_pass_progress_witness :
  exists c', step Samples.merge_pass init c'.
Proof.
  destruct (merge_pass_progress Samples.merge_pass init (reach_init _)) as [H|H].
  - discriminate.
  - discriminate H.
  - exact H.
Defined.
End MergeRestrictFacts.

(** ** The salt is persistent *)

Module SaltStableFacts.
Import Fs Filepath BigEndian Salt FsRun SaltFacts.

(** A salt that is returned is the one the salt file holds afterwards. *)
Lemma salt_returned_is_stored (rnd : Z) (baseDir : string) (w : world) (v : Z) :
  (getStateIndicesSalt rnd baseDir w).1 = Returns (Some v, None) ->
  exists content,
    files (getStateIndicesSalt rnd baseDir w).2 !! salt_path baseDir = Some content
    /\ Uint32 content = Returns v.
Proof.
  unfold salt_path, getStateIndicesSalt, bind.
  destruct (FileExist (Join baseDir "salt.txt") w) as [[e1 [err1|]] w1];
    cbv beta iota; [intros H; cbn in H; congruence|].
  destruct (FileExist (Join baseDir "salt-state.txt") w1) as [[e2 [err2|]] w2];
    cbv beta iota; [intros H; cbn in H; congruence|].
  match goal with
  | |- context [let '(_, _) := ?X in _] => destruct X as [x3 w3]
  end.
  destruct (FileExist (Join baseDir "salt-state.txt") w3) as [[e4 [err4|]] w4];
    cbv beta iota; [intros H; cbn in H; congruence|].
  match goal with
  | |- context [let '(_, _) := ?X in _] =>
      destruct X as [[err5|] w5];
        cbv beta iota; [intros H; cbn in H; congruence|]
  end.
  unfold ReadFile.
  destruct (next_fault w5) as [[f|] rest]; cbv beta iota; [intros H; cbn in H; congruence|].
  destruct (files w5 !! Join baseDir "salt-state.txt") as [c|] eqn:Hc;
    cbv beta iota; [|intros H; cbn in H; congruence].
  destruct (Uint32 c) as [v'|msg] eqn:Hv; cbv beta iota; [|intros H; cbn in H; congruence].
  intros H. cbn in H. injection H as <-.
  exists c. split; [exact Hc|exact Hv].
Qed.

(** X22. Once [getStateIndicesSalt] has returned a salt, a later call that
    finds the files as that call left them and meets no fault returns
    the same salt, whatever it draws, and leaves the files as they
    are. *)
Theorem salt_survives_restart (rnd rnd' : Z) (baseDir : string) (w w2 : world) (v : Z) :
  (getStateIndicesSalt rnd baseDir w).1 = Returns (Some v, None) ->
  no_faults w2 ->
  files w2 = files (getStateIndicesSalt rnd baseDir w).2 ->
  (getStateIndicesSalt rnd' baseDir w2).1 = Returns (Some v, None)
  /\ files (getStateIndicesSalt rnd' baseDir w2).2 = files w2.
Proof.
  intros Hfirst Hnf Hfiles.
  destruct (salt_returned_is_stored rnd baseDir w v Hfirst) as (c & Hc & Hv).
  rewrite <- Hfiles in Hc.
  destruct (salt_existing rnd' baseDir w2 c Hnf Hc) as (w' & -> & Hf).
  rewrite Hv. split; [reflexivity|exact Hf].
Qed.

(** A first start draws 7; a restart that draws 9 still gets 7. *)
Lemma salt_survives_restart_witness :
  (getStateIndicesSalt 9 "snap"
     {| files := files (getStateIndicesSalt 7 "snap" Samples.salt_absent).2;
        faults := []; calls := [] |}).1
  = Returns (Some 7, None).
Proof.
  apply (salt_survives_restart 7 9 "snap" Samples.salt_absent).
  - vm_compute. reflexivity.
  - constructor.
  - reflexivity.
Defined.
End SaltStableFacts.

(** ** [SqueezeCommitmentFiles]: the run that succeeds *)

Module SqueezeDoneFacts.
Import Squeeze SqueezeDone.

Lemma squeezed_not_tmp (p q : string) : p +:+ sqExt <> q +:+ sqExt +:+ ".tmp".
Proof.
  intros H. apply (f_equal last_char) in H.
  rewrite SqueezeFacts.last_char_app in H by discriminate.
  rewrite (SqueezeFacts.last_char_app q (sqExt +:+ ".tmp")) in H by discriminate.
  discriminate H.
Qed.

Lemma elem_of_concat {A : Type} (x : A) (ls : list (list A)) :
  x ∈ concat ls -> exists l, x ∈ l /\ l ∈ ls.
Proof.
  induction ls as [|l ls IH]; cbn [concat]; intros H.
  - inversion H.
  - apply elem_of_app in H as [H|H].
    + exists l. split; [exact H|left].
    + destruct (IH H) as (l' & H1 & H2). exists l'. split; [exact H1|right; exact H2].
Qed.

Section WithEnv.
Variable E : Env.
Variable ac : AggregatorRoTx.

(** What a closure that succeeded has done. *)
Lemma squeeze_file_done (cf af sf : filesItem) (s : sqstate) :
  paired ac cf = Some (af, sf) ->
  (squeeze_file E ac cf af sf s).1 = Returns None ->
  temporalFiles (squeeze_file E ac cf af sf s).2
  = temporalFiles s ++ [FilePath cf +:+ sqExt]
  /\ obsoleteFiles (squeeze_file E ac cf af sf s).2
     = obsoleteFiles s ++ obsolete_of E ac cf
  /\ fs (squeeze_file E ac cf af sf s).2 !! (FilePath cf +:+ sqExt)
     = Some (squeezed_words E ac cf)
  /\ (forall q, q <> FilePath cf +:+ sqExt -> q <> FilePath cf +:+ sqExt +:+ ".tmp" ->
        fs (squeeze_file E ac cf af sf s).2 !! q = fs s !! q).
Proof.
  intros Hp. unfold obsolete_of, squeezed_words. rewrite Hp.
  pose proof (SqueezeFacts.squeeze_file_spec E ac cf af sf s) as [_ Hspec].
  revert Hspec. unfold squeeze_file.
  destruct (NewCompressor_err E (FilePath cf +:+ sqExt +:+ ".tmp")) as [e|];
    [discriminate|].
  destruct (squeeze_pairs E (commitmentValTransformDomain E af sf) af
              (FilePath cf +:+ sqExt +:+ ".tmp") (pairs cf) []) as [ws|e];
    [|discriminate].
  destruct (Compress_err E (FilePath cf +:+ sqExt +:+ ".tmp") ws) as [e|];
    [discriminate|].
  unfold bind, write_file, os_Rename, add_temporal, add_obsolete, ret.
  cbn [fs ops obsoleteFiles temporalFiles processedFiles].
  destruct (Rename_err E (FilePath cf +:+ sqExt +:+ ".tmp") (FilePath cf +:+ sqExt))
    as [e|]; [discriminate|].
  rewrite lookup_insert_eq.
  cbn [fs ops obsoleteFiles temporalFiles processedFiles].
  destruct (Stat_err E (FilePath cf)) as [e|]; [discriminate|].
  destruct (Stat_err E (FilePath cf +:+ sqExt)) as [e|]; [discriminate|].
  destruct (StepSize ac =? 0); [discriminate|].
  cbn [fst snd fs ops obsoleteFiles temporalFiles processedFiles].
  intros Hspec _. destruct (Hspec eq_refl) as [Hws _].
  split; [reflexivity|]. split; [reflexivity|]. split; [exact Hws|].
  intros q H1 H2.
  rewrite lookup_insert_ne, lookup_delete_ne, lookup_insert_ne by congruence.
  reflexivity.
Qed.

(** The producing phase, when it succeeds, has recorded the squeezed
    file and the obsolete paths of every processed file, in order. *)
Lemma squeeze_all_done (cfs : list filesItem) : forall s : sqstate,
  (squeeze_all E ac cfs s).1 = Returns None ->
  temporalFiles (squeeze_all E ac cfs s).2
  = temporalFiles s ++ ((fun cf => FilePath cf +:+ sqExt) <$> processed ac cfs)
  /\ obsoleteFiles (squeeze_all E ac cfs s).2
     = obsoleteFiles s ++ concat (obsolete_of E ac <$> processed ac cfs)
  /\ (forall q,
        (forall cf, cf ∈ processed ac cfs ->
           q <> FilePath cf +:+ sqExt /\ q <> FilePath cf +:+ sqExt +:+ ".tmp") ->
        fs (squeeze_all E ac cfs s).2 !! q = fs s !! q)
  /\ (NoDup (FilePath <$> processed ac cfs) ->
      forall cf, cf ∈ processed ac cfs ->
        fs (squeeze_all E ac cfs s).2 !! (FilePath cf +:+ sqExt)
        = Some (squeezed_words E ac cf)).
Proof.
  induction cfs as [|cf rest IH]; intros s; cbn [squeeze_all].
  - intros _. unfold processed. cbn. rewrite !app_nil_r.
    split; [reflexivity|]. split; [reflexivity|]. split; [reflexivity|].
    intros _ cf Hin. inversion Hin.
  - unfold processed. rewrite filter_cons. fold (processed ac rest).
    destruct (paired ac cf) as [[af sf]|] eqn:Hp.
    + rewrite decide_True by eauto.
      unfold bind.
      pose proof (squeeze_file_done cf af sf s Hp) as Hfile.
      destruct (squeeze_file E ac cf af sf s) as [[[e|]|msg] s1];
        cbn [fst snd] in *; try discriminate.
      destruct (Hfile eq_refl) as (Ht & Ho & Hw & Hframe).
      intros Hall. destruct (IH s1 Hall) as (IHt & IHo & IHframe & IHw).
      split; [|split; [|split]].
      * rewrite IHt, Ht, <- app_assoc. reflexivity.
      * rewrite IHo, Ho, <- app_assoc. reflexivity.
      * intros q Hq. rewrite IHframe.
        -- apply Hframe; apply (Hq cf); left.
        -- intros cf' Hin. apply Hq. right. exact Hin.
      * rewrite fmap_cons. intros Hnd cf' Hin.
        apply NoDup_cons in Hnd as [Hfresh Hnd].
        apply elem_of_cons in Hin as [->|Hin].
        -- rewrite IHframe; [exact Hw|].
           intros cf' Hin'. split.
           ++ intros Heq. apply TextFacts.append_inj_r in Heq.
              apply Hfresh. rewrite Heq. apply list_elem_of_fmap.
              exists cf'. split; [reflexivity|exact Hin'].
           ++ apply squeezed_not_tmp.
        -- apply IHw; assumption.
    + rewrite decide_False by (intros [x Hx]; discriminate).
      apply IH.
Qed.

Lemma remove_obsolete_done (paths : list string) : forall s s' : sqstate,
  remove_obsolete E paths s = (None, s') ->
  temporalFiles s' = temporalFiles s
  /\ (forall q, q ∉ paths -> fs s' !! q = fs s !! q).
Proof.
  induction paths as [|p rest IH]; intros s s'; cbn [remove_obsolete].
  - intros [= <-]. split; reflexivity.
  - unfold bind, os_Remove.
    destruct (Remove_err E p) as [e|]; [discriminate|].
    intros Hrest. apply IH in Hrest as [Ht Hf].
    cbn [temporalFiles fs] in *. split; [exact Ht|].
    intros q Hq. rewrite Hf by (intros Hin; apply Hq; right; exact Hin).
    apply lookup_delete_ne. intros <-. apply Hq. left.
Qed.

(** Renaming the squeezed files of the paths [ps] into place. *)
Lemma rename_temporal_done (ps : list string) : forall s s' : sqstate,
  rename_temporal E ((fun p => p +:+ sqExt) <$> ps) s = (None, s') ->
  NoDup ps ->
  (forall p p', p ∈ ps -> p' ∈ ps -> p' <> p +:+ sqExt) ->
  (forall p, p ∈ ps ->
     fs s' !! p = fs s !! (p +:+ sqExt)
     /\ is_Some (fs s !! (p +:+ sqExt))
     /\ fs s' !! (p +:+ sqExt) = None)
  /\ (forall q, (forall p, p ∈ ps -> q <> p /\ q <> p +:+ sqExt) ->
        fs s' !! q = fs s !! q).
Proof.
  induction ps as [|p rest IH]; intros s s'; cbn [fmap list_fmap rename_temporal].
  - intros [= <-] _ _. split; [|reflexivity]. intros p Hin. inversion Hin.
  - change (list_fmap _ _ ?f rest) with (f <$> rest).
    rewrite TextFacts.TrimSuffix_append.
    unfold bind, os_Rename.
    destruct (Rename_err E (p +:+ sqExt) p) as [e|]; [discriminate|].
    destruct (fs s !! (p +:+ sqExt)) as [c|] eqn:Hc; [|discriminate].
    intros Hrest Hnd Hsep.
    apply NoDup_cons in Hnd as [Hfresh Hnd].
    apply IH in Hrest as [Hmoved Hframe]; [|exact Hnd|].
    2:{ intros a b Ha Hb. apply Hsep; right; assumption. }
    cbn [fs] in *.
    assert (p <> p +:+ sqExt) as Hself by (apply Hsep; left).
    split.
    + intros q Hq. apply elem_of_cons in Hq as [->|Hq].
      * rewrite !Hframe.
        -- rewrite lookup_insert_eq, lookup_insert_ne, lookup_delete_eq by congruence.
           rewrite Hc. split; [reflexivity|]. split; [eauto|reflexivity].
        -- intros a Ha. split.
           ++ intros Heq. apply (Hsep p a); [left|right; exact Ha|].
              symmetry. exact Heq.
           ++ intros Heq. apply TextFacts.append_inj_r in Heq. subst a.
              contradiction.
        -- intros a Ha. split.
           ++ intros ->. contradiction.
           ++ apply Hsep; [right; exact Ha|left].
      * destruct (Hmoved q Hq) as (H1 & H2 & H3).
        assert (q +:+ sqExt <> p) as Hn1
          by (intros Heq; apply (Hsep q p); [right; exact Hq|left|symmetry; exact Heq]).
        assert (q +:+ sqExt <> p +:+ sqExt) as Hn2.
        { intros Heq. apply TextFacts.append_inj_r in Heq. subst q. contradiction. }
        rewrite lookup_insert_ne, lookup_delete_ne in H1, H2 by congruence.
        split; [exact H1|]. split; [exact H2|exact H3].
    + intros q Hq. rewrite Hframe.
      * destruct (Hq p) as [H1 H2]; [left|].
        rewrite lookup_insert_ne, lookup_delete_ne by congruence. reflexivity.
      * intros a Ha. apply Hq. right. exact Ha.
Qed.

(** X23. A run of [SqueezeCommitmentFiles] that returns nil has replaced
    every processed Commitment file by its squeezed version: the path
    of the file holds the words the closure wrote for it, and the
    [.squeezed] file is gone. The paths of the processed files are
    taken to be distinct, and no file the run removes to be the
    [.squeezed] file of a processed file. *)
Theorem squeeze_replaces_commitment_files (s : sqstate) :
  commitmentValuesTransform ac = true ->
  obsoleteFiles s = [] ->
  temporalFiles s = [] ->
  NoDup (FilePath <$> processed ac (commitFiles ac)) ->
  (forall cf cf' q,
      cf ∈ processed ac (commitFiles ac) -> cf' ∈ processed ac (commitFiles ac) ->
      q ∈ obsolete_of E ac cf' -> q <> FilePath cf +:+ sqExt) ->
  (SqueezeCommitmentFiles E ac s).1 = Returns None ->
  forall cf, cf ∈ processed ac (commitFiles ac) ->
    fs (SqueezeCommitmentFiles E ac s).2 !! FilePath cf
    = Some (squeezed_words E ac cf)
    /\ fs (SqueezeCommitmentFiles E ac s).2 !! (FilePath cf +:+ sqExt) = None.
Proof.
  intros Hcvt Ho0 Ht0 Hnd Hsep.
  unfold SqueezeCommitmentFiles. rewrite Hcvt. cbn [negb]. unfold bind.
  pose proof (squeeze_all_done (commitFiles ac) s) as Hall.
  destruct (squeeze_all E ac (commitFiles ac) s) as [[[e|]|msg] s1];
    cbn [fst snd] in *; try discriminate.
  destruct (Hall eq_refl) as (Ht & Hobs & _ & Hw). clear Hall.
  rewrite Ht0, app_nil_l in Ht. rewrite Ho0, app_nil_l in Hobs.
  pose proof (remove_obsolete_done (obsoleteFiles s1) s1) as Hrm.
  destruct (remove_obsolete E (obsoleteFiles s1) s1) as [[e|] s2];
    cbn [fst snd]; [discriminate|].
  destruct (Hrm s2 eq_refl) as [Ht2 Hkeep]. clear Hrm.
  pose proof (rename_temporal_done (FilePath <$> processed ac (commitFiles ac)) s2)
    as Hmv.
  rewrite Ht2, Ht.
  rewrite <- list_fmap_compose in Hmv. unfold compose in Hmv.
  destruct (rename_temporal E _ s2) as [[e|] s3]; unfold ret; cbn [fst snd];
    [discriminate|].
  intros _ cf Hcf.
  assert (forall cf0, cf0 ∈ processed ac (commitFiles ac) ->
            FilePath cf0 ∈ obsolete_of E ac cf0) as Hown.
  { intros cf0 Hin. unfold processed in Hin. apply list_elem_of_filter in Hin as [[x Hx] _].
    unfold obsolete_of. rewrite Hx. destruct x as [af sf]. left. }
  destruct (Hmv s3 eq_refl Hnd) as [Hmoved _].
  { intros p p' Hp' Hp''.
    apply list_elem_of_fmap in Hp' as (c1 & -> & Hc1).
    apply list_elem_of_fmap in Hp'' as (c2 & -> & Hc2).
    apply (Hsep c1 c2); [exact Hc1|exact Hc2|]. apply Hown. exact Hc2. }
  destruct (Hmoved (FilePath cf)) as (H1 & _ & H3).
  { apply list_elem_of_fmap. exists cf. split; [reflexivity|exact Hcf]. }
  split; [|exact H3].
  rewrite H1, Hkeep; [apply Hw; assumption|].
  rewrite Hobs. intros Hin. apply elem_of_concat in Hin as (l & Hq & Hl).
  apply list_elem_of_fmap in Hl as (cf' & -> & Hcf').
  exact (Hsep cf cf' _ Hcf Hcf' Hq eq_refl).
Qed.
End WithEnv.

(** One Commitment file with the sentinel pair and one more pair. *)
Lemma squeeze_replaces_commitment_files_witness :
  let ps := [(Some Samples.state_key, Some [x01]); (Some [x0a], Some [x02])] in
  let run := SqueezeCommitmentFiles Samples.squeeze_env (Samples.squeeze_view ps)
               Samples.squeeze_disk in
  fs run.2 !! "v1-commitment.0-1.kv"
  = Some [Some Samples.state_key; Some [x01]; Some [x0a]; Some [x00; x02]]
  /\ fs run.2 !! "v1-commitment.0-1.kv.squeezed" = None.
Proof.
  cbv zeta.
  set (ps := [(Some Samples.state_key, Some [x01]); (Some [x0a], Some [x02])]).
  assert (processed (Samples.squeeze_view ps) (commitFiles (Samples.squeeze_view ps))
          = [Samples.squeeze_item "v1-commitment.0-1.kv" ps]) as Hpr
    by (vm_compute; reflexivity).
  refine (squeeze_replaces_commitment_files Samples.squeeze_env
            (Samples.squeeze_view ps) Samples.squeeze_disk eq_refl eq_refl eq_refl
            _ _ _ (Samples.squeeze_item "v1-commitment.0-1.kv" ps) _).
  - rewrite Hpr. apply NoDup_singleton.
  - rewrite Hpr. intros cf cf' q Hcf Hcf' Hq.
    apply list_elem_of_singleton in Hcf, Hcf'. subst cf cf'.
    assert (obsolete_of Samples.squeeze_env (Samples.squeeze_view ps)
              (Samples.squeeze_item "v1-commitment.0-1.kv" ps)
            = ["v1-commitment.0-1.kv"; "v1-commitment.0-1.bt";
               "v1-commitment.0-1.kvi"; "v1-commitment.0-1.kvei"]) as Ho
      by (vm_compute; reflexivity).
    rewrite Ho in Hq. rewrite !elem_of_cons in Hq.
    destruct Hq as [->|[->|[->|[->|Hq]]]]; try discriminate. inversion Hq.
  - vm_compute. reflexivity.
  - rewrite Hpr. apply list_elem_of_singleton. reflexivity.
Defined.
End SqueezeDoneFacts.

(** ** [Prune] stops at the first component that fails *)

Module PrunePlanFacts.
Import Kv Prune PrunePlan.

Section WithView.
Variable ac : AggregatorRoTx.

Lemma error_at_0 (c : call) (cs : list call) (st : HotStore) :
  error_at ac (c :: cs) st 0 = (component ac c st).1.2.
Proof. reflexivity. Qed.

Lemma error_at_S (c : call) (cs : list call) (st : HotStore) (i : nat) :
  error_at ac (c :: cs) st (S i) = error_at ac cs (component ac c st).2 i.
Proof. reflexivity. Qed.

Lemma store_after_app (cs1 cs2 : list call) (st : HotStore) :
  store_after ac (cs1 ++ cs2) st = store_after ac cs2 (store_after ac cs1 st).
Proof. unfold store_after. apply foldl_app. Qed.

Lemma error_at_app_l (cs1 cs2 : list call) (st : HotStore) (i : nat) :
  (i < length cs1)%nat -> error_at ac (cs1 ++ cs2) st i = error_at ac cs1 st i.
Proof.
  intros Hi. unfold error_at.
  rewrite lookup_app_l by exact Hi. rewrite take_app_le by lia. reflexivity.
Qed.

Lemma error_at_app_r (cs1 cs2 : list call) (st : HotStore) (i : nat) :
  error_at ac (cs1 ++ cs2) st (length cs1 + i)
  = error_at ac cs2 (store_after ac cs1 st) i.
Proof.
  unfold error_at.
  rewrite lookup_app_r by lia. replace (length cs1 + i - length cs1)%nat with i by lia.
  rewrite take_app_add, store_after_app. reflexivity.
Qed.

Lemma loop_run_nil (s : pstate) : loop_run ac [] None s s 0.
Proof.
  unfold loop_run. cbn. rewrite app_nil_r.
  split; [reflexivity|]. split; [reflexivity|]. split; [lia|].
  split; [intros i; lia|]. split; [|discriminate].
  intros _. split; [reflexivity|]. intros i. unfold error_at.
  rewrite lookup_nil. reflexivity.
Qed.

(** One turn of a loop: the call is made; an error ends the loop, and
    otherwise the rest of the loop runs on what the call left. *)
Lemma loop_run_cons (c : call) (cs : list call) (s : pstate) :
  let r := invoke c (component ac c) s in
  (forall e, r.1.2 = Some e -> loop_run ac (c :: cs) (Some e) s r.2 1)
  /\ (r.1.2 = None ->
      forall err s' n,
        loop_run ac cs err r.2 s' n -> loop_run ac (c :: cs) err s s' (S n)).
Proof.
  cbv zeta. unfold invoke.
  destruct (component ac c (store s)) as [[stat err0] st1] eqn:Ec. cbn [fst snd].
  split.
  - intros e ->. unfold loop_run. cbn [take log store length]. rewrite take_0.
    split; [reflexivity|]. split; [cbn; rewrite Ec; reflexivity|]. split; [lia|].
    split; [intros i; lia|]. split; [discriminate|].
    intros e' [= <-]. split; [lia|]. cbn [Nat.sub]. rewrite error_at_0, Ec. reflexivity.
  - intros -> err s' n (Hlog & Hst & Hle & Hbefore & Hok & Hbad).
    cbn [log store] in *.
    unfold loop_run. cbn [take length].
    split; [rewrite Hlog, <- app_assoc; reflexivity|].
    split; [cbn; rewrite Ec; exact Hst|]. split; [lia|].
    assert (forall i, error_at ac (c :: cs) (store s) (S i) = error_at ac cs st1 i)
      as HS by (intros i; rewrite error_at_S, Ec; reflexivity).
    assert (error_at ac (c :: cs) (store s) 0 = None) as H0
      by (rewrite error_at_0, Ec; reflexivity).
    split; [|split].
    + intros [|i] Hi; [exact H0|]. rewrite HS. apply Hbefore. lia.
    + intros He. destruct (Hok He) as [-> Hall]. split; [reflexivity|].
      intros [|i]; [exact H0|]. rewrite HS. apply Hall.
    + intros e He. destruct (Hbad e He) as [H1 Hlast]. split; [lia|].
      destruct n as [|n]; [lia|]. cbn [Nat.sub] in *. rewrite Nat.sub_0_r in Hlast.
      rewrite HS. exact Hlast.
Qed.

(** Two loops in a row, the first one without error. *)
Lemma loop_run_app (cs1 cs2 : list call) (err : option error) (s s1 s2 : pstate)
    (n1 n2 : nat) :
  loop_run ac cs1 None s s1 n1 -> loop_run ac cs2 err s1 s2 n2 ->
  loop_run ac (cs1 ++ cs2) err s s2 (length cs1 + n2).
Proof.
  intros (L1 & S1 & _ & _ & Ok1 & _) (L2 & S2 & Le2 & B2 & Ok2 & Bad2).
  destruct (Ok1 eq_refl) as [-> All1]. rewrite firstn_all in L1, S1.
  unfold loop_run. rewrite take_app_add, length_app.
  split; [rewrite L2, L1, <- app_assoc; reflexivity|].
  split; [rewrite S2, S1, store_after_app; reflexivity|]. split; [lia|].
  assert (forall i, (i < length cs1)%nat -> error_at ac (cs1 ++ cs2) (store s) i = None)
    as Hl by (intros i Hi; rewrite error_at_app_l by exact Hi; apply All1).
  assert (forall i, error_at ac (cs1 ++ cs2) (store s) (length cs1 + i)
                    = error_at ac cs2 (store s1) i) as Hr
    by (intros i; rewrite error_at_app_r, S1; reflexivity).
  assert (forall i (P : nat -> Prop),
            (forall j, P j -> error_at ac cs2 (store s1) j = None) ->
            ((i < length cs1)%nat \/ P (i - length cs1)%nat) ->
            error_at ac (cs1 ++ cs2) (store s) i = None) as Hcase.
  { intros i P HP [Hi|Hi]; [apply Hl; exact Hi|].
    destruct (Nat.lt_ge_cases i (length cs1)) as [Hlt|Hge]; [apply Hl; exact Hlt|].
    replace i with (length cs1 + (i - length cs1))%nat by lia.
    rewrite Hr. apply HP. exact Hi. }
  split; [|split].
  - intros i Hi. apply (Hcase i (fun j => (S j < n2)%nat) B2).
    destruct (Nat.lt_ge_cases i (length cs1)); [left; assumption|right; lia].
  - intros He. destruct (Ok2 He) as [-> All2]. split; [reflexivity|].
    intros i. apply (Hcase i (fun _ => True)); [intros j _; apply All2|auto].
  - intros e He. destruct (Bad2 e He) as [H1 Hlast]. split; [lia|].
    replace (length cs1 + n2 - 1)%nat with (length cs1 + (n2 - 1))%nat by lia.
    rewrite Hr. exact Hlast.
Qed.

Lemma prune_domains_run step txFrom txTo limit ids : forall aggStat s,
  let r := prune_domains ac step txFrom txTo limit ids aggStat s in
  exists n,
    loop_run ac ((fun id => DomainPrune id step txFrom txTo limit) <$> ids)
      r.1.2 s r.2 n.
Proof.
  induction ids as [|id rest IH]; intros aggStat s; cbv zeta.
  - exists 0%nat. apply loop_run_nil.
  - cbn [prune_domains fmap list_fmap]. unfold bind.
    destruct (loop_run_cons (DomainPrune id step txFrom txTo limit)
                ((fun id => DomainPrune id step txFrom txTo limit) <$> rest) s)
      as [Hbad Hok].
    change (component ac (DomainPrune id step txFrom txTo limit))
      with (d_Prune (d ac id) step txFrom txTo limit) in Hbad, Hok.
    destruct (invoke (DomainPrune id step txFrom txTo limit)
                (d_Prune (d ac id) step txFrom txTo limit) s) as [[stat err] s1].
    cbn [fst snd] in *. destruct err as [e|].
    + exists 1%nat. apply Hbad. reflexivity.
    + match goal with
      | |- context [prune_domains _ _ _ _ _ rest ?ag s1] =>
          destruct (IH ag s1) as (n & Hn)
      end.
      exists (S n). apply (Hok eq_refl). exact Hn.
Qed.

Lemma prune_indices_run txFrom txTo limit poss : forall s,
  let r := prune_indices ac txFrom txTo limit poss s in
  exists n,
    loop_run ac ((fun pos => IndexPrune pos txFrom txTo limit) <$> poss) r.1.2 s r.2 n.
Proof.
  induction poss as [|pos rest IH]; intros s; cbv zeta.
  - exists 0%nat. apply loop_run_nil.
  - cbn [prune_indices fmap list_fmap]. unfold bind.
    destruct (loop_run_cons (IndexPrune pos txFrom txTo limit)
                ((fun pos => IndexPrune pos txFrom txTo limit) <$> rest) s)
      as [Hbad Hok].
    change (component ac (IndexPrune pos txFrom txTo limit))
      with (ii_Prune (iis ac pos) txFrom txTo limit) in Hbad, Hok.
    destruct (invoke (IndexPrune pos txFrom txTo limit)
                (ii_Prune (iis ac pos) txFrom txTo limit) s) as [[stat err] s1].
    cbn [fst snd] in *. destruct err as [e|].
    + exists 1%nat. apply Hbad. reflexivity.
    + destruct (IH s1) as (n & Hn). cbv zeta in Hn.
      destruct (prune_indices ac txFrom txTo limit rest s1) as [[stats err'] s2].
      unfold ret. cbn [fst snd] in *. exists (S n). apply (Hok eq_refl). exact Hn.
Qed.

Lemma prune_appendables_run txFrom txTo limit aps : forall i aggStat s,
  (forall j ap, aps !! j = Some ap -> appendable ac !! (i + j)%nat = Some ap) ->
  let r := prune_appendables txFrom txTo limit i aps aggStat s in
  exists n,
    loop_run ac (imap (fun j _ => AppendablePrune (i + j) txFrom txTo limit) aps)
      r.1.2 s r.2 n.
Proof.
  induction aps as [|ap rest IH]; intros i aggStat s Haps; cbv zeta.
  - exists 0%nat. apply loop_run_nil.
  - cbn [prune_appendables imap]. unfold bind. rewrite Nat.add_0_r.
    assert (imap ((fun j (_ : AppendableRoTx) =>
                     AppendablePrune (i + j) txFrom txTo limit) ∘ S) rest
            = imap (fun j _ => AppendablePrune (S i + j) txFrom txTo limit) rest) as Him.
    { apply imap_ext. intros j x _. cbn. f_equal. lia. }
    rewrite Him.
    destruct (loop_run_cons (AppendablePrune i txFrom txTo limit)
                (imap (fun j _ => AppendablePrune (S i + j) txFrom txTo limit) rest) s)
      as [Hbad Hok].
    assert (component ac (AppendablePrune i txFrom txTo limit)
            = ap_Prune ap txFrom txTo limit) as Hc.
    { cbn [component]. specialize (Haps 0%nat ap eq_refl).
      rewrite Nat.add_0_r in Haps. rewrite Haps. reflexivity. }
    rewrite Hc in Hbad, Hok.
    destruct (invoke (AppendablePrune i txFrom txTo limit)
                (ap_Prune ap txFrom txTo limit) s) as [[stat err] s1].
    cbn [fst snd] in *. destruct err as [e|].
    + exists 1%nat. apply Hbad. reflexivity.
    + match goal with
      | |- context [prune_appendables _ _ _ (S i) rest ?ag s1] =>
          destruct (IH (S i) ag s1) as (n & Hn)
      end.
      { intros j ap' Hj. replace (S i + j)%nat with (i + S j)%nat by lia.
        apply Haps. exact Hj. }
      exists (S n). apply (Hok eq_refl). exact Hn.
Qed.
End WithView.

(** X24. [Prune] visits the components in a fixed order, the domains, then
    the standalone indices, then the appendables, each on the hot store
    the ones before left, and stops at the first one that fails: every
    component before it returned no error, it is the last one visited,
    and [Prune] returns its error. Without an error [Prune] has visited
    either none of them (the files are empty or nothing can be pruned;
    the statistic is nil) or all of them, none of which failed. With an
    error, the statistic is non-nil exactly when the component that
    failed is a domain. So, unless [Prune] returns early, the first
    failure is always reported. *)
Theorem Prune_stops_at_first_failure (a : Aggregator) (ac : AggregatorRoTx)
    (limit : Z) (s : pstate) (stat : option AggregatorPruneStat) (err : option error) :
  (Prune a ac limit s).1 = Returns (stat, err) ->
  let lim := if limit =? 0 then U64.MaxUint64 else limit in
  let txTo := visibleFilesMinimaxTxNum a in
  let step := if 0 <? txTo then (txTo - 1) / aggregationStep a else 0 in
  let cs := plan ac step 0 txTo lim in
  exists n : nat,
    log (Prune a ac limit s).2 = log s ++ take n cs
    /\ store (Prune a ac limit s).2 = store_after ac (take n cs) (store s)
    /\ (n <= length cs)%nat
    /\ (forall i, (S i < n)%nat -> error_at ac cs (store s) i = None)
    /\ (err = None ->
        (stat = None /\ n = 0%nat
         /\ (txTo = 0 \/ CanPrune_agg a ac (store s) txTo = false))
        \/ (stat <> None /\ n = length cs
            /\ forall i, error_at ac cs (store s) i = None))
    /\ (forall e, err = Some e ->
        (1 <= n)%nat
        /\ error_at ac cs (store s) (n - 1) = Some e
        /\ (stat <> None <-> (n <= length Domains)%nat))
    /\ (forall i e,
          txTo <> 0 -> CanPrune_agg a ac (store s) txTo = true ->
          (forall j, (j < i)%nat -> error_at ac cs (store s) j = None) ->
          error_at ac cs (store s) i = Some e ->
          err = Some e /\ n = S i).
Proof.
  cbv zeta. intros Hret.
  set (lim := if limit =? 0 then U64.MaxUint64 else limit).
  set (txTo := visibleFilesMinimaxTxNum a).
  set (step := if 0 <? txTo then (txTo - 1) / aggregationStep a else 0).
  set (cs := plan ac step 0 txTo lim).
  assert (exists n : nat,
    log (Prune a ac limit s).2 = log s ++ take n cs
    /\ store (Prune a ac limit s).2 = store_after ac (take n cs) (store s)
    /\ (n <= length cs)%nat
    /\ (forall i, (S i < n)%nat -> error_at ac cs (store s) i = None)
    /\ (err = None ->
        (stat = None /\ n = 0%nat
         /\ (txTo = 0 \/ CanPrune_agg a ac (store s) txTo = false))
        \/ (stat <> None /\ n = length cs
            /\ forall i, error_at ac cs (store s) i = None))
    /\ (forall e, err = Some e ->
        (1 <= n)%nat
        /\ error_at ac cs (store s) (n - 1) = Some e
        /\ (stat <> None <-> (n <= length Domains)%nat))) as Hrun.
  { revert Hret. unfold Prune. fold lim txTo step.
    set (dc := domain_calls step 0 txTo lim).
    set (ic := index_calls 0 txTo lim).
    set (apc := appendable_calls ac 0 txTo lim).
    assert (cs = dc ++ ic ++ apc) as Hplan by reflexivity.
    assert (length dc = length Domains) as Hdc
      by (unfold dc, domain_calls; apply length_fmap).
    destruct ((0 <? txTo) && (aggregationStep a =? 0)); [discriminate|].
    destruct ((0 =? txTo) || negb (CanPrune_agg a ac (store s) txTo)) eqn:Hearly.
    { intros [= <- <-]. exists 0%nat. cbn [snd take]. rewrite app_nil_r.
      split; [reflexivity|]. split; [reflexivity|]. split; [lia|].
      split; [intros i; lia|]. split; [|discriminate].
      intros _. left. split; [reflexivity|]. split; [reflexivity|].
      apply orb_true_iff in Hearly as [H|H].
      - left. apply Z.eqb_eq in H. lia.
      - right. apply negb_true_iff in H. exact H. }
    unfold bind, ret.
    destruct (prune_domains_run ac step 0 txTo lim Domains newAggregatorPruneStat s)
      as (n1 & H1).
    destruct (prune_domains ac step 0 txTo lim Domains newAggregatorPruneStat s)
      as [[aggStat e1] s1].
    assert (loop_run ac dc e1 s s1 n1) as R1 by exact H1. clear H1.
    destruct e1 as [e|].
    { intros [= <- <-]. cbn [snd].
      destruct R1 as (L & S & Le & B & _ & Bad).
      destruct (Bad e eq_refl) as [H1 Hlast].
      exists n1. rewrite Hplan, length_app, take_app_le by exact Le.
      split; [exact L|]. split; [exact S|]. split; [lia|].
      split; [intros i Hi; rewrite error_at_app_l by lia; apply B; exact Hi|].
      split; [discriminate|].
      intros e' [= <-]. split; [exact H1|].
      split; [rewrite error_at_app_l by lia; exact Hlast|].
      split; [intros _; lia|intros _; discriminate]. }
    destruct (prune_indices_run ac 0 txTo lim StandaloneIdx s1) as (n2 & H2).
    destruct (prune_indices ac 0 txTo lim StandaloneIdx s1) as [[stats e2] s2].
    assert (loop_run ac ic e2 s1 s2 n2) as R2 by exact H2. clear H2.
    pose proof (loop_run_app ac dc ic _ _ _ _ _ _ R1 R2) as R12.
    destruct e2 as [e|].
    { intros [= <- <-]. cbn [snd].
      destruct R2 as (_ & _ & _ & _ & _ & Bad2).
      destruct (Bad2 e eq_refl) as [Hn2 _].
      destruct R12 as (L & S & Le & B & _ & Bad).
      destruct (Bad e eq_refl) as [H1 Hlast].
      exists (length dc + n2)%nat.
      rewrite Hplan, app_assoc, length_app, take_app_le by exact Le.
      split; [exact L|]. split; [exact S|]. split; [lia|].
      split; [intros i Hi; rewrite error_at_app_l by lia; apply B; exact Hi|].
      split; [discriminate|].
      intros e' [= <-]. split; [exact H1|].
      split; [rewrite error_at_app_l by lia; exact Hlast|].
      split; [intros H; exfalso; apply H; reflexivity|lia]. }
    match goal with
    | |- context [prune_appendables 0 txTo lim 0 (appendable ac) ?ag s2] =>
        destruct (prune_appendables_run ac 0 txTo lim (appendable ac) 0%nat ag s2)
          as (n3 & H3); [intros j ap Hj; exact Hj|];
        destruct (prune_appendables 0 txTo lim 0 (appendable ac) ag s2)
          as [[aggStat' e3] s3]
    end.
    assert (loop_run ac apc e3 s2 s3 n3) as R3 by exact H3. clear H3.
    pose proof (loop_run_app ac (dc ++ ic) apc _ _ _ _ _ _ R12 R3) as R.
    rewrite <- app_assoc, <- Hplan in R.
    destruct R3 as (_ & _ & _ & _ & _ & Bad3).
    destruct R as (L & S & Le & B & Ok & Bad).
    destruct e3 as [e|]; intros [= <- <-]; cbn [snd];
      exists (length (dc ++ ic) + n3)%nat.
    - split; [exact L|]. split; [exact S|]. split; [exact Le|]. split; [exact B|].
      split; [discriminate|].
      intros e' [= <-]. destruct (Bad e eq_refl) as [H1 Hlast].
      destruct (Bad3 e eq_refl) as [Hn3 _].
      split; [exact H1|]. split; [exact Hlast|].
      split; [intros H; exfalso; apply H; reflexivity|].
      rewrite length_app. lia.
    - split; [exact L|]. split; [exact S|]. split; [exact Le|]. split; [exact B|].
      split; [|discriminate].
      intros _. right. split; [discriminate|]. apply Ok. reflexivity. }
  destruct Hrun as (n & L & S & Le & B & Ok & Bad).
  exists n. split; [exact L|]. split; [exact S|]. split; [exact Le|].
  split; [exact B|]. split; [exact Ok|]. split; [exact Bad|].
  intros i e Htx Hcan Hbefore Hi.
  destruct err as [e'|].
  - destruct (Bad e' eq_refl) as (H1 & Hlast & _).
    destruct (Nat.lt_trichotomy (n - 1) i) as [Hlt|[Heq|Hgt]].
    + rewrite (Hbefore _ Hlt) in Hlast. discriminate.
    + rewrite Heq, Hi in Hlast. injection Hlast as <-. split; [reflexivity|lia].
    + rewrite (B i) in Hi by lia. discriminate.
  - destruct (Ok eq_refl) as [(_ & _ & [H|H])|(_ & _ & Hall)].
    + contradiction.
    + congruence.
    + rewrite Hall in Hi. discriminate.
Qed.
(** Files up to txNum 200 and a Storage domain whose prune fails: the
    Accounts and the Storage domain are visited, nothing after them, and
    [Prune] returns the error of the Storage domain together with the
    statistic. *)
Lemma Prune_stops_at_first_failure_witness :
  let run := Prune MoreSamples.failing_prune_agg
               (BeginFilesRo MoreSamples.failing_prune_agg) 10 Samples.prune_store in
  exists stat,
    run.1 = Returns (Some stat, Some "mdbx: map full")
    /\ log run.2 = [DomainPrune AccountsDomain 1 0 200 10;
                    DomainPrune StorageDomain 1 0 200 10].
Proof.
  cbv zeta.
  destruct (Prune MoreSamples.failing_prune_agg
              (BeginFilesRo MoreSamples.failing_prune_agg) 10
              Samples.prune_store).1 as [[[stat|] [e|]]|msg] eqn:E;
    try (vm_compute in E; discriminate E).
  exists stat.
  destruct (Prune_stops_at_first_failure _ _ _ _ _ _ E)
    as (n & Hlog & _ & _ & _ & _ & _ & Hfirst).
  destruct (Hfirst 1%nat "mdbx: map full") as [He ->].
  - discriminate.
  - reflexivity.
  - intros j Hj. assert (j = 0%nat) as -> by lia. reflexivity.
  - reflexivity.
  - split; [rewrite He; reflexivity|]. rewrite Hlog. reflexivity.
Defined.
End PrunePlanFacts.
